(* ===== verification/_CoqProject ===== *)
-Q . S2P
Prelude.v
Outcome.v
Utils.v
External.v
Fs.v
Crash.v
MemTable.v
Wal.v
WalWriter.v
WalReader.v
StdVec.v
SstRecord.v
SstIndex.v
Bloom.v
Builder.v
Reader.v
Merge.v
Manifest.v
Names.v
KvSpec.v
Engine.v
Steady.v
EngineSpec.v
EngineGet.v
EnginePut.v
EngineFlush.v
EngineCommit.v
EngineCompact.v
EngineOpen.v
EngineRecover.v
EngineRefine.v
EngineDisk.v
CrashWrite.v
CrashFlush.v
CrashCompact.v
CrashOpen.v
CrashOps.v
CrashStore.v
Outage.v
Faults.v
FaultServe.v
FaultWrite.v
FaultFlush.v
FaultCompact.v
FaultStore.v
Threads.v
ThreadSolo.v
ThreadHeap.v
ThreadInv.v
ThreadDisk.v
ThreadCost.v
ThreadStep.v
ThreadFlush.v
ThreadCompact.v
ThreadWrite.v
ThreadSafe.v
ThreadCrash.v
ThreadOutage.v
EngineLive.v
EngineTheorems.v
CrashTheorems.v
ThreadTheorems.v
FaultTheorems.v
TestKit.v
CodecTests.v
LogTests.v
TableTests.v
EngineTests.v
ThreadKit.v
ThreadTests.v
IntegrationTests.v
