(* ===== verification/Prelude.v ===== *)
(** * rust-lsm-db: a verified model of the LSM storage engine

    The library models the storage engine under [src/src/] as pure functions
    and as state-passing computations over a model of the engine directory, and
    proves that an engine answers as a finite map from keys to values does,
    across rotations, flushes, compactions, clean restarts, kills in the middle of
    any system call, and power losses between requests; that it goes on, well
    formed, after any system calls that fail; and, as concurrent threads, that
    under any interleaving it is never stuck, keeps every answered write when
    the process is killed or the power fails, and answers each request as the
    map does at one moment of the call, but for a [get] that meets the
    overwriting of its key in the skip list.

    ** The program

    A write ([LsmEngine::put], [delete], in [src/src/engine.rs]) is appended to
    the current write-ahead log, synced when [sync_per_write] is set, and then
    applied to the active memtable.  A memtable that reaches the threshold is
    frozen together with its log's sequence number, and a new memtable and a new
    log take over.  [flush] and the background worker turn frozen memtables into
    sorted tables of level 0, oldest first; each commit rewrites the manifest
    through a temporary file and a rename, and the logs of the flushed
    generations are removed after it.  [compact] merges the tables of levels 0
    and 1 into one table of level 1 and drops tombstones.  [get] asks the active
    memtable, the frozen ones from the newest, and then the levels, and stops at
    the first entry it finds, a tombstone included.  Opening loads the manifest,
    replays the logs from the oldest, writes what it recovered to a new synced
    log and removes the old ones.

    ** Files

    Foundations
    - [Prelude]: machine widths, bytes, little-endian numbers, the order of
      keys, association lists, hint databases and tactics.
    - [Outcome] ([error.rs]): the error type, outcomes ([Ok], [Err], [Panic],
      [Halt]), checked [usize] arithmetic and slicing, the monad [M S A].
    - [Utils] ([utils/mod.rs]): readers and writers of fixed-width numbers.
    - [External]: what the source relies on of [crc32fast],
      [crossbeam_skiplist], [fastbloom] and the allocator, as classes; [Toy]
      has small concrete instances.
    - [Fs]: one directory with inodes, open handles, a durable prefix per file,
      buffered writers and a schedule of faults; [killed] and [power_loss].
    - [Crash]: the schedule that kills the process at a given system call, and
      the calculus for what holds of the directory at every such moment.
    - [StdVec]: the slice and vector methods of the standard library.

    Components
    - [MemTable] ([memtable/mod.rs]): entries, size estimate, iteration.
    - [Wal], [WalWriter], [WalReader] ([wal/]): the entry codec, the buffered
      log, and the scan that stops at a torn tail and reports corruption.
    - [SstRecord], [SstIndex], [Bloom], [Builder], [Reader] ([sstable/]): the
      table format, the streaming builder, and lookups and scans of a table.
    - [Merge] ([compaction/leveled.rs]): the k-way merge.
    - [Manifest] ([manifest.rs]): the catalogue of tables, its codec and its
      atomic replacement.
    - [Names] ([engine.rs]): file names and the log-name parser.

    The engine ([engine.rs])
    - [KvSpec]: the contracts of a key-value store: class [KvStore] for one
      that is opened and killed between operations, class [CrashStore] for one
      that may stop inside an operation, class [FaultyStore] for one that goes
      on after I/O errors; and what holds of a whole session against each
      interface.
    - [Engine]: the state and every operation.  [Arc]s are references into the
      heaps [mems] and [handles] of the engine, so that the active slot, the
      frozen list, a reader's snapshot and the lazily opened reader of a table
      share their objects.  [EngineState] is what the state lock protects,
      [ActiveWal] what the log lock protects; [poisoned] holds the locks a panic
      poisoned.
    - [EngineSpec]: [view], the map a client sees, and the invariant
      [engine_ok] that ties memtables to logs, handles to table files and the
      manifest to the levels.
    - [EngineGet], [EnginePut], [EngineFlush], [EngineCommit], [EngineCompact],
      [EngineOpen], [EngineRecover]: each operation keeps the invariant and
      changes the view as it should.  [disk_ok] and [disk_view] say what a
      directory holds before it is opened.
    - [EngineRefine]: the instance [engine_store] of [KvStore].
    - [Steady], [EngineDisk], [CrashWrite], [CrashFlush], [CrashCompact],
      [CrashOpen], [CrashOps]: what the directory holds at every moment of a
      write, a flush, a compaction and an opening, and the map that an opening
      recovers from it; [CrashStore]: the instance of the second contract.
    - [Outage]: with a sync per write every request leaves every byte of the
      directory synced ([dry]), and what a power loss leaves of such a directory.
    - [Faults]: the calculus of runs whose system calls may fail, with one
      post-condition for values and one for errors.  [FaultServe]: the invariant
      [serves] of an engine that has met errors, and its tables and reads under
      faults; [FaultWrite], [FaultFlush], [FaultCompact]: the other operations;
      [FaultStore]: the instance of the third contract.
    - [Threads]: the operations cut into the steps that other threads can see,
      with the two mutexes that are held across steps, the calls and the
      scheduler; [ThreadSolo]: a thread that is alone performs the operation of
      [Engine].
    - [ThreadHeap], [ThreadInv]: the invariant of a configuration: which
      reader handles are usable, what each thread relies on at its point, and
      the moment at which each call took effect.  [ThreadCost]: how many steps
      are left.  [ThreadStep], [ThreadFlush], [ThreadCompact], [ThreadWrite]:
      every step keeps the invariant and pays for itself; [ThreadSafe]: whole
      runs.  [ThreadDisk], [ThreadCrash]: which engine the directory belongs to
      while a flush or a compaction is half done, and what a kill at any system
      call of any step leaves of it.  [ThreadOutage]: every step keeps the engine
      dry.
    - [EngineLive]: how many notifications are pending whenever a memtable is
      frozen, and the worker that drains them.
    - [EngineTheorems], [CrashTheorems], [ThreadTheorems], [FaultTheorems]: the
      guarantees, with instances on a small engine, and the errors that the
      code mishandles.
    - [TestKit], [CodecTests], [LogTests], [TableTests], [EngineTests]: the unit
      tests of the crate, run on the model, or proved where they are too large
      to evaluate.  [ThreadKit], [ThreadTests], [IntegrationTests]: the unit
      tests and the integration tests ([src/tests/engine_integration.rs]) that
      race threads on one engine, for every interleaving.

    An operation of the source is a function of the same name.  Code that
    touches files or engine state is a computation in [M Fs A] or
    [M (Fs * LsmEngineInner) A]; pure code that can fail returns an [outcome].

    ** What is shown

    - Refinement: [session_refines], through [KvStore], and
      [session_survives_kill], through [CrashStore]: wherever the process is
      killed in a session of synced writes, the directory opens to the map after
      the answered requests, or after them and the one under way;
      [session_survives_outage]: a power loss after any session of synced writes
      takes nothing that was answered, if the names survive it.
    - Threads: [threads_answer], [threads_settle],
      [threads_read_written], [threads_return], for
      the worker and any number of clients; [threads_survive_kill], when the
      process is killed between two of their steps or inside one, and
      [threads_survive_outage], when the power fails between two.  The one race
      that is visible is stated in [threads_answer]: a [get] that asks the active
      memtable while the entry of its key is being replaced there misses both
      entries and answers from what lies beneath ([missed]);
      [overwriting_put_hides_key] is such a run.
    - The engine, operation by operation: [get_reads_view], [put_updates],
      [delete_hides], [oversized_write_refused], [flush_drains],
      [compact_merges], [background_transparent], [worker_catches_up].
    - A kill inside an operation: [stopped_put_is_atomic],
      [stopped_open_is_retried], [stopped_background_keeps_all],
      [stopped_flush_keeps_prefix].
    - Errors: [session_survives_errors], through [FaultyStore]: whatever system
      calls fail, no request panics, what is answered is right, and a request
      that reports an error has been carried out or not at all;
      [requests_keep_well_formed]: a request ends early only where the process
      dies at a pending [Stop], and leaves a well-formed engine otherwise.
    - Recovery: [open_recovers], [clean_restart], [killed_restart],
      [synced_put_survives]; for the logs [crash_recovers_prefix],
      [scan_classifies], [torn_entry_hides_rest], [synced_log_survives],
      [replay_last_write]; for the
      manifest [manifest_commit_atomic], under any fault at any system call and
      any power loss.
    - Round trips: log entries, table records, the index, the bloom block, whole
      tables ([table_roundtrip]), the manifest, file names.
    - Robustness: the decoders return a value or an error and never panic, on
      any bytes ([wal_decode_safe], [record_read_safe], [manifest_decode_safe],
      [reader_safe]).
    - Components against references: [memtable_history], [merge_correct],
      [locate_block_correct], [builder_accepts], [builder_refuses],
      [manifest_add_ordered], [manifest_remove_exact].
    - Divergences: [failed_open_sticks], and the runs
      [failed_manifest_write_resurrects], [failed_log_removal_resurrects],
      [failed_append_loses_writes] (of which [torn_entry_hides_rest] is the
      general reason) and [overwriting_put_hides_key].

    ** Conventions and bounds

    - The target is 64-bit Unix.  [u64] and [usize] are [Z]; the source's
      unchecked [+] panics on overflow, as in a debug build, and its checked and
      saturating forms are written out.  Sequence numbers have 64 bits, so
      theorems ask for the few an operation draws ([next_seq e < u64_max]).
    - A buffer read into memory has at most [isize_max] bytes ([files_fit]).  A
      table's records take at most 2^60 bytes ([small], [tables_small]), which
      keeps every offset and size computation of the builder in range.
    - Loops that are not structural take fuel: one more than the length of the
      buffer for the loops over logs, blocks, indexes and manifests, than the
      number of records for the merge, than the number of frozen memtables
      for the flush loop, and than the number of pending notifications for the
      background worker.  Running
      out of fuel is [Halt]; the theorems state an [Ok] or an [Err] result, so
      the fuel is proved to be enough.  [Halt] otherwise stands for a process
      that died in the middle of a system call.
    - Paths are relative to the engine directory, in messages too.
    - Every system call of the model consumes one element of [faults],
      [path.exists()] too, which reads an error as absence.  A seek
      and the entries of a directory listing do not fail by themselves; the
      calls around them do.
    - A schedule is a list of [action]s: a client calls, the worker is woken
      up, a thread runs to its next point.  [perform] executes one; the points
      are the lock operations, the draws of a number, the changes of files that
      other threads look up, and the reads and writes of a memtable or of the
      table of contents.  A skip list replaces an entry in two steps, the old one
      is unlinked and the new one linked; any other operation of it is one step.
      [state_lock] and the [RwLock] of the state are not points: no thread waits
      for another lock inside their sections, which are single steps.  [roomy]
      bounds the machine as above (sequence numbers, memory, table sizes, no
      faults); [work] bounds the steps that are left.
    - [arm n k] is the schedule that lets [n] system calls pass and kills the
      process inside the next one; for a write, after [k] bytes of it.
    - [killed] keeps every byte that was handed to the system and every change
      of the directory, synced or not, and loses the in-process buffers: it is
      the death of the process, not of the machine.  [power_loss] keeps of each
      file the synced prefix and any part of the rest; the source never syncs
      the directory itself, so theorems about it say which names survived.  A
      power loss in the middle of a request is shown for the manifest and the log
      alone.

    ** Not modelled

    - The tokio runtime and its channel: they are a count of pending
      notifications, and the worker runs one blocking task at a time, which is
      what its loop awaits.  Memory orderings weaker than sequential
      consistency do not matter: [next_seq] is [SeqCst], and the size counter of a memtable is only read by the holder
      of the log lock.
    - The fallback of the table reader on systems without positional reads.
    - Reopening after errors: [FaultyStore] is about the running engine.  What
      an error leaves on disk need not open to the same map:
      [failed_manifest_write_resurrects] and [failed_append_loses_writes] are
      directories that do not.
    - The benchmarks and the chart script; of the unit tests, two that measure
      the hash functions of [fastbloom].  The
      integration test of per-write syncs is run with 60 of its 500 keys.
    - The end of the background worker when the engine is dropped: a flush or a
      compaction that is running then is not interleaved with [drop_engine]. *)

From Stdlib Require Export ZArith Lia.
From Stdlib Require Export Strings.Byte.
From stdpp Require Export base tactics list gmap strings pretty sorting countable.
From stdpp Require Export list.

#[global] Open Scope Z_scope.
#[global] Set Default Goal Selector "!".

(** ** Machine widths

    The crate is built for a 64-bit target: [usize] and [u64] have the same
    range, and a Rust slice or [Vec] never holds more than [isize::MAX] bytes. *)

Definition u16_max : Z := 65535.
Definition u32_max : Z := 4294967295.
Definition u64_max : Z := 18446744073709551615.
Definition usize_max : Z := 18446744073709551615.
Definition isize_max : Z := 9223372036854775807.

(** ** Bytes

    [u8] is the standard library's 256-constructor type, so that no byte of a
    buffer needs a range hypothesis. *)

Abbreviation byte := Byte.byte.
Abbreviation bytes := (list Byte.byte).

Definition b2z (b : byte) : Z := Z.of_N (Byte.to_N b).

Definition z2b (z : Z) : byte := default x00 (Byte.of_N (Z.to_N (z mod 256))).

Lemma b2z_range b : 0 <= b2z b < 256.
Proof. destruct b; unfold b2z; simpl; lia. Qed.

Lemma z2b_b2z b : z2b (b2z b) = b.
Proof. by destruct b. Qed.

Lemma b2z_z2b z : b2z (z2b z) = z mod 256.
Proof.
  unfold z2b. pose proof (Z.mod_pos_bound z 256 ltac:(lia)) as Hr.
  destruct (Byte.of_N (Z.to_N (z mod 256))) as [b|] eqn:E; simpl.
  - apply Byte.to_of_N in E. unfold b2z. rewrite E. lia.
  - apply Byte.of_N_None_iff in E. lia.
Qed.

Lemma b2z_inj a b : b2z a = b2z b -> a = b.
Proof. intros H. by rewrite <- (z2b_b2z a), H, z2b_b2z. Qed.

#[export] Instance byte_eq_dec : EqDecision byte := Byte.byte_eq_dec.

#[export] Instance byte_countable : Countable byte.
Proof.
  apply (inj_countable Byte.to_N Byte.of_N).
  intros x. apply Byte.of_to_N.
Defined.

(** Lengths are [usize] values: [len] is the length as an integer. *)
Definition len {A} (l : list A) : Z := Z.of_nat (length l).

Lemma len_nonneg {A} (l : list A) : 0 <= len l.
Proof. unfold len. lia. Qed.

Lemma len_nil {A} : len (@nil A) = 0.
Proof. done. Qed.

Lemma len_cons {A} (x : A) l : len (x :: l) = 1 + len l.
Proof. unfold len. simpl length. lia. Qed.

Lemma len_app {A} (l k : list A) : len (l ++ k) = len l + len k.
Proof. unfold len. rewrite length_app. lia. Qed.

Lemma len_0_nil {A} (l : list A) : len l = 0 -> l = [].
Proof. unfold len. destruct l; simpl; [done | lia]. Qed.

Create HintDb lsm discriminated.
Create Rewrite HintDb len.
#[export] Hint Rewrite @len_nil @len_cons @len_app : len.

(** ** Little-endian integers *)

(** [le_bytes n z] is the [n]-byte little-endian image of [z], reduced to the
    width of the field the way an [as] cast does. *)
Fixpoint le_bytes (n : nat) (z : Z) : bytes :=
  match n with
  | O => []
  | S n => z2b z :: le_bytes n (z / 256)
  end.

Fixpoint le_val (bs : bytes) : Z :=
  match bs with
  | [] => 0
  | b :: bs => b2z b + 256 * le_val bs
  end.

Lemma length_le_bytes n z : length (le_bytes n z) = n.
Proof. revert z. induction n as [|n IH]; intros z; simpl; [done | by rewrite IH]. Qed.

Lemma len_le_bytes n z : len (le_bytes n z) = Z.of_nat n.
Proof. unfold len. by rewrite length_le_bytes. Qed.

#[export] Hint Rewrite len_le_bytes : len.

Lemma le_val_range bs : 0 <= le_val bs < 256 ^ len bs.
Proof.
  induction bs as [|b bs IH]; simpl; [done|].
  rewrite len_cons, Z.pow_add_r by (pose proof (len_nonneg bs); lia).
  pose proof (b2z_range b). lia.
Qed.

Lemma le_val_le_bytes n z : le_val (le_bytes n z) = z mod 256 ^ Z.of_nat n.
Proof.
  revert z. induction n as [|n IH]; intros z.
  - simpl. by rewrite Z.mod_1_r.
  - cbn [le_bytes le_val]. rewrite IH, b2z_z2b.
    rewrite Nat2Z.inj_succ, Z.pow_succ_r by lia.
    rewrite (Z.rem_mul_r z 256 (256 ^ Z.of_nat n)) by lia. lia.
Qed.

Lemma le_bytes_le_val bs : le_bytes (length bs) (le_val bs) = bs.
Proof.
  induction bs as [|b bs IH]; simpl; [done|].
  pose proof (b2z_range b) as Hb. f_equal.
  - apply b2z_inj. rewrite b2z_z2b.
    rewrite (Z.mul_comm 256), Z.mod_add by lia. by apply Z.mod_small.
  - rewrite (Z.mul_comm 256), Z.div_add by lia.
    rewrite (Z.div_small (b2z b)) by lia. by rewrite Z.add_0_l.
Qed.

Lemma le_bytes_val_eq n bs : len bs = Z.of_nat n -> le_bytes n (le_val bs) = bs.
Proof. intros H. unfold len in H. replace n with (length bs) by lia. apply le_bytes_le_val. Qed.

#[global] Opaque le_bytes le_val.
Arguments len {A} l : simpl never.

(** ** The order of keys: lexicographic order of byte slices *)

Fixpoint bytes_cmp (x y : bytes) : comparison :=
  match x, y with
  | [], [] => Eq
  | [], _ :: _ => Lt
  | _ :: _, [] => Gt
  | a :: x, b :: y =>
      match b2z a ?= b2z b with
      | Eq => bytes_cmp x y
      | c => c
      end
  end.

Definition key_lt (x y : bytes) : Prop := bytes_cmp x y = Lt.

Definition key_ltb (x y : bytes) : bool :=
  match bytes_cmp x y with Lt => true | _ => false end.

Definition key_leb (x y : bytes) : bool :=
  match bytes_cmp x y with Gt => false | _ => true end.

Lemma bytes_cmp_refl x : bytes_cmp x x = Eq.
Proof. induction x as [|a x IH]; simpl; [done|]. by rewrite Z.compare_refl. Qed.

Lemma bytes_cmp_eq x y : bytes_cmp x y = Eq <-> x = y.
Proof.
  split; [|intros ->; apply bytes_cmp_refl].
  revert y. induction x as [|a x IH]; intros [|b y]; simpl; try done.
  destruct (b2z a ?= b2z b) eqn:E; try done.
  apply Z.compare_eq in E. intros H. f_equal; [by apply b2z_inj | by apply IH].
Qed.

Lemma bytes_cmp_antisym x y : bytes_cmp y x = CompOpp (bytes_cmp x y).
Proof.
  revert y. induction x as [|a x IH]; intros [|b y]; simpl; try done.
  rewrite (Z.compare_antisym (b2z a) (b2z b)).
  destruct (b2z a ?= b2z b); simpl; [apply IH | done..].
Qed.

Lemma bytes_cmp_trans x y z : bytes_cmp x y = Lt -> bytes_cmp y z = Lt -> bytes_cmp x z = Lt.
Proof.
  revert y z. induction x as [|a x IH]; intros [|b y] [|c z]; simpl; try done.
  destruct (Z.compare_spec (b2z a) (b2z b)) as [E1|E1|E1];
    destruct (Z.compare_spec (b2z b) (b2z c)) as [E2|E2|E2]; try done;
    intros H1 H2; destruct (Z.compare_spec (b2z a) (b2z c)); try done; try lia.
  by eapply IH.
Qed.

#[export] Instance key_lt_dec : RelDecision key_lt.
Proof. intros x y. unfold key_lt. apply _. Defined.

#[export] Instance key_lt_strict : StrictOrder key_lt.
Proof.
  split.
  - intros x H. unfold key_lt in H. by rewrite bytes_cmp_refl in H.
  - intros x y z. apply bytes_cmp_trans.
Qed.

Lemma key_lt_trans x y z : key_lt x y -> key_lt y z -> key_lt x z.
Proof. apply bytes_cmp_trans. Qed.

Lemma key_lt_irrefl x : ~ key_lt x x.
Proof. unfold key_lt. by rewrite bytes_cmp_refl. Qed.

Lemma key_lt_ne x y : key_lt x y -> x <> y.
Proof. intros H ->. by apply key_lt_irrefl in H. Qed.

Lemma key_cmp_gt x y : bytes_cmp x y = Gt <-> key_lt y x.
Proof.
  unfold key_lt. rewrite (bytes_cmp_antisym x y).
  destruct (bytes_cmp x y); simpl; done.
Qed.

Lemma key_trichotomy x y : key_lt x y \/ x = y \/ key_lt y x.
Proof.
  destruct (bytes_cmp x y) eqn:E.
  - right; left. by apply bytes_cmp_eq.
  - by left.
  - right; right. by apply key_cmp_gt.
Qed.

Lemma key_ltb_lt x y : key_ltb x y = true <-> key_lt x y.
Proof. unfold key_ltb, key_lt. by destruct (bytes_cmp x y). Qed.

Lemma key_leb_le x y : key_leb x y = true <-> ~ key_lt y x.
Proof.
  unfold key_leb. rewrite <- key_cmp_gt. by destruct (bytes_cmp x y).
Qed.

Lemma key_leb_false x y : key_leb x y = false <-> key_lt y x.
Proof. unfold key_leb. rewrite <- key_cmp_gt. by destruct (bytes_cmp x y). Qed.

Lemma key_ltb_false x y : key_ltb x y = false <-> ~ key_lt x y.
Proof. unfold key_ltb, key_lt. by destruct (bytes_cmp x y). Qed.

Lemma key_le_lt_trans x y z : ~ key_lt y x -> key_lt y z -> key_lt x z.
Proof.
  intros H1 H2. destruct (key_trichotomy x y) as [H|[->|H]]; [by eapply key_lt_trans|done..].
Qed.

Lemma key_lt_le_trans x y z : key_lt x y -> ~ key_lt z y -> key_lt x z.
Proof.
  intros H1 H2. destruct (key_trichotomy y z) as [H|[<-|H]]; [by eapply key_lt_trans|done..].
Qed.

#[export] Hint Resolve key_lt_trans key_lt_irrefl : lsm.

Lemma StronglySorted_impl {A} (R R' : A -> A -> Prop) l :
  (forall x y, R x y -> R' x y) -> StronglySorted R l -> StronglySorted R' l.
Proof.
  intros HR. induction 1 as [|x l Hl IH Hx]; constructor; [done|].
  eapply Forall_impl; [exact Hx|]. auto.
Qed.

(** ** Association lists sorted by key *)

Section assoc.
Context {A : Type}.
Implicit Types (l : list (bytes * A)) (k : bytes).

(** First binding of a key. *)
Fixpoint assoc (k : bytes) (l : list (bytes * A)) : option A :=
  match l with
  | [] => None
  | (k', a) :: l => if decide (k' = k) then Some a else assoc k l
  end.

(** Strictly ascending, hence unique, keys. *)
Definition keys_sorted (l : list (bytes * A)) : Prop := StronglySorted key_lt (l.*1).

Lemma assoc_elem_of k a l : assoc k l = Some a -> (k, a) ∈ l.
Proof.
  induction l as [|[k' a'] l IH]; simpl; [done|].
  case_decide; intros; simplify_eq; [apply list_elem_of_here | apply list_elem_of_further; auto].
Qed.

Lemma assoc_None k l : assoc k l = None <-> k ∉ l.*1.
Proof.
  induction l as [|[k' a'] l IH]; simpl.
  - split; [intros _; apply not_elem_of_nil | done].
  - case_decide as H; rewrite not_elem_of_cons; [naive_solver|].
    rewrite IH. naive_solver.
Qed.

Lemma keys_sorted_nil : keys_sorted [].
Proof. constructor. Qed.

Lemma keys_sorted_cons k a l :
  keys_sorted ((k, a) :: l) <-> keys_sorted l /\ Forall (fun e => key_lt k e.1) l.
Proof.
  unfold keys_sorted. simpl. split.
  - intros H. apply StronglySorted_inv in H as [H1 H2]. by rewrite Forall_fmap in H2.
  - intros [H1 H2]. constructor; [done | by rewrite Forall_fmap].
Qed.

Lemma keys_sorted_app l1 l2 :
  keys_sorted (l1 ++ l2) <->
  keys_sorted l1 /\ keys_sorted l2 /\ forall x y, x ∈ l1 -> y ∈ l2 -> key_lt x.1 y.1.
Proof.
  induction l1 as [|[k a] l1 IH]; simpl.
  - split; [intros H; split_and!; [apply keys_sorted_nil|done|] | by intros (_&?&_)].
    intros x y Hx. by apply not_elem_of_nil in Hx.
  - rewrite !keys_sorted_cons, IH, Forall_app, !Forall_forall. split.
    + intros ((H1&H2&H3)&H4&H5). split_and!; try done.
      intros x y [->|Hx]%elem_of_cons Hy; [by apply H5 | by apply H3].
    + intros ((H1&H2)&H3&H4). split_and!; try done.
      * intros x y Hx Hy. apply H4; [by apply list_elem_of_further | done].
      * intros y Hy. apply (H4 (k, a)); [apply list_elem_of_here | done].
Qed.

Lemma elem_of_assoc k a l : keys_sorted l -> (k, a) ∈ l -> assoc k l = Some a.
Proof.
  induction l as [|[k' a'] l IH]; [by intros _ ?%not_elem_of_nil|].
  rewrite keys_sorted_cons. intros [Hs Hk] [?|Hin]%elem_of_cons; simplify_eq/=.
  - by rewrite decide_True.
  - rewrite decide_False; [by apply IH|].
    rewrite Forall_forall in Hk. specialize (Hk _ Hin). simpl in Hk.
    by apply key_lt_ne.
Qed.

Lemma assoc_iff k a l : keys_sorted l -> assoc k l = Some a <-> (k, a) ∈ l.
Proof. intros Hs. split; [apply assoc_elem_of | by apply elem_of_assoc]. Qed.

Lemma assoc_app k l1 l2 :
  assoc k (l1 ++ l2) = match assoc k l1 with Some a => Some a | None => assoc k l2 end.
Proof. induction l1 as [|[k' a'] l1 IH]; simpl; [done|]. by case_decide. Qed.

(** A key below every key of the list has no binding. *)
Lemma assoc_below k l : Forall (fun e => key_lt k e.1) l -> assoc k l = None.
Proof.
  induction 1 as [|[k' a] l H _ IH]; simpl in *; [done|].
  rewrite decide_False; [done|]. by apply not_eq_sym, key_lt_ne.
Qed.

Lemma assoc_above k l : Forall (fun e => key_lt e.1 k) l -> assoc k l = None.
Proof.
  induction 1 as [|[k' a] l H _ IH]; simpl in *; [done|].
  rewrite decide_False; [done|]. by apply key_lt_ne.
Qed.

(** Two sorted lists with the same bindings are equal. *)
Lemma keys_sorted_ext l1 l2 :
  keys_sorted l1 -> keys_sorted l2 -> (forall k, assoc k l1 = assoc k l2) -> l1 = l2.
Proof.
  revert l2. induction l1 as [|[k1 a1] l1 IH]; intros [|[k2 a2] l2]; try done.
  - intros _ _ H. specialize (H k2). simpl in H. by rewrite decide_True in H.
  - intros _ _ H. specialize (H k1). simpl in H. by rewrite decide_True in H.
  - rewrite !keys_sorted_cons. intros [Hs1 Hk1] [Hs2 Hk2] H.
    assert (k1 = k2) as <-.
    { destruct (key_trichotomy k1 k2) as [Hlt|[?|Hlt]]; [exfalso|done|exfalso].
      - specialize (H k1). simpl in H. rewrite decide_True in H by done.
        rewrite decide_False in H by (by apply not_eq_sym, key_lt_ne).
        rewrite assoc_below in H; [done|].
        eapply Forall_impl; [exact Hk2|]. intros e He. by eapply key_lt_trans.
      - specialize (H k2). simpl in H. rewrite (decide_True (P:=k2 = k2)) in H by done.
        rewrite decide_False in H by (by apply not_eq_sym, key_lt_ne).
        rewrite assoc_below in H; [done|].
        eapply Forall_impl; [exact Hk1|]. intros e He. by eapply key_lt_trans. }
    pose proof (H k1) as Ha. simpl in Ha. rewrite !decide_True in Ha by done. simplify_eq.
    f_equal. apply IH; [done..|]. intros k. specialize (H k). simpl in H.
    case_decide as Hk; [|done]. subst. by rewrite !assoc_below.
Qed.
End assoc.

Arguments keys_sorted {A} l : simpl never.

(** ** Sub-slices of a byte buffer *)

(** The bytes [a .. b) of [bs]; callers check the bounds, as slicing does. *)
Definition subslice {A} (bs : list A) (a b : Z) : list A :=
  take (Z.to_nat (b - a)) (drop (Z.to_nat a) bs).

Lemma take_len_app {A} (p q : list A) a : a = len p -> take (Z.to_nat a) (p ++ q) = p.
Proof. intros ->. unfold len. by rewrite Nat2Z.id, take_app_length. Qed.

Lemma drop_len_app {A} (p q : list A) a : a = len p -> drop (Z.to_nat a) (p ++ q) = q.
Proof. intros ->. unfold len. by rewrite Nat2Z.id, drop_app_length. Qed.

Lemma subslice_app_mid {A} (p m q : list A) a b :
  a = len p -> b = len p + len m -> subslice (p ++ m ++ q) a b = m.
Proof.
  intros Ha ->. unfold subslice. rewrite drop_len_app by done. apply take_len_app. lia.
Qed.

Lemma subslice_full {A} (m : list A) b : b = len m -> subslice m 0 b = m.
Proof.
  intros ->. unfold subslice, len. simpl. rewrite Z.sub_0_r, Nat2Z.id. apply firstn_all.
Qed.

Lemma len_subslice {A} (bs : list A) a b :
  0 <= a -> a <= b -> b <= len bs -> len (subslice bs a b) = b - a.
Proof. unfold subslice, len. intros. rewrite length_take, length_drop. lia. Qed.

(** Every buffer splits around an in-range sub-slice. *)
Lemma subslice_split {A} (bs : list A) a b :
  0 <= a -> a <= b -> b <= len bs ->
  exists p q, bs = p ++ subslice bs a b ++ q /\ len p = a.
Proof.
  unfold subslice, len. intros Ha Hab Hb.
  exists (take (Z.to_nat a) bs), (drop (Z.to_nat (b - a)) (drop (Z.to_nat a) bs)).
  rewrite !take_drop. split; [done|]. rewrite length_take. lia.
Qed.

Lemma split_at_len {A} (bs : list A) a :
  0 <= a <= len bs -> exists p q, bs = p ++ q /\ len p = a.
Proof.
  intros H. exists (take (Z.to_nat a) bs), (drop (Z.to_nat a) bs).
  rewrite take_drop. split; [done|]. unfold len in *. rewrite length_take. lia.
Qed.

Arguments subslice {A} bs a b : simpl never.

(** Closes side conditions about lengths. *)
Ltac len_simpl := autorewrite with len in *.
Ltac len_solve :=
  autorewrite with len in *;
  repeat match goal with
    | |- context [len ?l] => lazymatch goal with H : 0 <= len l |- _ => fail | _ => pose proof (len_nonneg l) end
    | H : context [len ?l] |- _ => lazymatch goal with H : 0 <= len l |- _ => fail | _ => pose proof (len_nonneg l) end
    end; lia.

(** Closes [bs = p ++ m ++ q] from the equation [H] of [bs] with its segments. *)
Ltac assoc_refl := cbn [app]; repeat (rewrite <- app_assoc; cbn [app]); reflexivity.
Ltac segs H := rewrite H; assoc_refl.
