(* ===== verification/Outcome.v ===== *)
(** * Errors and effects ([src/src/error.rs])

    [LsmError] and its [Display] text, the outcome of a Rust computation
    (a value, an [Err], a panic, or a process that died in the middle), the
    checked [usize] arithmetic and slicing of the source, and the
    state-passing monad of the code that touches files or engine state. *)

From S2P Require Import Prelude.

(** ** [LsmError] *)

(** [std::io::Error], by kind. *)
Inductive IoError :=
  | NotFound
  | UnexpectedEof
  | OtherIo.

Inductive LsmError :=
  | Io (e : IoError)
  | Corruption (msg : string)
  | KeyTooLarge (got max : Z)
  | ValueTooLarge (got max : Z)
  | InvalidOp (msg : string).

#[export] Instance IoError_eq_dec : EqDecision IoError.
Proof. solve_decision. Defined.
#[export] Instance LsmError_eq_dec : EqDecision LsmError.
Proof. solve_decision. Defined.

Definition io_to_string (e : IoError) : string :=
  match e with
  | NotFound => "No such file or directory (os error 2)"
  | UnexpectedEof => "failed to fill whole buffer"
  | OtherIo => "Input/output error (os error 5)"
  end.

(** The [#[error(..)]] attributes of the enum. *)
Definition error_to_string (e : LsmError) : string :=
  match e with
  | Io e => "I/O error: " +:+ io_to_string e
  | Corruption m => "corrupted data: " +:+ m
  | KeyTooLarge n m => "key length " +:+ pretty n +:+ " exceeds maximum " +:+ pretty m
  | ValueTooLarge n m => "value length " +:+ pretty n +:+ " exceeds maximum " +:+ pretty m
  | InvalidOp m => "invalid operation: " +:+ m
  end.

(** A [{:?}] of a path: the text between double quotes. *)
Definition quoted (s : string) : string :=
  let q := Ascii.ascii_of_nat 34 in String q (s +:+ String q EmptyString).

(** ** Outcomes

    [Panic] is a failed [expect], an index or slice out of bounds, or an
    arithmetic overflow (a panic with overflow checks on; no result is
    claimed for builds that wrap).  [Halt] is the process dying before the
    computation ends. *)
Inductive outcome (A : Type) :=
  | Ok (a : A)
  | Err (e : LsmError)
  | Panic
  | Halt.
Arguments Ok {A} a.
Arguments Err {A} e.
Arguments Panic {A}.
Arguments Halt {A}.

#[export] Instance outcome_ret : MRet outcome := @Ok.
#[export] Instance outcome_bind : MBind outcome := fun A B f m =>
  match m with
  | Ok a => f a
  | Err e => Err e
  | Panic => Panic
  | Halt => Halt
  end.

#[export] Instance outcome_eq_dec `{EqDecision A} : EqDecision (outcome A).
Proof. solve_decision. Defined.

Lemma outcome_bind_ok {A B} (a : A) (f : A -> outcome B) : (Ok a ≫= f) = f a.
Proof. done. Qed.

Lemma outcome_bind_inv {A B} (m : outcome A) (f : A -> outcome B) b :
  (m ≫= f) = Ok b -> exists a, m = Ok a /\ f a = Ok b.
Proof. destruct m; naive_solver. Qed.

(** A computation on untrusted input is [safe] when it ends in a value or a
    reported error. *)
Definition safe {A} (m : outcome A) : Prop :=
  match m with Ok _ | Err _ => True | Panic | Halt => False end.

(** [safe] and every value satisfies [Q]: the post-condition calculus of the
    pure code. *)
Definition ends {A} (m : outcome A) (Q : A -> Prop) : Prop :=
  match m with Ok a => Q a | Err _ => True | Panic | Halt => False end.

Lemma ends_safe {A} (m : outcome A) Q : ends m Q -> safe m.
Proof. by destruct m. Qed.

Lemma safe_ends {A} (m : outcome A) : safe m -> ends m (fun _ => True).
Proof. by destruct m. Qed.

Lemma ends_bind {A B} (m : outcome A) (f : A -> outcome B) P Q :
  ends m P -> (forall a, P a -> ends (f a) Q) -> ends (m ≫= f) Q.
Proof. destruct m; simpl; naive_solver. Qed.

Lemma ends_mono {A} (m : outcome A) (P Q : A -> Prop) :
  ends m P -> (forall a, P a -> Q a) -> ends m Q.
Proof. destruct m; simpl; naive_solver. Qed.

(** ** Checked [usize] arithmetic, indexing and slicing *)

Definition uadd (a b : Z) : outcome Z :=
  if a + b <=? usize_max then Ok (a + b) else Panic.

Definition usub (a b : Z) : outcome Z :=
  if b <=? a then Ok (a - b) else Panic.

(** [bytes[i]] *)
Definition index {A} (l : list A) (i : Z) : outcome A :=
  if 0 <=? i then
    match l !! Z.to_nat i with Some x => Ok x | None => Panic end
  else Panic.

(** [bytes[a..b]] *)
Definition slice {A} (l : list A) (a b : Z) : outcome (list A) :=
  if (0 <=? a) && (a <=? b) && (b <=? len l) then Ok (subslice l a b) else Panic.

(** [offset.checked_add(size)] on [usize] or [u64]. *)
Definition checked_add (a b : Z) : option Z :=
  if a + b <=? usize_max then Some (a + b) else None.

(** [vec![0u8; n]]: more than [isize::MAX] bytes is a capacity overflow. *)
Definition vec_zeroed (n : Z) : outcome unit :=
  if n <=? isize_max then Ok tt else Panic.

Lemma vec_zeroed_ok n : n <= isize_max -> vec_zeroed n = Ok tt.
Proof. intros H. unfold vec_zeroed. by rewrite (proj2 (Z.leb_le _ _) H). Qed.

Lemma uadd_ok a b : a + b <= usize_max -> uadd a b = Ok (a + b).
Proof. intros H. unfold uadd. by rewrite (proj2 (Z.leb_le _ _) H). Qed.

Lemma usub_ok a b : b <= a -> usub a b = Ok (a - b).
Proof. intros H. unfold usub. by rewrite (proj2 (Z.leb_le _ _) H). Qed.

Lemma slice_ok {A} (l : list A) a b :
  0 <= a -> a <= b -> b <= len l -> slice l a b = Ok (subslice l a b).
Proof.
  intros. unfold slice.
  by rewrite !(proj2 (Z.leb_le _ _)) by done.
Qed.

Lemma slice_app_mid {A} (p m q : list A) a b :
  a = len p -> b = len p + len m -> slice (p ++ m ++ q) a b = Ok m.
Proof.
  intros Ha Hb. rewrite slice_ok; [by rewrite (subslice_app_mid p m q)|..]; len_solve.
Qed.

Lemma slice_app_end {A} (p m : list A) a b :
  a = len p -> b = len p + len m -> slice (p ++ m) a b = Ok m.
Proof. intros Ha Hb. rewrite <- (app_nil_r (p ++ m)), <- app_assoc. by apply slice_app_mid. Qed.

(** The same with the decomposition of the buffer as an equation. *)
Lemma slice_at {A} (l : list A) p m q a b :
  l = p ++ m ++ q -> a = len p -> b = len p + len m -> slice l a b = Ok m.
Proof. intros ->. apply slice_app_mid. Qed.

Lemma slice_inv {A} (l : list A) a b s :
  slice l a b = Ok s ->
  exists p q, l = p ++ s ++ q /\ len p = a /\ len s = b - a /\ a <= b.
Proof.
  unfold slice. destruct (_ && _) eqn:E; [|done]. intros [= <-].
  rewrite !andb_true_iff, !Z.leb_le in E. destruct E as [[Ea Eab] Eb].
  destruct (subslice_split l a b) as (p & q & Hl & Hp); try lia.
  exists p, q. split_and!; try done. by apply len_subslice.
Qed.

Lemma index_app_mid {A} (p : list A) x q i : i = len p -> index (p ++ x :: q) i = Ok x.
Proof.
  intros ->. unfold index, len. rewrite (proj2 (Z.leb_le _ _)) by lia.
  rewrite Nat2Z.id, list_lookup_middle; done.
Qed.

Lemma index_at {A} (l : list A) p x q i : l = p ++ x :: q -> i = len p -> index l i = Ok x.
Proof. intros ->. apply index_app_mid. Qed.

Lemma index_ok {A} (l : list A) i : 0 <= i < len l -> exists x, index l i = Ok x.
Proof.
  intros H. unfold index, len in *. rewrite (proj2 (Z.leb_le _ _)) by lia.
  destruct (lookup_lt_is_Some_2 l (Z.to_nat i)) as [x Hx]; [lia|].
  exists x. by rewrite Hx.
Qed.

(** ** The state monad of the effectful code *)

Definition M (S A : Type) : Type := S -> outcome A * S.

#[export] Instance M_ret {S} : MRet (M S) := fun A a s => (Ok a, s).
#[export] Instance M_bind {S} : MBind (M S) := fun A B f m s =>
  match m s with
  | (Ok a, s) => f a s
  | (Err e, s) => (Err e, s)
  | (Panic, s) => (Panic, s)
  | (Halt, s) => (Halt, s)
  end.

Section monad.
Context {S : Type}.

Definition lift {A} (o : outcome A) : M S A := fun s => (o, s).
Definition fail {A} (e : LsmError) : M S A := fun s => (Err e, s).
Definition panic {A} : M S A := fun s => (Panic, s).
Definition get_st : M S S := fun s => (Ok s, s).
Definition gets {A} (f : S -> A) : M S A := fun s => (Ok (f s), s).
Definition modify (f : S -> S) : M S unit := fun s => (Ok tt, f s).

(** Runs on a part of the state. *)
Definition zoom {T A} (get : S -> T) (set : T -> S -> S) (m : M T A) : M S A := fun s =>
  let (o, t) := m (get s) in (o, set t s).

(** A [Result] taken as a value instead of propagated by [?]. *)
Definition try_ {A} (m : M S A) : M S (LsmError + A) := fun s =>
  match m s with
  | (Ok a, s) => (Ok (inr a), s)
  | (Err e, s) => (Ok (inl e), s)
  | (Panic, s) => (Panic, s)
  | (Halt, s) => (Halt, s)
  end.

(** [result?] *)
Definition question {A} (r : LsmError + A) : M S A :=
  match r with inl e => fail e | inr a => mret a end.

(** [let _ = m;]: the result is discarded. *)
Definition ignore {A} (m : M S A) : M S unit := try_ m ≫= fun _ => mret tt.

(** A value [w] owned by the scope of [body]; its destructor [dtor] runs when
    the scope ends with a value, an error or a panic, not when the process
    dies. *)
Definition scoped {W A} (w : W) (body : M (S * W) A) (dtor : M (S * W) unit) : M S A := fun s =>
  match body (s, w) with
  | (Halt, (s, _)) => (Halt, s)
  | (o, sw) =>
      match dtor sw with
      | (Halt, (s, _)) => (Halt, s)
      | (Panic, (s, _)) => (Panic, s)
      | (_, (s, _)) => (o, s)
      end
  end.

(** The same for a value that [body] hands over on success: the destructor
    runs on the error and panic paths only. *)
Definition moved {W A} (w : W) (body : M (S * W) A) (dtor : M (S * W) unit) : M S (A * W) := fun s =>
  let unwind sw (o : outcome (A * W)) :=
    match dtor sw with
    | (Halt, (s, _)) => (Halt, s)
    | (Panic, (s, _)) => (Panic, s)
    | (_, (s, _)) => (o, s)
    end in
  match body (s, w) with
  | (Ok a, (s, w)) => (Ok (a, w), s)
  | (Err e, sw) => unwind sw (Err e)
  | (Panic, sw) => unwind sw Panic
  | (Halt, (s, _)) => (Halt, s)
  end.

(** A mutex guard: [body] runs with the lock, a panic poisons it. *)
Definition guarded {A} (poison : S -> S) (body : M S A) : M S A := fun s =>
  match body s with
  | (Panic, s) => (Panic, poison s)
  | r => r
  end.

(** [spawn_blocking(..).await] with the result discarded: a panic of the task
    is caught. *)
Definition catch_unwind {A} (m : M S A) : M S unit := fun s =>
  match m s with
  | (Halt, s) => (Halt, s)
  | (_, s) => (Ok tt, s)
  end.

Fixpoint for_each {A} (l : list A) (f : A -> M S unit) : M S unit :=
  match l with
  | [] => mret tt
  | x :: l => f x ≫= fun _ => for_each l f
  end.

Fixpoint map_each {A B} (l : list A) (f : A -> M S B) : M S (list B) :=
  match l with
  | [] => mret []
  | x :: l => f x ≫= fun y => map_each l f ≫= fun ys => mret (y :: ys)
  end.
End monad.

Lemma M_bind_ok {S A B} (m : M S A) (f : A -> M S B) s a s' :
  m s = (Ok a, s') -> (m ≫= f) s = f a s'.
Proof. unfold mbind, M_bind. by intros ->. Qed.

Lemma M_bind_err {S A B} (m : M S A) (f : A -> M S B) s e s' :
  m s = (Err e, s') -> (m ≫= f) s = (Err e, s').
Proof. unfold mbind, M_bind. by intros ->. Qed.

Lemma M_bind_panic {S A B} (m : M S A) (f : A -> M S B) s s' :
  m s = (Panic, s') -> (m ≫= f) s = (Panic, s').
Proof. unfold mbind, M_bind. by intros ->. Qed.

Lemma M_bind_halt {S A B} (m : M S A) (f : A -> M S B) s s' :
  m s = (Halt, s') -> (m ≫= f) s = (Halt, s').
Proof. unfold mbind, M_bind. by intros ->. Qed.

Lemma M_bind_assoc {S A B C} (m : M S A) (f : A -> M S B) (g : B -> M S C) s :
  ((m ≫= f) ≫= g) s = (m ≫= fun a => f a ≫= g) s.
Proof. unfold mbind, M_bind. by destruct (m s) as [[] ?]. Qed.

Lemma lift_bind_ok {S A B} (o : outcome A) (f : A -> M S B) s a :
  o = Ok a -> (lift o ≫= f) s = f a s.
Proof. by intros ->. Qed.

Lemma zoom_eq {S T A} (get : S -> T) (set : T -> S -> S) (m : M T A) s o t :
  m (get s) = (o, t) -> zoom get set m s = (o, set t s).
Proof. unfold zoom. by intros ->. Qed.

Lemma try_ok {S A} (m : M S A) s a s' : m s = (Ok a, s') -> try_ m s = (Ok (inr a), s').
Proof. unfold try_. by intros ->. Qed.

Lemma ignore_ok {S A} (m : M S A) s a s' : m s = (Ok a, s') -> ignore m s = (Ok tt, s').
Proof. intros H. unfold ignore. by erewrite M_bind_ok by (by apply try_ok). Qed.

Lemma ignore_err {S A} (m : M S A) s e s' : m s = (Err e, s') -> ignore m s = (Ok tt, s').
Proof. intros H. unfold ignore, mbind, M_bind, try_. by rewrite H. Qed.

(** A run that leaves the state as it is and ends in a reported error or in a
    value with [Q]. *)
Definition observes {S A} (m : M S A) (s : S) (Q : A -> Prop) : Prop :=
  exists o, m s = (o, s) /\ ends o Q.

Lemma observes_bind {S A B} (m : M S A) (f : A -> M S B) s P Q :
  observes m s P -> (forall a, P a -> observes (f a) s Q) -> observes (m ≫= f) s Q.
Proof.
  intros (o & Hm & Ho) Hf. destruct o as [a|e| |]; try done.
  - destruct (Hf a Ho) as (o' & H1 & H2). exists o'. by rewrite (M_bind_ok _ _ _ _ _ Hm).
  - exists (Err e). by rewrite (M_bind_err _ _ _ _ _ Hm).
Qed.

Lemma observes_lift {S A} (o : outcome A) (s : S) (Q : A -> Prop) :
  ends o Q -> observes (lift o) s Q.
Proof. by exists o. Qed.

Lemma observes_ret {S A} (a : A) (s : S) (Q : A -> Prop) : Q a -> observes (mret a) s Q.
Proof. by exists (Ok a). Qed.

Lemma observes_fail {S A} e (s : S) (Q : A -> Prop) : observes (fail e) s Q.
Proof. by exists (Err e). Qed.

#[export] Hint Resolve observes_lift observes_ret observes_fail : lsm.

(** [run_ok H] rewrites the first action of the goal's sequence with the
    equation [H] of its successful run. *)
Ltac run_ok H := erewrite M_bind_ok by (exact H || (eapply H; eauto)).

(** The same for a first action that does not succeed. *)
Ltac run_stop H :=
  first [rewrite (M_bind_err _ _ _ _ _ H) | rewrite (M_bind_panic _ _ _ _ H)
        | rewrite (M_bind_halt _ _ _ _ H)].

(** Performs the first action of a sequence when it computes. *)
Ltac mstep := erewrite M_bind_ok by reflexivity; cbn beta.
