(* ===== verification/Utils.v ===== *)
(** * Little-endian primitives over byte buffers ([src/src/utils/mod.rs]) *)

From S2P Require Import Prelude Outcome.

(** ** Definitions

    The writers append to a [Vec<u8>], here the returned buffer; the readers
    are bounds-checked. *)

Definition put_u16 (buf : bytes) (v : Z) : bytes := buf ++ le_bytes 2 v.
Definition put_u32 (buf : bytes) (v : Z) : bytes := buf ++ le_bytes 4 v.
Definition put_u64 (buf : bytes) (v : Z) : bytes := buf ++ le_bytes 8 v.

Definition read_exact (bs : bytes) (offset size : Z) : outcome bytes :=
  match checked_add offset size with
  | None =>
      Err (Corruption ("read of " +:+ pretty size +:+
        " bytes overflows usize at offset " +:+ pretty offset))
  | Some end_ =>
      if len bs <? end_ then
        Err (Corruption ("read of " +:+ pretty size +:+ " bytes at offset " +:+
          pretty offset +:+ " exceeds buffer length " +:+ pretty (len bs)))
      else slice bs offset end_
  end.

(** [T::from_le_bytes(slice.try_into().unwrap())]: the conversion to an array
    panics unless the slice has the width of the type. *)
Definition from_le (width : Z) (s : bytes) : outcome Z :=
  if len s =? width then Ok (le_val s) else Panic.

Definition read_u16 (bs : bytes) (offset : Z) : outcome Z :=
  s ← read_exact bs offset 2; from_le 2 s.
Definition read_u32 (bs : bytes) (offset : Z) : outcome Z :=
  s ← read_exact bs offset 4; from_le 4 s.
Definition read_u64 (bs : bytes) (offset : Z) : outcome Z :=
  s ← read_exact bs offset 8; from_le 8 s.

(** The three readers as one, by width in bytes. *)
Definition read_le (n : nat) (bs : bytes) (offset : Z) : outcome Z :=
  s ← read_exact bs offset (Z.of_nat n); from_le (Z.of_nat n) s.

(** ** Lemmas *)

Lemma read_exact_mid p m q offset size :
  offset = len p -> size = len m -> offset + size <= usize_max ->
  read_exact (p ++ m ++ q) offset size = Ok m.
Proof.
  intros Ho Hs Hu. unfold read_exact, checked_add.
  rewrite (proj2 (Z.leb_le _ _)) by done.
  rewrite (proj2 (Z.ltb_ge _ _)) by len_solve.
  apply slice_app_mid; lia.
Qed.

Lemma read_exact_short bs offset size :
  len bs < offset + size -> exists msg, read_exact bs offset size = Err (Corruption msg).
Proof.
  intros H. unfold read_exact, checked_add. destruct (_ <=? _); [|by eexists].
  rewrite (proj2 (Z.ltb_lt _ _)) by done. by eexists.
Qed.

Lemma read_exact_inv bs offset size s :
  0 <= size -> read_exact bs offset size = Ok s ->
  exists p q, bs = p ++ s ++ q /\ len p = offset /\ len s = size.
Proof.
  intros Hs. unfold read_exact, checked_add.
  destruct (_ <=? _) eqn:E1; [|done]. destruct (_ <? _) eqn:E2; [done|].
  intros (p & q & -> & Hp & Hl & _)%slice_inv. exists p, q. split_and!; [done..|lia].
Qed.

Lemma read_exact_ends bs offset size :
  0 <= offset -> 0 <= size -> ends (read_exact bs offset size) (fun s => len s = size).
Proof.
  intros Ho Hs. unfold read_exact, checked_add.
  destruct (_ <=? _) eqn:E1; [|done]. destruct (_ <? _) eqn:E2; [done|].
  apply Z.leb_le in E1. apply Z.ltb_ge in E2.
  rewrite slice_ok by lia. simpl. rewrite len_subslice; lia.
Qed.

Lemma read_le_seg n bs p s q offset :
  bs = p ++ s ++ q -> len s = Z.of_nat n -> offset = len p -> offset + Z.of_nat n <= usize_max ->
  read_le n bs offset = Ok (le_val s).
Proof.
  intros -> Hs Ho Hu. unfold read_le. rewrite read_exact_mid by done. rewrite outcome_bind_ok.
  unfold from_le. by rewrite Hs, Z.eqb_refl.
Qed.

Lemma read_le_mid n z p q offset :
  offset = len p -> offset + Z.of_nat n <= usize_max -> 0 <= z < 256 ^ Z.of_nat n ->
  read_le n (p ++ le_bytes n z ++ q) offset = Ok z.
Proof.
  intros Ho Hu Hz. erewrite read_le_seg by (done || apply len_le_bytes).
  f_equal. rewrite le_val_le_bytes. by apply Z.mod_small.
Qed.

Lemma read_le_short n bs offset :
  len bs < offset + Z.of_nat n -> exists msg, read_le n bs offset = Err (Corruption msg).
Proof. intros [msg H]%read_exact_short. exists msg. unfold read_le. by rewrite H. Qed.

Lemma read_le_inv n bs offset z :
  read_le n bs offset = Ok z ->
  exists p q, bs = p ++ le_bytes n z ++ q /\ len p = offset /\ 0 <= z < 256 ^ Z.of_nat n.
Proof.
  unfold read_le. intros (s & Hs & Hz)%outcome_bind_inv.
  apply read_exact_inv in Hs as (p & q & -> & Hp & Hl); [|lia].
  unfold from_le in Hz. destruct (_ =? _); simplify_eq.
  exists p, q. rewrite le_bytes_val_eq by done. split_and!; try done; [apply le_val_range|].
  rewrite <- Hl. apply le_val_range.
Qed.

Lemma read_le_ends n bs offset :
  0 <= offset -> ends (read_le n bs offset) (fun z => 0 <= z < 256 ^ Z.of_nat n).
Proof.
  intros Ho. unfold read_le. eapply ends_bind; [apply read_exact_ends; lia|].
  intros s Hs. unfold from_le. simpl in Hs. rewrite Hs, Z.eqb_refl. simpl.
  rewrite <- Hs. apply le_val_range.
Qed.

(** The named readers are instances of [read_le]. *)
Lemma read_u16_le bs o : read_u16 bs o = read_le 2 bs o.
Proof. done. Qed.
Lemma read_u32_le bs o : read_u32 bs o = read_le 4 bs o.
Proof. done. Qed.
Lemma read_u64_le bs o : read_u64 bs o = read_le 8 bs o.
Proof. done. Qed.

Lemma read_u16_mid z p q offset :
  offset = len p -> offset + 2 <= usize_max -> 0 <= z <= u16_max ->
  read_u16 (p ++ le_bytes 2 z ++ q) offset = Ok z.
Proof. intros. apply read_le_mid; unfold u16_max in *; simpl; lia. Qed.
Lemma read_u32_mid z p q offset :
  offset = len p -> offset + 4 <= usize_max -> 0 <= z <= u32_max ->
  read_u32 (p ++ le_bytes 4 z ++ q) offset = Ok z.
Proof. intros. apply read_le_mid; unfold u32_max in *; simpl; lia. Qed.
Lemma read_u64_mid z p q offset :
  offset = len p -> offset + 8 <= usize_max -> 0 <= z <= u64_max ->
  read_u64 (p ++ le_bytes 8 z ++ q) offset = Ok z.
Proof. intros. apply read_le_mid; unfold u64_max in *; simpl; lia. Qed.

Lemma read_u16_ends bs o : 0 <= o -> ends (read_u16 bs o) (fun z => 0 <= z <= u16_max).
Proof. intros H. eapply ends_mono; [by apply (read_le_ends 2)|]. unfold u16_max. simpl. lia. Qed.
Lemma read_u32_ends bs o : 0 <= o -> ends (read_u32 bs o) (fun z => 0 <= z <= u32_max).
Proof. intros H. eapply ends_mono; [by apply (read_le_ends 4)|]. unfold u32_max. simpl. lia. Qed.
Lemma read_u64_ends bs o : 0 <= o -> ends (read_u64 bs o) (fun z => 0 <= z <= u64_max).
Proof. intros H. eapply ends_mono; [by apply (read_le_ends 8)|]. unfold u64_max. simpl. lia. Qed.

(** The same with the decomposition of the buffer as an equation. *)
Lemma read_u16_at z bs p q offset :
  bs = p ++ le_bytes 2 z ++ q -> offset = len p -> offset + 2 <= usize_max -> 0 <= z <= u16_max ->
  read_u16 bs offset = Ok z.
Proof. intros ->. apply read_u16_mid. Qed.
Lemma read_u32_at z bs p q offset :
  bs = p ++ le_bytes 4 z ++ q -> offset = len p -> offset + 4 <= usize_max -> 0 <= z <= u32_max ->
  read_u32 bs offset = Ok z.
Proof. intros ->. apply read_u32_mid. Qed.
Lemma read_u64_at z bs p q offset :
  bs = p ++ le_bytes 8 z ++ q -> offset = len p -> offset + 8 <= usize_max -> 0 <= z <= u64_max ->
  read_u64 bs offset = Ok z.
Proof. intros ->. apply read_u64_mid. Qed.

Lemma read_u16_seg bs p s q offset :
  bs = p ++ s ++ q -> len s = 2 -> offset = len p -> offset + 2 <= usize_max ->
  read_u16 bs offset = Ok (le_val s).
Proof. intros. rewrite read_u16_le. by apply (read_le_seg 2 bs p s q). Qed.
Lemma read_u32_seg bs p s q offset :
  bs = p ++ s ++ q -> len s = 4 -> offset = len p -> offset + 4 <= usize_max ->
  read_u32 bs offset = Ok (le_val s).
Proof. intros. rewrite read_u32_le. by apply (read_le_seg 4 bs p s q). Qed.
Lemma read_u64_seg bs p s q offset :
  bs = p ++ s ++ q -> len s = 8 -> offset = len p -> offset + 8 <= usize_max ->
  read_u64 bs offset = Ok (le_val s).
Proof. intros. rewrite read_u64_le. by apply (read_le_seg 8 bs p s q). Qed.

Lemma le_val_range_n s n : len s = Z.of_nat n -> 0 <= le_val s < 256 ^ Z.of_nat n.
Proof. intros <-. apply le_val_range. Qed.

Lemma le_val_u16 s : len s = 2 -> 0 <= le_val s <= u16_max.
Proof. intros H. pose proof (le_val_range_n s 2 H). unfold u16_max. simpl in *. lia. Qed.
Lemma le_val_u32 s : len s = 4 -> 0 <= le_val s <= u32_max.
Proof. intros H. pose proof (le_val_range_n s 4 H). unfold u32_max. simpl in *. lia. Qed.
Lemma le_val_u64 s : len s = 8 -> 0 <= le_val s <= u64_max.
Proof. intros H. pose proof (le_val_range_n s 8 H). unfold u64_max. simpl in *. lia. Qed.

Lemma le_val_small n z : 0 <= z < 256 ^ Z.of_nat n -> le_val (le_bytes n z) = z.
Proof. intros H. rewrite le_val_le_bytes. by apply Z.mod_small. Qed.

Lemma le_val_2 z : 0 <= z <= u16_max -> le_val (le_bytes 2 z) = z.
Proof. intros H. apply le_val_small. unfold u16_max in H. simpl. lia. Qed.
Lemma le_val_4 z : 0 <= z <= u32_max -> le_val (le_bytes 4 z) = z.
Proof. intros H. apply le_val_small. unfold u32_max in H. simpl. lia. Qed.
Lemma le_val_8 z : 0 <= z <= u64_max -> le_val (le_bytes 8 z) = z.
Proof. intros H. apply le_val_small. unfold u64_max in H. simpl. lia. Qed.
