(* ===== verification/External.v ===== *)
(** * Third-party crates the engine is built on

    [crc32fast], [crossbeam_skiplist] and [fastbloom] are not part of the
    repository: each is a class of operations with the documented behaviour
    the source relies on.  The instances at the end are small concrete
    implementations; they show that the hypotheses can hold and let the
    development's examples be evaluated. *)

From Stdlib Require Import QArith_base.
From S2P Require Import Prelude Outcome.
#[local] Open Scope Z_scope.

(** ** [crc32fast::hash : &[u8] -> u32] *)

Class Crc32 := {
  crc32_hash : bytes -> Z;
  crc32_range bs : 0 <= crc32_hash bs <= u32_max;
}.

(** ** [crossbeam_skiplist::SkipMap<Vec<u8>, V>]

    An ordered map: [insert] replaces the value of an existing key, [iter]
    walks the entries in ascending key order.  A replacement is not atomic for
    the readers of other threads: an existing entry is removed before the new one
    is inserted ([Threads]). *)
Class SkipMap (V : Type) := {
  skipmap : Type;
  sm_new : skipmap;
  sm_insert : bytes -> V -> skipmap -> skipmap;
  sm_get : bytes -> skipmap -> option V;
  sm_is_empty : skipmap -> bool;
  sm_len : skipmap -> Z;
  sm_iter : skipmap -> list (bytes * V);
  sm_get_new k : sm_get k sm_new = None;
  sm_get_insert k k' v m :
    sm_get k' (sm_insert k v m) = if decide (k = k') then Some v else sm_get k' m;
  sm_iter_sorted m : keys_sorted (sm_iter m);
  sm_iter_get k m : assoc k (sm_iter m) = sm_get k m;
  sm_len_iter m : sm_len m = len (sm_iter m);
  sm_is_empty_iter m : sm_is_empty m = bool_decide (sm_iter m = []);
}.
Arguments skipmap V {_}.

(** ** [fastbloom::BloomFilter]

    [bf_expected_items rate seed n] is
    [BloomFilter::with_false_pos(rate).seed(&seed).expected_items(n)];
    [bf_from_vec words seed h] is
    [BloomFilter::from_vec(words).seed(&seed).hashes(h)], which panics on an
    empty vector.  Membership never has a false negative, and a filter rebuilt
    from its words, its seed and its hash count answers as the original.  The words of a filter are one allocation. *)
Class FastBloom := {
  bloom_filter : Type;
  bf_expected_items : Q -> Z -> Z -> bloom_filter;
  bf_from_vec : list Z -> Z -> Z -> outcome bloom_filter;
  bf_insert : bytes -> bloom_filter -> bloom_filter;
  bf_contains : bytes -> bloom_filter -> bool;
  bf_num_hashes : bloom_filter -> Z;
  bf_iter : bloom_filter -> list Z;
  bf_seed : bloom_filter -> Z;
  bf_seed_new r s n : bf_seed (bf_expected_items r s n) = s;
  bf_seed_insert k b : bf_seed (bf_insert k b) = bf_seed b;
  bf_num_hashes_new s n : 1 <= bf_num_hashes (bf_expected_items (1 # 100) s n) <= 255;
  bf_num_hashes_insert k b : bf_num_hashes (bf_insert k b) = bf_num_hashes b;
  bf_iter_u64 b : Forall (fun w => 0 <= w <= u64_max) (bf_iter b);
  bf_iter_nonempty b : bf_iter b <> [];
  bf_iter_alloc b : 8 * len (bf_iter b) <= isize_max;
  bf_contains_insert k b : bf_contains k (bf_insert k b) = true;
  bf_contains_mono k k' b : bf_contains k b = true -> bf_contains k (bf_insert k' b) = true;
  bf_from_vec_ok ws s h : ws <> [] -> 1 <= h -> exists b, bf_from_vec ws s h = Ok b;
  bf_rebuild b b' k :
    bf_from_vec (bf_iter b) (bf_seed b) (bf_num_hashes b) = Ok b' ->
    bf_contains k b' = bf_contains k b;
}.

(** ** [Vec::try_reserve]

    Whether the allocator grants room for [n] more elements of [Vec<SstMeta>];
    it does for the few levels the engine uses. *)
Class Allocator := {
  reserve_ok : Z -> bool;
  reserve_small n : n <= 1024 -> reserve_ok n = true;
}.

(** ** Concrete instances *)

Module Toy.

(** A checksum: the sum of the bytes modulo [2^32]. *)
Definition sum_bytes (bs : bytes) : Z := foldr (fun b acc => b2z b + acc) 0 bs.

Definition crc32 : Crc32.
Proof.
  refine {| crc32_hash bs := sum_bytes bs mod 2 ^ 32 |}.
  intros bs. pose proof (Z.mod_pos_bound (sum_bytes bs) (2 ^ 32) ltac:(lia)).
  unfold u32_max. lia.
Defined.

Section sorted_list.
Context {V : Type}.

(** An ordered map as a list sorted by key. *)
Fixpoint insert_sorted (k : bytes) (v : V) (l : list (bytes * V)) : list (bytes * V) :=
  match l with
  | [] => [(k, v)]
  | (k', v') :: l' =>
      match bytes_cmp k k' with
      | Lt => (k, v) :: l
      | Eq => (k, v) :: l'
      | Gt => (k', v') :: insert_sorted k v l'
      end
  end.

Lemma insert_sorted_assoc k k' v l :
  keys_sorted l ->
  assoc k' (insert_sorted k v l) = if decide (k = k') then Some v else assoc k' l.
Proof.
  induction l as [|[k1 v1] l IH]; [done|]. rewrite keys_sorted_cons. intros [Hs Hk]. simpl.
  destruct (bytes_cmp k k1) eqn:E; simpl.
  - apply bytes_cmp_eq in E as ->. by case_decide.
  - by repeat case_decide.
  - rewrite IH by done. repeat case_decide; subst; try done.
    by rewrite bytes_cmp_refl in E.
Qed.

Lemma insert_sorted_above k0 k v l :
  key_lt k0 k -> Forall (fun e => key_lt k0 e.1) l ->
  Forall (fun e => key_lt k0 e.1) (insert_sorted k v l).
Proof.
  intros Hk. induction 1 as [|[k1 v1] l H Hl IH]; simpl; [by repeat constructor|].
  destruct (bytes_cmp k k1); repeat constructor; done.
Qed.

Lemma insert_sorted_sorted k v l : keys_sorted l -> keys_sorted (insert_sorted k v l).
Proof.
  induction l as [|[k1 v1] l IH]; simpl; [intros _; by repeat constructor|].
  rewrite keys_sorted_cons. intros [Hs Hk]. destruct (bytes_cmp k k1) eqn:E.
  - apply bytes_cmp_eq in E as ->. by apply keys_sorted_cons.
  - apply keys_sorted_cons. split; [by apply keys_sorted_cons|].
    constructor; [done|]. eapply Forall_impl; [exact Hk|].
    intros e He. by eapply key_lt_trans.
  - apply keys_sorted_cons. split; [by apply IH|].
    apply insert_sorted_above; [by apply key_cmp_gt | done].
Qed.
End sorted_list.

Definition skip_map (V : Type) : SkipMap V.
Proof.
  refine {| skipmap := { l : list (bytes * V) | Is_true (bool_decide (StronglySorted key_lt l.*1)) };
            sm_new := exist _ [] I;
            sm_insert k v m := exist _ (insert_sorted k v (`m)) _;
            sm_get k m := assoc k (`m);
            sm_is_empty m := match `m with [] => true | _ => false end;
            sm_len m := len (`m);
            sm_iter m := `m |}; simpl.
  - done.
  - intros k k' v m. apply insert_sorted_assoc, (bool_decide_unpack _ (proj2_sig m)).
  - intros m. apply (bool_decide_unpack _ (proj2_sig m)).
  - done.
  - done.
  - intros [[|x m] Hm]; [by rewrite bool_decide_true | by rewrite bool_decide_false].
  Unshelve. apply bool_decide_pack, insert_sorted_sorted, (bool_decide_unpack _ (proj2_sig m)).
Defined.

(** An allocator with room for a million elements. *)
Definition allocator : Allocator.
Proof. refine {| reserve_ok n := n <=? 1000000 |}. intros n H. apply Z.leb_le. lia. Defined.

(** A filter of one word and one hash. *)
Record tiny_bloom := TinyBloom { tb_seed : Z; tb_hashes : Z; tb_word : Z }.

Definition tb_bit (seed : Z) (k : bytes) : Z := (seed + sum_bytes k) mod 64.

Lemma tb_bit_range s k : 0 <= tb_bit s k < 64.
Proof. apply Z.mod_pos_bound. lia. Qed.

Definition bloom : FastBloom.
Proof.
  refine {| bloom_filter := tiny_bloom;
            bf_expected_items _ s _ := TinyBloom s 1 0;
            bf_from_vec ws s h :=
              match ws with [] => Panic | w :: _ => Ok (TinyBloom s h w) end;
            bf_insert k b :=
              TinyBloom (tb_seed b) (tb_hashes b) (Z.setbit (tb_word b) (tb_bit (tb_seed b) k));
            bf_contains k b := Z.testbit (tb_word b) (tb_bit (tb_seed b) k);
            bf_num_hashes := tb_hashes;
            bf_iter b := [tb_word b mod 2 ^ 64];
            bf_seed := tb_seed |}; simpl; try done.
  - intros [s h w]. constructor; [|by constructor].
    cbn [tb_word]. change (Z.pow_pos 2 64) with (2 ^ 64).
    pose proof (Z.mod_pos_bound w (2 ^ 64) ltac:(lia)). unfold u64_max. lia.
  - intros k [s h w]; simpl. pose proof (tb_bit_range s k).
    rewrite Z.setbit_eqb, Z.eqb_refl; [done|lia].
  - intros k k' [s h w]; simpl. pose proof (tb_bit_range s k'). intros H'.
    rewrite Z.setbit_eqb, H' by lia. apply orb_true_r.
  - intros [|w ws] s h; [done|]. intros _ _. by eexists.
  - intros [s h w] b' k [= <-]; simpl. pose proof (tb_bit_range s k).
    apply Z.mod_pow2_bits_low. lia.
Defined.

End Toy.
