(* ===== verification/Fs.v ===== *)
(** * The engine directory and [std::fs]

    What the source uses of the standard library's file API, for the one
    directory an engine owns: a name table over inodes (so that a file that is
    renamed, replaced or removed stays readable through an open handle), the
    bytes of each inode with the prefix known to be durable, and
    [BufWriter<File>] with its in-process buffer.

    Every system call consumes one element of [faults]: it is carried out
    ([Pass]), reports an I/O error ([Fail n]) or finds the process dying
    ([Stop n]); a write interrupted by the last two has transferred its first
    [n] bytes.  With an empty list every call is carried out. *)

From S2P Require Import Prelude Outcome.

(** ** State *)

Record inode := mkInode { content : bytes; synced : nat }.

Inductive fault :=
  | Pass
  | Fail (n : nat)
  | Stop (n : nat).

Record Fs := mkFs {
  dirents : gmap string nat;
  inodes : gmap nat inode;
  next_ino : nat;
  faults : list fault;
}.

Definition empty_fs : Fs := mkFs ∅ ∅ 0 [].

Definition set_dirents (d : gmap string nat) (fs : Fs) : Fs :=
  mkFs d (inodes fs) (next_ino fs) (faults fs).
Definition set_inodes (i : gmap nat inode) (fs : Fs) : Fs :=
  mkFs (dirents fs) i (next_ino fs) (faults fs).
Definition set_faults (l : list fault) (fs : Fs) : Fs :=
  mkFs (dirents fs) (inodes fs) (next_ino fs) l.

Definition set_inode (ino : nat) (i : inode) (fs : Fs) : Fs :=
  set_inodes (<[ino := i]> (inodes fs)) fs.

Definition inode_of (fs : Fs) (ino : nat) : inode :=
  default (mkInode [] 0) (inodes fs !! ino).

(** The bytes behind a handle, and behind a name. *)
Definition data_of (fs : Fs) (ino : nat) : bytes := content (inode_of fs ino).
Definition file_of (fs : Fs) (name : string) : option bytes :=
  data_of fs <$> dirents fs !! name.

(** ** System calls *)

Definition syscall {A} (run : M Fs A) (partial : nat -> Fs -> Fs) : M Fs A := fun fs =>
  match faults fs with
  | [] => run fs
  | Pass :: l => run (set_faults l fs)
  | Fail n :: l => (Err (Io OtherIo), partial n (set_faults l fs))
  | Stop n :: l => (Halt, partial n (set_faults l fs))
  end.

Definition nothing (n : nat) (fs : Fs) : Fs := fs.

(** [File::create(path)]: truncates an existing file, in place. *)
Definition file_create (name : string) : M Fs nat :=
  syscall (fun fs =>
    match dirents fs !! name with
    | Some ino => (Ok ino, set_inode ino (mkInode [] 0) fs)
    | None =>
        let ino := next_ino fs in
        (Ok ino, mkFs (<[name := ino]> (dirents fs)) (<[ino := mkInode [] 0]> (inodes fs))
                   (S ino) (faults fs))
    end) nothing.

(** [File::open(path)] *)
Definition file_open (name : string) : M Fs nat :=
  syscall (fun fs =>
    match dirents fs !! name with
    | Some ino => (Ok ino, fs)
    | None => (Err (Io NotFound), fs)
    end) nothing.

Definition append_bytes (ino : nat) (d : bytes) (fs : Fs) : Fs :=
  let i := inode_of fs ino in set_inode ino (mkInode (content i ++ d) (synced i)) fs.

(** [file.write_all(d)]; the engine's files are only written at their end. *)
Definition file_write (ino : nat) (d : bytes) : M Fs unit :=
  syscall (fun fs => (Ok tt, append_bytes ino d fs)) (fun n => append_bytes ino (take n d)).

(** [file.sync_all()] *)
Definition file_sync (ino : nat) : M Fs unit :=
  syscall (fun fs =>
    let i := inode_of fs ino in
    (Ok tt, set_inode ino (mkInode (content i) (length (content i))) fs)) nothing.

(** [file.metadata()?.len()] *)
Definition file_len (ino : nat) : M Fs Z :=
  syscall (fun fs => (Ok (len (data_of fs ino)), fs)) nothing.

(** [read_exact] at a position: [UnexpectedEof] beyond the end of the file. *)
Definition file_read_exact_at (ino : nat) (offset n : Z) : M Fs bytes :=
  syscall (fun fs =>
    let d := data_of fs ino in
    if offset + n <=? len d then (Ok (subslice d offset (offset + n)), fs)
    else (Err (Io UnexpectedEof), fs)) nothing.

(** [seek(Start(0))] then [read_to_end]. *)
Definition file_read_to_end (ino : nat) : M Fs bytes :=
  syscall (fun fs => (Ok (data_of fs ino), fs)) nothing.

(** [std::fs::read(path)] *)
Definition fs_read (name : string) : M Fs bytes :=
  syscall (fun fs =>
    match dirents fs !! name with
    | Some ino => (Ok (data_of fs ino), fs)
    | None => (Err (Io NotFound), fs)
    end) nothing.

(** [std::fs::rename(from, to)] *)
Definition fs_rename (from to : string) : M Fs unit :=
  syscall (fun fs =>
    match dirents fs !! from with
    | Some ino => (Ok tt, set_dirents (<[to := ino]> (delete from (dirents fs))) fs)
    | None => (Err (Io NotFound), fs)
    end) nothing.

(** [std::fs::remove_file(path)] *)
Definition fs_remove_file (name : string) : M Fs unit :=
  syscall (fun fs =>
    match dirents fs !! name with
    | Some _ => (Ok tt, set_dirents (delete name (dirents fs)) fs)
    | None => (Err (Io NotFound), fs)
    end) nothing.

(** [std::fs::metadata(path)], of which only the success is used. *)
Definition fs_metadata (name : string) : M Fs unit :=
  syscall (fun fs =>
    match dirents fs !! name with
    | Some _ => (Ok tt, fs)
    | None => (Err (Io NotFound), fs)
    end) nothing.

(** [path.exists()]: [metadata(path).is_ok()], so an I/O error reads as
    absence. *)
Definition fs_exists (name : string) : M Fs bool :=
  r ← try_ (fs_metadata name);
  mret (match r with inr _ => true | inl _ => false end).

Lemma fs_exists_run name fs :
  faults fs = [] -> fs_exists name fs = (Ok (bool_decide (is_Some (dirents fs !! name))), fs).
Proof.
  intros Hf. unfold fs_exists, fs_metadata, try_, syscall, mbind, M_bind. rewrite Hf.
  by destruct (dirents fs !! name).
Qed.

(** [std::fs::create_dir_all(dir)]: the directory is there afterwards. *)
Definition fs_create_dir_all : M Fs unit := syscall (fun fs => (Ok tt, fs)) nothing.

(** [std::fs::read_dir(dir)]: the names, in no particular order. *)
Definition fs_read_dir : M Fs (list string) :=
  syscall (fun fs => (Ok (map_to_list (dirents fs)).*1, fs)) nothing.

(** ** [BufWriter<File>] *)

Record BufWriter := mkBufWriter { bw_file : nat; bw_buf : bytes }.

Definition BUF_CAPACITY : Z := 8192.

Definition bw_new (ino : nat) : BufWriter := mkBufWriter ino [].

(** Runs on the file system next to the writer. *)
Definition on_fs {W A} (m : M Fs A) : M (Fs * W) A :=
  zoom fst (fun fs s => (fs, snd s)) m.

(** [flush_buf]: what an interrupted write has transferred leaves the buffer. *)
Definition bw_flush_buf : M (Fs * BufWriter) unit := fun '(fs, w) =>
  if bool_decide (bw_buf w = []) then (Ok tt, (fs, w))
  else
    let before := length (data_of fs (bw_file w)) in
    let '(o, fs') := file_write (bw_file w) (bw_buf w) fs in
    let written := (length (data_of fs' (bw_file w)) - before)%nat in
    (o, (fs', mkBufWriter (bw_file w) (drop written (bw_buf w)))).

Definition bw_push (d : bytes) : M (Fs * BufWriter) unit :=
  modify (fun '(fs, w) => (fs, mkBufWriter (bw_file w) (bw_buf w ++ d))).

(** [write_all] *)
Definition bw_write_all (d : bytes) : M (Fs * BufWriter) unit :=
  spare ← gets (fun '(_, w) => BUF_CAPACITY - len (bw_buf w));
  if len d <? spare then bw_push d
  else
    _ ← (if spare <? len d then bw_flush_buf else mret tt);
    if BUF_CAPACITY <=? len d then
      ino ← gets (fun '(_, w) => bw_file w);
      on_fs (file_write ino d)
    else bw_push d.

(** [flush] *)
Definition bw_flush : M (Fs * BufWriter) unit := bw_flush_buf.

(** [get_ref().sync_all()] *)
Definition bw_sync_all : M (Fs * BufWriter) unit :=
  ino ← gets (fun '(_, w) => bw_file w); on_fs (file_sync ino).

(** [Drop]: the buffer is written out, errors are ignored. *)
Definition bw_drop : M (Fs * BufWriter) unit := ignore bw_flush_buf.

(** ** Kills and power losses *)

(** A killed process loses its buffers, not what it handed to the system: every
    byte written to a file and every change of the directory is there, synced or
    not. *)
Definition killed (fs : Fs) : Fs := set_faults [] fs.

(** After a power loss every file keeps its durable prefix and any part of
    what was written after it.  The names are not constrained: the source never
    syncs the directory, so that a creation, a rename or a removal may be lost;
    a theorem says which name it takes to have survived. *)
Definition power_loss (fs fs' : Fs) : Prop :=
  next_ino fs' = next_ino fs /\ faults fs' = [] /\
  forall ino, exists n, (synced (inode_of fs ino) <= n)%nat /\
    inode_of fs' ino = mkInode (take n (content (inode_of fs ino))) (synced (inode_of fs ino)).

(** ** Fault-free runs *)

Lemma syscall_ok {A} (run : M Fs A) p fs : faults fs = [] -> syscall run p fs = run fs.
Proof. unfold syscall. by intros ->. Qed.

Lemma inode_of_set ino i fs ino' :
  inode_of (set_inode ino i fs) ino' = if decide (ino = ino') then i else inode_of fs ino'.
Proof. unfold inode_of. simpl. rewrite lookup_insert. by case_decide. Qed.

Lemma data_of_set ino i fs ino' :
  data_of (set_inode ino i fs) ino' = if decide (ino = ino') then content i else data_of fs ino'.
Proof. unfold data_of. rewrite inode_of_set. by case_decide. Qed.

Lemma data_of_append ino d fs ino' :
  data_of (append_bytes ino d fs) ino' =
    if decide (ino = ino') then data_of fs ino ++ d else data_of fs ino'.
Proof. unfold append_bytes. rewrite data_of_set. done. Qed.

Lemma set_inode_same_faults ino i fs : faults (set_inode ino i fs) = faults fs.
Proof. done. Qed.

(** [touches ino fs fs']: only the bytes behind [ino] may differ, and no fault
    is pending. *)
Definition touches (ino : nat) (fs fs' : Fs) : Prop :=
  dirents fs' = dirents fs /\ next_ino fs' = next_ino fs /\ faults fs' = [] /\
  forall ino', ino' <> ino -> inode_of fs' ino' = inode_of fs ino'.

Lemma touches_refl ino fs : faults fs = [] -> touches ino fs fs.
Proof. by intros H. Qed.

Lemma touches_trans ino fs1 fs2 fs3 :
  touches ino fs1 fs2 -> touches ino fs2 fs3 -> touches ino fs1 fs3.
Proof.
  intros (D1 & N1 & _ & I1) (D2 & N2 & F2 & I2). split_and!; [congruence..|done|].
  intros ino' H. by rewrite I2, I1.
Qed.

Lemma touches_set_inode ino i fs : faults fs = [] -> touches ino fs (set_inode ino i fs).
Proof.
  intros H. split_and!; try done. intros ino' Hne. rewrite inode_of_set.
  by rewrite decide_False.
Qed.

Lemma touches_faults ino fs fs' : touches ino fs fs' -> faults fs' = [].
Proof. by intros (_ & _ & ? & _). Qed.

Lemma touches_data ino fs fs' ino' :
  touches ino fs fs' -> ino' <> ino -> data_of fs' ino' = data_of fs ino'.
Proof. intros (_ & _ & _ & H) Hne. unfold data_of. by rewrite H. Qed.

Lemma file_write_ok ino d fs :
  faults fs = [] -> file_write ino d fs = (Ok tt, append_bytes ino d fs).
Proof. intros H. unfold file_write. by rewrite syscall_ok. Qed.

Lemma touches_append ino d fs : faults fs = [] -> touches ino fs (append_bytes ino d fs).
Proof. apply touches_set_inode. Qed.

(** What a writer has accepted: the bytes in the file, then the buffer. *)
Definition bw_log (fs : Fs) (w : BufWriter) : bytes := data_of fs (bw_file w) ++ bw_buf w.

Lemma bw_flush_buf_ok fs w :
  faults fs = [] ->
  exists fs', bw_flush_buf (fs, w) = (Ok tt, (fs', mkBufWriter (bw_file w) [])) /\
    touches (bw_file w) fs fs' /\ data_of fs' (bw_file w) = bw_log fs w.
Proof.
  intros Hf. unfold bw_flush_buf, bw_log. destruct w as [ino b]. cbn [bw_buf bw_file].
  case_bool_decide as Hb.
  - subst. exists fs. rewrite app_nil_r. split_and!; [done|by apply touches_refl|done].
  - rewrite file_write_ok by done. cbn [fst snd].
    exists (append_bytes ino b fs).
    rewrite data_of_append, decide_True by done. split_and!; [|by apply touches_append|done].
    rewrite length_app. replace (_ - _)%nat with (length b) by lia. by rewrite drop_all.
Qed.

Lemma bw_write_all_ok fs w d :
  faults fs = [] ->
  exists fs' w', bw_write_all d (fs, w) = (Ok tt, (fs', w')) /\ bw_file w' = bw_file w /\
    touches (bw_file w) fs fs' /\ bw_log fs' w' = bw_log fs w ++ d.
Proof.
  intros Hf. unfold bw_write_all, gets, mbind, M_bind.
  destruct (Z.ltb_spec (len d) (BUF_CAPACITY - len (bw_buf w))).
  { eexists _, _. split_and!; [done..|by apply touches_refl|]. unfold bw_log. simpl. by rewrite app_assoc. }
  assert (exists fs1 w1,
    (if BUF_CAPACITY - len (bw_buf w) <? len d then bw_flush_buf else mret tt) (fs, w)
      = (Ok tt, (fs1, w1)) /\ bw_file w1 = bw_file w /\ touches (bw_file w) fs fs1 /\
      bw_log fs1 w1 = bw_log fs w /\ (BUF_CAPACITY <= len d -> bw_buf w1 = []))
    as (fs1 & w1 & -> & Hw1 & Ht1 & Hl1 & Hb1).
  { destruct (Z.ltb_spec (BUF_CAPACITY - len (bw_buf w)) (len d)).
    - destruct (bw_flush_buf_ok fs w Hf) as (fs1 & -> & Ht & Hd).
      eexists _, _. split_and!; [done..| |done]. unfold bw_log at 1. simpl. by rewrite Hd, app_nil_r.
    - eexists _, _. split_and!; [done..|by apply touches_refl|done|].
      intros Hd. apply len_0_nil. pose proof (len_nonneg (bw_buf w)). lia. }
  pose proof (touches_faults _ _ _ Ht1) as Hf1.
  destruct (Z.leb_spec BUF_CAPACITY (len d)) as [Hd|Hd].
  - unfold on_fs, zoom. cbn [fst snd]. rewrite file_write_ok by done.
    eexists _, _. split_and!; [done|done| |].
    + rewrite Hw1. eapply touches_trans; [done|]. by apply touches_append.
    + unfold bw_log at 1. rewrite data_of_append, decide_True, Hb1, app_nil_r by done.
      rewrite <- Hl1. unfold bw_log. by rewrite Hb1, app_nil_r.
  - eexists _, _. split_and!; [done|done|done|].
    rewrite <- Hl1. unfold bw_log. simpl. by rewrite app_assoc.
Qed.

Lemma bw_sync_all_ok fs w :
  faults fs = [] ->
  exists fs', bw_sync_all (fs, w) = (Ok tt, (fs', w)) /\ touches (bw_file w) fs fs' /\
    inode_of fs' (bw_file w) =
      mkInode (data_of fs (bw_file w)) (length (data_of fs (bw_file w))).
Proof.
  intros Hf. unfold bw_sync_all, on_fs, zoom, file_sync, gets, mbind, M_bind. cbn [fst snd].
  rewrite syscall_ok by done.
  eexists. split_and!; [done|by apply touches_set_inode|].
  by rewrite inode_of_set, decide_True.
Qed.

(** ** Whole files *)

(** No name refers to an inode that was never allocated, and no two names
    share one. *)
Definition fs_wf (fs : Fs) : Prop :=
  (forall n ino, dirents fs !! n = Some ino -> (ino < next_ino fs)%nat) /\
  (forall n1 n2 ino, dirents fs !! n1 = Some ino -> dirents fs !! n2 = Some ino -> n1 = n2).

Lemma fs_wf_empty : fs_wf empty_fs.
Proof. split; intros *; unfold empty_fs; cbn [dirents]; rewrite lookup_empty; done. Qed.

(** [wrote name ino d fs fs']: the file [name] was created or truncated and now
    holds [d] behind [ino]; every other inode is as before. *)
Record wrote (name : string) (ino : nat) (d : bytes) (fs fs' : Fs) : Prop := {
  wr_dirents : dirents fs' = <[name := ino]> (dirents fs);
  wr_data : data_of fs' ino = d;
  wr_ino : dirents fs !! name = Some ino \/ dirents fs !! name = None /\ ino = next_ino fs;
  wr_others : forall ino', ino' <> ino -> inode_of fs' ino' = inode_of fs ino';
  wr_next : next_ino fs' = Nat.max (next_ino fs) (S ino);
  wr_faults : faults fs' = [];
}.

Lemma file_create_ok name fs :
  faults fs = [] -> fs_wf fs ->
  exists ino fs', file_create name fs = (Ok ino, fs') /\ wrote name ino [] fs fs'.
Proof.
  intros Hf [Hlt Hinj]. unfold file_create. rewrite syscall_ok by done.
  destruct (dirents fs !! name) as [ino|] eqn:E.
  - exists ino, (set_inode ino (mkInode [] 0) fs). split; [done|].
    split; [by rewrite insert_id|..]; try done.
    + rewrite data_of_set. by rewrite decide_True.
    + by left.
    + intros ino' Hne. rewrite inode_of_set. by rewrite decide_False.
    + specialize (Hlt _ _ E). simpl. lia.
  - eexists (next_ino fs), _. split; [done|]. split; try done.
    + unfold data_of, inode_of. simpl. by rewrite lookup_insert_eq.
    + by right.
    + intros ino' Hne. unfold inode_of. simpl. by rewrite lookup_insert_ne.
    + simpl. lia.
Qed.

Lemma wrote_touch name ino d d' fs fs1 fs2 :
  wrote name ino d fs fs1 -> touches ino fs1 fs2 -> data_of fs2 ino = d' ->
  wrote name ino d' fs fs2.
Proof.
  intros [H1 H2 H3 H4 H5 H6] (D & N & F & I) Hd. split; try done; try congruence.
  intros ino' Hne. rewrite I, H4; done.
Qed.

Lemma wrote_wf name ino d fs fs' : wrote name ino d fs fs' -> fs_wf fs -> fs_wf fs'.
Proof.
  intros [H1 H2 H3 H4 H5 H6] [Hlt Hinj]. split.
  - intros n i. rewrite H1, H5, lookup_insert. case_decide; [intros [= ->]; lia|].
    intros Hn. specialize (Hlt _ _ Hn). lia.
  - intros n1 n2 i. rewrite H1, !lookup_insert.
    assert (forall n, n <> name -> dirents fs !! n = Some ino -> False) as Hfresh.
    { intros n Hn Hd. destruct H3 as [H3|[_ ->]]; [|apply Hlt in Hd; lia].
      by apply Hn, (Hinj _ _ ino). }
    repeat case_decide; subst; try done.
    + intros [= <-] Ha. by exfalso; eapply Hfresh.
    + intros Ha [= <-]. by exfalso; eapply Hfresh.
    + apply Hinj.
Qed.

Lemma wrote_file_of name ino d fs fs' n :
  wrote name ino d fs fs' -> fs_wf fs ->
  file_of fs' n = if decide (name = n) then Some d else file_of fs n.
Proof.
  intros [H1 H2 H3 H4 H5 H6] [Hlt Hinj]. unfold file_of. rewrite H1, lookup_insert.
  case_decide as Hn; [by rewrite <- H2|].
  destruct (dirents fs !! n) as [i|] eqn:E; [|done]. simpl. f_equal. unfold data_of. rewrite H4; [done|].
  intros ->. destruct H3 as [H3|[_ ->]]; [|apply Hlt in E; lia]. by apply Hn, (Hinj _ _ ino).
Qed.

(** The bytes behind a handle that is not the written file's. *)
Lemma wrote_data name ino d fs fs' i :
  wrote name ino d fs fs' -> (i < next_ino fs)%nat -> dirents fs !! name <> Some i ->
  data_of fs' i = data_of fs i.
Proof.
  intros [H1 H2 H3 H4 H5 H6] Hi Hn. unfold data_of. rewrite H4; [done|].
  intros ->. destruct H3 as [H3|[_ ->]]; [done|lia].
Qed.

Lemma file_open_ok name ino fs :
  faults fs = [] -> dirents fs !! name = Some ino -> file_open name fs = (Ok ino, fs).
Proof. intros Hf Hd. unfold file_open. rewrite syscall_ok by done. by rewrite Hd. Qed.

Lemma file_len_ok ino fs : faults fs = [] -> file_len ino fs = (Ok (len (data_of fs ino)), fs).
Proof. intros Hf. unfold file_len. by rewrite syscall_ok. Qed.

Lemma file_read_exact_at_ok ino off n fs :
  faults fs = [] -> off + n <= len (data_of fs ino) ->
  file_read_exact_at ino off n fs = (Ok (subslice (data_of fs ino) off (off + n)), fs).
Proof.
  intros Hf Hn. unfold file_read_exact_at. rewrite syscall_ok by done.
  by rewrite (proj2 (Z.leb_le _ _)).
Qed.

Lemma file_read_at ino off n p m q fs :
  faults fs = [] -> data_of fs ino = p ++ m ++ q -> off = len p -> n = len m ->
  file_read_exact_at ino off n fs = (Ok m, fs).
Proof.
  intros Hf Hd -> ->. rewrite file_read_exact_at_ok by (done || (rewrite Hd; len_solve)).
  rewrite Hd. by rewrite subslice_app_mid.
Qed.

Lemma file_read_to_end_ok ino fs :
  faults fs = [] -> file_read_to_end ino fs = (Ok (data_of fs ino), fs).
Proof. intros Hf. unfold file_read_to_end. by rewrite syscall_ok. Qed.

Lemma file_sync_ok ino fs :
  faults fs = [] ->
  exists fs', file_sync ino fs = (Ok tt, fs') /\ touches ino fs fs' /\
    inode_of fs' ino = mkInode (data_of fs ino) (length (data_of fs ino)).
Proof.
  intros Hf. unfold file_sync. rewrite syscall_ok by done. eexists.
  split_and!; [done|by apply touches_set_inode|]. by rewrite inode_of_set, decide_True.
Qed.

(** [renamed from to fs fs']: the file [from] is now [to]. *)
Definition renamed (from to : string) (fs fs' : Fs) : Prop :=
  exists ino, dirents fs !! from = Some ino /\
    fs' = set_dirents (<[to := ino]> (delete from (dirents fs))) fs.

Lemma fs_rename_ok from to ino fs :
  faults fs = [] -> dirents fs !! from = Some ino ->
  fs_rename from to fs = (Ok tt, set_dirents (<[to := ino]> (delete from (dirents fs))) fs).
Proof. intros Hf Hd. unfold fs_rename. rewrite syscall_ok by done. by rewrite Hd. Qed.

Lemma rename_wf from to ino fs :
  fs_wf fs -> dirents fs !! from = Some ino ->
  fs_wf (set_dirents (<[to := ino]> (delete from (dirents fs))) fs).
Proof.
  intros [Hlt Hinj] Hd. split; simpl.
  - intros n i. rewrite lookup_insert, lookup_delete. repeat case_decide; try done.
    + intros [= <-]. by eapply Hlt.
    + by apply Hlt.
  - intros n1 n2 i. rewrite !lookup_insert, !lookup_delete.
    repeat case_decide; subst; try done; intros Ha Hb; simplify_eq.
    + by specialize (Hinj _ _ _ Hd Hb).
    + by specialize (Hinj _ _ _ Hd Ha).
    + by eapply Hinj.
Qed.

Lemma rename_file_of from to ino fs n :
  dirents fs !! from = Some ino ->
  file_of (set_dirents (<[to := ino]> (delete from (dirents fs))) fs) n =
    if decide (to = n) then Some (data_of fs ino)
    else if decide (from = n) then None else file_of fs n.
Proof.
  intros Hd. unfold file_of. simpl. rewrite lookup_insert, lookup_delete.
  by repeat case_decide.
Qed.

Lemma remove_run name fs :
  faults fs = [] ->
  exists o, fs_remove_file name fs = (o, set_dirents (delete name (dirents fs)) fs) /\
    (o = Ok tt \/ o = Err (Io NotFound)).
Proof.
  intros Hf. unfold fs_remove_file. rewrite syscall_ok by done.
  destruct (dirents fs !! name) eqn:E; [by eexists; split; [|left]|].
  eexists. split; [|by right]. rewrite delete_id by done. by destruct fs.
Qed.

(** [let _ = remove_file(name);] *)
Lemma ignore_remove name fs :
  faults fs = [] ->
  ignore (fs_remove_file name) fs = (Ok tt, set_dirents (delete name (dirents fs)) fs).
Proof.
  intros Hf. destruct (remove_run name fs Hf) as (o & H & [->| ->]);
    [by apply (ignore_ok _ _ _ _ H) | by apply (ignore_err _ _ _ _ H)].
Qed.

Lemma remove_wf name fs : fs_wf fs -> fs_wf (set_dirents (delete name (dirents fs)) fs).
Proof.
  intros [Hlt Hinj]. split; simpl.
  - intros n i [_ H]%lookup_delete_Some. by eapply Hlt.
  - intros n1 n2 i [_ H1]%lookup_delete_Some [_ H2]%lookup_delete_Some. by eapply Hinj.
Qed.

Lemma remove_file_of name fs n :
  file_of (set_dirents (delete name (dirents fs)) fs) n =
    if decide (name = n) then None else file_of fs n.
Proof. unfold file_of. simpl. rewrite lookup_delete. by case_decide. Qed.

(** ** Runs under faults

    What a call does whichever faults are pending: it only touches the bytes
    behind one inode, and a reported success means that it was carried out. *)

Definition frames (ino : nat) (fs fs' : Fs) : Prop :=
  dirents fs' = dirents fs /\ next_ino fs' = next_ino fs /\
  forall ino', ino' <> ino -> inode_of fs' ino' = inode_of fs ino'.

Lemma frames_refl ino fs : frames ino fs fs.
Proof. done. Qed.

Lemma frames_faults ino l fs : frames ino fs (set_faults l fs).
Proof. done. Qed.

Lemma frames_trans ino fs1 fs2 fs3 : frames ino fs1 fs2 -> frames ino fs2 fs3 -> frames ino fs1 fs3.
Proof.
  intros (D1 & N1 & I1) (D2 & N2 & I2). split_and!; [congruence..|]. intros i Hi. by rewrite I2, I1.
Qed.

Lemma frames_append ino d fs : frames ino fs (append_bytes ino d fs).
Proof.
  split_and!; try done. intros i Hi. unfold append_bytes. rewrite inode_of_set. by rewrite decide_False.
Qed.

Lemma frames_set_inode ino i fs : frames ino fs (set_inode ino i fs).
Proof.
  split_and!; try done. intros i' Hi. rewrite inode_of_set. by rewrite decide_False.
Qed.

Lemma inode_of_set_faults l fs i : inode_of (set_faults l fs) i = inode_of fs i.
Proof. done. Qed.

Lemma syscall_cases {A} (run : M Fs A) p fs :
  (exists l, syscall run p fs = run (set_faults l fs)) \/
  (exists e n l, syscall run p fs = (Err e, p n (set_faults l fs))) \/
  (exists n l, syscall run p fs = (Halt, p n (set_faults l fs))).
Proof.
  unfold syscall. destruct (faults fs) as [|[|n|n] l] eqn:E.
  - left. exists []. rewrite <- E. by destruct fs.
  - left. by exists l.
  - right; left. by eexists _, n, l.
  - right; right. by exists n, l.
Qed.

Lemma file_write_any ino d fs :
  exists o fs', file_write ino d fs = (o, fs') /\ frames ino fs fs' /\
    (o = Ok tt -> data_of fs' ino = data_of fs ino ++ d).
Proof.
  unfold file_write.
  destruct (syscall_cases (fun fs => (Ok tt, append_bytes ino d fs)) (fun n => append_bytes ino (take n d)) fs)
    as [[l ->]|[(e & n & l & ->)|(n & l & ->)]]; eexists _, _.
  - split; [done|]. split; [apply (frames_append ino d (set_faults l fs))|]. intros _.
    rewrite data_of_append. by rewrite decide_True.
  - split; [done|]. split; [apply (frames_append ino (take n d) (set_faults l fs))|done].
  - split; [done|]. split; [apply (frames_append ino (take n d) (set_faults l fs))|done].
Qed.

Lemma bw_flush_buf_any fs w :
  exists o fs' w', bw_flush_buf (fs, w) = (o, (fs', w')) /\ bw_file w' = bw_file w /\
    frames (bw_file w) fs fs' /\
    (o = Ok tt -> bw_buf w' = [] /\ data_of fs' (bw_file w) = bw_log fs w).
Proof.
  unfold bw_flush_buf, bw_log. case_bool_decide as Hb.
  - eexists _, _, _. split_and!; [done..|]. intros _. by rewrite Hb, app_nil_r.
  - destruct (file_write_any (bw_file w) (bw_buf w) fs) as (o & fs' & -> & Hfr & Hok).
    eexists _, _, _. split_and!; [done..|]. intros Ho. specialize (Hok Ho). cbn [bw_buf]. split; [|done].
    rewrite Hok, length_app. replace (_ - _)%nat with (length (bw_buf w)) by lia. by rewrite drop_all.
Qed.

Lemma on_fs_any {W} (m : M Fs unit) fs (w : W) o fs' :
  m fs = (o, fs') -> on_fs m (fs, w) = (o, (fs', w)).
Proof. intros H. unfold on_fs, zoom. cbn [fst]. by rewrite H. Qed.

Lemma bw_write_all_any fs w d :
  exists o fs' w', bw_write_all d (fs, w) = (o, (fs', w')) /\ bw_file w' = bw_file w /\
    frames (bw_file w) fs fs' /\ (o = Ok tt -> bw_log fs' w' = bw_log fs w ++ d).
Proof.
  unfold bw_write_all, gets, mbind, M_bind.
  destruct (Z.ltb_spec (len d) (BUF_CAPACITY - len (bw_buf w))).
  { eexists _, _, _. split_and!; [done..|]. intros _. unfold bw_log. simpl. by rewrite app_assoc. }
  assert (exists o1 fs1 w1,
    (if BUF_CAPACITY - len (bw_buf w) <? len d then bw_flush_buf else mret tt) (fs, w)
      = (o1, (fs1, w1)) /\ bw_file w1 = bw_file w /\ frames (bw_file w) fs fs1 /\
      (o1 = Ok tt -> bw_log fs1 w1 = bw_log fs w /\ (BUF_CAPACITY <= len d -> bw_buf w1 = [])))
    as (o1 & fs1 & w1 & -> & Hw1 & Ht1 & Hok1).
  { destruct (Z.ltb_spec (BUF_CAPACITY - len (bw_buf w)) (len d)).
    - destruct (bw_flush_buf_any fs w) as (o & fs1 & w1 & -> & Hw & Hf & Hok).
      eexists _, _, _. split_and!; [done..|]. intros Ho. destruct (Hok Ho) as [Hb Hd]. split; [|done].
      unfold bw_log at 1. by rewrite Hb, app_nil_r, Hw, Hd.
    - eexists _, _, _. split_and!; [done..|]. intros _. split; [done|].
      intros Hd. apply len_0_nil. pose proof (len_nonneg (bw_buf w)). lia. }
  destruct o1 as [[]|e| |]; try (eexists _, _, _; by split_and!).
  destruct (Hok1 eq_refl) as [Hl1 Hb1].
  destruct (Z.leb_spec BUF_CAPACITY (len d)) as [Hd|Hd].
  - destruct (file_write_any (bw_file w1) d fs1) as (o2 & fs2 & H2 & Hfr2 & Hok2).
    rewrite (on_fs_any _ _ _ _ _ H2). eexists _, _, _. split_and!; [done|done| |].
    + eapply frames_trans; [done|]. by rewrite <- Hw1.
    + intros Ho. specialize (Hok2 Ho). rewrite <- Hl1. unfold bw_log. rewrite Hok2, Hb1 by done.
      by rewrite !app_nil_r.
  - eexists _, _, _. split_and!; [done..|]. intros _. rewrite <- Hl1. unfold bw_log. simpl.
    by rewrite app_assoc.
Qed.

Lemma file_sync_any ino fs :
  exists o fs', file_sync ino fs = (o, fs') /\ frames ino fs fs' /\
    data_of fs' ino = data_of fs ino /\
    (o = Ok tt -> inode_of fs' ino = mkInode (data_of fs ino) (length (data_of fs ino))).
Proof.
  unfold file_sync.
  match goal with |- context [syscall ?run ?p fs] =>
    destruct (syscall_cases run p fs) as [[l ->]|[(e & n & l & ->)|(n & l & ->)]] end;
    eexists _, _; (split; [done|]).
  - split; [apply (frames_set_inode ino _ (set_faults l fs))|]. split.
    + rewrite data_of_set. by rewrite decide_True.
    + intros _. rewrite inode_of_set. by rewrite decide_True.
  - split; [apply (frames_faults ino l fs)|done].
  - split; [apply (frames_faults ino l fs)|done].
Qed.

Lemma bw_sync_all_any fs w :
  exists o fs', bw_sync_all (fs, w) = (o, (fs', w)) /\ frames (bw_file w) fs fs' /\
    (o = Ok tt -> inode_of fs' (bw_file w) =
       mkInode (data_of fs (bw_file w)) (length (data_of fs (bw_file w)))).
Proof.
  unfold bw_sync_all, gets, mbind, M_bind.
  destruct (file_sync_any (bw_file w) fs) as (o & fs' & H & Hf & _ & Hok).
  rewrite (on_fs_any _ _ _ _ _ H). by eexists _, _.
Qed.

Lemma bw_drop_any fs w :
  exists o fs' w', bw_drop (fs, w) = (o, (fs', w')) /\ frames (bw_file w) fs fs' /\
    (bw_buf w = [] -> o = Ok tt /\ fs' = fs).
Proof.
  unfold bw_drop. destruct (decide (bw_buf w = [])) as [Hb|Hb].
  { exists (Ok tt), fs, w. split; [|done]. unfold ignore, mbind, M_bind, try_, bw_flush_buf.
    by rewrite bool_decide_true. }
  destruct (bw_flush_buf_any fs w) as (o & fs' & w' & H & Hw & Hf & _).
  unfold ignore, mbind, M_bind, try_. rewrite H.
  destruct o; eexists _, _, _; (split; [done|]); (split; [done|]); done.
Qed.

(** [created name ino fs fs']: [name] refers to the empty file [ino]. *)
Definition created (name : string) (ino : nat) (fs fs' : Fs) : Prop :=
  dirents fs' = <[name := ino]> (dirents fs) /\ data_of fs' ino = [] /\
  (dirents fs !! name = Some ino \/ dirents fs !! name = None /\ ino = next_ino fs) /\
  next_ino fs' = Nat.max (next_ino fs) (S ino) /\
  forall ino', ino' <> ino -> inode_of fs' ino' = inode_of fs ino'.

Lemma file_create_any name fs :
  fs_wf fs ->
  exists o fs', file_create name fs = (o, fs') /\
    match o with
    | Ok ino => created name ino fs fs'
    | _ => exists l, fs' = set_faults l fs
    end.
Proof.
  intros [Hlt _]. unfold file_create.
  match goal with |- context [syscall ?run ?p fs] =>
    destruct (syscall_cases run p fs) as [[l ->]|[(e & n & l & ->)|(n & l & ->)]] end;
    [|eexists _, _; (split; [done|]); by exists l..].
  cbn [dirents set_faults]. destruct (dirents fs !! name) as [ino|] eqn:E.
  - eexists _, _. split; [done|]. split_and!.
    + cbn. by rewrite insert_id.
    + rewrite data_of_set. by rewrite decide_True.
    + by left.
    + specialize (Hlt _ _ E). simpl. lia.
    + intros i Hi. rewrite inode_of_set. by rewrite decide_False.
  - eexists _, _. split; [done|]. split_and!.
    + done.
    + unfold data_of, inode_of. simpl. by rewrite lookup_insert_eq.
    + by right.
    + simpl. lia.
    + intros i Hi. unfold inode_of. simpl. by rewrite lookup_insert_ne.
Qed.

(** The bytes of every other file survive. *)
Lemma created_inode name ino fs fs' n i :
  created name ino fs fs' -> fs_wf fs -> n <> name -> dirents fs !! n = Some i -> i <> ino.
Proof.
  intros (_ & _ & Hi & _ & _) [Hlt Hinj] Hn Hd ->. destruct Hi as [Hi|[_ ->]].
  - by apply Hn, (Hinj _ _ ino).
  - apply Hlt in Hd. lia.
Qed.

Lemma fs_rename_any from to fs :
  exists o fs', fs_rename from to fs = (o, fs') /\
    match o with
    | Ok _ => exists ino l, dirents fs !! from = Some ino /\
        fs' = set_faults l (set_dirents (<[to := ino]> (delete from (dirents fs))) fs)
    | _ => exists l, fs' = set_faults l fs
    end.
Proof.
  unfold fs_rename.
  match goal with |- context [syscall ?run ?p fs] =>
    destruct (syscall_cases run p fs) as [[l ->]|[(e & n & l & ->)|(n & l & ->)]] end;
    [|eexists _, _; (split; [done|]); by exists l..].
  cbn [dirents set_faults]. destruct (dirents fs !! from) as [ino|] eqn:E.
  - eexists _, _. split; [done|]. by exists ino, l.
  - eexists _, _. split; [done|]. by exists l.
Qed.

Lemma fs_remove_any name fs :
  exists o fs', fs_remove_file name fs = (o, fs') /\ inodes fs' = inodes fs /\ next_ino fs' = next_ino fs /\
    (dirents fs' = dirents fs \/ dirents fs' = delete name (dirents fs)).
Proof.
  unfold fs_remove_file.
  match goal with |- context [syscall ?run ?p fs] =>
    destruct (syscall_cases run p fs) as [[l ->]|[(e & n & l & ->)|(n & l & ->)]] end;
    [|eexists _, _; split_and!; [done..|by left]|eexists _, _; split_and!; [done..|by left]].
  cbn [dirents set_faults]. destruct (dirents fs !! name) as [ino|] eqn:E.
  - eexists _, _. split_and!; [done..|by right].
  - eexists _, _. split_and!; [done..|by left].
Qed.
