(* ===== verification/Crash.v ===== *)
(** * Stopping in the middle

    What a computation leaves behind when the process dies at one of its system
    calls: what the calls have done so far is kept, the buffers of the process are
    lost ([killed]).  A computation is [steady] when pending faults do not influence what
    it does before they strike: armed with a stop, it either runs as it would
    without, or ends in [Halt].  [crashes m s P] says that wherever [m] is
    stopped, what is on disk satisfies [P].  The rules follow the combinators of
    [Outcome], so that the state in which each part of a sequence starts is that
    of the fault-free run. *)

From S2P Require Import Prelude Outcome Fs.

(** ** States with a disk *)

Class Machine (S : Type) := {
  disk : S -> Fs;
  set_disk : Fs -> S -> S;
  disk_set f s : disk (set_disk f s) = f;
  set_disk_id s : set_disk (disk s) s = s;
  set_disk_set f g s : set_disk f (set_disk g s) = set_disk f s;
}.

#[export] Instance machine_fs : Machine Fs.
Proof. by refine {| disk := id; set_disk f _ := f |}. Defined.

#[export] Instance machine_pair {S W} `{Machine S} : Machine (S * W).
Proof.
  refine {| disk s := disk s.1; set_disk f s := (set_disk f s.1, s.2) |}.
  - intros f s. apply disk_set.
  - intros [s w]. cbn. by rewrite set_disk_id.
  - intros f g s. cbn. by rewrite set_disk_set.
Defined.

(** A part of the state that shares its disk. *)
Class Part {S T} `{Machine S, Machine T} (get : S -> T) (set : T -> S -> S) : Prop := {
  part_get f s : get (set_disk f s) = set_disk f (get s);
  part_set f g t s : set (set_disk f t) (set_disk g s) = set_disk f (set t s);
}.

#[export] Instance part_fs {W} : Part (S := Fs * W) (T := Fs) fst (fun fs s => (fs, snd s)).
Proof. by split. Qed.

Section machine.
Context {S : Type} `{Machine S}.
Implicit Types (s : S) (P Q : Fs -> Prop).

Definition calm s : Prop := faults (disk s) = [].

(** The process dies at the [n]-th system call from here; a write that is
    under way has transferred [k] bytes. *)
Definition arm (n k : nat) s : S := set_disk (set_faults (replicate n Pass ++ [Stop k]) (disk s)) s.

(** A stop is pending. *)
Definition stops s : Prop := exists n, Stop n ∈ faults (disk s).

Definition steady {A} (m : M S A) : Prop := forall s n k, calm s ->
  calm (m s).2 /\
  ((exists n', m (arm n k s) = ((m s).1, arm n' k (m s).2)) \/ (m (arm n k s)).1 = Halt).

Definition crashes {A} (m : M S A) s P : Prop := forall n k s',
  m (arm n k s) = (Halt, s') -> P (killed (disk s')).

(** Computations that leave the disk alone and do not look at it. *)
Definition inert {A} (m : M S A) : Prop := forall f s, m (set_disk f s) = ((m s).1, set_disk f (m s).2).

Lemma inert_disk {A} (m : M S A) s : inert m -> disk (m s).2 = disk s.
Proof.
  intros Hi. specialize (Hi (disk s) s). rewrite set_disk_id in Hi.
  apply (f_equal (fun r => disk r.2)) in Hi. cbn in Hi. by rewrite disk_set in Hi.
Qed.

Lemma inert_steady {A} (m : M S A) : inert m -> steady m.
Proof.
  intros Hi s n k Hs. unfold calm, arm. rewrite Hi, (inert_disk _ _ Hi). split; [done|left].
  by exists n.
Qed.

Lemma disk_arm n k s : killed (disk (arm n k s)) = killed (disk s).
Proof. unfold arm. by rewrite disk_set. Qed.

Lemma inert_crashes {A} (m : M S A) s P : inert m -> P (killed (disk s)) -> crashes m s P.
Proof.
  intros Hi HP n k s' Hm. unfold arm in Hm. rewrite Hi in Hm. injection Hm as _ <-. by rewrite disk_set.
Qed.

Lemma inert_ret {A} (a : A) : inert (mret a).
Proof. done. Qed.
Lemma inert_lift {A} (o : outcome A) : inert (lift o).
Proof. done. Qed.
Lemma inert_fail {A} err : inert (A := A) (fail err).
Proof. done. Qed.
Lemma inert_panic {A} : inert (A := A) panic.
Proof. done. Qed.

Lemma inert_bind {A B} (m : M S A) (f : A -> M S B) : inert m -> (forall a, inert (f a)) -> inert (m ≫= f).
Proof.
  intros Hm Hf d s. unfold mbind, M_bind. rewrite Hm. destruct (m s) as [[a|e| |] s1]; cbn; try done. apply Hf.
Qed.

(** ** Steadiness, by combinator *)

Lemma steady_bind {A B} (m : M S A) (f : A -> M S B) :
  steady m -> (forall a, steady (f a)) -> steady (m ≫= f).
Proof.
  intros Hm Hf s n k Hs. destruct (Hm s n k Hs) as [H1 H2]. unfold mbind, M_bind.
  destruct (m s) as [o s1] eqn:E. cbn [fst snd] in H1, H2. split.
  - destruct o; try done. by apply (Hf a s1 n k).
  - destruct H2 as [[n' ->]|Hh].
    + destruct o; try (left; by exists n'). by apply Hf.
    + right. destruct (m (arm n k s)) as [o' s2]. cbn in Hh. by subst o'.
Qed.

Lemma steady_try {A} (m : M S A) : steady m -> steady (try_ m).
Proof.
  intros Hm s n k Hs. destruct (Hm s n k Hs) as [H1 H2]. unfold try_.
  destruct (m s) as [o s1] eqn:E. cbn [fst snd] in H1, H2. split; [by destruct o|].
  destruct H2 as [[n' ->]|Hh].
  - left. exists n'. by destruct o.
  - right. destruct (m (arm n k s)) as [o' s2]. cbn in Hh. by subst o'.
Qed.

Lemma steady_ignore {A} (m : M S A) : steady m -> steady (ignore m).
Proof. intros Hm. apply steady_bind; [by apply steady_try|]. intros _. by apply inert_steady. Qed.

Lemma steady_guarded {A} (poison : S -> S) (m : M S A) :
  (forall f s, poison (set_disk f s) = set_disk f (poison s)) -> steady m -> steady (guarded poison m).
Proof.
  intros Hp Hm s n k Hs. destruct (Hm s n k Hs) as [H1 H2]. unfold guarded.
  destruct (m s) as [o s1] eqn:E. cbn [fst snd] in H1, H2.
  assert (disk (poison s1) = disk s1) as Hd
    by (rewrite <- (set_disk_id s1) at 1; by rewrite Hp, disk_set).
  split.
  - destruct o; try done. cbn. unfold calm. by rewrite Hd.
  - destruct H2 as [[n' ->]|Hh].
    + left. exists n'. destruct o; try done. cbn. unfold arm. by rewrite Hp, Hd.
    + right. destruct (m (arm n k s)) as [o' s2]. cbn in Hh. by subst o'.
Qed.

Lemma steady_catch {A} (m : M S A) : steady m -> steady (catch_unwind m).
Proof.
  intros Hm s n k Hs. destruct (Hm s n k Hs) as [H1 H2]. unfold catch_unwind.
  destruct (m s) as [o s1] eqn:E. cbn [fst snd] in H1, H2. split; [by destruct o|].
  destruct H2 as [[n' ->]|Hh].
  - left. exists n'. by destruct o.
  - right. destruct (m (arm n k s)) as [o' s2]. cbn in Hh. by subst o'.
Qed.

Lemma steady_for_each {A} (l : list A) (f : A -> M S unit) :
  (forall x, steady (f x)) -> steady (for_each l f).
Proof.
  intros Hf. induction l as [|x l IH]; [by apply inert_steady|]. apply steady_bind; [done|]. by intros _.
Qed.

Lemma steady_map_each {A B} (l : list A) (f : A -> M S B) :
  (forall x, steady (f x)) -> steady (map_each l f).
Proof.
  intros Hf. induction l as [|x l IH]; [by apply inert_steady|]. apply steady_bind; [done|]. intros y.
  apply steady_bind; [done|]. intros ys. by apply inert_steady.
Qed.

(** ** The crash condition, by combinator *)

Lemma crashes_mono {A} (m : M S A) s P Q : crashes m s P -> (forall fs, P fs -> Q fs) -> crashes m s Q.
Proof. intros Hm HPQ n k s' H'. by eapply HPQ, Hm. Qed.

Lemma crashes_bind {A B} (m : M S A) (f : A -> M S B) s P :
  calm s -> steady m -> crashes m s P ->
  (forall a s1, m s = (Ok a, s1) -> calm s1 -> crashes (f a) s1 P) -> crashes (m ≫= f) s P.
Proof.
  intros Hs Hm Hc Hf n k s'. unfold mbind, M_bind. destruct (Hm s n k Hs) as [H1 H2].
  specialize (Hc n k). destruct (m s) as [o s1] eqn:E. cbn [fst snd] in *.
  destruct H2 as [[n' Hn']|Hh].
  - rewrite Hn' in Hc |- *. destruct o; intros Heq; try discriminate Heq; [by eapply Hf|]. injection Heq as <-. by apply Hc.
  - destruct (m (arm n k s)) as [o' s2]. cbn in Hh. subst o'. intros [= <-]. by apply Hc.
Qed.

(** The same when the fault-free run of the first part is known. *)
Lemma crashes_bind_ok {A B} (m : M S A) (f : A -> M S B) s a s1 P :
  calm s -> m s = (Ok a, s1) -> steady m -> crashes m s P -> crashes (f a) s1 P -> crashes (m ≫= f) s P.
Proof. intros Hs Hrun Hm Hc Hf. apply crashes_bind; [done..|]. intros a' s1' H' _. rewrite Hrun in H'. by injection H' as <- <-. Qed.

(** A part that does not look at the disk cannot stop. *)
Lemma inert_arm {A} (m : M S A) s o s1 n k : inert m -> m s = (o, s1) -> m (arm n k s) = (o, arm n k s1).
Proof.
  intros Hi Hrun. unfold arm. rewrite Hi, Hrun. cbn.
  pose proof (inert_disk m s Hi) as Hd. rewrite Hrun in Hd. cbn in Hd. by rewrite Hd.
Qed.

Lemma crashes_bind_inert {A B} (m : M S A) (f : A -> M S B) s a s1 P :
  inert m -> m s = (Ok a, s1) -> crashes (f a) s1 P -> crashes (m ≫= f) s P.
Proof. intros Hi Hrun Hc n k s'. unfold mbind, M_bind. rewrite (inert_arm _ _ _ _ _ _ Hi Hrun). apply Hc. Qed.

Lemma crashes_inert {A} (m : M S A) s a s1 P : inert m -> m s = (Ok a, s1) -> crashes m s P.
Proof. intros Hi Hrun n k s'. by rewrite (inert_arm _ _ _ _ _ _ Hi Hrun). Qed.

Lemma crashes_ret {A} (a : A) s P : crashes (mret a) s P.
Proof. by intros n k s'. Qed.

Lemma crashes_try {A} (m : M S A) s P : crashes m s P -> crashes (try_ m) s P.
Proof.
  intros Hc n k s'. specialize (Hc n k). unfold try_. destruct (m (arm n k s)) as [[] s1]; try done.
  intros [= <-]. by apply Hc.
Qed.

Lemma crashes_ignore {A} (m : M S A) s P : calm s -> steady m -> crashes m s P -> crashes (ignore m) s P.
Proof.
  intros Hs Hm Hc. apply crashes_bind; [done|by apply steady_try|by apply crashes_try|].
  intros a s1 _ _. apply crashes_ret.
Qed.

Lemma crashes_guarded {A} poison (m : M S A) s P : crashes m s P -> crashes (guarded poison m) s P.
Proof.
  intros Hc n k s'. specialize (Hc n k). unfold guarded. destruct (m (arm n k s)) as [[] s1]; try done.
  intros [= <-]. by apply Hc.
Qed.

Lemma crashes_catch {A} (m : M S A) s P : crashes m s P -> crashes (catch_unwind m) s P.
Proof.
  intros Hc n k s'. specialize (Hc n k). unfold catch_unwind. destruct (m (arm n k s)) as [[] s1]; try done.
  intros [= <-]. by apply Hc.
Qed.

(** A loop whose state satisfies [I] of the elements that are left. *)
Lemma crashes_for_each {A} (f : A -> M S unit) (I : list A -> S -> Prop) l s P :
  (forall x, steady (f x)) -> calm s -> I l s ->
  (forall x l s, calm s -> I (x :: l) s -> crashes (f x) s P /\ forall s1, f x s = (Ok tt, s1) -> I l s1) ->
  crashes (for_each l f) s P.
Proof.
  intros Hst Hs HI Hf. revert s Hs HI. induction l as [|x l IH]; intros s Hs HI; [apply crashes_ret|].
  destruct (Hf x l s Hs HI) as [Hc Hnext]. apply crashes_bind; [done..|].
  intros [] s1 Hrun Hs1. by apply IH, Hnext.
Qed.

Lemma for_each_inv {A} (f : A -> M S unit) (I : list A -> S -> Prop) l s s1 :
  (forall x, steady (f x)) -> calm s -> I l s ->
  (forall x l s s1, calm s -> I (x :: l) s -> f x s = (Ok tt, s1) -> I l s1) ->
  for_each l f s = (Ok tt, s1) -> I [] s1.
Proof.
  intros Hst Hs HI Hf. revert s Hs HI. induction l as [|x l IH]; intros s Hs HI; [by intros [= <-]|].
  cbn [for_each]. unfold mbind, M_bind. destruct (f x s) as [[[]|e| |] s2] eqn:E; try done. intros H'.
  pose proof (Hst x s 0%nat 0%nat Hs) as [Hs2 _]. rewrite E in Hs2. eapply IH; [exact Hs2|exact (Hf _ _ _ _ Hs HI E)|exact H'].
Qed.

(** What holds of the disk after any run, whichever faults it met. *)
Lemma crashes_any {A} (m : M S A) s P :
  (forall l o s', m (set_disk (set_faults l (disk s)) s) = (o, s') -> P (killed (disk s'))) -> crashes m s P.
Proof. intros HP n k s' Hm. by eapply HP. Qed.

(** ** Running to a stop or to the end *)

(** An armed run either is the fault-free one or stops in the middle. *)
Lemma armed_run {A} (m : M S A) s n k P :
  calm s -> steady m -> crashes m s P ->
  (exists n', m (arm n k s) = ((m s).1, arm n' k (m s).2)) \/
  (exists s', m (arm n k s) = (Halt, s') /\ P (killed (disk s'))).
Proof.
  intros Hs Hm Hc. destruct (Hm s n k Hs) as [_ [H'|Hh]]; [by left|right].
  destruct (m (arm n k s)) as [o s'] eqn:E. cbn in Hh. subst o. exists s'. split; [done|]. by eapply Hc.
Qed.
End machine.

(** ** Scopes *)

Section scope.
Context {S W : Type} `{Machine S}.
Implicit Types (s : S) (w : W).

Lemma steady_scoped {A} w (body : M (S * W) A) dtor : steady body -> steady dtor -> steady (scoped w body dtor).
Proof.
  intros Hb Hd s n k Hs. destruct (Hb (s, w) n k Hs) as [H1 H2]. unfold scoped.
  change (arm n k (s, w)) with (arm n k s, w) in H2.
  destruct (body (s, w)) as [o [s1 w1]] eqn:E. cbn [fst snd] in H1, H2.
  destruct (Hd (s1, w1) n k H1) as [Hc _]. destruct (dtor (s1, w1)) as [o2 [s2 w2]] eqn:Ed. cbn [fst snd] in Hc.
  split; [destruct o, o2; done|].
  destruct H2 as [[n' ->]|Hh]; [|right; by destruct (body (arm n k s, w)) as [[] []]].
  destruct (Hd (s1, w1) n' k H1) as [_ H2].
  change (arm n' k (s1, w1)) with (arm n' k s1, w1) in H2 |- *. rewrite Ed in H2. cbn [fst snd] in H2.
  destruct H2 as [[n2 Hn2]|Hh].
  - rewrite Hn2. left. destruct o; [exists n2|exists n2|exists n2|exists n']; by destruct o2.
  - destruct (dtor (arm n' k s1, w1)) as [o3 [s3 w3]]. cbn in Hh. subst o3.
    destruct o; [right|right|right|left]; try done. by exists n'.
Qed.

Lemma steady_moved {A} w (body : M (S * W) A) dtor : steady body -> steady dtor -> steady (moved w body dtor).
Proof.
  intros Hb Hd s n k Hs. destruct (Hb (s, w) n k Hs) as [H1 H2]. unfold moved.
  change (arm n k (s, w)) with (arm n k s, w) in H2.
  destruct (body (s, w)) as [o [s1 w1]] eqn:E. cbn [fst snd] in H1, H2.
  destruct (Hd (s1, w1) n k H1) as [Hc _]. destruct (dtor (s1, w1)) as [o2 [s2 w2]] eqn:Ed. cbn [fst snd] in Hc.
  split; [destruct o, o2; done|].
  destruct H2 as [[n' ->]|Hh]; [|right; by destruct (body (arm n k s, w)) as [[] []]].
  destruct (Hd (s1, w1) n' k H1) as [_ H2].
  change (arm n' k (s1, w1)) with (arm n' k s1, w1) in H2 |- *. rewrite Ed in H2. cbn [fst snd] in H2.
  destruct H2 as [[n2 Hn2]|Hh].
  - rewrite Hn2. left. destruct o; [exists n'|exists n2|exists n2|exists n']; by destruct o2.
  - destruct (dtor (arm n' k s1, w1)) as [o3 [s3 w3]]. cbn in Hh. subst o3.
    destruct o; [left|right|right|left]; try done; by exists n'.
Qed.

Lemma crashes_scoped {A} w (body : M (S * W) A) dtor s P :
  calm s -> steady body -> crashes body (s, w) P ->
  (forall o s1 w1, body (s, w) = (o, (s1, w1)) -> calm s1 -> crashes dtor (s1, w1) P) ->
  (forall s1 w1, body (s, w) <> (Halt, (s1, w1))) ->
  crashes (scoped w body dtor) s P.
Proof.
  intros Hs Hb Hc Hd Hnh n k s'. destruct (Hb (s, w) n k Hs) as [H1 H2]. specialize (Hc n k). unfold scoped.
  change (arm n k (s, w)) with (arm n k s, w) in H2, Hc.
  destruct (body (s, w)) as [o [s1 w1]] eqn:E. cbn [fst snd] in H1, H2.
  destruct H2 as [[n' Hn']|Hh].
  - rewrite Hn'. change (arm n' k (s1, w1)) with (arm n' k s1, w1). cbn beta iota.
    pose proof (Hd o s1 w1 eq_refl H1 n' k) as Hd'. change (arm n' k (s1, w1)) with (arm n' k s1, w1) in Hd'.
    destruct o; [| | |by destruct (Hnh s1 w1)];
      destruct (dtor (arm n' k s1, w1)) as [[] [s2 w2]]; intros [= <-]; try done; by apply (Hd' (s2, w2)).
  - destruct (body (arm n k s, w)) as [o' [s2 w2]]. cbn in Hh. subst o'. intros [= <-]. by apply (Hc (s2, w2)).
Qed.

Lemma crashes_moved_ok {A} w (body : M (S * W) A) dtor s a s1 w1 P :
  calm s -> steady body -> crashes body (s, w) P -> body (s, w) = (Ok a, (s1, w1)) ->
  crashes (moved w body dtor) s P.
Proof.
  intros Hs Hb Hc E n k s'. destruct (Hb (s, w) n k Hs) as [H1 H2]. specialize (Hc n k). unfold moved.
  change (arm n k (s, w)) with (arm n k s, w) in H2, Hc. rewrite E in H2. cbn [fst snd] in H2.
  destruct H2 as [[n' Hn']|Hh].
  - by rewrite Hn'.
  - destruct (body (arm n k s, w)) as [o' [s2 w2]]. cbn in Hh. subst o'. intros [= <-]. by apply (Hc (s2, w2)).
Qed.
End scope.

Section zoom.
Context {S T : Type} `{Machine S, Machine T} (get : S -> T) (set : T -> S -> S) `{!Part get set}.

Lemma part_disk s : disk (get s) = disk s.
Proof. rewrite <- (set_disk_id s) at 1. by rewrite (part_get (get := get)), disk_set. Qed.

Lemma part_disk_set t s : disk (set t s) = disk t.
Proof.
  rewrite <- (set_disk_id t) at 1. rewrite <- (set_disk_id s) at 1. by rewrite (part_set (set := set)), disk_set.
Qed.

Lemma part_arm n k s : get (arm n k s) = arm n k (get s).
Proof. unfold arm. by rewrite (part_get (get := get)), part_disk. Qed.

Lemma steady_zoom {A} (m : M T A) : steady m -> steady (zoom get set m).
Proof.
  intros Hm s n k Hs. unfold zoom. rewrite part_arm.
  destruct (Hm (get s) n k) as [H1 H2]; [unfold calm; by rewrite part_disk|].
  destruct (m (get s)) as [o t] eqn:E. cbn [fst snd] in *. split; [unfold calm; by rewrite part_disk_set|].
  destruct H2 as [[n' ->]|Hh].
  - left. exists n'. unfold arm at 1 2. rewrite (part_set (set := set)). unfold arm. by rewrite part_disk_set.
  - right. by destruct (m (arm n k (get s))).
Qed.

Lemma crashes_zoom {A} (m : M T A) s P : crashes m (get s) P -> crashes (zoom get set m) s P.
Proof.
  intros Hc n k s'. unfold zoom. rewrite part_arm. specialize (Hc n k).
  destruct (m (arm n k (get s))) as [o t]. intros [= -> <-]. rewrite part_disk_set. by apply Hc.
Qed.
End zoom.

Lemma steady_on_fs {W A} (m : M Fs A) : steady m -> steady (on_fs (W := W) m).
Proof. apply steady_zoom. apply _. Qed.

Lemma crashes_on_fs {W A} (m : M Fs A) fs (w : W) P : crashes m fs P -> crashes (on_fs m) (fs, w) P.
Proof. intros Hc. by apply (crashes_zoom fst (fun fs s => (fs, snd s)) m (fs, w)). Qed.

Lemma killed_calm fs : calm fs -> killed fs = fs.
Proof. destruct fs. unfold calm. cbn. by intros ->. Qed.

(** ** System calls *)

Lemma steady_syscall {A} (run : M Fs A) p :
  (forall l fs, run (set_faults l fs) = ((run fs).1, set_faults l (run fs).2)) -> steady (syscall run p).
Proof.
  intros Hr fs n k Hs. unfold calm in Hs. cbn in Hs. unfold syscall at 1 2 3. rewrite Hs. split.
  - unfold calm. cbn. specialize (Hr (faults fs) fs). rewrite Hs in Hr.
    replace (set_faults [] fs) with fs in Hr by (symmetry; by apply killed_calm).
    apply (f_equal (fun r => faults r.2)) in Hr. done.
  - destruct n as [|n]; [by right|left]. exists n. unfold syscall, arm. cbn.
    change (set_faults _ (set_faults _ fs)) with (set_faults (replicate n Pass ++ [Stop k]) fs). by rewrite Hr, Hs.
Qed.

(** A call that changes nothing until it is carried out. *)
Lemma crashes_syscall {A} (run : M Fs A) fs P :
  (forall l fs, run (set_faults l fs) = ((run fs).1, set_faults l (run fs).2)) ->
  calm fs -> P fs -> (run fs).1 <> Halt -> crashes (syscall run nothing) fs P.
Proof.
  intros Hr Hs HP Ho n k fs'. unfold syscall, arm. cbn. destruct n as [|n]; cbn.
  - unfold nothing. intros [= <-]. change (P (killed fs)). by rewrite killed_calm.
  - change (set_faults _ (set_faults _ fs)) with (set_faults (replicate n Pass ++ [Stop k]) fs). rewrite Hr.
    intros [= Hh _]. done.
Qed.

Ltac syscall_tac :=
  intros; cbn; unfold data_of, inode_of; cbn; repeat (case_match || case_decide); simplify_eq; try done.

Lemma crashes_file_create name fs P : calm fs -> P fs -> crashes (file_create name) fs P.
Proof. intros Hs HP. apply crashes_syscall; [syscall_tac|done|done|]. cbn. by destruct (dirents fs !! name). Qed.
Lemma crashes_file_sync ino fs P : calm fs -> P fs -> crashes (file_sync ino) fs P.
Proof. intros Hs HP. by apply crashes_syscall; [syscall_tac|..]. Qed.
Lemma crashes_fs_rename from to fs P : calm fs -> P fs -> crashes (fs_rename from to) fs P.
Proof. intros Hs HP. apply crashes_syscall; [syscall_tac|done|done|]. cbn. by destruct (dirents fs !! from). Qed.
Lemma crashes_fs_remove_file name fs P : calm fs -> P fs -> crashes (fs_remove_file name) fs P.
Proof. intros Hs HP. apply crashes_syscall; [syscall_tac|done|done|]. cbn. by destruct (dirents fs !! name). Qed.

Lemma steady_file_create name : steady (file_create name).
Proof. apply steady_syscall. syscall_tac. Qed.
Lemma steady_file_open name : steady (file_open name).
Proof. apply steady_syscall. syscall_tac. Qed.
Lemma steady_file_write ino d : steady (file_write ino d).
Proof. apply steady_syscall. syscall_tac. Qed.
Lemma steady_file_sync ino : steady (file_sync ino).
Proof. apply steady_syscall. syscall_tac. Qed.
Lemma steady_file_len ino : steady (file_len ino).
Proof. apply steady_syscall. syscall_tac. Qed.
Lemma steady_file_read_exact_at ino off n : steady (file_read_exact_at ino off n).
Proof. apply steady_syscall. syscall_tac. Qed.
Lemma steady_file_read_to_end ino : steady (file_read_to_end ino).
Proof. apply steady_syscall. syscall_tac. Qed.
Lemma steady_fs_read name : steady (fs_read name).
Proof. apply steady_syscall. syscall_tac. Qed.
Lemma steady_fs_rename from to : steady (fs_rename from to).
Proof. apply steady_syscall. syscall_tac. Qed.
Lemma steady_fs_remove_file name : steady (fs_remove_file name).
Proof. apply steady_syscall. syscall_tac. Qed.
Lemma steady_fs_create_dir_all : steady fs_create_dir_all.
Proof. apply steady_syscall. syscall_tac. Qed.
Lemma steady_fs_read_dir : steady fs_read_dir.
Proof. apply steady_syscall. syscall_tac. Qed.

Lemma steady_fs_metadata name : steady (fs_metadata name).
Proof. apply steady_syscall. syscall_tac. Qed.

Lemma steady_fs_exists name : steady (fs_exists name).
Proof. apply steady_bind; [by apply steady_try, steady_fs_metadata|]. intros r. by apply inert_steady. Qed.

(** ** Quiet computations

    They may read the disk and change the rest of the state, but leave the disk
    as it is whatever happens. *)

Definition quiet {S} `{Machine S} {A} (m : M S A) : Prop := forall s, killed (disk (m s).2) = killed (disk s).

Section quiet.
Context {S : Type} `{Machine S}.

Lemma quiet_crashes {A} (m : M S A) s (P : Fs -> Prop) : quiet m -> P (killed (disk s)) -> crashes m s P.
Proof.
  intros Hq HP n k s' Hm. specialize (Hq (arm n k s)). rewrite Hm, disk_arm in Hq. cbn in Hq. by rewrite Hq.
Qed.

Lemma inert_quiet {A} (m : M S A) : inert m -> quiet m.
Proof. intros Hi s. by rewrite inert_disk. Qed.

Lemma quiet_bind {A B} (m : M S A) (f : A -> M S B) : quiet m -> (forall a, quiet (f a)) -> quiet (m ≫= f).
Proof.
  intros Hm Hf s. specialize (Hm s). unfold mbind, M_bind. destruct (m s) as [[a|e| |] s1]; try done.
  by rewrite (Hf a s1).
Qed.

Lemma quiet_try {A} (m : M S A) : quiet m -> quiet (try_ m).
Proof. intros Hm s. specialize (Hm s). unfold try_. by destruct (m s) as [[] s1]. Qed.

Lemma quiet_guarded {A} (poison : S -> S) (m : M S A) :
  (forall s, disk (poison s) = disk s) -> quiet m -> quiet (guarded poison m).
Proof. intros Hp Hm s. specialize (Hm s). unfold guarded. destruct (m s) as [[] s1]; cbn; by rewrite ?Hp. Qed.

Lemma quiet_map_each {A B} (l : list A) (f : A -> M S B) : (forall x, quiet (f x)) -> quiet (map_each l f).
Proof.
  intros Hf. induction l as [|x l IH]; [done|]. apply quiet_bind; [done|]. intros y.
  apply quiet_bind; [done|]. intros ys. done.
Qed.

Lemma quiet_for_each {A} (l : list A) (f : A -> M S unit) : (forall x, quiet (f x)) -> quiet (for_each l f).
Proof. intros Hf. induction l as [|x l IH]; [done|]. apply quiet_bind; [done|]. by intros _. Qed.

Lemma quiet_zoom {T} `{Machine T} (get : S -> T) set `{!Part get set} {A} (m : M T A) :
  quiet m -> quiet (zoom get set m).
Proof.
  intros Hm s. specialize (Hm (get s)). unfold zoom. destruct (m (get s)) as [o t]. cbn [snd] in *.
  by rewrite (part_disk_set get set), Hm, (part_disk get set).
Qed.
End quiet.

Lemma quiet_on_fs {W A} (m : M Fs A) : quiet m -> quiet (on_fs (W := W) m).
Proof. apply quiet_zoom. apply _. Qed.

Lemma quiet_syscall {A} (run : M Fs A) : (forall fs, (run fs).2 = fs) -> quiet (syscall run nothing).
Proof.
  intros Hr fs. unfold syscall. destruct (faults fs) as [|[] l]; try done; by rewrite Hr.
Qed.

Lemma quiet_file_open name : quiet (file_open name).
Proof. apply quiet_syscall. syscall_tac. Qed.
Lemma quiet_file_len ino : quiet (file_len ino).
Proof. apply quiet_syscall. syscall_tac. Qed.
Lemma quiet_file_read_exact_at ino off n : quiet (file_read_exact_at ino off n).
Proof. apply quiet_syscall. syscall_tac. Qed.
Lemma quiet_file_read_to_end ino : quiet (file_read_to_end ino).
Proof. apply quiet_syscall. syscall_tac. Qed.
Lemma quiet_fs_read name : quiet (fs_read name).
Proof. apply quiet_syscall. syscall_tac. Qed.
Lemma quiet_fs_create_dir_all : quiet fs_create_dir_all.
Proof. apply quiet_syscall. syscall_tac. Qed.
Lemma quiet_fs_read_dir : quiet fs_read_dir.
Proof. apply quiet_syscall. syscall_tac. Qed.
Lemma quiet_fs_metadata name : quiet (fs_metadata name).
Proof. apply quiet_syscall. syscall_tac. Qed.
Lemma quiet_fs_exists name : quiet (fs_exists name).
Proof. apply quiet_bind; [by apply quiet_try, quiet_fs_metadata|done]. Qed.

(** ** Automation *)

Create HintDb steady.
#[export] Hint Resolve steady_file_create steady_file_open steady_file_write steady_file_sync steady_file_len
  steady_file_read_exact_at steady_file_read_to_end steady_fs_read steady_fs_rename steady_fs_remove_file
  steady_fs_create_dir_all steady_fs_read_dir steady_fs_exists : steady.
#[export] Hint Resolve inert_ret inert_lift inert_fail inert_panic : steady.
#[export] Hint Resolve quiet_file_open quiet_file_len quiet_file_read_exact_at quiet_file_read_to_end
  quiet_fs_read quiet_fs_create_dir_all quiet_fs_read_dir quiet_fs_exists : steady.

(** One step of the three structural judgements. *)
Ltac steady_step :=
  lazymatch goal with
  | |- forall _, _ => intros
  | |- let _ := _ in _ => intros
  | |- steady (mbind _ _) => apply steady_bind
  | |- steady (try_ _) => apply steady_try
  | |- steady (ignore _) => apply steady_ignore
  | |- steady (catch_unwind _) => apply steady_catch
  | |- steady (for_each _ _) => apply steady_for_each
  | |- steady (map_each _ _) => apply steady_map_each
  | |- steady (scoped _ _ _) => apply steady_scoped
  | |- steady (moved _ _ _) => apply steady_moved
  | |- steady (on_fs _) => apply steady_on_fs
  | |- steady (match ?x with _ => _ end) => destruct x
  | |- steady _ => first [solve [eauto 2 with steady] | apply inert_steady; solve [eauto 2 with steady | by intros ? [??]]]
  | |- quiet (mbind _ _) => apply quiet_bind
  | |- quiet (try_ _) => apply quiet_try
  | |- quiet (map_each _ _) => apply quiet_map_each
  | |- quiet (on_fs _) => apply quiet_on_fs
  | |- quiet (match ?x with _ => _ end) => destruct x
  | |- quiet _ => first [solve [eauto 2 with steady] | apply inert_quiet; solve [eauto 2 with steady | by intros ? [??]]]
  end.
Ltac steady_tac := repeat (steady_step; cbn zeta).

(** ** Buffered writers *)

Lemma steady_bw_flush_buf : steady bw_flush_buf.
Proof.
  intros [fs w] n k Hs. unfold bw_flush_buf.
  change (arm n k (fs, w)) with (arm n k fs, w). cbn beta iota.
  case_bool_decide as Hb; [split; [done|left]; by exists n|].
  destruct (steady_file_write (bw_file w) (bw_buf w) fs n k Hs) as [H1 H2].
  change (data_of (arm n k fs) (bw_file w)) with (data_of fs (bw_file w)).
  destruct (file_write (bw_file w) (bw_buf w) fs) as [o fs1]. cbn [fst snd] in H1, H2 |- *. split; [done|].
  destruct H2 as [[n' ->]|Hh]; [left; by exists n'|right].
  destruct (file_write _ _ (arm n k fs)) as [o' fs']. cbn in Hh |- *. exact Hh.
Qed.
#[export] Hint Resolve steady_bw_flush_buf : steady.

Lemma steady_bw_push d : steady (bw_push d).
Proof. apply inert_steady. by intros ? []. Qed.
#[export] Hint Resolve steady_bw_push : steady.

Lemma steady_bw_write_all d : steady (bw_write_all d).
Proof. unfold bw_write_all. steady_tac. Qed.
Lemma steady_bw_flush : steady bw_flush.
Proof. apply steady_bw_flush_buf. Qed.
Lemma steady_bw_sync_all : steady bw_sync_all.
Proof. unfold bw_sync_all. steady_tac. Qed.
Lemma steady_bw_drop : steady bw_drop.
Proof. unfold bw_drop. steady_tac. Qed.
#[export] Hint Resolve steady_bw_write_all steady_bw_flush steady_bw_sync_all steady_bw_drop : steady.

(** [grows ino d fs fs']: a part of [d] was appended to [ino]; nothing else
    changed. *)
Definition grows (ino : nat) (d : bytes) (fs fs' : Fs) : Prop :=
  frames ino fs fs' /\ exists j, data_of fs' ino = data_of fs ino ++ take j d.

Lemma grows_refl ino d fs : grows ino d fs fs.
Proof. split; [apply frames_refl|]. exists 0%nat. by rewrite app_nil_r. Qed.

Lemma grows_app ino d d' fs fs' : grows ino d fs fs' -> grows ino (d ++ d') fs fs'.
Proof.
  intros [Hf [j Hj]]. split; [done|]. exists (Nat.min j (length d)).
  rewrite Hj, take_app_le by lia. by rewrite <- take_take, firstn_all.
Qed.

Lemma grows_trans ino d1 d2 fs1 fs2 fs3 :
  frames ino fs1 fs2 -> data_of fs2 ino = data_of fs1 ino ++ d1 -> grows ino d2 fs2 fs3 ->
  grows ino (d1 ++ d2) fs1 fs3.
Proof.
  intros F1 D1 [F2 [j Hj]]. split; [by eapply frames_trans|]. exists (length d1 + j)%nat.
  rewrite Hj, D1, <- app_assoc. f_equal. rewrite take_app_ge by lia. do 2 f_equal. lia.
Qed.

Lemma file_write_grows ino d fs o fs' : file_write ino d fs = (o, fs') -> grows ino d fs fs'.
Proof.
  unfold file_write. intros H.
  destruct (syscall_cases (fun fs => (Ok tt, append_bytes ino d fs)) (fun n => append_bytes ino (take n d)) fs)
    as [[l E]|[(e & n & l & E)|(n & l & E)]]; rewrite E in H; injection H as <- <-.
  - split; [apply (frames_append ino d (set_faults l fs))|]. exists (length d).
    rewrite data_of_append, decide_True by done. by rewrite firstn_all.
  - split; [apply (frames_append ino (take n d) (set_faults l fs))|]. exists n.
    by rewrite data_of_append, decide_True by done.
  - split; [apply (frames_append ino (take n d) (set_faults l fs))|]. exists n.
    by rewrite data_of_append, decide_True by done.
Qed.

Lemma bw_flush_buf_grows fs w o fs' w' :
  bw_flush_buf (fs, w) = (o, (fs', w')) -> grows (bw_file w) (bw_buf w) fs fs'.
Proof.
  unfold bw_flush_buf. case_bool_decide; [intros [= <- <- <-]; apply grows_refl|].
  destruct (file_write (bw_file w) (bw_buf w) fs) as [o1 fs1] eqn:E. intros [= <- <- <-].
  by eapply file_write_grows.
Qed.

Lemma bw_write_all_grows fs w d o fs' w' :
  bw_write_all d (fs, w) = (o, (fs', w')) -> grows (bw_file w) (bw_buf w ++ d) fs fs'.
Proof.
  unfold bw_write_all, gets, mbind, M_bind.
  destruct (Z.ltb_spec (len d) (BUF_CAPACITY - len (bw_buf w))); [intros [= <- <- <-]; apply grows_refl|].
  destruct (Z.ltb_spec (BUF_CAPACITY - len (bw_buf w)) (len d)).
  - destruct (bw_flush_buf_any fs w) as (o1 & fs1 & w1 & E & W1 & F1 & K1). rewrite E.
    pose proof (bw_flush_buf_grows _ _ _ _ _ E) as G1.
    destruct o1 as [[]|e| |]; try (intros [= <- <- <-]; by apply grows_app).
    destruct (K1 eq_refl) as [B1 D1].
    destruct (Z.leb_spec BUF_CAPACITY (len d)); [|intros [= <- <- <-]; by apply grows_app].
    unfold on_fs, zoom. cbn [fst]. destruct (file_write (bw_file w1) d fs1) as [o2 fs2] eqn:E2.
    intros [= <- <- <-]. apply file_write_grows in E2. rewrite W1 in E2. by eapply grows_trans.
  - destruct (Z.leb_spec BUF_CAPACITY (len d)); [|intros [= <- <- <-]; apply grows_refl].
    unfold on_fs, zoom. cbn [fst mret M_ret]. destruct (file_write (bw_file w) d fs) as [o2 fs2] eqn:E2.
    intros [= <- <- <-]. apply file_write_grows in E2.
    assert (bw_buf w = []) as -> by (apply len_0_nil; pose proof (len_nonneg (bw_buf w)); lia). done.
Qed.

Lemma bw_sync_all_grows fs w d o fs' w' :
  bw_sync_all (fs, w) = (o, (fs', w')) -> grows (bw_file w) d fs fs'.
Proof.
  unfold bw_sync_all, gets, mbind, M_bind. destruct (file_sync_any (bw_file w) fs) as (o1 & fs1 & E & F1 & D1 & _).
  rewrite (on_fs_any _ _ _ _ _ E). intros [= <- <- <-]. split; [done|]. exists 0%nat. by rewrite D1, app_nil_r.
Qed.

(** Wherever a call on a buffered writer stops, a part of what the writer was
    given has reached the file. *)
Definition may_grow (ino : nat) (d : bytes) (P : Fs -> Prop) (fs : Fs) : Prop :=
  forall fs', grows ino d fs fs' -> P (killed fs').

Lemma crashes_bw_write_all d fs w P :
  may_grow (bw_file w) (bw_buf w ++ d) P fs -> crashes (bw_write_all d) (fs, w) P.
Proof.
  intros HP. apply crashes_any. intros l o [fs' w'] H. apply bw_write_all_grows in H. cbn. by apply HP.
Qed.

Lemma crashes_bw_flush fs w P : may_grow (bw_file w) (bw_buf w) P fs -> crashes bw_flush (fs, w) P.
Proof.
  intros HP. apply crashes_any. intros l o [fs' w'] H. apply bw_flush_buf_grows in H. cbn. by apply HP.
Qed.

Lemma crashes_bw_drop fs w P : calm fs -> may_grow (bw_file w) (bw_buf w) P fs -> crashes bw_drop (fs, w) P.
Proof. intros Hs HP. apply crashes_ignore; [done|apply steady_bw_flush_buf|by apply crashes_bw_flush]. Qed.

Lemma crashes_bw_sync_all fs w P : calm fs -> P fs -> crashes bw_sync_all (fs, w) P.
Proof.
  intros Hs HP. unfold bw_sync_all. eapply crashes_bind_ok; [done|done|by apply inert_steady; intros ? []|..].
  - by intros n k s'.
  - apply crashes_on_fs, crashes_syscall; [syscall_tac|done..].
Qed.
