(* ===== verification/MemTable.v ===== *)
(** * The in-memory table ([src/src/memtable/mod.rs])

    A [SkipMap] of entries, tombstones included, and a running estimate of the
    resident bytes. *)

From S2P Require Import Prelude Outcome External.

(** ** Definitions *)

Definition ENTRY_OVERHEAD : Z := 64.

Record Entry := mkEntry { value : bytes; deleted : bool }.

#[export] Instance Entry_eq_dec : EqDecision Entry.
Proof. solve_decision. Defined.

(** A write: the key and the entry it stores. *)
Abbreviation mutation := (prod (list Byte.byte) Entry).

(** The value a reader sees through an entry. *)
Definition entry_value (e : Entry) : option bytes :=
  if deleted e then None else Some (value e).

Section memtable.
Context {SM : SkipMap Entry}.

Record MemTable := mkMemTable {
  map : skipmap Entry;
  approximate_size : Z;
}.

Definition new : MemTable := mkMemTable sm_new 0.

(** [MemTable::default()] *)
Definition default_memtable : MemTable := new.

(** [AtomicUsize::fetch_add] wraps. *)
Definition bump_approximate_size (payload_bytes : Z) : M MemTable unit :=
  n ← lift (uadd payload_bytes ENTRY_OVERHEAD);
  modify (fun t => mkMemTable (map t) ((approximate_size t + n) mod 2 ^ 64)).

Definition put (key val : bytes) : M MemTable unit :=
  n ← lift (uadd (len key) (len val));
  _ ← bump_approximate_size n;
  modify (fun t => mkMemTable (sm_insert key (mkEntry val false) (map t)) (approximate_size t)).

Definition delete (key : bytes) : M MemTable unit :=
  _ ← bump_approximate_size (len key);
  modify (fun t => mkMemTable (sm_insert key (mkEntry [] true) (map t)) (approximate_size t)).

Definition get_entry (t : MemTable) (key : bytes) : option Entry := sm_get key (map t).

Definition get (t : MemTable) (key : bytes) : option bytes :=
  match sm_get key (map t) with
  | None => None
  | Some entry => if deleted entry then None else Some (value entry)
  end.

Definition is_empty (t : MemTable) : bool := sm_is_empty (map t).
Definition mem_len (t : MemTable) : Z := sm_len (map t).
Definition iter (t : MemTable) : list (bytes * Entry) := sm_iter (map t).

(** ** Specification: a table is the outcome of a history of writes *)

Definition apply_mutation (t : MemTable) (m : mutation) : option MemTable :=
  match (if deleted m.2 then delete m.1 else put m.1 (value m.2)) t with
  | (Ok _, t') => Some t'
  | _ => None
  end.

(** The last write of a history to a key. *)
Definition last_write (h : list mutation) (k : bytes) : option Entry :=
  assoc k (rev h).

Definition payload (m : mutation) : Z := len m.1 + len (value m.2) + ENTRY_OVERHEAD.

Definition fits (m : mutation) : Prop := payload m <= usize_max.

(** A mutation the API can issue: a tombstone carries no value. *)
Definition well_formed (m : mutation) : Prop := deleted m.2 = true -> value m.2 = [].

(** ** Lemmas *)

Lemma get_entry_get t k : get t k = get_entry t k ≫= entry_value.
Proof. unfold get, get_entry, entry_value. by destruct (sm_get k (map t)). Qed.

Lemma iter_sorted t : keys_sorted (iter t).
Proof. apply sm_iter_sorted. Qed.

Lemma iter_get_entry t k : assoc k (iter t) = get_entry t k.
Proof. apply sm_iter_get. Qed.

Lemma mem_len_iter t : mem_len t = len (iter t).
Proof. apply sm_len_iter. Qed.

Lemma is_empty_iter t : is_empty t = true <-> iter t = [].
Proof. unfold is_empty. rewrite sm_is_empty_iter. apply bool_decide_eq_true. Qed.

Lemma put_run t k v :
  len k + len v + ENTRY_OVERHEAD <= usize_max ->
  put k v t = (Ok tt, mkMemTable (sm_insert k (mkEntry v false) (map t))
                        ((approximate_size t + (len k + len v + ENTRY_OVERHEAD)) mod 2 ^ 64)).
Proof.
  intros H. unfold put, bump_approximate_size, lift, modify, mbind, M_bind.
  unfold ENTRY_OVERHEAD in *. rewrite uadd_ok by lia. by rewrite uadd_ok by lia.
Qed.

Lemma delete_run t k :
  len k + ENTRY_OVERHEAD <= usize_max ->
  delete k t = (Ok tt, mkMemTable (sm_insert k (mkEntry [] true) (map t))
                         ((approximate_size t + (len k + ENTRY_OVERHEAD)) mod 2 ^ 64)).
Proof.
  intros H. unfold delete, bump_approximate_size, lift, modify, mbind, M_bind.
  by rewrite uadd_ok by lia.
Qed.

Lemma apply_mutation_run t m :
  fits m -> well_formed m ->
  apply_mutation t m =
    Some (mkMemTable (sm_insert m.1 m.2 (map t)) ((approximate_size t + payload m) mod 2 ^ 64)).
Proof.
  destruct m as [k [v d]]. unfold fits, well_formed, payload, apply_mutation. simpl.
  intros Hf Hw. destruct d.
  - specialize (Hw eq_refl) as ->. rewrite len_nil in *.
    rewrite delete_run by lia. do 3 f_equal. lia.
  - by rewrite put_run by lia.
Qed.

(** Runs a whole history of mutations. *)
Fixpoint apply_all (t : MemTable) (h : list mutation) : option MemTable :=
  match h with
  | [] => Some t
  | m :: h => t' ← apply_mutation t m; apply_all t' h
  end.

Lemma apply_all_get t h t' k :
  Forall fits h -> Forall well_formed h -> apply_all t h = Some t' ->
  get_entry t' k = match last_write h k with Some e => Some e | None => get_entry t k end.
Proof.
  revert t. induction h as [|m h IH]; intros t; simpl; [by intros _ _ [= ->]|].
  intros Hf Hw. inversion_clear Hf as [|? ? Hf1 Hf2]. inversion_clear Hw as [|? ? Hw1 Hw2].
  rewrite apply_mutation_run by done. simpl. intros Ht.
  rewrite (IH _ Hf2 Hw2 Ht). unfold last_write. simpl. rewrite assoc_app.
  destruct (assoc k (rev h)); [done|]. unfold get_entry. simpl.
  rewrite sm_get_insert. destruct m as [k' e]. simpl. by case_decide.
Qed.

Lemma apply_all_total t h :
  Forall fits h -> Forall well_formed h -> exists t', apply_all t h = Some t'.
Proof.
  revert t. induction h as [|m h IH]; intros t Hf Hw; simpl; [by eexists|].
  inversion_clear Hf. inversion_clear Hw.
  rewrite apply_mutation_run by done. by apply IH.
Qed.
End memtable.

Arguments MemTable {SM}.

#[export] Hint Resolve iter_sorted : lsm.

(** ** Properties *)

Definition total_payload (h : list mutation) : Z := foldr (fun m n => payload m + n) 0 h.

Lemma apply_all_size {SM : SkipMap Entry} t h t' :
  Forall fits h -> Forall well_formed h -> 0 <= approximate_size t < 2 ^ 64 -> apply_all t h = Some t' ->
  approximate_size t' = (approximate_size t + total_payload h) mod 2 ^ 64.
Proof.
  revert t. induction h as [|m h IH]; intros t; cbn [apply_all total_payload foldr].
  { intros _ _ Ht [= <-]. by rewrite Z.add_0_r, Z.mod_small. }
  intros Hf Hw Ht. inversion_clear Hf as [|? ? Hf1 Hf2]. inversion_clear Hw as [|? ? Hw1 Hw2].
  rewrite apply_mutation_run by done. cbn [mbind option_bind]. intros Hrun.
  rewrite (IH _ Hf2 Hw2) with (2 := Hrun); cbn [approximate_size]; [|apply Z.mod_pos_bound; lia].
  rewrite Z.add_mod_idemp_l by done. f_equal. unfold total_payload. lia.
Qed.

(** C26: a table that started empty answers every lookup with the last write
    of the key in its history, tombstones included; its iterator walks each
    live key once, in ascending order, with the same entries; [is_empty] tells
    whether anything was written; the size estimate is the sum of the payloads
    and the per-entry overhead, modulo the width of the counter. *)
Theorem memtable_history {SM : SkipMap Entry} (h : list mutation) :
  Forall fits h -> Forall well_formed h ->
  exists t, apply_all new h = Some t /\
    (forall k, get_entry t k = last_write h k /\ get t k = last_write h k ≫= entry_value) /\
    keys_sorted (iter t) /\ (forall k, assoc k (iter t) = last_write h k) /\
    mem_len t = len (iter t) /\ (is_empty t = true <-> h = []) /\
    approximate_size t = total_payload h mod 2 ^ 64.
Proof.
  intros Hf Hw. destruct (apply_all_total new h Hf Hw) as [t Ht]. exists t.
  assert (forall k, get_entry t k = last_write h k) as Hget.
  { intros k. rewrite (apply_all_get _ _ _ k Hf Hw Ht). destruct (last_write h k); [done|]. apply sm_get_new. }
  split_and!; [done| |apply iter_sorted|by intros k; rewrite iter_get_entry|apply mem_len_iter| |].
  - intros k. by rewrite get_entry_get, Hget.
  - rewrite is_empty_iter. split.
    2: { intros ->. apply keys_sorted_ext; [apply iter_sorted|apply keys_sorted_nil|].
         intros k. by rewrite iter_get_entry, Hget. }
    intros Hi. destruct h as [|m h _] using rev_ind; [done|]. exfalso.
    specialize (Hget m.1). rewrite <- iter_get_entry, Hi in Hget. unfold last_write in Hget.
    rewrite rev_app_distr in Hget. destruct m as [k e]. simpl in Hget. by rewrite decide_True in Hget.
  - by rewrite (apply_all_size _ _ _ Hf Hw) with (2 := Ht) by done.
Qed.

Definition sample_history : list mutation :=
  [([x61], mkEntry [x31] false); ([x62], mkEntry [x32] false); ([x61], mkEntry [] true)].

Lemma memtable_history_witness :
  exists t, @apply_all (Toy.skip_map Entry) new sample_history = Some t /\
    get t [x61] = None /\ get t [x62] = Some [x32].
Proof.
  destruct (@memtable_history (Toy.skip_map Entry) sample_history) as (t & Ht & Hget & _).
  - repeat constructor; vm_compute; discriminate.
  - repeat constructor; vm_compute; congruence.
  - exists t. split; [exact Ht|]. split; [apply (Hget [x61])|apply (Hget [x62])].
Defined.
