(* ===== verification/Wal.v ===== *)
(** * The write-ahead log's entry codec ([src/src/wal/mod.rs]) *)

From S2P Require Import Prelude Outcome Utils External.

(** ** Definitions *)

Definition CRC_LEN : Z := 4.
Definition OP_LEN : Z := 1.
Definition KEY_LEN_LEN : Z := 2.
Definition VAL_LEN_LEN : Z := 4.
Definition HEADER_LEN : Z := CRC_LEN + OP_LEN + KEY_LEN_LEN + VAL_LEN_LEN.
Definition OP_BYTE_OFFSET : Z := CRC_LEN.
Definition KEY_LEN_OFFSET : Z := CRC_LEN + OP_LEN.
Definition VAL_LEN_OFFSET : Z := CRC_LEN + OP_LEN + KEY_LEN_LEN.
Definition MAX_KEY_LEN : Z := 65535.
Definition MAX_VALUE_LEN : Z := u32_max.

Ltac wal_consts :=
  unfold HEADER_LEN, OP_BYTE_OFFSET, KEY_LEN_OFFSET, VAL_LEN_OFFSET, CRC_LEN, OP_LEN,
    KEY_LEN_LEN, VAL_LEN_LEN, MAX_KEY_LEN, MAX_VALUE_LEN, u16_max, u32_max, usize_max in *.

Inductive WalOp := Put | Delete.

#[export] Instance WalOp_eq_dec : EqDecision WalOp.
Proof. solve_decision. Defined.

Definition hex_digit (n : Z) : string :=
  match n with
  | 0 => "0" | 1 => "1" | 2 => "2" | 3 => "3" | 4 => "4" | 5 => "5" | 6 => "6" | 7 => "7"
  | 8 => "8" | 9 => "9" | 10 => "a" | 11 => "b" | 12 => "c" | 13 => "d" | 14 => "e" | _ => "f"
  end.

(** [{:02x}] of a byte. *)
Definition hex_byte (b : byte) : string :=
  hex_digit (b2z b / 16) +:+ hex_digit (b2z b mod 16).

Definition from_byte (b : byte) : outcome WalOp :=
  match b with
  | x01 => Ok Put
  | x02 => Ok Delete
  | other => Err (InvalidOp ("unknown wal op byte: 0x" +:+ hex_byte other))
  end.

Definition to_byte (op : WalOp) : byte :=
  match op with Put => x01 | Delete => x02 end.

Record WalEntry := mkWalEntry { op : WalOp; key : bytes; value : bytes }.

#[export] Instance WalEntry_eq_dec : EqDecision WalEntry.
Proof. solve_decision. Defined.

(** [buf[a..b].copy_from_slice(src)] *)
Definition copy_from_slice (buf : bytes) (a b : Z) (src : bytes) : outcome bytes :=
  if (0 <=? a) && (a <=? b) && (b <=? len buf) && (len src =? b - a)
  then Ok (take (Z.to_nat a) buf ++ src ++ drop (Z.to_nat b) buf)
  else Panic.

Section codec.
Context {C : Crc32}.

Definition encode_entry (op : WalOp) (key value : bytes) (buf : bytes) : outcome bytes :=
  if MAX_KEY_LEN <? len key then Err (KeyTooLarge (len key) MAX_KEY_LEN)
  else if MAX_VALUE_LEN <? len value then Err (ValueTooLarge (len value) MAX_VALUE_LEN)
  else if bool_decide (op = Delete) && negb (bool_decide (value = []))
  then Err (InvalidOp "delete entry must not carry a value")
  else
    let start := len buf in
    let buf := buf ++ [x00; x00; x00; x00] in
    let buf := buf ++ [to_byte op] in
    let buf := put_u16 buf (len key) in
    let buf := put_u32 buf (len value) in
    let buf := buf ++ key in
    let buf := buf ++ value in
    covered ← slice buf (start + CRC_LEN) (len buf);
    copy_from_slice buf start (start + CRC_LEN) (le_bytes 4 (crc32_hash covered)).

Definition decode_entry (bs : bytes) : outcome WalEntry :=
  if len bs <? HEADER_LEN then
    Err (Corruption ("wal entry shorter than " +:+ pretty HEADER_LEN +:+ "-byte header: " +:+
      pretty (len bs) +:+ " bytes"))
  else
    op_byte ← index bs OP_BYTE_OFFSET;
    op ← from_byte op_byte;
    key_len ← read_u16 bs KEY_LEN_OFFSET;
    val_len ← read_u32 bs VAL_LEN_OFFSET;
    key_end ← uadd HEADER_LEN key_len;
    payload_end ← uadd key_end val_len;
    if len bs <? payload_end then
      Err (Corruption ("wal entry truncated: header declares " +:+ pretty (key_len + val_len) +:+
        " payload bytes, only " +:+ pretty (len bs - HEADER_LEN) +:+ " available"))
    else
      stored ← read_u32 bs 0;
      covered ← slice bs CRC_LEN payload_end;
      if crc32_hash covered =? stored then
        k ← slice bs HEADER_LEN key_end;
        v ← slice bs key_end payload_end;
        Ok (mkWalEntry op k v)
      else Err (Corruption "wal checksum mismatch").

(** ** Specification: the frame of an entry *)

Definition frame_body (e : WalEntry) : bytes :=
  [to_byte (op e)] ++ le_bytes 2 (len (key e)) ++ le_bytes 4 (len (value e)) ++ key e ++ value e.

Definition frame (e : WalEntry) : bytes :=
  le_bytes 4 (crc32_hash (frame_body e)) ++ frame_body e.

#[local] Arguments frame : simpl never.
#[local] Arguments frame_body : simpl never.

(** Entries whose lengths fit the header's fields. *)
Definition fits (e : WalEntry) : Prop :=
  len (key e) <= MAX_KEY_LEN /\ len (value e) <= MAX_VALUE_LEN.

(** Entries the encoder accepts. *)
Definition encodable (e : WalEntry) : Prop :=
  fits e /\ (op e = Delete -> value e = []).

#[export] Instance encodable_dec e : Decision (encodable e).
Proof. unfold encodable, fits. apply _. Defined.

(** ** Lemmas *)

Lemma len_frame_body e : len (frame_body e) = 7 + len (key e) + len (value e).
Proof. unfold frame_body. len_solve. Qed.

Lemma len_frame e : len (frame e) = HEADER_LEN + len (key e) + len (value e).
Proof. unfold frame. rewrite len_app, len_le_bytes, len_frame_body. wal_consts. lia. Qed.

Lemma from_byte_ends b : ends (from_byte b) (fun o => to_byte o = b).
Proof. by destruct b. Qed.

Lemma from_to_byte o : from_byte (to_byte o) = Ok o.
Proof. by destruct o. Qed.

Lemma copy_from_slice_mid p m q src a b :
  a = len p -> b = len p + len m -> len src = len m ->
  copy_from_slice (p ++ m ++ q) a b src = Ok (p ++ src ++ q).
Proof.
  intros -> -> Hl. unfold copy_from_slice.
  rewrite !(proj2 (Z.leb_le _ _)), (proj2 (Z.eqb_eq _ _)) by len_solve. simpl. f_equal.
  rewrite take_len_app by done. do 2 f_equal. rewrite app_assoc. apply drop_len_app. len_solve.
Qed.

Lemma encode_entry_frame op key value buf :
  encodable (mkWalEntry op key value) ->
  encode_entry op key value buf = Ok (buf ++ frame (mkWalEntry op key value)).
Proof.
  intros [[Hk Hv] Hd]. simpl in *. unfold encode_entry.
  rewrite (proj2 (Z.ltb_ge _ _)) by done. rewrite (proj2 (Z.ltb_ge _ _)) by done.
  replace (bool_decide _ && _) with false
    by (destruct op; [done|]; by rewrite Hd by done).
  unfold put_u16, put_u32. rewrite <- !app_assoc.
  change ([to_byte op] ++ le_bytes 2 (len key) ++ le_bytes 4 (len value) ++ key ++ value)
    with (frame_body (mkWalEntry op key value)).
  set (body := frame_body _). rewrite (app_assoc buf).
  rewrite slice_app_end by (unfold CRC_LEN; len_solve). simpl.
  rewrite <- app_assoc. rewrite copy_from_slice_mid; [done|done|..]; unfold CRC_LEN; len_solve.
Qed.

(** The segments of a buffer that starts with a frame. *)
Lemma frame_segs e rest :
  frame e ++ rest =
    le_bytes 4 (crc32_hash (frame_body e)) ++ to_byte (op e) :: le_bytes 2 (len (key e)) ++
    le_bytes 4 (len (value e)) ++ key e ++ value e ++ rest.
Proof. unfold frame, frame_body. by rewrite <- !app_assoc. Qed.

(** A buffer long enough for a header, by field. *)
Lemma header_split (bs : bytes) :
  HEADER_LEN <= len bs ->
  exists (c : bytes) o (kl vl tl : bytes), bs = c ++ o :: kl ++ vl ++ tl /\ len c = 4 /\ len kl = 2 /\ len vl = 4.
Proof.
  wal_consts. intros H.
  destruct (split_at_len bs 4) as (c & r1 & -> & Hc); [lia|]. len_simpl.
  destruct r1 as [|o r1]; [len_solve|]. len_simpl.
  destruct (split_at_len r1 2) as (kl & r2 & -> & Hkl); [lia|]. len_simpl.
  destruct (split_at_len r2 4) as (vl & tl & -> & Hvl); [lia|].
  by exists c, o, kl, vl, tl.
Qed.

(** The decoder on a buffer given by fields: everything declared is there. *)
Lemma decode_entry_full bs (c : bytes) o (kl vl k v r : bytes) :
  bs = c ++ o :: kl ++ vl ++ k ++ v ++ r ->
  len c = 4 -> len kl = 2 -> len vl = 4 -> len k = le_val kl -> len v = le_val vl ->
  len bs <= usize_max ->
  decode_entry bs =
    (op ← from_byte o;
     if crc32_hash (o :: kl ++ vl ++ k ++ v) =? le_val c then Ok (mkWalEntry op k v)
     else Err (Corruption "wal checksum mismatch")).
Proof.
  intros Hseg Hc Hkl Hvl Hk Hv Hu.
  pose proof (le_val_u16 kl Hkl) as Rk. pose proof (le_val_u32 vl Hvl) as Rv.
  assert (len bs = 11 + len k + len v + len r) as Hlen by (rewrite Hseg; len_solve).
  pose proof (len_nonneg r). unfold decode_entry.
  rewrite (proj2 (Z.ltb_ge _ _)) by (wal_consts; lia).
  rewrite (index_at bs c o _ _ Hseg) by (wal_consts; len_solve). rewrite outcome_bind_ok.
  destruct (from_byte o) as [op|e| |]; cbn [mbind outcome_bind]; try done.
  rewrite (read_u16_seg bs (c ++ [o]) kl (vl ++ k ++ v ++ r) KEY_LEN_OFFSET)
    by (segs Hseg || (wal_consts; len_solve)).
  rewrite (read_u32_seg bs (c ++ o :: kl) vl (k ++ v ++ r) VAL_LEN_OFFSET)
    by (segs Hseg || (wal_consts; len_solve)).
  rewrite (read_u32_seg bs [] c _ 0 Hseg) by (wal_consts; len_solve).
  cbn [mbind outcome_bind]. rewrite uadd_ok by (wal_consts; lia).
  cbn [mbind outcome_bind]. rewrite uadd_ok by (wal_consts; lia).
  cbn [mbind outcome_bind]. rewrite (proj2 (Z.ltb_ge _ _)) by (wal_consts; lia).
  rewrite (slice_at bs c (o :: kl ++ vl ++ k ++ v) r CRC_LEN)
    by (segs Hseg || (wal_consts; len_solve)).
  cbn [mbind outcome_bind]. destruct (_ =? _); [|done].
  rewrite (slice_at bs (c ++ o :: kl ++ vl) k (v ++ r) HEADER_LEN)
    by (segs Hseg || (wal_consts; len_solve)).
  cbn [mbind outcome_bind].
  by rewrite (slice_at bs (c ++ o :: kl ++ vl ++ k) v r)
    by (segs Hseg || (wal_consts; len_solve)).
Qed.

(** The decoder on a buffer that ends before the declared payload. *)
Lemma decode_entry_truncated bs (c : bytes) o (kl vl tl : bytes) :
  bs = c ++ o :: kl ++ vl ++ tl ->
  len c = 4 -> len kl = 2 -> len vl = 4 -> len tl < le_val kl + le_val vl ->
  exists msg, decode_entry bs = (_ ← from_byte o; Err (Corruption msg)).
Proof.
  intros Hseg Hc Hkl Hvl Ht.
  pose proof (le_val_u16 kl Hkl) as Rk. pose proof (le_val_u32 vl Hvl) as Rv.
  assert (len bs = 11 + len tl) as Hlen by (rewrite Hseg; len_solve).
  pose proof (len_nonneg tl). unfold decode_entry.
  rewrite (proj2 (Z.ltb_ge _ _)) by (wal_consts; lia).
  rewrite (index_at bs c o _ _ Hseg) by (wal_consts; len_solve). rewrite outcome_bind_ok.
  rewrite (read_u16_seg bs (c ++ [o]) kl (vl ++ tl) KEY_LEN_OFFSET)
    by (segs Hseg || (wal_consts; len_solve)).
  rewrite (read_u32_seg bs (c ++ o :: kl) vl tl VAL_LEN_OFFSET)
    by (segs Hseg || (wal_consts; len_solve)).
  cbn [mbind outcome_bind]. rewrite uadd_ok by (wal_consts; lia).
  cbn [mbind outcome_bind]. rewrite uadd_ok by (wal_consts; lia).
  cbn [mbind outcome_bind]. rewrite (proj2 (Z.ltb_lt _ _)) by (wal_consts; lia).
  eexists. reflexivity.
Qed.

Lemma decode_frame e rest :
  fits e -> len (frame e ++ rest) <= usize_max ->
  decode_entry (frame e ++ rest) = Ok e.
Proof.
  intros [Hk Hv] Hu. pose proof (crc32_range (frame_body e)) as Hcrc.
  pose proof (len_nonneg (key e)). pose proof (len_nonneg (value e)).
  erewrite decode_entry_full; [|apply frame_segs|..|done];
    rewrite ?len_le_bytes, ?le_val_2, ?le_val_4 by (wal_consts; lia); try done.
  rewrite from_to_byte, outcome_bind_ok.
  change (to_byte (op e) :: _) with (frame_body e). rewrite Z.eqb_refl. by destruct e.
Qed.

(** Whatever the decoder accepts starts with the canonical frame of the
    entry it returns; on any buffer it returns an entry or an error. *)
Lemma decode_entry_ends bs :
  len bs <= usize_max ->
  ends (decode_entry bs) (fun e => fits e /\ exists rest, bs = frame e ++ rest).
Proof.
  intros Hu. destruct (Z.ltb_spec (len bs) HEADER_LEN) as [Hs|Hs].
  { unfold decode_entry. by rewrite (proj2 (Z.ltb_lt _ _)). }
  destruct (header_split bs Hs) as (c & o & kl & vl & tl & Hseg & Hc & Hkl & Hvl).
  pose proof (le_val_u16 kl Hkl) as Rk. pose proof (le_val_u32 vl Hvl) as Rv.
  pose proof (from_byte_ends o) as Ho.
  destruct (Z.ltb_spec (len tl) (le_val kl + le_val vl)) as [Ht|Ht].
  { destruct (decode_entry_truncated bs c o kl vl tl) as [msg ->]; try done.
    by destruct (from_byte o). }
  destruct (split_at_len tl (le_val kl)) as (k & r1 & -> & Hk); [lia|]. rewrite len_app in Ht.
  destruct (split_at_len r1 (le_val vl)) as (v & r & -> & Hv); [lia|].
  rewrite (decode_entry_full bs c o kl vl k v r) by done.
  destruct (from_byte o) as [op|e| |]; simpl in Ho; cbn [mbind outcome_bind ends]; try done.
  destruct (Z.eqb_spec (crc32_hash (o :: kl ++ vl ++ k ++ v)) (le_val c)) as [E|E]; cbn [mbind outcome_bind ends]; [|done].
  split; [unfold fits; simpl; wal_consts; lia|]. exists r.
  rewrite frame_segs. unfold frame_body. cbn [Wal.op Wal.key Wal.value].
  rewrite Ho, Hk, Hv, !le_bytes_val_eq by done.
  change ([o] ++ kl ++ vl ++ k ++ v) with (o :: kl ++ vl ++ k ++ v).
  rewrite E, le_bytes_val_eq by done. done.
Qed.

(** The encoder's refusals, in the order of its checks. *)
Lemma encode_entry_err op key value buf :
  ~ encodable (mkWalEntry op key value) ->
  exists e, encode_entry op key value buf = Err e /\
    (MAX_KEY_LEN < len key /\ e = KeyTooLarge (len key) MAX_KEY_LEN \/
     len key <= MAX_KEY_LEN /\ MAX_VALUE_LEN < len value /\
       e = ValueTooLarge (len value) MAX_VALUE_LEN \/
     fits (mkWalEntry op key value) /\ op = Delete /\ value <> [] /\
       e = InvalidOp "delete entry must not carry a value").
Proof.
  unfold encodable, fits, encode_entry. cbn [Wal.op Wal.key Wal.value]. intros H.
  destruct (Z.ltb_spec MAX_KEY_LEN (len key)); [eexists; split; [done|by left]|].
  destruct (Z.ltb_spec MAX_VALUE_LEN (len value)); [eexists; split; [done|naive_solver]|].
  destruct (decide (op = Delete)) as [->|]; [|tauto].
  destruct (decide (value = [])) as [->|]; [tauto|].
  rewrite !bool_decide_true, bool_decide_false by done. simpl. naive_solver.
Qed.
End codec.

(** ** Properties *)

(** C39: an entry within the format's limits is encoded after whatever the
    buffer holds, and decoding those bytes gives the entry back, whatever
    follows them in the log. *)
Theorem wal_entry_roundtrip {C : Crc32} (e : WalEntry) (buf : bytes) :
  encodable e ->
  exists fr, encode_entry (op e) (key e) (value e) buf = Ok (buf ++ fr) /\
    len fr = HEADER_LEN + len (key e) + len (value e) /\
    forall rest, len (fr ++ rest) <= usize_max -> decode_entry (fr ++ rest) = Ok e.
Proof.
  intros He. exists (frame e). split_and!; [|apply len_frame|].
  - destruct e. by apply encode_entry_frame.
  - intros rest. apply decode_frame, He.
Qed.

Lemma wal_entry_roundtrip_witness :
  exists fr, @encode_entry Toy.crc32 Put [x61] [x31; x32] [] = Ok ([] ++ fr) /\
    @decode_entry Toy.crc32 (fr ++ [xff]) = Ok (mkWalEntry Put [x61] [x31; x32]).
Proof.
  destruct (@wal_entry_roundtrip Toy.crc32 (mkWalEntry Put [x61] [x31; x32]) []) as (fr & He & Hl & Hd).
  - split; [split|]; vm_compute; discriminate.
  - exists fr. split; [exact He|]. apply Hd. rewrite len_app, Hl. vm_compute. discriminate.
Defined.

(** Whatever bytes a log holds, decoding an entry reports an error or
    returns an entry whose frame is a prefix of the bytes, checksum included;
    it never panics, reads out of bounds or overflows. *)
Theorem wal_decode_safe {C : Crc32} (bs : bytes) :
  len bs <= usize_max ->
  match decode_entry bs with
  | Ok e => len (key e) <= MAX_KEY_LEN /\ len (value e) <= MAX_VALUE_LEN /\
      exists rest, bs = frame e ++ rest
  | Err _ => True
  | Panic | Halt => False
  end.
Proof.
  intros Hu. pose proof (decode_entry_ends bs Hu) as H. destruct (decode_entry bs); try done.
  by destruct H as [[? ?] ?].
Qed.

Lemma wal_decode_safe_witness :
  len [x00; x01; x02] <= usize_max /\
  match @decode_entry Toy.crc32 [x00; x01; x02] with
  | Ok e => len (key e) <= MAX_KEY_LEN /\ len (value e) <= MAX_VALUE_LEN /\
      exists rest, [x00; x01; x02] = @frame Toy.crc32 e ++ rest
  | Err _ => True
  | Panic | Halt => False
  end.
Proof.
  split; [vm_compute; discriminate|]. apply (@wal_decode_safe Toy.crc32 [x00; x01; x02]).
  vm_compute. discriminate.
Defined.

(** An entry the format cannot hold is refused before anything is written:
    an oversized key, then an oversized value, then a tombstone with a value,
    in this order. *)
Theorem wal_encode_refuses {C : Crc32} (o : WalOp) (k v buf : bytes) :
  ~ encodable (mkWalEntry o k v) ->
  encode_entry o k v buf =
    if MAX_KEY_LEN <? len k then Err (KeyTooLarge (len k) MAX_KEY_LEN)
    else if MAX_VALUE_LEN <? len v then Err (ValueTooLarge (len v) MAX_VALUE_LEN)
    else Err (InvalidOp "delete entry must not carry a value").
Proof.
  intros Hn. destruct (encode_entry_err o k v buf Hn) as (e & -> & [[Hk ->]|[(Hk & Hv & ->)|([Hk Hv] & _ & _ & ->)]]).
  - by rewrite (proj2 (Z.ltb_lt _ _)).
  - by rewrite (proj2 (Z.ltb_ge _ _)), (proj2 (Z.ltb_lt _ _)).
  - by rewrite (proj2 (Z.ltb_ge _ _)), (proj2 (Z.ltb_ge _ _)).
Qed.

Lemma wal_encode_refuses_witness :
  ~ encodable (mkWalEntry Delete [x61] [x31]) /\
  @encode_entry Toy.crc32 Delete [x61] [x31] [] = Err (InvalidOp "delete entry must not carry a value").
Proof.
  assert (~ encodable (mkWalEntry Delete [x61] [x31])) as Hn.
  { intros [_ H]. specialize (H eq_refl). discriminate H. }
  split; [exact Hn|]. exact (@wal_encode_refuses Toy.crc32 Delete [x61] [x31] [] Hn).
Defined.
