(* ===== verification/WalWriter.v ===== *)
(** * The write-ahead log's writer ([src/src/wal/writer.rs]) *)

From S2P Require Import Prelude Outcome External Fs Wal.

(** ** Definitions *)

Record WalWriter := mkWalWriter {
  ww_file : BufWriter;
  ww_path : string;
  ww_buf : bytes;
}.

(** Runs on the [file] field of the writer. *)
Definition on_file {A} (m : M (Fs * BufWriter) A) : M (Fs * WalWriter) A :=
  zoom (fun '(fs, w) => (fs, ww_file w))
    (fun '(fs, f) '(_, w) => (fs, mkWalWriter f (ww_path w) (ww_buf w))) m.

Definition set_buf (b : bytes) : M (Fs * WalWriter) unit :=
  modify (fun '(fs, w) => (fs, mkWalWriter (ww_file w) (ww_path w) b)).

(** [WalWriter::create] *)
Definition wal_create (path : string) : M Fs WalWriter :=
  file ← file_create path;
  mret (mkWalWriter (bw_new file) path []).

Section writer.
Context {C : Crc32}.

(** [WalWriter::append] *)
Definition append (op : WalOp) (key value : bytes) : M (Fs * WalWriter) unit :=
  _ ← set_buf [];
  buf ← lift (encode_entry op key value []);
  _ ← set_buf buf;
  on_file (bw_write_all buf).
End writer.

(** [WalWriter::sync] *)
Definition sync : M (Fs * WalWriter) unit :=
  _ ← on_file bw_flush;
  on_file bw_sync_all.

(** [WalWriter::path] *)
Definition writer_path (w : WalWriter) : string := ww_path w.

(** The writer's destructor is that of its [BufWriter]. *)
Definition wal_drop : M (Fs * WalWriter) unit := on_file bw_drop.

(** ** Specification

    The log a writer stands for: the bytes already in the file, then those
    still in the buffer. *)
Definition log_of (fs : Fs) (w : WalWriter) : bytes :=
  data_of fs (bw_file (ww_file w)) ++ bw_buf (ww_file w).

(** ** Lemmas: fault-free runs *)

Section lemmas.
Context {C : Crc32}.

Lemma append_ok fs w e :
  faults fs = [] -> encodable e ->
  exists fs' w', append (op e) (key e) (value e) (fs, w) = (Ok tt, (fs', w')) /\
    bw_file (ww_file w') = bw_file (ww_file w) /\ ww_path w' = ww_path w /\
    touches (bw_file (ww_file w)) fs fs' /\ log_of fs' w' = log_of fs w ++ frame e.
Proof.
  intros Hf He. unfold append, set_buf, modify, lift, mbind, M_bind. cbn [ww_file ww_path].
  replace (encode_entry _ _ _ []) with (Ok (frame e))
    by (rewrite encode_entry_frame by (by destruct e); by destruct e).
  unfold on_file, zoom. cbn [ww_file ww_path].
  destruct (bw_write_all_ok fs (ww_file w) (frame e) Hf) as (fs' & f & -> & Hff & Ht & Hl).
  eexists _, _. split_and!; [done..|]. exact Hl.
Qed.

(** A refused entry changes neither the file nor its buffer. *)
Lemma append_refused fs w o k v :
  ~ encodable (mkWalEntry o k v) ->
  exists e w', append o k v (fs, w) = (Err e, (fs, w')) /\ ww_file w' = ww_file w /\
    ww_path w' = ww_path w /\ encode_entry o k v [] = Err e.
Proof.
  intros H. destruct (encode_entry_err o k v [] H) as (e & He & _).
  unfold append, set_buf, modify, lift, mbind, M_bind. rewrite He.
  eexists _, _. done.
Qed.

Lemma sync_ok fs w :
  faults fs = [] ->
  exists fs' w', sync (fs, w) = (Ok tt, (fs', w')) /\
    bw_file (ww_file w') = bw_file (ww_file w) /\ bw_buf (ww_file w') = [] /\
    ww_path w' = ww_path w /\ touches (bw_file (ww_file w)) fs fs' /\
    inode_of fs' (bw_file (ww_file w)) = mkInode (log_of fs w) (length (log_of fs w)).
Proof.
  intros Hf. unfold sync, on_file, zoom, mbind, M_bind, bw_flush.
  destruct (bw_flush_buf_ok fs (ww_file w) Hf) as (fs1 & -> & Ht1 & Hd1).
  cbn [ww_file].
  destruct (bw_sync_all_ok fs1 (mkBufWriter (bw_file (ww_file w)) [])) as (fs2 & -> & Ht2 & Hi2).
  { by eapply touches_faults. }
  eexists _, _. split_and!; [done..| |].
  - by eapply touches_trans.
  - cbn [bw_file] in Hi2. by rewrite Hi2, Hd1.
Qed.

Lemma wal_drop_ok fs w :
  faults fs = [] ->
  exists fs' w', wal_drop (fs, w) = (Ok tt, (fs', w')) /\
    touches (bw_file (ww_file w)) fs fs' /\ data_of fs' (bw_file (ww_file w)) = log_of fs w.
Proof.
  intros Hf. unfold wal_drop, on_file, zoom, bw_drop.
  destruct (bw_flush_buf_ok fs (ww_file w) Hf) as (fs1 & H & Ht1 & Hd1).
  rewrite (ignore_ok _ _ _ _ H). eexists _, _. done.
Qed.
End lemmas.
