(* ===== verification/WalReader.v ===== *)
(** * The write-ahead log's reader ([src/src/wal/reader.rs]) *)

From S2P Require Import Prelude Outcome Utils External Fs MemTable Wal WalWriter.

(** ** Definitions *)

Record WalReader := mkWalReader { wr_file : nat; wr_path : string }.

(** [WalReader::open] *)
Definition wal_open (path : string) : M Fs WalReader :=
  file ← file_open path; mret (mkWalReader file path).

(** [WalReader::path] *)
Definition log_path (r : WalReader) : string := wr_path r.

Section reader.
Context {C : Crc32}.

(** The loop of [scan]; [fuel] bounds the number of entries. *)
Fixpoint scan_loop (fuel : nat) (bs : bytes) (offset : Z) (entries : list WalEntry)
    : outcome (list WalEntry) :=
  match fuel with
  | O => Halt
  | S fuel =>
      remaining ← usub (len bs) offset;
      if remaining <? HEADER_LEN then Ok entries
      else
        header_end ← uadd offset HEADER_LEN;
        header ← slice bs offset header_end;
        key_len ← read_u16 header KEY_LEN_OFFSET;
        val_len ← read_u32 header VAL_LEN_OFFSET;
        key_end ← uadd HEADER_LEN key_len;
        frame_len ← uadd key_end val_len;
        if remaining <? frame_len then Ok entries
        else
          frame_end ← uadd offset frame_len;
          frame ← slice bs offset frame_end;
          match decode_entry frame with
          | Ok entry => scan_loop fuel bs frame_end (entries ++ [entry])
          | Err err =>
              Err (Corruption ("wal entry at byte " +:+ pretty offset +:+
                " failed to decode: " +:+ error_to_string err))
          | Panic => Panic
          | Halt => Halt
          end
  end.

Definition scan_bytes (bs : bytes) : outcome (list WalEntry) :=
  scan_loop (S (length bs)) bs 0 [].

(** [WalReader::scan] and [read_all] *)
Definition scan (r : WalReader) : M Fs (list WalEntry) :=
  bs ← file_read_to_end (wr_file r); lift (scan_bytes bs).

Definition read_all (r : WalReader) : M Fs (list WalEntry) := scan r.

Context {SM : SkipMap Entry}.

(** One iteration of the loop of [replay_into]. *)
Definition replay_entry (e : WalEntry) : M MemTable unit :=
  match Wal.op e with
  | Put => MemTable.put (Wal.key e) (Wal.value e)
  | Delete => MemTable.delete (Wal.key e)
  end.

Fixpoint replay_entries (entries : list WalEntry) (applied : Z) : M MemTable Z :=
  match entries with
  | [] => mret applied
  | e :: entries =>
      _ ← replay_entry e;
      n ← lift (uadd applied 1);
      replay_entries entries n
  end.

(** [WalReader::replay_into]: the table is behind a shared reference. *)
Definition replay_into (r : WalReader) : M (Fs * MemTable) Z :=
  entries ← on_fs (scan r);
  zoom snd (fun t s => (s.1, t)) (replay_entries entries 0).
End reader.

(** ** Specification of a log's contents *)

Section spec.
Context {C : Crc32}.

Definition frames (es : list WalEntry) : bytes := concat (frame <$> es).

(** What a crash leaves at the end of a log: fewer bytes than a header, or
    than its header declares. *)
Definition torn (bs : bytes) : Prop :=
  len bs < HEADER_LEN \/
  exists (c : bytes) (o : byte) (kl vl tl : bytes),
    bs = c ++ o :: kl ++ vl ++ tl /\ len c = 4 /\ len kl = 2 /\ len vl = 4 /\
    len tl < le_val kl + le_val vl.

(** A complete frame at the start of [bs]. *)
Definition full_frame (bs f rest : bytes) : Prop :=
  exists (c : bytes) (o : byte) (kl vl p : bytes),
    f = c ++ o :: kl ++ vl ++ p /\ bs = f ++ rest /\ len c = 4 /\ len kl = 2 /\ len vl = 4 /\
    len p = le_val kl + le_val vl.

(** The mutation a log entry stands for. *)
Definition entry_mutation (e : WalEntry) : mutation :=
  match Wal.op e with
  | Put => (Wal.key e, mkEntry (Wal.value e) false)
  | Delete => (Wal.key e, mkEntry [] true)
  end.

(** ** Lemmas *)

Lemma frames_app es1 es2 : frames (es1 ++ es2) = frames es1 ++ frames es2.
Proof. unfold frames. by rewrite fmap_app, concat_app. Qed.

Lemma frames_snoc es e : frames (es ++ [e]) = frames es ++ frame e.
Proof. rewrite frames_app. unfold frames at 2. simpl. by rewrite app_nil_r. Qed.

Lemma torn_nil : torn [].
Proof. left. done. Qed.

(** Every buffer is torn or starts with a complete frame. *)
Lemma torn_or_full bs : torn bs \/ exists f rest, full_frame bs f rest.
Proof.
  destruct (Z.ltb_spec (len bs) HEADER_LEN) as [H|H]; [by left; left|].
  destruct (header_split bs H) as (c & o & kl & vl & tl & Hseg & Hc & Hkl & Hvl).
  destruct (Z.ltb_spec (len tl) (le_val kl + le_val vl)) as [Ht|Ht].
  - left; right. by exists c, o, kl, vl, tl.
  - right. pose proof (le_val_u16 kl Hkl). pose proof (le_val_u32 vl Hvl).
    destruct (split_at_len tl (le_val kl + le_val vl)) as (p & rest & -> & Hp); [lia|].
    exists (c ++ o :: kl ++ vl ++ p), rest, c, o, kl, vl, p.
    split_and!; try done. segs Hseg.
Qed.

Lemma full_frame_frame e rest : fits e -> full_frame (frame e ++ rest) (frame e) rest.
Proof.
  intros [Hk Hv]. exists (le_bytes 4 (crc32_hash (frame_body e))), (to_byte (op e)),
    (le_bytes 2 (len (key e))), (le_bytes 4 (len (value e))), (key e ++ value e).
  pose proof (len_nonneg (key e)). pose proof (len_nonneg (value e)).
  rewrite !len_le_bytes, le_val_2, le_val_4, len_app by (wal_consts; lia).
  split_and!; done.
Qed.

Lemma scan_step fuel p s entries :
  len (p ++ s) <= isize_max ->
  (torn s -> scan_loop (S fuel) (p ++ s) (len p) entries = Ok entries) /\
  (forall f rest, full_frame s f rest ->
    scan_loop (S fuel) (p ++ s) (len p) entries =
      match decode_entry f with
      | Ok entry => scan_loop fuel (p ++ s) (len p + len f) (entries ++ [entry])
      | Err err =>
          Err (Corruption ("wal entry at byte " +:+ pretty (len p) +:+
            " failed to decode: " +:+ error_to_string err))
      | Panic => Panic
      | Halt => Halt
      end).
Proof.
  intros Hu. pose proof (len_nonneg p) as Hp0. pose proof (len_nonneg s) as Hs0.
  rewrite len_app in Hu. unfold isize_max in Hu.
  split.
  - intros [Hs|(c & o & kl & vl & tl & Hseg & Hc & Hkl & Hvl & Ht)]; cbn [scan_loop];
      rewrite len_app, usub_ok by lia; cbn [mbind outcome_bind].
    + by rewrite (proj2 (Z.ltb_lt _ _)) by lia.
    + pose proof (le_val_u16 kl Hkl) as Rk. pose proof (le_val_u32 vl Hvl) as Rv.
      assert (len s = 11 + len tl) as Hls by (rewrite Hseg; len_solve).
      pose proof (len_nonneg tl).
      rewrite (proj2 (Z.ltb_ge _ _)) by (wal_consts; lia).
      rewrite uadd_ok by (wal_consts; lia). cbn [mbind outcome_bind].
      rewrite (slice_at (p ++ s) p (c ++ o :: kl ++ vl) tl)
        by (segs Hseg || (wal_consts; len_solve)). cbn [mbind outcome_bind].
      rewrite (read_u16_seg _ (c ++ [o]) kl vl)
        by ((by rewrite <- !app_assoc) || (wal_consts; len_solve)).
      rewrite (read_u32_seg _ (c ++ o :: kl) vl [])
        by ((by rewrite <- ?app_assoc, app_nil_r) || (wal_consts; len_solve)).
      cbn [mbind outcome_bind]. rewrite uadd_ok by (wal_consts; lia).
      cbn [mbind outcome_bind]. rewrite uadd_ok by (wal_consts; lia).
      cbn [mbind outcome_bind]. by rewrite (proj2 (Z.ltb_lt _ _)) by (wal_consts; lia).
  - intros f rest (c & o & kl & vl & pl & Hf & Hseg & Hc & Hkl & Hvl & Hpl).
    pose proof (le_val_u16 kl Hkl) as Rk. pose proof (le_val_u32 vl Hvl) as Rv.
    assert (len f = 11 + len pl) as Hlf by (rewrite Hf; len_solve).
    pose proof (len_nonneg pl). pose proof (len_nonneg rest).
    assert (len s = len f + len rest) as Hls by (rewrite Hseg; len_solve).
    cbn [scan_loop]. rewrite len_app, usub_ok by lia. cbn [mbind outcome_bind].
    rewrite (proj2 (Z.ltb_ge _ _)) by (wal_consts; lia).
    rewrite uadd_ok by (wal_consts; lia). cbn [mbind outcome_bind].
    rewrite (slice_at (p ++ s) p (c ++ o :: kl ++ vl) (pl ++ rest))
      by ((rewrite Hseg; segs Hf) || (wal_consts; len_solve)). cbn [mbind outcome_bind].
    rewrite (read_u16_seg _ (c ++ [o]) kl vl)
      by ((by rewrite <- !app_assoc) || (wal_consts; len_solve)).
    rewrite (read_u32_seg _ (c ++ o :: kl) vl [])
      by ((by rewrite <- ?app_assoc, app_nil_r) || (wal_consts; len_solve)).
    cbn [mbind outcome_bind]. rewrite uadd_ok by (wal_consts; lia).
    cbn [mbind outcome_bind]. rewrite uadd_ok by (wal_consts; lia).
    cbn [mbind outcome_bind]. rewrite (proj2 (Z.ltb_ge _ _)) by (wal_consts; lia).
    rewrite uadd_ok by (wal_consts; lia). cbn [mbind outcome_bind].
    rewrite (slice_at (p ++ s) p f rest) by ((by rewrite Hseg) || (wal_consts; len_solve)).
    cbn [mbind outcome_bind]. replace (len p + _) with (len p + len f) by (wal_consts; lia). done.
Qed.

Lemma frames_cons e es : frames (e :: es) = frame e ++ frames es.
Proof. done. Qed.

Lemma len_frame_pos e : 11 <= len (frame e).
Proof. rewrite len_frame. wal_consts. len_solve. Qed.

Lemma length_frames es : (length es <= length (frames es))%nat.
Proof.
  induction es as [|e es IH]; [done|]. rewrite frames_cons, length_app. simpl.
  pose proof (len_frame_pos e) as H. unfold len in H. lia.
Qed.

(** A complete frame that starts with the frame of an entry is that frame. *)
Lemma full_frame_exact f rest e r :
  fits e -> full_frame f f rest -> f = frame e ++ r -> f = frame e.
Proof.
  intros [Hk Hv] (c & o & kl & vl & pl & Hf & _ & Hc & Hkl & Hvl & Hpl) Hr.
  pose proof (len_nonneg (key e)). pose proof (len_nonneg (value e)).
  rewrite Hr, frame_segs in Hf. unfold len in Hc, Hkl, Hvl.
  pose proof (length_le_bytes 4 (crc32_hash (frame_body e))).
  apply app_inj_1 in Hf as [_ Hf]; [|lia]. injection Hf as _ Hf.
  pose proof (length_le_bytes 2 (len (key e))).
  apply app_inj_1 in Hf as [Ekl Hf]; [|lia].
  pose proof (length_le_bytes 4 (len (value e))).
  apply app_inj_1 in Hf as [Evl Hf]; [|lia].
  rewrite <- Ekl, <- Evl, le_val_2, le_val_4, <- Hf in Hpl by (wal_consts; lia).
  len_simpl. rewrite Hr, (len_0_nil r) by lia. apply app_nil_r.
Qed.

Lemma full_frame_self s f rest : full_frame s f rest -> full_frame f f [].
Proof.
  intros (c & o & kl & vl & pl & Hf & _ & H). exists c, o, kl, vl, pl.
  by rewrite app_nil_r.
Qed.

Lemma full_frame_app s f rest : full_frame s f rest -> s = f ++ rest.
Proof. by intros (c & o & kl & vl & pl & _ & ? & _). Qed.

(** Complete frames are read in order. *)
Lemma scan_loop_frames fuel p es s entries :
  Forall fits es -> len (p ++ frames es ++ s) <= isize_max ->
  scan_loop (length es + fuel) (p ++ frames es ++ s) (len p) entries =
    scan_loop fuel (p ++ frames es ++ s) (len p + len (frames es)) (entries ++ es).
Proof.
  revert p entries. induction es as [|e es IH]; intros p entries Hes Hu.
  { by rewrite Z.add_0_r, app_nil_r. }
  inversion_clear Hes as [|? ? He Hes']. rewrite frames_cons, <- !app_assoc in *.
  destruct (scan_step (length es + fuel) p (frame e ++ frames es ++ s) entries Hu) as [_ Hstep].
  simpl length. simpl plus. rewrite (Hstep _ _ (full_frame_frame e _ He)).
  assert (decode_entry (frame e) = Ok e) as ->.
  { rewrite <- (app_nil_r (frame e)) at 1. apply decode_frame; [done|].
    unfold isize_max in Hu. wal_consts. len_solve. }
  rewrite <- len_app, app_assoc. rewrite IH; [|done|by rewrite <- app_assoc].
  by rewrite !len_app, Z.add_assoc, <- (app_assoc entries).
Qed.

(** Every run of the loop ends, in one of two ways. *)
Lemma scan_loop_cases fuel p s entries :
  len (p ++ s) <= isize_max -> (length s < fuel)%nat ->
  (exists es tail, s = frames es ++ tail /\ Forall fits es /\ torn tail /\
     scan_loop fuel (p ++ s) (len p) entries = Ok (entries ++ es)) \/
  (exists es f rest err msg, s = frames es ++ f ++ rest /\ Forall fits es /\
     full_frame f f [] /\ decode_entry f = Err err /\
     scan_loop fuel (p ++ s) (len p) entries = Err (Corruption msg)).
Proof.
  revert p s entries. induction fuel as [|fuel IH]; intros p s entries Hu Hf; [lia|].
  destruct (scan_step fuel p s entries Hu) as [Htorn Hfull].
  destruct (torn_or_full s) as [Ht|(f & rest & Hff)].
  { left. exists [], s. split_and!; [done|constructor|done|].
    by rewrite Htorn, app_nil_r. }
  pose proof (full_frame_app _ _ _ Hff) as ->. rewrite (Hfull _ _ Hff).
  pose proof (full_frame_self _ _ _ Hff) as Hself.
  assert (len f <= usize_max) as Hlf by (unfold isize_max in *; wal_consts; len_solve).
  pose proof (decode_entry_ends f Hlf) as Hd.
  destruct (decode_entry f) as [e|err| |] eqn:Ed; cbn [ends] in Hd; try done.
  - destruct Hd as [He [r Hr]]. pose proof (full_frame_exact f [] e r He Hself Hr) as ->.
    rewrite app_assoc in Hu |- *. rewrite <- len_app.
    pose proof (len_frame_pos e) as Hpos. rewrite length_app in Hf. unfold len in Hpos.
    destruct (IH (p ++ frame e) rest (entries ++ [e]) Hu ltac:(lia))
      as [(es & tail & -> & Hes & Ht & ->)|(es & f & rest' & err & msg & -> & Hes & Hfr & Hde & ->)].
    + left. exists (e :: es), tail. rewrite frames_cons, <- !app_assoc. split_and!; [done|by constructor|done|done].
    + right. exists (e :: es), f, rest', err, msg. rewrite frames_cons, <- !app_assoc.
      split_and!; [done|by constructor|done..].
  - right. exists [], f, rest, err. eexists. split_and!; [done|constructor|done..].
Qed.

(** A frame that was cut behind its header takes what follows for the rest of
    its payload, as long as there is too little of it. *)
Lemma torn_middle e n rest :
  fits e -> HEADER_LEN <= Z.of_nat n -> Z.of_nat n + len rest < len (frame e) -> torn (take n (frame e) ++ rest).
Proof.
  intros [Hk Hv] Hh Hn. rewrite len_frame in Hn.
  pose proof (len_nonneg (key e)). pose proof (len_nonneg (value e)). pose proof (len_nonneg rest).
  right. exists (le_bytes 4 (crc32_hash (frame_body e))), (to_byte (op e)),
    (le_bytes 2 (len (key e))), (le_bytes 4 (len (value e))), (take (n - 11) (key e ++ value e) ++ rest).
  rewrite !len_le_bytes, le_val_2, le_val_4 by (wal_consts; lia).
  split_and!; try done.
  - rewrite <- (app_nil_r (frame e)), frame_segs, app_nil_r.
    set (c := le_bytes 4 (crc32_hash _)). set (kl := le_bytes 2 _). set (vl := le_bytes 4 (len (value e))).
    replace (c ++ to_byte (op e) :: kl ++ vl ++ key e ++ value e)
      with ((c ++ to_byte (op e) :: kl ++ vl) ++ key e ++ value e) by assoc_refl.
    rewrite take_app_ge.
    + replace (n - length _)%nat with (n - 11)%nat; [assoc_refl|].
      unfold c, kl, vl. rewrite length_app. simpl. rewrite length_app, !length_le_bytes. lia.
    + unfold c, kl, vl. rewrite length_app. simpl. rewrite length_app, !length_le_bytes.
      wal_consts. lia.
  - unfold len. rewrite length_app, length_take, length_app. unfold len in *. wal_consts. lia.
Qed.

(** A strict prefix of a frame is torn. *)
Lemma torn_prefix e n : fits e -> Z.of_nat n < len (frame e) -> torn (take n (frame e)).
Proof.
  intros He Hn. destruct (Z.ltb_spec (Z.of_nat n) HEADER_LEN) as [Hh|Hh].
  - left. unfold len. rewrite length_take. lia.
  - rewrite <- (app_nil_r (take n (frame e))). apply torn_middle; [done|done|]. unfold len at 1. simpl. lia.
Qed.

(** Cutting a log at any byte leaves whole entries and a torn tail. *)
Lemma take_frames es n :
  Forall fits es ->
  exists m tail, take n (frames es) = frames (take m es) ++ tail /\ torn tail /\
    (m = length es \/ (m < length es)%nat /\ (n < length (frames (take (S m) es)))%nat) /\
    (length (frames (take m es)) <= n \/ m = 0)%nat.
Proof.
  revert n. induction es as [|e es IH]; intros n Hes.
  { exists 0%nat, []. change (frames []) with (@nil byte). rewrite !take_nil.
    split_and!; [done|apply torn_nil|by left|by right]. }
  inversion_clear Hes as [|? ? He Hes'].
  destruct (Nat.ltb_spec n (length (frame e))) as [Hn|Hn].
  - exists 0%nat, (take n (frame e)). rewrite frames_cons, take_app_le by lia.
    split_and!; [done|apply torn_prefix; [done|unfold len; lia]| |by right].
    right. simpl. rewrite frames_cons, length_app. lia.
  - destruct (IH (n - length (frame e))%nat Hes') as (m & tail & Ht & Htorn & Hm & Hle).
    exists (S m), tail. rewrite frames_cons, take_app_ge, Ht by lia.
    cbn [take firstn]. rewrite !frames_cons, !length_app, <- app_assoc. split_and!; [done|done| |].
    + destruct Hm as [->|[Hm1 Hm2]]; [by left|right]. simpl. split; [lia|].
      destruct es as [|e' es']; [simpl in *; lia|]. lia.
    + left. destruct Hle as [Hle| ->]; [lia|]. simpl. lia.
Qed.

Lemma scan_bytes_frames es tail :
  Forall fits es -> torn tail -> len (frames es ++ tail) <= isize_max ->
  scan_bytes (frames es ++ tail) = Ok es.
Proof.
  intros Hes Ht Hu. unfold scan_bytes.
  pose proof (length_frames es) as Hl.
  replace (S (length (frames es ++ tail)))
    with (length es + S (length (frames es ++ tail) - length es))%nat
    by (rewrite length_app; lia).
  pose proof (scan_loop_frames (S (length (frames es ++ tail) - length es)) [] es tail [] Hes Hu) as H.
  cbn [app] in H. change (len (@nil byte)) with 0 in H. rewrite H.
  destruct (scan_step (length (frames es ++ tail) - length es) (frames es) tail es Hu) as [Hs _].
  rewrite Z.add_0_l. by apply Hs.
Qed.
End spec.

(** ** Replay *)

Section replay.
Context {C : Crc32} {SM : SkipMap Entry}.

Lemma replay_entry_ok e t :
  fits e ->
  exists t', replay_entry e t = (Ok tt, t') /\
    forall k, get_entry t' k =
      if decide ((entry_mutation e).1 = k) then Some (entry_mutation e).2 else get_entry t k.
Proof.
  intros [Hk Hv]. unfold replay_entry, entry_mutation.
  unfold Wal.MAX_KEY_LEN, Wal.MAX_VALUE_LEN, u32_max in *.
  destruct (Wal.op e); cbn [fst snd].
  - rewrite put_run by (unfold ENTRY_OVERHEAD, usize_max; lia). eexists. split; [done|].
    intros k. unfold get_entry. cbn. apply sm_get_insert.
  - rewrite delete_run by (unfold ENTRY_OVERHEAD, usize_max; lia). eexists. split; [done|].
    intros k. unfold get_entry. cbn. apply sm_get_insert.
Qed.

(** Replaying applies the entries in order; the last write of a key wins. *)
Lemma replay_entries_ok es applied t :
  Forall fits es -> applied + len es <= usize_max ->
  exists t', replay_entries es applied t = (Ok (applied + len es), t') /\
    forall k, get_entry t' k =
      match last_write (entry_mutation <$> es) k with Some e => Some e | None => get_entry t k end.
Proof.
  intros Hes. revert applied t. induction Hes as [|e es He _ IH]; intros applied t Hu.
  { exists t. cbn [replay_entries]. by rewrite len_nil, Z.add_0_r. }
  rewrite len_cons in *. pose proof (len_nonneg es).
  destruct (replay_entry_ok e t He) as (t1 & H1 & G1). cbn [replay_entries].
  rewrite (M_bind_ok _ _ _ _ _ H1), (lift_bind_ok _ _ _ _ (uadd_ok applied 1 ltac:(lia))).
  destruct (IH (applied + 1) t1 ltac:(lia)) as (t' & H2 & G2). exists t'. split; [rewrite H2; do 2 f_equal; lia|].
  intros k. rewrite G2, G1. rewrite fmap_cons. unfold last_write. cbn [rev]. rewrite assoc_app.
  destruct (assoc k (rev (entry_mutation <$> es))); [done|]. destruct (entry_mutation e) as [k0 e0]. simpl.
  by case_decide.
Qed.

Lemma replay_into_ok r fs t es tail :
  faults fs = [] -> data_of fs (wr_file r) = frames es ++ tail -> torn tail -> Forall fits es ->
  len (frames es ++ tail) <= isize_max ->
  exists t', replay_into r (fs, t) = (Ok (len es), (fs, t')) /\
    forall k, get_entry t' k =
      match last_write (entry_mutation <$> es) k with Some e => Some e | None => get_entry t k end.
Proof.
  intros Hf Hd Ht Hes Hu. pose proof (length_frames es) as Hl.
  assert (on_fs (scan r) (fs, t) = (Ok es, (fs, t))) as Hs.
  { unfold on_fs, zoom, scan. cbn [fst snd].
    rewrite (M_bind_ok _ _ _ _ _ (file_read_to_end_ok (wr_file r) fs Hf)). rewrite Hd.
    unfold lift. by rewrite scan_bytes_frames. }
  destruct (replay_entries_ok es 0 t Hes) as (t' & H1 & G1).
  { rewrite len_app in Hu. unfold len, isize_max, usize_max in *. lia. }
  exists t'. split; [|done]. unfold replay_into. rewrite (M_bind_ok _ _ _ _ _ Hs).
  unfold zoom. cbn [snd fst]. by rewrite H1.
Qed.
End replay.

(** ** Properties *)

(** C32: scanning a log of any contents ends: with the entries before a torn
    tail, or with a reported corruption at the first complete frame that does
    not decode.  A torn tail is never an error, a bad frame is never skipped. *)
Theorem scan_classifies {C : Crc32} (bs : bytes) :
  len bs <= isize_max ->
  (exists es tail, bs = frames es ++ tail /\ Forall Wal.fits es /\ torn tail /\ scan_bytes bs = Ok es) \/
  (exists es f rest err msg, bs = frames es ++ f ++ rest /\ Forall Wal.fits es /\ full_frame f f [] /\
     decode_entry f = Err err /\ scan_bytes bs = Err (Corruption msg)).
Proof.
  intros Hu. destruct (scan_loop_cases (S (length bs)) [] bs [] Hu ltac:(lia))
    as [(es & tail & H1 & H2 & H3 & H4)|(es & f & rest & err & msg & H1 & H2 & H3 & H4 & H5)].
  - left. by exists es, tail.
  - right. by exists es, f, rest, err, msg.
Qed.

Lemma scan_classifies_witness :
  len [x01; x02; x03] <= isize_max /\
  ((exists es tail, [x01; x02; x03] = @frames Toy.crc32 es ++ tail /\ Forall Wal.fits es /\ torn tail /\
      @scan_bytes Toy.crc32 [x01; x02; x03] = Ok es) \/
   (exists es f rest err msg, [x01; x02; x03] = @frames Toy.crc32 es ++ f ++ rest /\ Forall Wal.fits es /\
      full_frame f f [] /\ @decode_entry Toy.crc32 f = Err err /\
      @scan_bytes Toy.crc32 [x01; x02; x03] = Err (Corruption msg))).
Proof.
  split; [vm_compute; discriminate|]. apply (@scan_classifies Toy.crc32 [x01; x02; x03]).
  vm_compute. discriminate.
Defined.

(** C31: a log cut at any byte is recovered up to its last whole entry: the
    scan returns exactly the entries whose frames survive in full. *)
Theorem crash_recovers_prefix {C : Crc32} (es : list WalEntry) (n : nat) :
  Forall encodable es -> len (frames es) <= isize_max ->
  exists m, scan_bytes (take n (frames es)) = Ok (take m es) /\
    (m = length es \/ (m < length es)%nat /\ (n < length (frames (take (S m) es)))%nat) /\
    (length (frames (take m es)) <= n \/ m = 0)%nat.
Proof.
  intros Hes Hu.
  assert (Forall Wal.fits es) as Hfits by (eapply Forall_impl; [exact Hes|]; by intros e [? _]).
  destruct (take_frames es n Hfits) as (m & tail & Ht & Htorn & Hm & Hle). exists m. split; [|done].
  rewrite Ht. apply scan_bytes_frames; [by apply Forall_take|done|]. rewrite <- Ht.
  unfold len in *. rewrite length_take. lia.
Qed.

Definition sample_log : list WalEntry := [mkWalEntry Put [x61] [x31]; mkWalEntry Delete [x61] []].

Lemma sample_log_encodable : Forall encodable sample_log.
Proof. repeat constructor; vm_compute; discriminate. Qed.

Lemma crash_recovers_prefix_witness :
  exists m, @scan_bytes Toy.crc32 (take 20 (@frames Toy.crc32 sample_log)) = Ok (take m sample_log) /\
    (m < 2)%nat.
Proof.
  destruct (@crash_recovers_prefix Toy.crc32 sample_log 20 sample_log_encodable) as (m & Hs & Hm & Hle).
  - vm_compute. discriminate.
  - exists m. split; [exact Hs|]. destruct Hm as [->|[Hlt _]]; [|exact Hlt].
    exfalso. destruct Hle as [Hle|Hle]; [vm_compute in Hle; lia|discriminate Hle].
Defined.

(** C38: an entry that was cut behind its header, and appended to, hides what
    follows it.  Whatever whole entries come after the cut, while they are
    shorter than the part that is missing, the scan takes them for its payload:
    it ends without an error with the entries before the cut. *)
Theorem torn_entry_hides_rest {C : Crc32} (es : list WalEntry) (e : WalEntry) (n : nat) (later : list WalEntry) :
  Forall Wal.fits es -> Wal.fits e -> HEADER_LEN <= Z.of_nat n ->
  Z.of_nat n + len (frames later) < len (frame e) ->
  len (frames es ++ take n (frame e) ++ frames later) <= isize_max ->
  scan_bytes (frames es ++ take n (frame e) ++ frames later) = Ok es.
Proof. intros Hes He Hh Hn Hu. apply scan_bytes_frames; [done|by apply torn_middle|done]. Qed.

Lemma torn_entry_hides_rest_witness :
  exists e, @scan_bytes Toy.crc32 (@frames Toy.crc32 sample_log ++ take 20 (@frame Toy.crc32 e) ++ @frames Toy.crc32 sample_log) =
    Ok sample_log.
Proof.
  exists (mkWalEntry Put [x61] (replicate 100 x30)).
  apply (@torn_entry_hides_rest Toy.crc32 sample_log (mkWalEntry Put [x61] (replicate 100 x30)) 20 sample_log).
  - repeat constructor; vm_compute; discriminate.
  - repeat constructor; vm_compute; discriminate.
  - vm_compute. discriminate.
  - vm_compute. reflexivity.
  - vm_compute. discriminate.
Defined.

(** ** Written, synced, lost power, read *)

Section durable.
Context {C : Crc32}.

Definition append_of (e : WalEntry) : M (Fs * WalWriter) unit := append (op e) (key e) (value e).

Lemma append_all_ok fs w es :
  faults fs = [] -> Forall encodable es ->
  exists fs' w', for_each es append_of (fs, w) = (Ok tt, (fs', w')) /\
    bw_file (ww_file w') = bw_file (ww_file w) /\ touches (bw_file (ww_file w)) fs fs' /\
    log_of fs' w' = log_of fs w ++ frames es.
Proof.
  intros Hf Hes. revert fs w Hf. induction Hes as [|e es He _ IH]; intros fs w Hf.
  { exists fs, w. split; [done|]. split; [done|]. split; [by apply touches_refl|]. by rewrite app_nil_r. }
  destruct (append_ok fs w e Hf He) as (fs1 & w1 & H1 & B1 & _ & T1 & L1).
  destruct (IH fs1 w1 (touches_faults _ _ _ T1)) as (fs2 & w2 & H2 & B2 & T2 & L2).
  exists fs2, w2. cbn [for_each]. rewrite B1 in *. split.
  - assert (append_of e (fs, w) = (Ok tt, (fs1, w1))) as Hone by done.
    by rewrite (M_bind_ok _ _ _ _ _ Hone).
  - split; [done|]. split; [by eapply touches_trans|]. by rewrite L2, L1, frames_cons, <- app_assoc.
Qed.

(** A power loss keeps a file that is synced to its end. *)
Lemma power_loss_synced fs fs' ino d :
  power_loss fs fs' -> inode_of fs ino = mkInode d (length d) -> data_of fs' ino = d.
Proof.
  intros (_ & _ & H) Hi. destruct (H ino) as (n & Hn & Hi'). rewrite Hi in *. cbn in *.
  unfold data_of. rewrite Hi'. cbn. by apply take_ge.
Qed.

(** C33: entries appended to a new log and synced survive a power loss: as long
    as the file's name is still in the directory, the reader returns all of
    them, in order. *)
Theorem synced_log_survives fs path es :
  faults fs = [] -> fs_wf fs -> Forall encodable es -> len (frames es) <= isize_max ->
  exists w fs1 fs2 w2, wal_create path fs = (Ok w, fs1) /\
    (_ ← for_each es append_of; sync) (fs1, w) = (Ok tt, (fs2, w2)) /\
    forall fs3, power_loss fs2 fs3 -> dirents fs3 !! path = dirents fs2 !! path ->
      exists r, wal_open path fs3 = (Ok r, fs3) /\ read_all r fs3 = (Ok es, fs3).
Proof.
  intros Hf Hwf Hes Hu. destruct (file_create_ok path fs Hf Hwf) as (ino & fs1 & Hcr & Hwr).
  pose (w := mkWalWriter (bw_new ino) path []).
  destruct (append_all_ok fs1 w es (wr_faults _ _ _ _ _ Hwr) Hes) as (fsa & wa & Ha & Ba & Ta & La).
  destruct (sync_ok fsa wa (touches_faults _ _ _ Ta)) as (fs2 & w2 & Hs & _ & _ & _ & Ts & Is).
  exists w, fs1, fs2, w2. split; [unfold wal_create; by rewrite (M_bind_ok _ _ _ _ _ Hcr)|].
  split; [by rewrite (M_bind_ok _ _ _ _ _ Ha)|]. intros fs3 Hpl Dp.
  rewrite La in Is. unfold log_of at 1 2 in Is. cbn [w ww_file bw_file bw_buf bw_new] in Is, Ba, Ta, Ts.
  rewrite Ba, (wr_data _ _ _ _ _ Hwr), !app_nil_r in Is. cbn [app] in Is. rewrite Ba in Ts.
  pose proof (power_loss_synced _ _ _ _ Hpl Is) as Hd. destruct Hpl as (_ & Fp & _).
  assert (dirents fs3 !! path = Some ino) as Hp.
  { destruct Ta as (D1 & _). destruct Ts as (D2 & _).
    by rewrite Dp, D2, D1, (wr_dirents _ _ _ _ _ Hwr), lookup_insert_eq. }
  exists (mkWalReader ino path). split.
  - unfold wal_open. by rewrite (M_bind_ok _ _ _ _ _ (file_open_ok _ _ _ Fp Hp)).
  - unfold read_all, scan. rewrite (M_bind_ok _ _ _ _ _ (file_read_to_end_ok ino fs3 Fp)). rewrite Hd.
    unfold lift. f_equal. rewrite <- (app_nil_r (frames es)). apply scan_bytes_frames.
    + eapply Forall_impl; [exact Hes|]. by intros e [? _].
    + apply torn_nil.
    + by rewrite app_nil_r.
Qed.
End durable.

Lemma synced_log_survives_witness :
  exists w fs1 fs2 w2, wal_create "wal_000001.wal" empty_fs = (Ok w, fs1) /\
    (_ ← for_each sample_log (@append_of Toy.crc32); sync) (fs1, w) = (Ok tt, (fs2, w2)) /\
    forall fs3, power_loss fs2 fs3 -> dirents fs3 !! "wal_000001.wal" = dirents fs2 !! "wal_000001.wal" ->
      exists r, wal_open "wal_000001.wal" fs3 = (Ok r, fs3) /\
        @read_all Toy.crc32 r fs3 = (Ok sample_log, fs3).
Proof.
  apply (@synced_log_survives Toy.crc32 empty_fs "wal_000001.wal" sample_log).
  - reflexivity.
  - exact fs_wf_empty.
  - exact sample_log_encodable.
  - vm_compute. discriminate.
Defined.

(** Replaying a log into a table applies its whole entries in order, so
    that every key has its last logged write, and keys the log does not
    mention keep their entry; the number of applied entries is returned. *)
Theorem replay_last_write {C : Crc32} {SM : SkipMap Entry} r fs t es tail :
  faults fs = [] -> data_of fs (wr_file r) = frames es ++ tail -> torn tail -> Forall Wal.fits es ->
  len (frames es ++ tail) <= isize_max ->
  exists t', replay_into r (fs, t) = (Ok (len es), (fs, t')) /\
    forall k, get_entry t' k =
      match last_write (entry_mutation <$> es) k with Some e => Some e | None => get_entry t k end.
Proof. apply replay_into_ok. Qed.

Lemma replay_last_write_witness :
  exists t', @replay_into Toy.crc32 (Toy.skip_map Entry) (mkWalReader 0 "wal_000001.wal")
      (set_inode 0 (mkInode (@frames Toy.crc32 sample_log ++ [x01]) 0) empty_fs, MemTable.new) =
    (Ok 2, (set_inode 0 (mkInode (@frames Toy.crc32 sample_log ++ [x01]) 0) empty_fs, t')) /\
    get_entry t' [x61] = Some (mkEntry [] true).
Proof.
  destruct (@replay_last_write Toy.crc32 (Toy.skip_map Entry) (mkWalReader 0 "wal_000001.wal")
    (set_inode 0 (mkInode (@frames Toy.crc32 sample_log ++ [x01]) 0) empty_fs) MemTable.new sample_log [x01])
    as (t' & Hr & Hg).
  - reflexivity.
  - vm_compute. reflexivity.
  - left. vm_compute. reflexivity.
  - eapply Forall_impl; [exact sample_log_encodable|]. intros e [? _]. assumption.
  - vm_compute. discriminate.
  - exists t'. split; [exact Hr|]. rewrite Hg. reflexivity.
Defined.
