(* ===== verification/StdVec.v ===== *)
(** * Slice and vector methods of the standard library the source calls *)

From S2P Require Import Prelude Outcome.

(** ** [slice::partition_point], by binary search

    [base] moves to the middle when the predicate holds there; [size] is
    reduced by half until one candidate is left. *)
Section partition_point.
Context {A : Type} (pred : A -> bool).

Fixpoint partition_loop (fuel : nat) (l : list A) (base size : nat) : nat :=
  match fuel with
  | O => base
  | S fuel =>
      if (size <=? 1)%nat then base
      else
        let half := (size / 2)%nat in
        let mid := (base + half)%nat in
        let base := match l !! mid with
                    | Some x => if pred x then mid else base
                    | None => base
                    end in
        partition_loop fuel l base (size - half)
  end.

Definition partition_point (l : list A) : nat :=
  match l with
  | [] => 0%nat
  | _ =>
      let base := partition_loop (length l) l 0 (length l) in
      match l !! base with
      | Some x => if pred x then S base else base
      | None => base
      end
  end.

(** The slices the method is specified on. *)
Definition partitioned (l1 l2 : list A) : Prop :=
  Forall (fun x => pred x = true) l1 /\ Forall (fun x => pred x = false) l2.

Lemma partitioned_lookup l1 l2 i x :
  partitioned l1 l2 -> (l1 ++ l2) !! i = Some x ->
  pred x = true /\ (i < length l1)%nat \/ pred x = false /\ (length l1 <= i)%nat.
Proof.
  intros [H1 H2] [Hx|[Hi Hx]]%lookup_app_Some; rewrite Forall_forall in H1, H2.
  - left. split; [apply H1; by eapply list_elem_of_lookup_2|by eapply lookup_lt_Some].
  - right. split; [apply H2; by eapply list_elem_of_lookup_2|done].
Qed.

Lemma partition_loop_spec fuel l1 l2 base size :
  partitioned l1 l2 -> (size <= fuel)%nat -> (0 < size)%nat ->
  (base + size <= length (l1 ++ l2))%nat -> (base = 0 \/ base < length l1)%nat ->
  (length l1 <= base + size)%nat ->
  let b := partition_loop fuel (l1 ++ l2) base size in
  (b < length (l1 ++ l2) /\ (b = 0 \/ b < length l1) /\ length l1 <= S b)%nat.
Proof.
  intros Hp. revert base size. induction fuel as [|fuel IH]; intros base size Hf Hs Hb H0 Hl;
    cbn [partition_loop]; [lia|].
  destruct (Nat.leb_spec size 1) as [H1|H1]; [split_and!; lia|].
  pose proof (Nat.div_lt size 2 ltac:(lia) ltac:(lia)).
  pose proof (Nat.div_str_pos size 2 ltac:(lia)).
  pose proof (Nat.Div0.mul_div_le size 2).
  destruct (lookup_lt_is_Some_2 (l1 ++ l2) (base + size / 2)) as [x Hx]; [lia|].
  rewrite Hx. destruct (partitioned_lookup _ _ _ _ Hp Hx) as [[-> Hm]|[-> Hm]]; apply IH; lia.
Qed.

(** On a partitioned slice the search returns the partition point. *)
Lemma partition_point_spec l1 l2 :
  partitioned l1 l2 -> partition_point (l1 ++ l2) = length l1.
Proof.
  intros Hp. unfold partition_point.
  assert (Hcases : l1 ++ l2 = [] \/ (0 < length (l1 ++ l2))%nat)
    by (destruct (l1 ++ l2); [by left | right; simpl; lia]).
  destruct Hcases as [Hnil|Hpos].
  { rewrite Hnil. by apply app_nil in Hnil as [-> _]. }
  destruct (l1 ++ l2) as [|y l] eqn:E; [simpl in Hpos; lia|]. rewrite <- E in *. clear y l E.
  destruct (partition_loop_spec (length (l1 ++ l2)) l1 l2 0 (length (l1 ++ l2)) Hp)
    as (Hb & H0 & Hl); try lia; [rewrite length_app; lia|].
  destruct (lookup_lt_is_Some_2 (l1 ++ l2) _ Hb) as [x Hx]. rewrite Hx.
  destruct (partitioned_lookup _ _ _ _ Hp Hx) as [[-> Hm]|[-> Hm]]; lia.
Qed.

Lemma partition_loop_bound fuel l base size :
  (0 < size)%nat -> (base + size <= length l)%nat ->
  (partition_loop fuel l base size < length l)%nat.
Proof.
  revert base size. induction fuel as [|fuel IH]; intros base size Hs Hb; cbn [partition_loop]; [lia|].
  destruct (Nat.leb_spec size 1) as [H1|H1]; [lia|].
  pose proof (Nat.div_lt size 2 ltac:(lia) ltac:(lia)).
  pose proof (Nat.div_str_pos size 2 ltac:(lia)).
  destruct (l !! _) as [x|]; [destruct (pred x)|]; apply IH; lia.
Qed.

(** Whatever the slice, the result is a position of it or its length. *)
Lemma partition_point_bound l : (partition_point l <= length l)%nat.
Proof.
  unfold partition_point. destruct l as [|y l]; [done|].
  pose proof (partition_loop_bound (length (y :: l)) (y :: l) 0 (length (y :: l))
    ltac:(simpl; lia) ltac:(lia)).
  destruct (_ !! _) as [x|]; [destruct (pred x)|]; lia.
Qed.

(** Any slice on which the predicate never turns back on is partitioned. *)
Lemma partitioned_filter l :
  StronglySorted (fun x y => pred y = true -> pred x = true) l ->
  exists l1 l2, l = l1 ++ l2 /\ partitioned l1 l2.
Proof.
  induction 1 as [|x l Hl (l1 & l2 & -> & H1 & H2) Hx]; [by exists [], []|].
  destruct (pred x) eqn:E.
  - exists (x :: l1), l2. split; [done|]. split; [by constructor|done].
  - exists [], (x :: l1 ++ l2). split; [done|]. split; [constructor|]. constructor; [done|].
    eapply Forall_impl; [exact Hx|]. intros y Hy. simpl in *. destruct (pred y); [|done].
    symmetry. by apply Hy.
Qed.
End partition_point.

(** ** [v[i]] *)
Definition vec_at {A} (l : list A) (i : nat) : outcome A :=
  match l !! i with Some x => Ok x | None => Panic end.

Lemma vec_at_ok {A} (l : list A) i x : l !! i = Some x -> vec_at l i = Ok x.
Proof. unfold vec_at. by intros ->. Qed.

(** ** [Vec::insert(pos, x)]: panics beyond the end *)
Definition vec_insert {A} (pos : nat) (x : A) (l : list A) : outcome (list A) :=
  if (pos <=? length l)%nat then Ok (take pos l ++ x :: drop pos l) else Panic.

Lemma vec_insert_app {A} (l1 l2 : list A) x :
  vec_insert (length l1) x (l1 ++ l2) = Ok (l1 ++ x :: l2).
Proof.
  unfold vec_insert. rewrite (proj2 (Nat.leb_le _ _)) by (rewrite length_app; lia).
  by rewrite take_app_length, drop_app_length.
Qed.

(** ** [Vec::remove(pos)] *)
Definition vec_remove {A} (pos : nat) (l : list A) : list A := take pos l ++ drop (S pos) l.

(** ** [iter().position(p)] *)
Fixpoint position {A} (p : A -> bool) (l : list A) : option nat :=
  match l with
  | [] => None
  | x :: l => if p x then Some 0%nat else S <$> position p l
  end.

(** ** [Vec::resize(n, Vec::new())] for a longer [n] *)
Definition vec_grow {A} (n : nat) (l : list (list A)) : list (list A) :=
  l ++ replicate (n - length l) [].

(** [retain] with a test that holds everywhere. *)
Lemma filter_id {A} (P : A -> Prop) `{forall x, Decision (P x)} (l : list A) :
  Forall P l -> base.filter P l = l.
Proof. induction 1 as [|x l Hx _ IH]; [done|]. by rewrite filter_cons, decide_True, IH. Qed.

(** ** [sort_by_key], which is stable *)
Section sort_by_key.
Context {A : Type} (key : A -> Z).

Fixpoint sort_insert (x : A) (l : list A) : list A :=
  match l with
  | [] => [x]
  | y :: l' => if key x <=? key y then x :: l else y :: sort_insert x l'
  end.

Fixpoint sort_by_key (l : list A) : list A :=
  match l with [] => [] | x :: l => sort_insert x (sort_by_key l) end.

Lemma sort_insert_Permutation x l : sort_insert x l ≡ₚ x :: l.
Proof.
  induction l as [|y l IH]; simpl; [done|]. destruct (_ <=? _); [done|].
  rewrite IH. apply Permutation_swap.
Qed.

Lemma sort_by_key_Permutation l : sort_by_key l ≡ₚ l.
Proof. induction l as [|x l IH]; simpl; [done|]. by rewrite sort_insert_Permutation, IH. Qed.

Lemma sort_insert_sorted x l :
  StronglySorted (fun a b => key a <= key b) l ->
  StronglySorted (fun a b => key a <= key b) (sort_insert x l).
Proof.
  induction 1 as [|y l Hl IH Hy]; simpl; [by repeat constructor|].
  destruct (Z.leb_spec (key x) (key y)).
  - constructor; [by constructor|]. constructor; [done|].
    eapply Forall_impl; [exact Hy|]. simpl. lia.
  - constructor; [done|]. rewrite sort_insert_Permutation. constructor; [lia|done].
Qed.

Lemma sort_by_key_sorted l : StronglySorted (fun a b => key a <= key b) (sort_by_key l).
Proof. induction l as [|x l IH]; simpl; [constructor|]. by apply sort_insert_sorted. Qed.
End sort_by_key.
