(* ===== verification/SstRecord.v ===== *)
(** * SSTable constants ([src/src/sstable/mod.rs]) and the record framing of
    data blocks ([src/src/sstable/record.rs]) *)

From S2P Require Import Prelude Outcome Utils.

(** ** Definitions *)

Definition TARGET_BLOCK_SIZE : Z := 4096.
Definition MAGIC : bytes := [x4c; x53; x4d; x54; x52; x45; x45; x31].
Definition FOOTER_LEN : Z := 24.
Definition MAX_KEY_LEN : Z := 65535.
Definition MAX_VALUE_LEN : Z := u32_max.
Definition FLAG_DELETED : Z := 1.

Inductive LookupValue :=
  | Present (v : bytes)
  | Deleted.

#[export] Instance LookupValue_eq_dec : EqDecision LookupValue.
Proof. solve_decision. Defined.

Definition RECORD_HEADER_LEN : Z := 2 + 1 + 4.

Ltac sst_consts :=
  unfold RECORD_HEADER_LEN, FOOTER_LEN, MAX_KEY_LEN, MAX_VALUE_LEN, u16_max, u32_max, u64_max,
    usize_max, isize_max in *.

(** One record of a table: key, value, and whether it is a tombstone. *)
Abbreviation record := (list Byte.byte * list Byte.byte * bool)%type.

Definition rkey (r : record) : bytes := r.1.1.
Definition rvalue (r : record) : bytes := r.1.2.
Definition rdeleted (r : record) : bool := r.2.

Definition record_len (key_len value_len : Z) : outcome Z :=
  n ← uadd RECORD_HEADER_LEN key_len; uadd n value_len.

Definition put_record (buf key value : bytes) (deleted : bool) : outcome bytes :=
  if MAX_KEY_LEN <? len key then Err (KeyTooLarge (len key) MAX_KEY_LEN)
  else if MAX_VALUE_LEN <? len value then Err (ValueTooLarge (len value) MAX_VALUE_LEN)
  else
    let flags := if deleted then z2b FLAG_DELETED else z2b 0 in
    let buf := put_u16 buf (len key) in
    let buf := buf ++ [flags] in
    let buf := put_u32 buf (len value) in
    let buf := buf ++ key in
    let buf := buf ++ value in
    Ok buf.

(** [saturating_sub] *)
Definition saturating_sub (a b : Z) : Z := Z.max 0 (a - b).

Definition read_record (bs : bytes) (offset : Z) : outcome (record * Z) :=
  let remaining := saturating_sub (len bs) offset in
  if remaining <? RECORD_HEADER_LEN then
    Err (Corruption ("sstable record at offset " +:+ pretty offset +:+ " shorter than header"))
  else
    key_len ← read_u16 bs offset;
    flags_at ← uadd offset 2;
    flags ← index bs flags_at;
    len_at ← uadd offset 3;
    value_len ← read_u32 bs len_at;
    total ← record_len key_len value_len;
    if remaining <? total then
      Err (Corruption ("sstable record at offset " +:+ pretty offset +:+
        " truncated: header declares " +:+ pretty total +:+ " bytes, only " +:+
        pretty remaining +:+ " available"))
    else
      key_start ← uadd offset RECORD_HEADER_LEN;
      value_start ← uadd key_start key_len;
      let deleted := negb (Z.land (b2z flags) FLAG_DELETED =? 0) in
      k ← slice bs key_start value_start;
      value_end ← uadd offset total;
      v ← slice bs value_start value_end;
      Ok ((k, v, deleted), total).

(** ** Specification: the bytes of a record *)

Definition record_bytes (r : record) : bytes :=
  le_bytes 2 (len (rkey r)) ++ (if rdeleted r then z2b FLAG_DELETED else z2b 0) ::
  le_bytes 4 (len (rvalue r)) ++ rkey r ++ rvalue r.

Definition records_bytes (rs : list record) : bytes := concat (record_bytes <$> rs).

(** Records within the length caps. *)
Definition capped (r : record) : Prop :=
  len (rkey r) <= MAX_KEY_LEN /\ len (rvalue r) <= MAX_VALUE_LEN.

(** ** Lemmas *)

Lemma len_record_bytes r : len (record_bytes r) = RECORD_HEADER_LEN + len (rkey r) + len (rvalue r).
Proof. unfold record_bytes. sst_consts. len_solve. Qed.

Lemma len_record_pos r : 7 <= len (record_bytes r).
Proof. rewrite len_record_bytes. sst_consts. len_solve. Qed.

Lemma records_bytes_cons r rs : records_bytes (r :: rs) = record_bytes r ++ records_bytes rs.
Proof. done. Qed.

Lemma records_bytes_app rs1 rs2 : records_bytes (rs1 ++ rs2) = records_bytes rs1 ++ records_bytes rs2.
Proof. unfold records_bytes. by rewrite fmap_app, concat_app. Qed.

Lemma records_bytes_nil : records_bytes [] = [].
Proof. done. Qed.

Lemma length_records_bytes rs : (length rs <= length (records_bytes rs))%nat.
Proof.
  induction rs as [|r rs IH]; [done|]. rewrite records_bytes_cons, length_app. simpl.
  pose proof (len_record_pos r) as H. unfold len in H. lia.
Qed.

Lemma record_bytes_nonempty r : record_bytes r <> [].
Proof. intros H. pose proof (len_record_pos r) as Hl. by rewrite H in Hl. Qed.

Lemma put_record_ok buf r :
  capped r -> put_record buf (rkey r) (rvalue r) (rdeleted r) = Ok (buf ++ record_bytes r).
Proof.
  intros [Hk Hv]. unfold put_record.
  rewrite (proj2 (Z.ltb_ge _ _)) by done. rewrite (proj2 (Z.ltb_ge _ _)) by done.
  unfold put_u16, put_u32, record_bytes. f_equal.
  by rewrite <- !app_assoc.
Qed.

Lemma record_len_ok k v :
  0 <= k <= u16_max -> 0 <= v <= u32_max -> record_len k v = Ok (RECORD_HEADER_LEN + k + v).
Proof.
  intros. unfold record_len. rewrite uadd_ok by (sst_consts; lia).
  cbn [mbind outcome_bind]. apply uadd_ok. sst_consts; lia.
Qed.

(** The decoder on a buffer given by fields: everything declared is there. *)
Lemma read_record_full bs (p kl : bytes) fl (vl k v q : bytes) :
  bs = p ++ kl ++ fl :: vl ++ k ++ v ++ q ->
  len kl = 2 -> len vl = 4 -> len k = le_val kl -> len v = le_val vl -> len bs <= isize_max ->
  read_record bs (len p) =
    Ok ((k, v, negb (Z.land (b2z fl) FLAG_DELETED =? 0)), RECORD_HEADER_LEN + len k + len v).
Proof.
  intros Hseg Hkl Hvl Hk Hv Hu.
  pose proof (le_val_u16 kl Hkl) as Rk. pose proof (le_val_u32 vl Hvl) as Rv.
  assert (len bs = len p + 7 + len k + len v + len q) as Hlen by (rewrite Hseg; len_solve).
  pose proof (len_nonneg q). pose proof (len_nonneg p).
  unfold read_record, saturating_sub.
  rewrite (proj2 (Z.ltb_ge _ _)) by (sst_consts; lia).
  rewrite (read_u16_seg bs p kl (fl :: vl ++ k ++ v ++ q)) by (done || (sst_consts; lia)).
  cbn [mbind outcome_bind]. rewrite (uadd_ok (len p) 2) by (sst_consts; lia).
  cbn [mbind outcome_bind]. rewrite (index_at bs (p ++ kl) fl (vl ++ k ++ v ++ q))
    by (segs Hseg || (sst_consts; len_solve)).
  cbn [mbind outcome_bind]. rewrite (uadd_ok (len p) 3) by (sst_consts; lia).
  cbn [mbind outcome_bind]. rewrite (read_u32_seg bs (p ++ kl ++ [fl]) vl (k ++ v ++ q))
    by (segs Hseg || (sst_consts; len_solve)).
  cbn [mbind outcome_bind]. rewrite record_len_ok by done.
  cbn [mbind outcome_bind]. rewrite (proj2 (Z.ltb_ge _ _)) by (sst_consts; lia).
  rewrite (uadd_ok (len p) RECORD_HEADER_LEN) by (sst_consts; lia).
  cbn [mbind outcome_bind]. rewrite (uadd_ok _ (le_val kl)) by (sst_consts; lia).
  cbn [mbind outcome_bind]. rewrite (slice_at bs (p ++ kl ++ fl :: vl) k (v ++ q))
    by (segs Hseg || (sst_consts; len_solve)).
  cbn [mbind outcome_bind]. rewrite (uadd_ok (len p) (_ + le_val vl)) by (sst_consts; lia).
  cbn [mbind outcome_bind]. rewrite (slice_at bs (p ++ kl ++ fl :: vl ++ k) v q)
    by (segs Hseg || (sst_consts; len_solve)).
  cbn [mbind outcome_bind]. by rewrite Hk, Hv.
Qed.

(** On any buffer and offset the decoder returns a record that lies in the
    buffer, or an error. *)
Lemma read_record_ends bs offset :
  len bs <= isize_max -> 0 <= offset ->
  ends (read_record bs offset) (fun '(r, total) =>
    capped r /\ total = RECORD_HEADER_LEN + len (rkey r) + len (rvalue r) /\
    offset + total <= len bs).
Proof.
  intros Hu Ho.
  destruct (Z.ltb_spec (saturating_sub (len bs) offset) RECORD_HEADER_LEN) as [Hs|Hs].
  { unfold read_record. by rewrite (proj2 (Z.ltb_lt _ _)). }
  unfold saturating_sub in Hs. assert (RECORD_HEADER_LEN <= len bs - offset) as Hr by (sst_consts; lia).
  destruct (split_at_len bs offset) as (p & r0 & -> & Hp); [sst_consts; lia|]. len_simpl.
  destruct (split_at_len r0 2) as (kl & r1 & -> & Hkl); [sst_consts; lia|]. len_simpl.
  destruct r1 as [|fl r1]; [sst_consts; len_simpl; lia|]. len_simpl.
  destruct (split_at_len r1 4) as (vl & tl & -> & Hvl); [sst_consts; lia|]. len_simpl.
  pose proof (le_val_u16 kl Hkl) as Rk. pose proof (le_val_u32 vl Hvl) as Rv.
  destruct (Z.ltb_spec (len tl) (le_val kl + le_val vl)) as [Ht|Ht].
  - remember (p ++ kl ++ fl :: vl ++ tl) as bs eqn:Hseg.
    assert (len bs = offset + 7 + len tl) as Hlen by (rewrite Hseg; len_solve).
    pose proof (len_nonneg tl).
    unfold read_record, saturating_sub. rewrite (proj2 (Z.ltb_ge _ _)) by (sst_consts; lia).
    rewrite (read_u16_seg bs p kl (fl :: vl ++ tl)) by (done || (sst_consts; lia)).
    cbn [mbind outcome_bind]. rewrite (uadd_ok offset 2) by (sst_consts; lia).
    cbn [mbind outcome_bind]. rewrite (index_at bs (p ++ kl) fl (vl ++ tl))
      by (segs Hseg || (sst_consts; len_solve)).
    cbn [mbind outcome_bind]. rewrite (uadd_ok offset 3) by (sst_consts; lia).
    cbn [mbind outcome_bind]. rewrite (read_u32_seg bs (p ++ kl ++ [fl]) vl tl)
      by (segs Hseg || (sst_consts; len_solve)).
    cbn [mbind outcome_bind]. rewrite record_len_ok by done.
    cbn [mbind outcome_bind]. by rewrite (proj2 (Z.ltb_lt _ _)) by (sst_consts; lia).
  - destruct (split_at_len tl (le_val kl)) as (k & r2 & -> & Hk); [lia|]. rewrite len_app in Ht.
    destruct (split_at_len r2 (le_val vl)) as (v & q & -> & Hv); [lia|].
    rewrite <- Hp. rewrite (read_record_full _ p kl fl vl k v q)
      by (done || (len_simpl; unfold isize_max in *; lia)).
    cbn [ends]. unfold capped, rkey, rvalue. simpl. pose proof (len_nonneg q).
    split_and!; [sst_consts; lia|sst_consts; lia|done|]. sst_consts. len_simpl. lia.
Qed.

Lemma read_record_mid p r q :
  capped r -> len (p ++ record_bytes r ++ q) <= isize_max ->
  read_record (p ++ record_bytes r ++ q) (len p) = Ok (r, len (record_bytes r)).
Proof.
  intros [Hk Hv] Hu. pose proof (len_nonneg (rkey r)). pose proof (len_nonneg (rvalue r)).
  rewrite (read_record_full _ p (le_bytes 2 (len (rkey r)))
             (if rdeleted r then z2b FLAG_DELETED else z2b 0)
             (le_bytes 4 (len (rvalue r))) (rkey r) (rvalue r) q);
    rewrite ?len_le_bytes, ?le_val_2, ?le_val_4 by (sst_consts; lia); try done.
  - rewrite len_record_bytes. by destruct r as [[k v] []].
  - unfold record_bytes. assoc_refl.
Qed.

(** ** Properties *)

(** A record within the length caps is appended to a block and read back
    at the offset it was written at, with the number of bytes it takes,
    whatever precedes and follows it. *)
Theorem record_roundtrip (buf q : bytes) (r : record) :
  capped r ->
  exists d, put_record buf (rkey r) (rvalue r) (rdeleted r) = Ok (buf ++ d) /\
    record_len (len (rkey r)) (len (rvalue r)) = Ok (len d) /\
    (len (buf ++ d ++ q) <= isize_max -> read_record (buf ++ d ++ q) (len buf) = Ok (r, len d)).
Proof.
  intros Hc. exists (record_bytes r). split_and!; [by apply put_record_ok| |by apply read_record_mid].
  destruct Hc as [Hk Hv]. pose proof (len_nonneg (rkey r)). pose proof (len_nonneg (rvalue r)).
  rewrite record_len_ok by (sst_consts; lia). by rewrite len_record_bytes.
Qed.

Lemma record_roundtrip_witness :
  exists d, put_record [x00] [x61] [x31; x32] true = Ok ([x00] ++ d) /\
    read_record ([x00] ++ d ++ [xff]) 1 = Ok (([x61], [x31; x32], true), len d).
Proof.
  destruct (record_roundtrip [x00] [xff] ([x61], [x31; x32], true)) as (d & Hp & Hl & Hr).
  - split; vm_compute; discriminate.
  - exists d. split; [exact Hp|]. apply Hr. assert (Ok (len d) = Ok 10) as [= Hd] by (rewrite <- Hl; reflexivity).
    rewrite !len_app, Hd. vm_compute. discriminate.
Defined.

(** C34: reading a record from any bytes at any offset reports corruption or
    returns a record that lies inside the buffer, within the caps; offsets and
    lengths taken from the file never overflow or leave the buffer. *)
Theorem record_read_safe (bs : bytes) (off : Z) :
  len bs <= isize_max -> 0 <= off ->
  match read_record bs off with
  | Ok (r, total) => capped r /\ total = RECORD_HEADER_LEN + len (rkey r) + len (rvalue r) /\
      off + total <= len bs
  | Err _ => True
  | Panic | Halt => False
  end.
Proof.
  intros Hu Ho. pose proof (read_record_ends bs off Hu Ho) as H. by destruct (read_record bs off) as [[r n]| | |].
Qed.

Lemma record_read_safe_witness :
  len [xff; xff; x00; xff; xff; xff; xff] <= isize_max /\
  match read_record [xff; xff; x00; xff; xff; xff; xff] 0 with
  | Ok (r, total) => capped r /\ total = RECORD_HEADER_LEN + len (rkey r) + len (rvalue r) /\
      0 + total <= len [xff; xff; x00; xff; xff; xff; xff]
  | Err _ => True
  | Panic | Halt => False
  end.
Proof.
  split; [vm_compute; discriminate|].
  apply (record_read_safe [xff; xff; x00; xff; xff; xff; xff] 0); [vm_compute; discriminate|lia].
Defined.
