(* ===== verification/SstIndex.v ===== *)
(** * The sparse index of a table ([src/src/sstable/index.rs]) *)

From S2P Require Import Prelude Outcome Utils StdVec SstRecord.

(** ** Definitions *)

Definition INDEX_ENTRY_HEADER_LEN : Z := 2 + 8 + 8.

Record IndexEntry := mkIndexEntry { first_key : bytes; offset : Z; size : Z }.

#[export] Instance IndexEntry_eq_dec : EqDecision IndexEntry.
Proof. solve_decision. Defined.

(** The first loop of [encode_index]: every length is checked before anything
    is written. *)
Fixpoint check_keys (entries : list IndexEntry) : outcome unit :=
  match entries with
  | [] => Ok tt
  | e :: entries =>
      if MAX_KEY_LEN <? len (first_key e)
      then Err (KeyTooLarge (len (first_key e)) MAX_KEY_LEN)
      else check_keys entries
  end.

(** The second loop. *)
Fixpoint put_entries (buf : bytes) (entries : list IndexEntry) : bytes :=
  match entries with
  | [] => buf
  | e :: entries =>
      let buf := put_u16 buf (len (first_key e)) in
      let buf := buf ++ first_key e in
      let buf := put_u64 buf (offset e) in
      let buf := put_u64 buf (size e) in
      put_entries buf entries
  end.

Definition encode_index (buf : bytes) (entries : list IndexEntry) : outcome bytes :=
  _ ← check_keys entries; Ok (put_entries buf entries).

(** The loop of [parse_index]; [fuel] bounds the number of entries. *)
Fixpoint parse_loop (fuel : nat) (bs : bytes) (off : Z) (entries : list IndexEntry)
    : outcome (list IndexEntry) :=
  match fuel with
  | O => Halt
  | S fuel =>
      if off <? len bs then
        remaining ← usub (len bs) off;
        if remaining <? INDEX_ENTRY_HEADER_LEN then
          Err (Corruption ("sstable index entry at offset " +:+ pretty off +:+ " truncated: " +:+
            pretty remaining +:+ " bytes left, need at least " +:+ pretty INDEX_ENTRY_HEADER_LEN))
        else
          key_len ← read_u16 bs off;
          entry_len ← uadd INDEX_ENTRY_HEADER_LEN key_len;
          if remaining <? entry_len then
            Err (Corruption ("sstable index entry at offset " +:+ pretty off +:+
              " truncated: header declares " +:+ pretty entry_len +:+ " bytes, only " +:+
              pretty remaining +:+ " available"))
          else
            key_start ← uadd off 2;
            key_end ← uadd key_start key_len;
            k ← slice bs key_start key_end;
            o ← read_u64 bs key_end;
            size_at ← uadd key_end 8;
            s ← read_u64 bs size_at;
            next ← uadd off entry_len;
            parse_loop fuel bs next (entries ++ [mkIndexEntry k o s])
      else Ok entries
  end.

Definition parse_index (bs : bytes) : outcome (list IndexEntry) :=
  parse_loop (S (length bs)) bs 0 [].

Definition locate_block (entries : list IndexEntry) (key : bytes) : option nat :=
  let split := partition_point (fun e => key_leb (first_key e) key) entries in
  if (split =? 0)%nat then None else Some (split - 1)%nat.

(** ** Specification *)

Definition entry_bytes (e : IndexEntry) : bytes :=
  le_bytes 2 (len (first_key e)) ++ first_key e ++ le_bytes 8 (offset e) ++ le_bytes 8 (size e).

Definition index_bytes (es : list IndexEntry) : bytes := concat (entry_bytes <$> es).

(** Entries whose fields fit the format. *)
Definition entry_fits (e : IndexEntry) : Prop :=
  len (first_key e) <= MAX_KEY_LEN /\ 0 <= offset e <= u64_max /\ 0 <= size e <= u64_max.

(** ** Lemmas *)

Lemma len_entry_bytes e : len (entry_bytes e) = INDEX_ENTRY_HEADER_LEN + len (first_key e).
Proof. unfold entry_bytes, INDEX_ENTRY_HEADER_LEN. len_solve. Qed.

Lemma index_bytes_cons e es : index_bytes (e :: es) = entry_bytes e ++ index_bytes es.
Proof. done. Qed.

Lemma length_index_bytes es : (length es <= length (index_bytes es))%nat.
Proof.
  induction es as [|e es IH]; [done|]. rewrite index_bytes_cons, length_app. simpl.
  pose proof (len_entry_bytes e) as H. unfold len, INDEX_ENTRY_HEADER_LEN in H. lia.
Qed.

Lemma put_entries_bytes buf es : put_entries buf es = buf ++ index_bytes es.
Proof.
  revert buf. induction es as [|e es IH]; intros buf; simpl; [by rewrite app_nil_r|].
  rewrite IH, index_bytes_cons. unfold put_u16, put_u64, entry_bytes. by rewrite <- !app_assoc.
Qed.

Lemma encode_index_ok buf es :
  Forall (fun e => len (first_key e) <= MAX_KEY_LEN) es ->
  encode_index buf es = Ok (buf ++ index_bytes es).
Proof.
  intros H. unfold encode_index.
  assert (check_keys es = Ok tt) as ->.
  { induction H as [|e es He _ IH]; simpl; [done|]. by rewrite (proj2 (Z.ltb_ge _ _)). }
  cbn [mbind outcome_bind]. by rewrite put_entries_bytes.
Qed.

(** One round of the parser. *)
Lemma parse_step fuel p e q entries :
  entry_fits e -> len (p ++ entry_bytes e ++ q) <= isize_max ->
  parse_loop (S fuel) (p ++ entry_bytes e ++ q) (len p) entries =
    parse_loop fuel (p ++ entry_bytes e ++ q) (len p + len (entry_bytes e)) (entries ++ [e]).
Proof.
  intros (Hk & Ho & Hs) Hu. pose proof (len_entry_bytes e) as Hle.
  pose proof (len_nonneg (first_key e)). pose proof (len_nonneg p). pose proof (len_nonneg q).
  assert (len (p ++ entry_bytes e ++ q) = len p + len (entry_bytes e) + len q) as Hlen by len_solve.
  remember (p ++ entry_bytes e ++ q) as bs eqn:Hseg. unfold entry_bytes in Hseg.
  rewrite <- !app_assoc in Hseg. unfold INDEX_ENTRY_HEADER_LEN in *. sst_consts.
  cbn [parse_loop]. rewrite (proj2 (Z.ltb_lt _ _)) by lia.
  rewrite usub_ok by lia. cbn [mbind outcome_bind].
  unfold INDEX_ENTRY_HEADER_LEN. rewrite (proj2 (Z.ltb_ge _ _)) by lia.
  rewrite (read_u16_at (len (first_key e)) bs p _ _ Hseg) by (sst_consts; lia).
  cbn [mbind outcome_bind]. rewrite (uadd_ok _ (len (first_key e))) by (sst_consts; lia).
  cbn [mbind outcome_bind]. rewrite (proj2 (Z.ltb_ge _ _)) by lia.
  rewrite (uadd_ok (len p) 2) by (sst_consts; lia).
  cbn [mbind outcome_bind]. rewrite (uadd_ok (len p + 2)) by (sst_consts; lia).
  cbn [mbind outcome_bind].
  rewrite (slice_at bs (p ++ le_bytes 2 (len (first_key e))) (first_key e) _) by (segs Hseg || len_solve).
  cbn [mbind outcome_bind].
  rewrite (read_u64_at (offset e) bs (p ++ le_bytes 2 (len (first_key e)) ++ first_key e)
            (le_bytes 8 (size e) ++ q)) by (segs Hseg || (sst_consts; len_solve)).
  cbn [mbind outcome_bind]. rewrite (uadd_ok _ 8) by (sst_consts; lia).
  cbn [mbind outcome_bind].
  rewrite (read_u64_at (size e) bs
            (p ++ le_bytes 2 (len (first_key e)) ++ first_key e ++ le_bytes 8 (offset e)) q)
    by (segs Hseg || (sst_consts; len_solve)).
  cbn [mbind outcome_bind]. rewrite uadd_ok by (sst_consts; lia).
  cbn [mbind outcome_bind]. rewrite Hle. by destruct e.
Qed.

Lemma index_bytes_app es1 es2 : index_bytes (es1 ++ es2) = index_bytes es1 ++ index_bytes es2.
Proof. unfold index_bytes. by rewrite fmap_app, concat_app. Qed.

Lemma parse_loop_bytes fuel p es entries :
  Forall entry_fits es -> len (p ++ index_bytes es) <= isize_max -> (length es < fuel)%nat ->
  parse_loop fuel (p ++ index_bytes es) (len p) entries = Ok (entries ++ es).
Proof.
  revert fuel p entries. induction es as [|e es IH]; intros fuel p entries Hes Hu Hf;
    destruct fuel as [|fuel]; [simpl in Hf; lia| |simpl in Hf; lia|].
  - cbn [parse_loop]. change (index_bytes []) with (@nil byte). rewrite !app_nil_r.
    by rewrite Z.ltb_irrefl.
  - inversion_clear Hes as [|? ? He Hes']. rewrite index_bytes_cons in *.
    rewrite parse_step by done. rewrite <- len_app. rewrite app_assoc in *.
    simpl in Hf. rewrite IH by (done || lia). by rewrite <- app_assoc.
Qed.

Lemma parse_index_bytes es :
  Forall entry_fits es -> len (index_bytes es) <= isize_max -> parse_index (index_bytes es) = Ok es.
Proof.
  intros Hes Hu. unfold parse_index. pose proof (length_index_bytes es).
  apply (parse_loop_bytes _ [] es []); [done..|lia].
Qed.

(** A complete entry at the start of a buffer, or an error. *)
Lemma parse_round fuel (p s : bytes) entries :
  len (p ++ s) <= isize_max -> s <> [] ->
  (exists e q, s = entry_bytes e ++ q /\ entry_fits e) \/
  exists msg, parse_loop (S fuel) (p ++ s) (len p) entries = Err (Corruption msg).
Proof.
  intros Hu Hne. rewrite len_app in Hu. pose proof (len_nonneg p).
  assert (0 < len s) by (destruct s; [done|]; rewrite len_cons; pose proof (len_nonneg s); lia).
  destruct (Z.ltb_spec (len s) INDEX_ENTRY_HEADER_LEN) as [Hs|Hs].
  { right. cbn [parse_loop]. rewrite len_app, (proj2 (Z.ltb_lt _ _)) by lia.
    rewrite usub_ok by lia. cbn [mbind outcome_bind].
    rewrite (proj2 (Z.ltb_lt _ _)) by lia. by eexists. }
  unfold INDEX_ENTRY_HEADER_LEN in Hs.
  destruct (split_at_len s 2) as (kl & r1 & -> & Hkl); [lia|]. len_simpl.
  pose proof (le_val_u16 kl Hkl) as Rk.
  destruct (Z.ltb_spec (len r1) (16 + le_val kl)) as [Ht|Ht].
  - right. cbn [parse_loop]. rewrite !len_app, (proj2 (Z.ltb_lt _ _)) by lia.
    rewrite usub_ok by lia. cbn [mbind outcome_bind].
    unfold INDEX_ENTRY_HEADER_LEN. rewrite (proj2 (Z.ltb_ge _ _)) by lia.
    rewrite (read_u16_seg (p ++ kl ++ r1) p kl r1) by (done || (sst_consts; lia)).
    cbn [mbind outcome_bind]. rewrite (uadd_ok _ (le_val kl)) by (sst_consts; lia).
    cbn [mbind outcome_bind]. rewrite (proj2 (Z.ltb_lt _ _)) by lia. by eexists.
  - left. destruct (split_at_len r1 (le_val kl)) as (k & r2 & -> & Hk); [lia|]. len_simpl.
    destruct (split_at_len r2 8) as (o & r3 & -> & Ho); [lia|]. len_simpl.
    destruct (split_at_len r3 8) as (z & q & -> & Hz); [lia|].
    exists (mkIndexEntry k (le_val o) (le_val z)), q. unfold entry_bytes, entry_fits.
    cbn [first_key offset size].
    rewrite Hk, !le_bytes_val_eq by done. split; [by rewrite <- !app_assoc|].
    split_and!; [sst_consts; lia|apply le_val_u64; done..].
Qed.

Lemma parse_loop_ends fuel p s entries :
  len (p ++ s) <= isize_max -> (length s < fuel)%nat ->
  ends (parse_loop fuel (p ++ s) (len p) entries)
    (fun r => exists es, r = entries ++ es /\ Forall entry_fits es /\ s = index_bytes es).
Proof.
  revert p s entries. induction fuel as [|fuel IH]; intros p s entries Hu Hf; [lia|].
  destruct (decide (s = [])) as [->|Hne].
  { cbn [parse_loop]. rewrite app_nil_r, Z.ltb_irrefl. exists []. by rewrite app_nil_r. }
  destruct (parse_round fuel p s entries Hu Hne) as [(e & q & -> & He)|[msg ->]]; [|done].
  rewrite parse_step by done. rewrite <- len_app. rewrite app_assoc in *.
  pose proof (len_entry_bytes e) as Hle. unfold INDEX_ENTRY_HEADER_LEN, len in Hle.
  rewrite length_app in Hf.
  eapply ends_mono; [apply IH; [done|lia]|]. intros r (es & -> & Hes & ->).
  exists (e :: es). rewrite <- app_assoc. split_and!; [done|by constructor|done].
Qed.

Lemma parse_index_ends bs :
  len bs <= isize_max ->
  ends (parse_index bs) (fun es => Forall entry_fits es /\ bs = index_bytes es).
Proof.
  intros Hu. unfold parse_index. eapply ends_mono; [apply (parse_loop_ends _ [] bs []); [done|lia]|].
  intros r (es & -> & H). done.
Qed.

(** *** Block location *)

(** Entries whose first keys ascend. *)
Definition index_sorted (es : list IndexEntry) : Prop :=
  StronglySorted (fun a b => key_lt (first_key a) (first_key b)) es.

Lemma locate_split es key :
  index_sorted es ->
  exists l1 l2, es = l1 ++ l2 /\ Forall (fun e => ~ key_lt key (first_key e)) l1 /\
    Forall (fun e => key_lt key (first_key e)) l2 /\
    locate_block es key = match length l1 with O => None | S n => Some n end.
Proof.
  intros Hs. destruct (partitioned_filter (fun e => key_leb (first_key e) key) es)
    as (l1 & l2 & -> & Hp).
  { eapply StronglySorted_impl; [|exact Hs]. simpl. intros a b Hab Hb.
    apply key_leb_le. apply key_leb_le in Hb. intros Ha. apply Hb. by eapply key_lt_trans. }
  exists l1, l2. pose proof Hp as [H1 H2]. split_and!; [done| | |].
  - eapply Forall_impl; [exact H1|]. intros e. apply key_leb_le.
  - eapply Forall_impl; [exact H2|]. intros e. apply key_leb_false.
  - unfold locate_block. rewrite partition_point_spec by done.
    destruct (length l1) as [|n]; simpl; [done|]. by rewrite Nat.sub_0_r.
Qed.

(** ** Properties *)

(** C40: encoding an index and parsing the bytes gives the index back; the
    parse of any other bytes is a reported corruption, so the parser accepts
    exactly the images of the encoder. *)
Theorem index_roundtrip (es : list IndexEntry) (bs : bytes) :
  Forall entry_fits es -> len (index_bytes es) <= isize_max -> len bs <= isize_max ->
  encode_index [] es = Ok (index_bytes es) /\ parse_index (index_bytes es) = Ok es /\
  match parse_index bs with
  | Ok es' => Forall entry_fits es' /\ encode_index [] es' = Ok bs
  | Err _ => True
  | Panic | Halt => False
  end.
Proof.
  intros Hes Hu Hb.
  assert (forall l, Forall entry_fits l -> encode_index [] l = Ok (index_bytes l)) as Henc.
  { intros l Hl. apply encode_index_ok. eapply Forall_impl; [exact Hl|]. by intros e [? _]. }
  split_and!; [by apply Henc|by apply parse_index_bytes|].
  pose proof (parse_index_ends bs Hb) as H. destruct (parse_index bs); try done.
  destruct H as [Hf ->]. split; [done|by apply Henc].
Qed.

Lemma index_roundtrip_witness :
  parse_index (index_bytes [mkIndexEntry [x61] 0 10; mkIndexEntry [x62] 10 7]) =
    Ok [mkIndexEntry [x61] 0 10; mkIndexEntry [x62] 10 7].
Proof.
  apply (index_roundtrip [mkIndexEntry [x61] 0 10; mkIndexEntry [x62] 10 7] []).
  - repeat constructor; vm_compute; discriminate.
  - vm_compute. discriminate.
  - vm_compute. discriminate.
Defined.

(** On an index sorted by first key, the located block is the last one
    whose first key is not above the wanted key, and none is located exactly
    when the key is below every block. *)
Theorem locate_block_correct (es : list IndexEntry) (key : bytes) :
  index_sorted es ->
  match locate_block es key with
  | Some n => exists e, es !! n = Some e /\ ~ key_lt key (first_key e) /\
      forall m e', es !! m = Some e' -> (n < m)%nat -> key_lt key (first_key e')
  | None => Forall (fun e => key_lt key (first_key e)) es
  end.
Proof.
  intros Hs. destruct (locate_split es key Hs) as (l1 & l2 & -> & H1 & H2 & ->).
  destruct (length l1) as [|n] eqn:El.
  - by apply nil_length_inv in El as ->.
  - destruct (lookup_lt_is_Some_2 l1 n) as [e He]; [lia|]. exists e. split_and!.
    + by apply lookup_app_l_Some.
    + by apply (Forall_lookup_1 _ _ _ _ H1 He).
    + intros m e' Hm Hlt. rewrite lookup_app_r in Hm by lia. by apply (Forall_lookup_1 _ _ _ _ H2 Hm).
Qed.

Lemma locate_block_correct_witness :
  exists e, [mkIndexEntry [x61] 0 10; mkIndexEntry [x63] 10 7] !! 0%nat = Some e /\ ~ key_lt [x62] (first_key e).
Proof.
  pose proof (locate_block_correct [mkIndexEntry [x61] 0 10; mkIndexEntry [x63] 10 7] [x62]) as H.
  destruct H as (e & He & Hle & _).
  - repeat constructor.
  - exists e. split; [exact He|exact Hle].
Defined.
