(* ===== verification/Bloom.v ===== *)
(** * The bloom filter block of a table ([src/src/sstable/bloom.rs]) *)

From Stdlib Require Import QArith_base.
From S2P Require Import Prelude Outcome Utils External.
#[local] Open Scope Z_scope.

(** ** Definitions *)

Definition BLOOM_FP_RATE : Q := 1 # 100.
Definition BLOOM_SEED : Z := 0x4C534D54524545310000000000000001.
Definition MAX_NUM_HASHES : Z := 255.

Section bloom.
Context {FB : FastBloom}.

Definition new_bloom (expected_items : Z) : bloom_filter :=
  bf_expected_items BLOOM_FP_RATE BLOOM_SEED expected_items.

Definition encode_bloom (buf : bytes) (bloom : bloom_filter) : bytes :=
  foldl put_u64 (put_u32 buf (bf_num_hashes bloom)) (bf_iter bloom).

(** [(0..num_words).map(|i| read_u64(bytes, 4 + i * 8)).collect()], from [i]. *)
Fixpoint read_words (bs : bytes) (num_words : nat) (i : Z) : outcome (list Z) :=
  match num_words with
  | O => Ok []
  | S n =>
      at_ ← uadd 4 (i * 8);
      w ← read_u64 bs at_;
      ws ← read_words bs n (i + 1);
      Ok (w :: ws)
  end.

Definition decode_bloom (bs : bytes) : outcome bloom_filter :=
  if (len bs <? 4) || negb ((len bs - 4) mod 8 =? 0) then
    Err (Corruption ("bloom block length " +:+ pretty (len bs) +:+ " is not 4 + a multiple of 8"))
  else
    num_hashes ← read_u32 bs 0;
    if (num_hashes =? 0) || (MAX_NUM_HASHES <? num_hashes) then
      Err (Corruption ("bloom block declares implausible hash count " +:+ pretty num_hashes))
    else
      let num_words := (len bs - 4) / 8 in
      if num_words =? 0 then Err (Corruption "bloom block has no data words")
      else
        words ← read_words bs (Z.to_nat num_words) 0;
        bf_from_vec words BLOOM_SEED num_hashes.

(** ** Lemmas *)

Definition words_bytes (ws : list Z) : bytes := concat (le_bytes 8 <$> ws).

Lemma words_bytes_cons w ws : words_bytes (w :: ws) = le_bytes 8 w ++ words_bytes ws.
Proof. done. Qed.

(** A filter this module can write and read back. *)
Definition storable (b : bloom_filter) : Prop :=
  bf_seed b = BLOOM_SEED /\ 1 <= bf_num_hashes b <= MAX_NUM_HASHES.

Lemma storable_new n : storable (new_bloom n).
Proof. split; [apply bf_seed_new | apply bf_num_hashes_new]. Qed.

Lemma storable_insert k b : storable b -> storable (bf_insert k b).
Proof. intros [H1 H2]. split; [by rewrite bf_seed_insert | by rewrite bf_num_hashes_insert]. Qed.

Lemma encode_bloom_bytes buf b :
  encode_bloom buf b = buf ++ le_bytes 4 (bf_num_hashes b) ++ words_bytes (bf_iter b).
Proof.
  unfold encode_bloom, put_u32. rewrite app_assoc.
  generalize (buf ++ le_bytes 4 (bf_num_hashes b)) as acc.
  induction (bf_iter b) as [|w ws IH]; intros acc; simpl; [by rewrite app_nil_r|].
  rewrite IH, words_bytes_cons. unfold put_u64. by rewrite app_assoc.
Qed.

Lemma len_words_bytes ws : len (words_bytes ws) = 8 * len ws.
Proof.
  induction ws as [|w ws IH]; [done|].
  rewrite words_bytes_cons, len_app, len_le_bytes, len_cons, IH. lia.
Qed.

Lemma len_encode_bloom b : len (encode_bloom [] b) = 4 + 8 * len (bf_iter b).
Proof. rewrite encode_bloom_bytes. rewrite !len_app, len_le_bytes, len_words_bytes. len_solve. Qed.

Lemma read_words_bytes p ws i :
  Forall (fun w => 0 <= w <= u64_max) ws -> 0 <= i -> len p = 4 + i * 8 ->
  len (p ++ words_bytes ws) <= isize_max ->
  read_words (p ++ words_bytes ws) (length ws) i = Ok ws.
Proof.
  intros Hws. revert p i. induction Hws as [|w ws Hw _ IH]; intros p i Hi Hp Hu; [done|].
  rewrite words_bytes_cons in *. cbn [length read_words]. unfold isize_max in Hu. pose proof (len_nonneg (words_bytes ws)).
  rewrite !len_app, len_le_bytes in Hu.
  rewrite uadd_ok by (unfold usize_max; lia). cbn [mbind outcome_bind].
  rewrite (read_u64_at w _ p (words_bytes ws)) by (done || (unfold usize_max; lia)).
  cbn [mbind outcome_bind]. rewrite app_assoc.
  rewrite (IH (p ++ le_bytes 8 w) (i + 1)); [done|lia|len_solve|].
  unfold isize_max. len_solve.
Qed.

Lemma decode_encode_bloom b :
  storable b -> len (encode_bloom [] b) <= isize_max ->
  exists b', decode_bloom (encode_bloom [] b) = Ok b' /\
    forall k, bf_contains k b' = bf_contains k b.
Proof.
  intros [Hseed Hh] Hu. pose proof (len_encode_bloom b) as Hl.
  pose proof (bf_iter_nonempty b) as Hne. pose proof (bf_iter_u64 b) as Hr.
  assert (1 <= len (bf_iter b)) as Hn.
  { destruct (bf_iter b) as [|w ws]; [done|]. rewrite len_cons. pose proof (len_nonneg ws). lia. }
  unfold decode_bloom, MAX_NUM_HASHES in *.
  rewrite (proj2 (Z.ltb_ge _ _)) by lia.
  replace (len _ - 4) with (len (bf_iter b) * 8) by lia.
  rewrite Z.mod_mul, Z.div_mul by lia. cbn [orb negb Z.eqb].
  pose proof (encode_bloom_bytes [] b) as Heq. cbn [app] in Heq.
  rewrite (read_u32_at (bf_num_hashes b) _ [] _ 0 Heq)
    by (done || (unfold usize_max, u32_max; lia)).
  cbn [mbind outcome_bind].
  rewrite (proj2 (Z.eqb_neq _ _)) by lia. rewrite (proj2 (Z.ltb_ge _ _)) by lia. cbn [orb].
  rewrite (proj2 (Z.eqb_neq _ _)) by lia. unfold len at 1. rewrite Nat2Z.id.
  rewrite Heq in Hu |- *. rewrite read_words_bytes by (done || (rewrite len_le_bytes; lia)).
  cbn [mbind outcome_bind]. rewrite <- Hseed.
  destruct (bf_from_vec_ok (bf_iter b) (bf_seed b) (bf_num_hashes b)) as [b' Hb']; [done|lia|].
  exists b'. split; [done|]. intros k. by apply bf_rebuild.
Qed.

Lemma read_words_ends bs n i :
  0 <= i -> 4 + (i + Z.of_nat n) * 8 <= usize_max ->
  ends (read_words bs n i) (fun ws => length ws = n).
Proof.
  revert i. induction n as [|n IH]; intros i Hi Hu; [done|]. cbn [read_words].
  rewrite uadd_ok by lia. cbn [mbind outcome_bind].
  eapply ends_bind; [apply read_u64_ends; lia|]. intros w _.
  eapply ends_bind; [apply IH; lia|]. intros ws Hws. simpl. by f_equal.
Qed.

(** On any block the decoder returns a filter or an error; in particular the
    rebuild never meets an empty vector. *)
Lemma decode_bloom_ends bs : len bs <= isize_max -> ends (decode_bloom bs) (fun _ => True).
Proof.
  intros Hu. pose proof (len_nonneg bs). unfold decode_bloom.
  destruct (Z.ltb_spec (len bs) 4); [done|]. cbn [orb].
  destruct (_ mod 8 =? 0); [|done]. cbn [negb].
  eapply ends_bind; [by apply read_u32_ends|]. intros h Hh. simpl in Hh.
  destruct (Z.eqb_spec h 0); [done|]. cbn [orb]. destruct (_ <? h); [done|].
  destruct (Z.eqb_spec ((len bs - 4) / 8) 0) as [|Hnz]; [done|].
  pose proof (Z.div_pos (len bs - 4) 8 ltac:(lia) ltac:(lia)).
  pose proof (Z.mul_div_le (len bs - 4) 8 ltac:(lia)).
  eapply ends_bind.
  - apply (read_words_ends bs (Z.to_nat ((len bs - 4) / 8)) 0); [lia|].
    unfold isize_max, usize_max in *. lia.
  - intros ws Hws. simpl in Hws. destruct (bf_from_vec_ok ws BLOOM_SEED h) as [b ->]; [|lia|done].
    intros ->. simpl in Hws. lia.
Qed.
End bloom.

(** ** Properties *)

(** A filter made by this module survives its file format: the decoded
    filter gives the same answer for every key, and every inserted key is
    reported as possibly present.  Decoding arbitrary bytes reports corruption
    or returns a filter, it never panics. *)
Theorem bloom_roundtrip {FB : FastBloom} (n : Z) (keys : list bytes) (bs : bytes) :
  let b := foldl (fun b k => bf_insert k b) (new_bloom n) keys in
  len (encode_bloom [] b) <= isize_max -> len bs <= isize_max ->
  (exists b', decode_bloom (encode_bloom [] b) = Ok b' /\
    (forall k, bf_contains k b' = bf_contains k b) /\ Forall (fun k => bf_contains k b' = true) keys) /\
  match decode_bloom bs with Ok _ | Err _ => True | Panic | Halt => False end.
Proof.
  intros b Hu Hbs.
  assert (storable b /\ Forall (fun k => bf_contains k b = true) keys) as [Hst Hin].
  { subst b. clear. induction keys as [|k keys IH] using rev_ind; [split; [apply storable_new|constructor]|].
    rewrite foldl_snoc. destruct IH as [H1 H2]. split; [by apply storable_insert|].
    apply Forall_app. split; [|constructor; [apply bf_contains_insert|constructor]].
    eapply Forall_impl; [exact H2|]. intros k' Hk'. by apply bf_contains_mono. }
  split.
  - destruct (decode_encode_bloom b Hst Hu) as (b' & Hd & Hc). exists b'. split_and!; [done..|].
    eapply Forall_impl; [exact Hin|]. intros k Hk. by rewrite Hc.
  - pose proof (decode_bloom_ends bs Hbs) as H. by destruct (decode_bloom bs).
Qed.

Lemma bloom_roundtrip_witness :
  exists b', @decode_bloom Toy.bloom (@encode_bloom Toy.bloom []
      (foldl (fun b k => bf_insert k b) (@new_bloom Toy.bloom 2) [[x61]; [x62]])) = Ok b' /\
    Forall (fun k => bf_contains k b' = true) [[x61]; [x62]].
Proof.
  destruct (@bloom_roundtrip Toy.bloom 2 [[x61]; [x62]] []) as [(b' & Hd & _ & Hin) _].
  - vm_compute. discriminate.
  - vm_compute. discriminate.
  - exists b'. split; [exact Hd|exact Hin].
Defined.
