(* ===== verification/Builder.v ===== *)
(** * The table builder ([src/src/sstable/builder.rs]) *)

From S2P Require Import Prelude Outcome Utils External Fs SstRecord SstIndex Bloom.

(** ** Definitions *)

Section builder.
Context {FB : FastBloom}.

Record SsTableBuilder := mkBuilder {
  data : bytes;
  current : bytes;
  current_first_key : option bytes;
  index : list IndexEntry;
  b_first_key : option bytes;
  last_key : option bytes;
  bloom : option bloom_filter;
  expected_items : Z;
}.

Definition with_expected_items (n : Z) : SsTableBuilder :=
  mkBuilder [] [] None [] None None None n.

Definition new : SsTableBuilder := with_expected_items 0.

Definition finalize_block (b : SsTableBuilder) : SsTableBuilder :=
  match current_first_key b with
  | Some k =>
      let e := mkIndexEntry k (len (data b)) (len (current b)) in
      mkBuilder (data b ++ current b) [] None (index b ++ [e])
        (b_first_key b) (last_key b) (bloom b) (expected_items b)
  | None => b
  end.

Definition set_current_first_key (k : bytes) (b : SsTableBuilder) : SsTableBuilder :=
  mkBuilder (data b) (current b) (Some k) (index b) (b_first_key b) (last_key b)
    (bloom b) (expected_items b).
Definition set_current (c : bytes) (b : SsTableBuilder) : SsTableBuilder :=
  mkBuilder (data b) c (current_first_key b) (index b) (b_first_key b) (last_key b)
    (bloom b) (expected_items b).
Definition set_first_key (k : bytes) (b : SsTableBuilder) : SsTableBuilder :=
  mkBuilder (data b) (current b) (current_first_key b) (index b) (Some k) (last_key b)
    (bloom b) (expected_items b).
Definition set_last_key (k : bytes) (b : SsTableBuilder) : SsTableBuilder :=
  mkBuilder (data b) (current b) (current_first_key b) (index b) (b_first_key b) (Some k)
    (bloom b) (expected_items b).
Definition set_bloom (f : bloom_filter) (b : SsTableBuilder) : SsTableBuilder :=
  mkBuilder (data b) (current b) (current_first_key b) (index b) (b_first_key b) (last_key b)
    (Some f) (expected_items b).

Definition is_nil {A} (l : list A) : bool := match l with [] => true | _ => false end.

(** [self.bloom.get_or_insert_with(..)] then [bloom.insert(key)]. *)
Definition insert_bloom (key : bytes) (b : SsTableBuilder) : SsTableBuilder :=
  if 0 <? expected_items b then
    let f := match bloom b with Some f => f | None => new_bloom (expected_items b) end in
    set_bloom (bf_insert key f) b
  else b.

Definition add (key value : bytes) (deleted : bool) : M SsTableBuilder unit :=
  if MAX_KEY_LEN <? len key then fail (KeyTooLarge (len key) MAX_KEY_LEN)
  else if MAX_VALUE_LEN <? len value then fail (ValueTooLarge (len value) MAX_VALUE_LEN)
  else
    last ← gets last_key;
    _ ← match last with
        | None => mret tt
        | Some prev =>
            if key_leb key prev then fail (InvalidOp "sstable keys must be strictly ascending")
            else mret tt
        end;
    cur ← gets current;
    full ← (if is_nil cur then mret false
            else
              n ← lift (record_len (len key) (len value));
              total ← lift (uadd (len cur) n);
              mret (TARGET_BLOCK_SIZE <? total));
    _ ← (if full : bool then modify finalize_block else mret tt);
    _ ← modify (fun b => if is_nil (current b) then set_current_first_key key b else b);
    _ ← modify (insert_bloom key);
    cur ← gets current;
    cur' ← lift (put_record cur key value deleted);
    _ ← modify (set_current cur');
    _ ← modify (fun b => match last_key b with None => set_first_key key b | Some _ => b end);
    modify (set_last_key key).

Definition is_empty (b : SsTableBuilder) : bool := is_nil (data b) && is_nil (current b).
Definition estimated_data_size (b : SsTableBuilder) : outcome Z :=
  uadd (len (data b)) (len (current b)).
Definition min_key (b : SsTableBuilder) : option bytes := b_first_key b.
Definition max_key (b : SsTableBuilder) : option bytes := last_key b.

(** The bytes [build] writes, section by section. *)
Definition footer (index_offset bloom_offset : Z) : bytes :=
  put_u64 (put_u64 [] index_offset) bloom_offset ++ MAGIC.

(** [SsTableBuilder::build]; the [BufWriter] is dropped on every exit. *)
Definition build (path : string) (b : SsTableBuilder) : M Fs unit :=
  let b := finalize_block b in
  let index_offset := len (data b) in
  index_bytes ← lift (encode_index [] (index b));
  let bloom_bytes := match bloom b with Some f => encode_bloom [] f | None => [] end in
  bloom_offset ← (if is_nil bloom_bytes then mret 0
                  else lift (uadd index_offset (len index_bytes)));
  file ← file_create path;
  scoped (bw_new file)
    (_ ← bw_write_all (data b);
     _ ← bw_write_all index_bytes;
     _ ← bw_write_all bloom_bytes;
     _ ← bw_write_all (footer index_offset bloom_offset);
     bw_flush)
    bw_drop.

(** ** Specification: a table as blocks of records *)

(** The index of consecutive blocks starting at [off]. *)
Fixpoint index_of (off : Z) (blocks : list (list record)) : list IndexEntry :=
  match blocks with
  | [] => []
  | blk :: blocks =>
      mkIndexEntry (default [] (rkey <$> head blk)) off (len (records_bytes blk)) ::
      index_of (off + len (records_bytes blk)) blocks
  end.

Definition bloom_bytes_of (f : option bloom_filter) : bytes :=
  match f with Some f => encode_bloom [] f | None => [] end.

(** The file of a table with the given blocks and filter. *)
Definition table_bytes (blocks : list (list record)) (f : option bloom_filter) : bytes :=
  let d := records_bytes (concat blocks) in
  let i := index_bytes (index_of 0 blocks) in
  d ++ i ++ bloom_bytes_of f ++
  footer (len d) (match f with Some _ => len d + len i | None => 0 end).

(** The keys of records, and their entries as an association list. *)
Definition as_assoc (rs : list record) : list (bytes * (bytes * bool)) :=
  (fun r => (rkey r, (rvalue r, rdeleted r))) <$> rs.

Definition rs_sorted (rs : list record) : Prop := StronglySorted key_lt (rkey <$> rs).

(** The filter covers every key. *)
Definition bloom_covers (f : option bloom_filter) (rs : list record) : Prop :=
  match f with
  | Some f => storable f /\ Forall (fun r => bf_contains (rkey r) f = true) rs
  | None => True
  end.

(** A block is at most the target size, unless it is one oversized record. *)
Definition block_ok (blk : list record) : Prop :=
  blk <> [] /\ (len (records_bytes blk) <= TARGET_BLOCK_SIZE \/ length blk = 1%nat).

(** ** The builder's invariant: what [add] has been given so far *)
Record builds (b : SsTableBuilder) (blocks : list (list record)) (cur : list record) : Prop := {
  bi_data : data b = records_bytes (concat blocks);
  bi_current : current b = records_bytes cur;
  bi_cfk : current_first_key b = rkey <$> head cur;
  bi_index : index b = index_of 0 blocks;
  bi_first : b_first_key b = rkey <$> head (concat blocks ++ cur);
  bi_last : last_key b = rkey <$> last (concat blocks ++ cur);
  bi_blocks : Forall block_ok blocks;
  bi_cur : cur = [] \/ block_ok cur;
  bi_sorted : rs_sorted (concat blocks ++ cur);
  bi_capped : Forall capped (concat blocks ++ cur);
  bi_bloom : bloom_covers (bloom b) (concat blocks ++ cur);
  bi_bloom_some : (bloom b = None <-> (concat blocks ++ cur = [] \/ expected_items b <= 0));
}.

(** ** Lemmas *)

Lemma records_bytes_nil_iff rs : records_bytes rs = [] <-> rs = [].
Proof.
  split; [|by intros ->]. destruct rs as [|r rs]; [done|].
  rewrite records_bytes_cons. intros [H _]%app_nil. by apply record_bytes_nonempty in H.
Qed.

Lemma is_nil_iff {A} (l : list A) : is_nil l = true <-> l = [].
Proof. by destruct l. Qed.

Lemma is_nil_false {A} (l : list A) : is_nil l = false <-> l <> [].
Proof. by destruct l. Qed.

Lemma index_of_snoc off blocks blk :
  index_of off (blocks ++ [blk]) =
    index_of off blocks ++
    [mkIndexEntry (default [] (rkey <$> head blk)) (off + len (records_bytes (concat blocks)))
       (len (records_bytes blk))].
Proof.
  revert off. induction blocks as [|b0 blocks IH]; intros off; simpl.
  - by rewrite Z.add_0_r.
  - rewrite IH, records_bytes_app, len_app. by rewrite Z.add_assoc.
Qed.

Lemma builds_new n : builds (with_expected_items n) [] [].
Proof.
  split; try done; [by left|constructor|]. split; [by left|done].
Qed.

Lemma finalize_builds b blocks cur :
  builds b blocks cur -> cur <> [] ->
  builds (finalize_block b) (blocks ++ [cur]) [] /\
  expected_items (finalize_block b) = expected_items b.
Proof.
  intros [Hd Hc Hk Hi Hf Hl Hbl Hcu Hs Hca Hb Hbn] Hne. unfold finalize_block.
  destruct cur as [|r cur]; [done|]. simpl in Hk. rewrite Hk.
  assert (concat (blocks ++ [r :: cur]) = concat blocks ++ r :: cur) as Hcat
    by (rewrite concat_app; simpl; by rewrite app_nil_r).
  split; [|done].
  split; cbn [data current current_first_key index b_first_key last_key bloom expected_items];
    rewrite ?app_nil_r, ?Hcat; try done.
  - by rewrite Hd, Hc, <- records_bytes_app.
  - rewrite index_of_snoc, Hi, Hd, Hc, Z.add_0_l. done.
  - apply Forall_app. split; [done|]. constructor; [|done]. by destruct Hcu.
  - by left.
Qed.

Lemma finalize_nil b blocks : builds b blocks [] -> finalize_block b = b.
Proof. intros H. unfold finalize_block. by rewrite (bi_cfk _ _ _ H). Qed.

(** A builder is finished with one more, possibly empty, block. *)
Lemma finalize_any b blocks cur :
  builds b blocks cur ->
  exists blocks', builds (finalize_block b) blocks' [] /\
    concat blocks' = concat blocks ++ cur /\
    expected_items (finalize_block b) = expected_items b.
Proof.
  intros H. destruct (decide (cur = [])) as [->|Hne].
  - exists blocks. rewrite (finalize_nil _ _ H), app_nil_r. done.
  - destruct (finalize_builds b blocks cur H Hne) as [H1 H2]. eexists. split_and!; [done| |done].
    rewrite concat_app. simpl. by rewrite app_nil_r.
Qed.

Lemma rs_sorted_snoc rs r :
  rs_sorted rs -> (forall p, last rs = Some p -> key_lt (rkey p) (rkey r)) -> rs_sorted (rs ++ [r]).
Proof.
  unfold rs_sorted. intros Hs Hl.
  destruct rs as [|p rs _] using rev_ind; [by repeat constructor|].
  rewrite last_snoc in Hl. specialize (Hl p eq_refl). rewrite !fmap_app in *. simpl in *.
  pose proof Hs as (Hs3 & Hs1 & Hs2)%StronglySorted_app.
  apply StronglySorted_app. split; [|split; [done|repeat constructor]].
  intros x y [Hx|Hx]%elem_of_app ->%list_elem_of_singleton.
  - eapply key_lt_trans; [|exact Hl]. apply Hs3; [done|]. by apply list_elem_of_singleton.
  - by apply list_elem_of_singleton in Hx as ->.
Qed.

(** The steps of [add] that follow its checks and the block split. *)
Definition add_tail (r : record) : M SsTableBuilder unit :=
  _ ← modify (fun b => if is_nil (current b) then set_current_first_key (rkey r) b else b);
  _ ← modify (insert_bloom (rkey r));
  cur ← gets current;
  cur' ← lift (put_record cur (rkey r) (rvalue r) (rdeleted r));
  _ ← modify (set_current cur');
  _ ← modify (fun b => match last_key b with None => set_first_key (rkey r) b | Some _ => b end);
  modify (set_last_key (rkey r)).

Lemma bloom_covers_insert b rs r :
  bloom_covers (bloom b) rs -> (bloom b = None <-> (rs = [] \/ expected_items b <= 0)) ->
  bloom_covers (bloom (insert_bloom (rkey r) b)) (rs ++ [r]) /\
  (bloom (insert_bloom (rkey r) b) = None <-> (rs ++ [r] = [] \/ expected_items b <= 0)).
Proof.
  intros Hc Hn. unfold insert_bloom.
  destruct (Z.ltb_spec 0 (expected_items b)) as [He|He]; cbn [bloom set_bloom].
  - split.
    + destruct (bloom b) as [f|]; cbn [bloom_covers].
      * destruct Hc as [Hst Hc]. split; [by apply storable_insert|]. apply Forall_app. split.
        -- eapply Forall_impl; [exact Hc|]. intros x. apply bf_contains_mono.
        -- repeat constructor. apply bf_contains_insert.
      * destruct Hn as [Hn _]. destruct (Hn eq_refl) as [->|]; [|lia].
        split; [apply storable_insert, storable_new|]. repeat constructor. apply bf_contains_insert.
    + split; [done|]. intros [[_ ?]%app_nil|]; [done|lia].
  - split; [|split; [by right|]].
    + destruct (bloom b) as [f|]; [|done]. destruct Hn as [_ Hn]. by specialize (Hn (or_intror He)).
    + intros _. apply Hn. by right.
Qed.

Lemma add_tail_run b r :
  capped r ->
  add_tail r b = (Ok tt,
    mkBuilder (data b) (current b ++ record_bytes r)
      (if is_nil (current b) then Some (rkey r) else current_first_key b) (index b)
      (match last_key b with None => Some (rkey r) | Some _ => b_first_key b end)
      (Some (rkey r)) (bloom (insert_bloom (rkey r) b)) (expected_items b)).
Proof.
  intros Hr. unfold add_tail, modify, gets, lift, mbind, M_bind.
  set (b1 := insert_bloom (rkey r) _).
  assert (current b1 = current b) as ->
    by (unfold b1, insert_bloom; destruct (is_nil _), (_ <? _); done).
  rewrite put_record_ok by done. unfold b1, insert_bloom.
  destruct b as [bd bc bk bi bf [lk|] bb be];
    cbn [data current current_first_key index b_first_key last_key bloom expected_items];
    by destruct (is_nil bc), (0 <? be) eqn:E;
    cbn [expected_items set_current_first_key bloom]; rewrite ?E.
Qed.

(** A block is far from the limits of [usize]. *)
Lemma block_len_bound blk :
  block_ok blk -> Forall capped blk -> len (records_bytes blk) <= 2 ^ 33.
Proof.
  intros [_ [Hle|H1]] Hc; [unfold TARGET_BLOCK_SIZE in Hle; lia|].
  destruct blk as [|r [|]]; try done. inversion_clear Hc as [|? ? [Hk Hv] _].
  unfold records_bytes. simpl. rewrite app_nil_r, len_record_bytes. sst_consts. lia.
Qed.

Lemma add_tail_ok b blocks cur r :
  builds b blocks cur -> capped r ->
  (forall p, last (concat blocks ++ cur) = Some p -> key_lt (rkey p) (rkey r)) ->
  (cur = [] \/ len (records_bytes (cur ++ [r])) <= TARGET_BLOCK_SIZE) ->
  exists b', add_tail r b = (Ok tt, b') /\ builds b' blocks (cur ++ [r]) /\
    expected_items b' = expected_items b.
Proof.
  intros [Hd Hc Hk Hi Hf Hl Hbl Hcu Hs Hca Hb Hbn] Hr Hlast Hfit.
  destruct (bloom_covers_insert b _ r Hb Hbn) as [Hb' Hbn'].
  assert (records_bytes (cur ++ [r]) = current b ++ record_bytes r) as Hrec.
  { rewrite records_bytes_app, Hc. unfold records_bytes at 2. simpl. by rewrite app_nil_r. }
  assert (Hnil : current b = [] <-> cur = []) by (rewrite Hc; apply records_bytes_nil_iff).
  assert (Hlk : last_key b = None <-> concat blocks ++ cur = []).
  { rewrite Hl. destruct (concat blocks ++ cur) using rev_ind; [done|].
    rewrite last_snoc. split; [done|]. by intros [_ ?]%app_nil. }
  exists (mkBuilder (data b) (current b ++ record_bytes r)
    (if is_nil (current b) then Some (rkey r) else current_first_key b) (index b)
    (match last_key b with None => Some (rkey r) | Some _ => b_first_key b end)
    (Some (rkey r)) (bloom (insert_bloom (rkey r) b)) (expected_items b)).
  split; [by apply add_tail_run|]. split; [|done].
  split; cbn [data current current_first_key index b_first_key last_key bloom expected_items];
    rewrite ?app_assoc; try done.
  - rewrite Hk. destruct cur as [|r0 cur]; simpl.
    + by rewrite (proj2 (is_nil_iff _)) by (by apply Hnil).
    + rewrite (proj2 (is_nil_false _)); [done|]. intros E. by apply Hnil in E.
  - destruct (last_key b) as [k|].
    + rewrite Hf. destruct (concat blocks ++ cur); [discriminate (proj2 Hlk eq_refl)|done].
    + by rewrite (proj1 Hlk).
  - by rewrite last_snoc.
  - right. split; [by destruct cur|]. destruct Hfit as [->|]; [by right|by left].
  - by apply rs_sorted_snoc.
  - apply Forall_app. split; [done|by constructor].
Qed.

(** [add] carries on with its tail once the checks pass and the block is
    split if needed. *)
Lemma builder_add_ok b blocks cur r :
  builds b blocks cur -> capped r ->
  (forall p, last (concat blocks ++ cur) = Some p -> key_lt (rkey p) (rkey r)) ->
  exists b' blocks' cur', add (rkey r) (rvalue r) (rdeleted r) b = (Ok tt, b') /\
    builds b' blocks' cur' /\ concat blocks' ++ cur' = concat blocks ++ cur ++ [r] /\
    expected_items b' = expected_items b.
Proof.
  intros Hb Hr Hlast. pose proof Hr as [Hrk Hrv]. pose proof (len_nonneg (rkey r)).
  pose proof (len_nonneg (rvalue r)).
  unfold add. rewrite (proj2 (Z.ltb_ge _ _)), (proj2 (Z.ltb_ge _ _)) by done.
  fold (add_tail r). mstep.
  assert (match last_key b with
          | None => mret tt
          | Some prev => if key_leb (rkey r) prev
              then fail (InvalidOp "sstable keys must be strictly ascending") else mret tt
          end b = (Ok tt, b)) as Hcheck.
  { rewrite (bi_last _ _ _ Hb). destruct (last _) as [p|] eqn:E; [|done]. simpl.
    by rewrite (proj2 (key_leb_false _ _)) by (by apply Hlast). }
  rewrite (M_bind_ok _ _ _ _ _ Hcheck). mstep.
  assert (exists full, (if is_nil (current b) then mret false
     else n ← lift (record_len (len (rkey r)) (len (rvalue r)));
          total ← lift (uadd (len (current b)) n); mret (TARGET_BLOCK_SIZE <? total)) b
     = (Ok full, b) /\
     (if full then cur <> []
      else cur = [] \/ len (records_bytes (cur ++ [r])) <= TARGET_BLOCK_SIZE)) as (full & Hfull & Hcases).
  { rewrite (bi_current _ _ _ Hb). destruct (decide (cur = [])) as [->|Hne]; [exists false; by split; [|left]|].
    rewrite (proj2 (is_nil_false _)) by (by rewrite records_bytes_nil_iff).
    rewrite record_len_ok by (sst_consts; lia).
    pose proof (block_len_bound cur ltac:(destruct (bi_cur _ _ _ Hb); [done|done])
                  ltac:(pose proof (bi_capped _ _ _ Hb) as Hx; by apply Forall_app in Hx as [_ ?])).
    unfold lift, mbind, M_bind. rewrite uadd_ok by (sst_consts; lia).
    eexists. split; [done|].
    replace (len (records_bytes cur) + _) with (len (records_bytes (cur ++ [r]))).
    - destruct (Z.ltb_spec TARGET_BLOCK_SIZE (len (records_bytes (cur ++ [r])))); [done|by right].
    - rewrite records_bytes_app, len_app, <- len_record_bytes.
      unfold records_bytes at 2. simpl. by rewrite app_nil_r. }
  rewrite (M_bind_ok _ _ _ _ _ Hfull). destruct full.
  - destruct (finalize_builds b blocks cur Hb Hcases) as [Hb1 He1].
    mstep.
    assert (concat (blocks ++ [cur]) ++ [] = concat blocks ++ cur) as Hcat
      by (rewrite concat_app; simpl; by rewrite !app_nil_r).
    destruct (add_tail_ok _ _ [] r Hb1 Hr) as (b' & Hrun & Hb' & He'); [by rewrite Hcat|by left|].
    exists b', (blocks ++ [cur]), ([] ++ [r]). split_and!; [exact Hrun|done| |congruence].
    rewrite app_assoc, Hcat. by rewrite app_assoc.
  - mstep.
    destruct (add_tail_ok b blocks cur r Hb Hr Hlast Hcases) as (b' & Hrun & Hb' & He').
    exists b', blocks, (cur ++ [r]). split_and!; [exact Hrun|done|done|done].
Qed.
(** The cases in which a record is refused, and with which error; the
    builder is as before. *)
Definition refusal (b : SsTableBuilder) (r : record) : option LsmError :=
  if MAX_KEY_LEN <? len (rkey r) then Some (KeyTooLarge (len (rkey r)) MAX_KEY_LEN)
  else if MAX_VALUE_LEN <? len (rvalue r) then Some (ValueTooLarge (len (rvalue r)) MAX_VALUE_LEN)
  else match last_key b with
       | Some prev =>
           if key_leb (rkey r) prev
           then Some (InvalidOp "sstable keys must be strictly ascending") else None
       | None => None
       end.

Lemma refusal_run b r e :
  refusal b r = Some e -> add (rkey r) (rvalue r) (rdeleted r) b = (Err e, b).
Proof.
  unfold refusal, add. destruct (MAX_KEY_LEN <? _); [by intros [= <-]|].
  destruct (MAX_VALUE_LEN <? _); [by intros [= <-]|]. intros H. mstep.
  destruct (last_key b) as [prev|]; [|done]. by destruct (key_leb _ prev); simplify_eq.
Qed.

Lemma refusal_None b blocks cur r :
  builds b blocks cur -> refusal b r = None ->
  capped r /\ forall p, last (concat blocks ++ cur) = Some p -> key_lt (rkey p) (rkey r).
Proof.
  intros Hb. unfold refusal. rewrite (bi_last _ _ _ Hb).
  destruct (Z.ltb_spec MAX_KEY_LEN (len (rkey r))); [done|].
  destruct (Z.ltb_spec MAX_VALUE_LEN (len (rvalue r))); [done|].
  intros Hl. split; [done|]. intros p Hp. rewrite Hp in Hl. simpl in Hl.
  apply key_leb_false. by destruct (key_leb _ _).
Qed.

(** *** A whole sorted run of records *)

Definition add_record (r : record) : M SsTableBuilder unit :=
  add (rkey r) (rvalue r) (rdeleted r).

Lemma add_all_from rs b blocks cur :
  builds b blocks cur -> Forall capped rs -> rs_sorted (concat blocks ++ cur ++ rs) ->
  exists b' blocks' cur', for_each rs add_record b = (Ok tt, b') /\ builds b' blocks' cur' /\
    concat blocks' ++ cur' = concat blocks ++ cur ++ rs /\ expected_items b' = expected_items b.
Proof.
  revert b blocks cur. induction rs as [|r rs IH]; intros b blocks cur Hb Hc Hs.
  { exists b, blocks, cur. by rewrite app_nil_r. }
  inversion_clear Hc as [|? ? Hr Hrs].
  destruct (builder_add_ok b blocks cur r Hb Hr) as (b1 & bl1 & cu1 & Hrun & Hb1 & Hcat & He).
  { intros p Hp. unfold rs_sorted in Hs. rewrite app_assoc, fmap_app in Hs.
    apply StronglySorted_app in Hs as (Hs & _ & _).
    apply Hs; [|apply list_elem_of_here]. apply list_elem_of_fmap. exists p. split; [done|].
    apply last_Some in Hp as [l' ->]. apply elem_of_app; right. apply list_elem_of_here. }
  destruct (IH b1 bl1 cu1 Hb1 Hrs) as (b' & bl' & cu' & Hrun' & Hb' & Hcat' & He').
  { rewrite app_assoc, Hcat, <- !app_assoc. exact Hs. }
  exists b', bl', cu'. cbn [for_each]. unfold add_record at 1. rewrite (M_bind_ok _ _ _ _ _ Hrun).
  split_and!; [done|done| |congruence]. by rewrite Hcat', app_assoc, Hcat, <- !app_assoc.
Qed.

Lemma add_all_ok rs n :
  Forall capped rs -> rs_sorted rs ->
  exists b blocks cur, for_each rs add_record (with_expected_items n) = (Ok tt, b) /\
    builds b blocks cur /\ concat blocks ++ cur = rs.
Proof.
  intros Hc Hs.
  destruct (add_all_from rs (with_expected_items n) [] [] (builds_new n) Hc Hs)
    as (b & bl & cu & H1 & H2 & H3 & _).
  by exists b, bl, cu.
Qed.

(** *** Writing the table *)

(** [table blocks f rs d]: the file [d] is a table of the records [rs], cut
    into [blocks], with the filter [f]. *)
Record table (blocks : list (list record)) (f : option bloom_filter) (rs : list record)
    (d : bytes) : Prop := {
  tb_bytes : d = table_bytes blocks f;
  tb_concat : concat blocks = rs;
  tb_ok : Forall block_ok blocks;
  tb_sorted : rs_sorted rs;
  tb_capped : Forall capped rs;
  tb_covers : bloom_covers f rs;
  tb_some : rs = [] -> f = None;
  tb_small : len (records_bytes rs) <= 2 ^ 60;
}.

Definition table_of (d : bytes) (rs : list record) : Prop :=
  exists blocks f, table blocks f rs d.

Lemma len_footer i o : len (footer i o) = 24.
Proof. unfold footer, put_u64. len_simpl. done. Qed.

Lemma records_bytes_concat_cons blk blocks :
  records_bytes (concat (blk :: blocks)) = records_bytes blk ++ records_bytes (concat blocks).
Proof. simpl. apply records_bytes_app. Qed.

(** The index of a table is at most three times as long as its data. *)
Lemma len_index_of off blocks :
  Forall block_ok blocks ->
  len (index_bytes (index_of off blocks)) <= 3 * len (records_bytes (concat blocks)).
Proof.
  intros H. revert off. induction H as [|blk blocks [Hne _] _ IH]; intros off; [done|].
  cbn [index_of]. rewrite index_bytes_cons, records_bytes_concat_cons, !len_app, len_entry_bytes.
  specialize (IH (off + len (records_bytes blk))). destruct blk as [|r blk]; [done|].
  rewrite records_bytes_cons, len_app, len_record_bytes in *. cbn [first_key head fmap option_fmap option_map default].
  unfold INDEX_ENTRY_HEADER_LEN. sst_consts.
  pose proof (len_nonneg (rkey r)). pose proof (len_nonneg (rvalue r)).
  pose proof (len_nonneg (records_bytes blk)). unfold id. lia.
Qed.

Lemma index_of_capped off blocks :
  Forall capped (concat blocks) ->
  Forall (fun e => len (first_key e) <= MAX_KEY_LEN) (index_of off blocks).
Proof.
  revert off. induction blocks as [|blk blocks IH]; intros off; simpl; [constructor|].
  intros [Hb Hr]%Forall_app. constructor; [|by apply IH].
  destruct blk as [|r blk]; simpl; [by sst_consts|]. by inversion_clear Hb as [|? ? []].
Qed.

Lemma encode_bloom_nonnil f : is_nil (encode_bloom [] f) = false.
Proof.
  apply is_nil_false. intros H. pose proof (len_encode_bloom f) as Hl. rewrite H in Hl.
  pose proof (len_nonneg (bf_iter f)). rewrite len_nil in Hl. lia.
Qed.

(** Writing a sequence of buffers and flushing leaves their concatenation. *)
Lemma write_four ino d1 d2 d3 d4 fs :
  faults fs = [] -> data_of fs ino = [] ->
  exists fs', scoped (bw_new ino)
    (_ ← bw_write_all d1; _ ← bw_write_all d2; _ ← bw_write_all d3; _ ← bw_write_all d4; bw_flush)
    bw_drop fs = (Ok tt, fs') /\ touches ino fs fs' /\ data_of fs' ino = d1 ++ d2 ++ d3 ++ d4.
Proof.
  intros Hf Hd. unfold scoped.
  destruct (bw_write_all_ok fs (bw_new ino) d1 Hf) as (fs1 & w1 & H1 & W1 & T1 & L1).
  destruct (bw_write_all_ok fs1 w1 d2 (touches_faults _ _ _ T1)) as (fs2 & w2 & H2 & W2 & T2 & L2).
  destruct (bw_write_all_ok fs2 w2 d3 (touches_faults _ _ _ T2)) as (fs3 & w3 & H3 & W3 & T3 & L3).
  destruct (bw_write_all_ok fs3 w3 d4 (touches_faults _ _ _ T3)) as (fs4 & w4 & H4 & W4 & T4 & L4).
  destruct (bw_flush_buf_ok fs4 w4 (touches_faults _ _ _ T4)) as (fs5 & H5 & T5 & D5).
  rewrite (M_bind_ok _ _ _ _ _ H1), (M_bind_ok _ _ _ _ _ H2), (M_bind_ok _ _ _ _ _ H3),
    (M_bind_ok _ _ _ _ _ H4).
  unfold bw_flush. rewrite H5.
  destruct (bw_flush_buf_ok fs5 (mkBufWriter (bw_file w4) []) (touches_faults _ _ _ T5))
    as (fs6 & H6 & T6 & D6).
  unfold bw_drop. rewrite (ignore_ok _ _ _ _ H6).
  cbn [bw_file] in *. rewrite W4, W3, W2, W1 in *. cbn [bw_new bw_file] in *.
  exists fs6. split; [done|]. split.
  - do 5 (eapply touches_trans; [eassumption|]). done.
  - rewrite D6. unfold bw_log at 1. cbn [bw_file bw_buf]. rewrite app_nil_r, D5, L4, L3, L2, L1.
    unfold bw_log. cbn [bw_new bw_file bw_buf]. rewrite Hd. cbn [app]. by rewrite <- !app_assoc.
Qed.

(** [build] writes four buffers to a new file, which make up a table of the
    builder's records. *)
Lemma build_plan path b blocks cur :
  builds b blocks cur -> len (records_bytes (concat blocks ++ cur)) <= 2 ^ 60 ->
  exists d1 d2 d3 d4, table_of (d1 ++ d2 ++ d3 ++ d4) (concat blocks ++ cur) /\
    forall fs, build path b fs =
      (file ← file_create path;
       scoped (bw_new file)
         (_ ← bw_write_all d1; _ ← bw_write_all d2; _ ← bw_write_all d3; _ ← bw_write_all d4; bw_flush)
         bw_drop) fs.
Proof.
  intros Hb Hsmall.
  destruct (finalize_any b blocks cur Hb) as (blocks' & Hb' & Hcat & _).
  destruct Hb' as [Hd Hc Hk Hi Hfk Hl Hbl Hcu Hs Hca Hbm Hbn]. rewrite app_nil_r in *.
  rewrite <- Hcat in *.
  pose proof (len_index_of 0 blocks' Hbl) as Hil.
  set (o := match bloom (finalize_block b) with
    | Some _ => len (records_bytes (concat blocks')) + len (index_bytes (index_of 0 blocks'))
    | None => 0 end).
  exists (records_bytes (concat blocks')), (index_bytes (index_of 0 blocks')),
    (bloom_bytes_of (bloom (finalize_block b))), (footer (len (records_bytes (concat blocks'))) o). split.
  - exists blocks', (bloom (finalize_block b)). split; try done. intros Hnil. apply Hbn. by left.
  - intros fs. unfold build. rewrite Hi, encode_index_ok by (by apply index_of_capped).
    mstep. rewrite Hd. cbn [app]. erewrite (M_bind_ok _ _ _ o); [done|]. unfold o.
    destruct (bloom (finalize_block b)) as [f|]; [|done].
    rewrite encode_bloom_nonnil. unfold lift. by rewrite uadd_ok by (unfold usize_max; lia).
Qed.

Lemma build_ok path b blocks cur fs :
  builds b blocks cur -> len (records_bytes (concat blocks ++ cur)) <= 2 ^ 60 ->
  faults fs = [] -> fs_wf fs ->
  exists ino d fs', build path b fs = (Ok tt, fs') /\ wrote path ino d fs fs' /\
    table_of d (concat blocks ++ cur).
Proof.
  intros Hb Hsmall Hf Hwf. destruct (build_plan path b blocks cur Hb Hsmall) as (d1 & d2 & d3 & d4 & Ht & Hrun).
  destruct (file_create_ok path fs Hf Hwf) as (ino & fs1 & Hcr & Hw).
  destruct (write_four ino d1 d2 d3 d4 fs1) as (fs2 & Hrun2 & Ht2 & Hdat); [by apply Hw|by apply Hw|].
  exists ino, (d1 ++ d2 ++ d3 ++ d4), fs2. rewrite Hrun, (M_bind_ok _ _ _ _ _ Hcr).
  split; [exact Hrun2|]. split; [by eapply wrote_touch|done].
Qed.
End builder.

(** ** Properties *)

Definition sample_records : list record :=
  [([x61], [x31; x32], false); ([x62], [], true); ([x63], [x33], false)].

Lemma sample_capped : Forall capped sample_records.
Proof. repeat constructor; vm_compute; discriminate. Qed.

Lemma sample_sorted : rs_sorted sample_records.
Proof. repeat constructor. Qed.

(** Strictly ascending records within the caps are all accepted.  The data
    region holds them in order, cut into blocks that are at most the target
    size unless they are a single record; the sparse index has the first key,
    the offset and the size of every closed block; the key range is that of the
    first and the last record. *)
Theorem builder_accepts {FB : FastBloom} (n : Z) (rs : list record) :
  Forall capped rs -> rs_sorted rs ->
  exists b blocks cur, for_each rs add_record (with_expected_items n) = (Ok tt, b) /\
    concat blocks ++ cur = rs /\
    data b = records_bytes (concat blocks) /\ current b = records_bytes cur /\
    index b = index_of 0 blocks /\
    Forall (fun blk => len (records_bytes blk) <= TARGET_BLOCK_SIZE \/ length blk = 1%nat) blocks /\
    min_key b = rkey <$> head rs /\ max_key b = rkey <$> last rs.
Proof.
  intros Hc Hs. destruct (add_all_ok rs n Hc Hs) as (b & blocks & cur & Hrun & Hb & Hcat).
  exists b, blocks, cur. destruct Hb as [H1 H2 _ H4 H5 H6 H7 _ _ _ _ _]. rewrite Hcat in *.
  split_and!; try done. eapply Forall_impl; [exact H7|]. by intros blk [_ ?].
Qed.

Lemma builder_accepts_witness :
  exists b, for_each sample_records add_record (@with_expected_items Toy.bloom 3) = (Ok tt, b) /\
    min_key b = Some [x61] /\ max_key b = Some [x63].
Proof.
  destruct (@builder_accepts Toy.bloom 3 sample_records sample_capped sample_sorted)
    as (b & blocks & cur & Hrun & _ & _ & _ & _ & _ & Hmin & Hmax).
  exists b. split; [exact Hrun|]. split; [exact Hmin|exact Hmax].
Defined.

(** A builder that has accepted some records refuses exactly the records
    that are over a cap or not above the last key, with the error of the first
    failing check and without changing; every other record is taken as the new
    last key. *)
Theorem builder_refuses {FB : FastBloom} b blocks cur (r : record) :
  builds b blocks cur ->
  match refusal b r with
  | Some e => add (rkey r) (rvalue r) (rdeleted r) b = (Err e, b)
  | None => exists b', add (rkey r) (rvalue r) (rdeleted r) b = (Ok tt, b') /\ max_key b' = Some (rkey r)
  end.
Proof.
  intros Hb. destruct (refusal b r) as [e|] eqn:E; [by apply refusal_run|].
  destruct (refusal_None b blocks cur r Hb E) as [Hc Hl].
  destruct (builder_add_ok b blocks cur r Hb Hc Hl) as (b' & bl & cu & Hrun & Hb' & Hcat & _).
  exists b'. split; [done|]. unfold max_key. rewrite (bi_last _ _ _ Hb'), Hcat, app_assoc. by rewrite last_snoc.
Qed.

Lemma builder_refuses_witness :
  exists b', add [x61] [x31] false (@new Toy.bloom) = (Ok tt, b') /\ max_key b' = Some [x61].
Proof.
  exact (@builder_refuses Toy.bloom new [] [] ([x61], [x31], false) (builds_new 0)).
Defined.
