(* ===== verification/Reader.v ===== *)
(** * The table reader ([src/src/sstable/reader.rs]) *)

From S2P Require Import Prelude Outcome Utils External Fs StdVec SstRecord SstIndex.
From S2P Require Import Bloom Builder.

(** ** Definitions *)

Section reader.
Context {FB : FastBloom}.

Record SsTableReader := mkReader {
  sr_file : nat;
  sr_file_len : Z;
  sr_index_offset : Z;
  sr_index : list IndexEntry;
  sr_bloom : option bloom_filter;
  sr_path : string;
}.

(** A region of the file read by [seek] and [read_exact] into a fresh
    vector; an empty one is not read. *)
Definition read_region (file : nat) (start n : Z) : M Fs bytes :=
  _ ← lift (vec_zeroed n);
  if 0 <? n then file_read_exact_at file start n else mret [].

(** [SsTableReader::open] *)
Definition open (path : string) : M Fs SsTableReader :=
  file ← file_open path;
  file_len ← file_len file;
  if file_len <? FOOTER_LEN then
    fail (Corruption ("sstable " +:+ quoted path +:+ " is " +:+ pretty file_len +:+
      " bytes, shorter than the " +:+ pretty FOOTER_LEN +:+ "-byte footer"))
  else
    footer ← file_read_exact_at file (file_len - FOOTER_LEN) FOOTER_LEN;
    magic ← lift (slice footer (FOOTER_LEN - 8) (len footer));
    if negb (bool_decide (magic = MAGIC)) then
      fail (Corruption ("sstable " +:+ quoted path +:+
        " has an invalid magic (not an sstable or truncated footer)"))
    else
      index_offset ← lift (read_u64 footer 0);
      bloom_offset ← lift (read_u64 footer 8);
      bloom_end ← lift (usub file_len FOOTER_LEN);
      if negb (bloom_offset =? 0) && (bloom_end <? bloom_offset) then
        fail (Corruption ("sstable " +:+ quoted path +:+ " bloom_offset " +:+
          pretty bloom_offset +:+ " exceeds region end " +:+ pretty bloom_end +:+
          " (overlaps the footer)"))
      else
        end_of_index ← (if bloom_offset =? 0 then lift (usub file_len FOOTER_LEN)
                        else mret bloom_offset);
        if (end_of_index <? index_offset) || (file_len <? end_of_index) then
          fail (Corruption ("sstable " +:+ quoted path +:+
            " footer offsets out of range: index_offset=" +:+ pretty index_offset +:+
            ", bloom_offset=" +:+ pretty bloom_offset +:+ ", file_len=" +:+ pretty file_len))
        else
          index_len ← lift (usub end_of_index index_offset);
          index_bytes ← read_region file index_offset index_len;
          index ← lift (parse_index index_bytes);
          bloom ← (if bloom_offset =? 0 then mret None
                   else
                     bloom_len ← lift (usub bloom_end bloom_offset);
                     bloom_bytes ← read_region file bloom_offset bloom_len;
                     b ← lift (decode_bloom bloom_bytes);
                     mret (Some b));
          mret (mkReader file file_len index_offset index bloom path).

(** [SsTableReader::path] *)
Definition table_path (r : SsTableReader) : string := sr_path r.

Definition num_blocks (r : SsTableReader) : Z := len (sr_index r).

Definition bloom_probe (r : SsTableReader) (key : bytes) : option bool :=
  bf_contains key <$> sr_bloom r.

Definition read_block_at (r : SsTableReader) (offset n : Z) : M Fs bytes :=
  file_read_exact_at (sr_file r) offset n.

(** The scan of one block; [fuel] bounds the number of records. *)
Fixpoint scan_block (fuel : nat) (block key : bytes) (offset : Z) : outcome (option LookupValue) :=
  match fuel with
  | O => Halt
  | S fuel =>
      if offset <? len block then
        '(record, consumed) ← read_record block offset;
        match bytes_cmp (rkey record) key with
        | Eq => Ok (Some (if rdeleted record then Deleted else Present (rvalue record)))
        | Gt => Ok None
        | Lt => next ← uadd offset consumed; scan_block fuel block key next
        end
      else Ok None
  end.

(** [SsTableReader::get] *)
Definition get (r : SsTableReader) (key : bytes) : M Fs (option LookupValue) :=
  if bool_decide (bloom_probe r key = Some false) then mret None
  else
    match locate_block (sr_index r) key with
    | None => mret None
    | Some block_idx =>
        entry ← lift (Outcome.index (sr_index r) (Z.of_nat block_idx));
        match checked_add (offset entry) (size entry) with
        | None =>
            fail (Corruption ("sstable " +:+ quoted (sr_path r) +:+ " block " +:+
              pretty (Z.of_nat block_idx) +:+ " offset+size overflows u64"))
        | Some block_end =>
            if sr_file_len r <? block_end then
              fail (Corruption ("sstable " +:+ quoted (sr_path r) +:+ " block " +:+
                pretty (Z.of_nat block_idx) +:+ " at offset " +:+ pretty (offset entry) +:+
                " size " +:+ pretty (size entry) +:+ " exceeds file length " +:+
                pretty (sr_file_len r)))
            else
              _ ← lift (vec_zeroed (size entry));
              block ← read_block_at r (offset entry) (size entry);
              lift (scan_block (S (length block)) block key 0)
        end
    end.

(** The loop of [records]. *)
Fixpoint walk (fuel : nat) (data : bytes) (offset : Z) (out : list record)
    : outcome (list record) :=
  match fuel with
  | O => Halt
  | S fuel =>
      if offset <? len data then
        '(record, consumed) ← read_record data offset;
        next ← uadd offset consumed;
        walk fuel data next (out ++ [record])
      else Ok out
  end.

(** [SsTableReader::records] *)
Definition records (r : SsTableReader) : M Fs (list record) :=
  _ ← lift (vec_zeroed (sr_index_offset r));
  data ← (if negb (sr_index_offset r =? 0) then read_block_at r 0 (sr_index_offset r) else mret []);
  lift (walk (S (length data)) data 0 []).

(** ** Specification *)

(** What a table of [rs] answers. *)
Definition lookup (rs : list record) (key : bytes) : option LookupValue :=
  (fun '(v, d) => if d : bool then Deleted else Present v) <$> assoc key (as_assoc rs).

(** [reads r d rs]: [r] is an open reader of the table file [d]. *)
Record reads (r : SsTableReader) (d : bytes) (rs : list record) : Prop := {
  rd_small : len (records_bytes rs) <= 2 ^ 60;
  rd_sorted : rs_sorted rs;
  rd_capped : Forall capped rs;
  rd_data : sr_index_offset r = len (records_bytes rs);
  rd_file : exists tl, d = records_bytes rs ++ tl;
  rd_len : sr_file_len r = len d;
  rd_index : exists blocks, concat blocks = rs /\ Forall block_ok blocks /\
               sr_index r = index_of 0 blocks;
  rd_bloom : Forall (fun rc => bloom_probe r (rkey rc) <> Some false) rs;
}.

(** ** Lemmas *)

Lemma as_assoc_keys rs : (as_assoc rs).*1 = rkey <$> rs.
Proof. unfold as_assoc. rewrite <- list_fmap_compose. by apply list_fmap_ext. Qed.

Lemma as_assoc_app rs1 rs2 : as_assoc (rs1 ++ rs2) = as_assoc rs1 ++ as_assoc rs2.
Proof. apply fmap_app. Qed.

Lemma rs_sorted_app rs1 rs2 :
  rs_sorted (rs1 ++ rs2) ->
  rs_sorted rs1 /\ rs_sorted rs2 /\ forall x y, x ∈ rs1 -> y ∈ rs2 -> key_lt (rkey x) (rkey y).
Proof.
  unfold rs_sorted. rewrite fmap_app. intros (H & H1 & H2)%StronglySorted_app.
  split_and!; [done..|]. intros x y Hx Hy. apply H; by apply list_elem_of_fmap_2.
Qed.

Lemma rs_sorted_cons r rs :
  rs_sorted (r :: rs) -> rs_sorted rs /\ forall x, x ∈ rs -> key_lt (rkey r) (rkey x).
Proof.
  intros (_ & H & Hx)%(rs_sorted_app [r]). split; [done|]. intros x. apply Hx. apply list_elem_of_here.
Qed.

(** A key outside the keys of the records has no entry. *)
Lemma assoc_lt rs key :
  (forall r, r ∈ rs -> key_lt (rkey r) key) -> assoc key (as_assoc rs) = None.
Proof.
  intros H. apply assoc_above. unfold as_assoc. apply Forall_fmap, Forall_forall. intros r Hr. by apply H.
Qed.

Lemma assoc_gt rs key :
  (forall r, r ∈ rs -> key_lt key (rkey r)) -> assoc key (as_assoc rs) = None.
Proof.
  intros H. apply assoc_below. unfold as_assoc. apply Forall_fmap, Forall_forall. intros r Hr. by apply H.
Qed.

(** *** Opening *)

Lemma index_of_fits off blocks :
  0 <= off -> Forall block_ok blocks -> Forall capped (concat blocks) ->
  off + len (records_bytes (concat blocks)) <= u64_max ->
  Forall entry_fits (index_of off blocks).
Proof.
  revert off. induction blocks as [|blk blocks IH]; intros off Ho Hb Hc Hu; simpl; [constructor|].
  inversion_clear Hb as [|? ? [Hne _] Hb']. simpl in Hc. apply Forall_app in Hc as [Hc1 Hc2].
  rewrite records_bytes_concat_cons, len_app in Hu.
  pose proof (len_nonneg (records_bytes blk)). pose proof (len_nonneg (records_bytes (concat blocks))).
  constructor.
  - destruct blk as [|r blk]; [done|]. inversion_clear Hc1 as [|? ? [Hk _] _].
    split_and!; cbn [first_key offset size head fmap option_fmap option_map default]; try lia.
    exact Hk.
  - apply IH; try done; lia.
Qed.

Lemma read_region_at file start n p m q fs :
  faults fs = [] -> data_of fs file = p ++ m ++ q -> start = len p -> n = len m ->
  n <= isize_max -> read_region file start n fs = (Ok m, fs).
Proof.
  intros Hf Hd -> -> Hn. unfold read_region, lift, mbind, M_bind. rewrite vec_zeroed_ok by done.
  destruct (Z.ltb_spec 0 (len m)) as [Hm|Hm].
  - by apply (file_read_at _ _ _ p m q).
  - rewrite (len_0_nil m); [done|]. pose proof (len_nonneg m). lia.
Qed.

(** The fields of the footer. *)
Lemma footer_fields i o :
  0 <= i <= u64_max -> 0 <= o <= u64_max ->
  slice (footer i o) (FOOTER_LEN - 8) (len (footer i o)) = Ok MAGIC /\
  read_u64 (footer i o) 0 = Ok i /\ read_u64 (footer i o) 8 = Ok o.
Proof.
  intros Hi Ho. rewrite len_footer. unfold footer, put_u64. cbn [app]. rewrite <- app_assoc.
  split_and!.
  - apply (slice_at _ (le_bytes 8 i ++ le_bytes 8 o) MAGIC []); [assoc_refl|unfold FOOTER_LEN; len_solve|].
    change (len MAGIC) with 8. len_solve.
  - apply (read_u64_at i _ [] (le_bytes 8 o ++ MAGIC)); (done || (sst_consts; lia)).
  - apply (read_u64_at o _ (le_bytes 8 i) MAGIC); (done || (sst_consts; len_solve)).
Qed.

(** The regions of a table file: its length, its footer and the bounds that keep
    every computation of [open] in range. *)
Definition bloom_offset_of (data idx : bytes) (f : option bloom_filter) : Z :=
  match f with Some _ => len data + len idx | None => 0 end.

Lemma table_regions data idx f :
  len data <= 2 ^ 60 -> len idx <= 2 ^ 62 ->
  let bo := bloom_offset_of data idx f in
  let d := data ++ idx ++ bloom_bytes_of f ++ footer (len data) bo in
  len (bloom_bytes_of f) <= isize_max /\
  len d = len data + len idx + len (bloom_bytes_of f) + 24 /\
  negb (bo =? 0) && (len d - FOOTER_LEN <? bo) = false /\
  slice (footer (len data) bo) (FOOTER_LEN - 8) (len (footer (len data) bo)) = Ok MAGIC /\
  read_u64 (footer (len data) bo) 0 = Ok (len data) /\ read_u64 (footer (len data) bo) 8 = Ok bo.
Proof.
  intros Hd Hi bo d. pose proof (len_nonneg data). pose proof (len_nonneg idx).
  pose proof (len_nonneg (bloom_bytes_of f)).
  assert (0 <= bo <= len data + len idx) by (unfold bo; destruct f; cbn; lia).
  assert (len d = len data + len idx + len (bloom_bytes_of f) + 24) as Hlen
    by (unfold d; rewrite !len_app, len_footer; lia).
  split_and!; [|done|..].
  - destruct f as [f|]; [|done]. unfold bloom_bytes_of. rewrite len_encode_bloom.
    pose proof (bf_iter_alloc f). unfold isize_max in *. lia.
  - rewrite (proj2 (Z.ltb_ge _ _)); [by destruct (bo =? 0)|]. unfold FOOTER_LEN. lia.
  - apply footer_fields; unfold u64_max; lia.
  - apply footer_fields; unfold u64_max; lia.
  - apply footer_fields; unfold u64_max; lia.
Qed.

(** Where the index ends: a table with a bloom block has records, so its
    [bloom_offset] is not the zero that says there is none. *)
Lemma end_of_index data idx f fs :
  (f <> None -> data <> []) ->
  let bo := bloom_offset_of data idx f in
  let n := len data + len idx + len (bloom_bytes_of f) + 24 in
  (if bo =? 0 then lift (usub n FOOTER_LEN) else mret bo : M Fs Z) fs = (Ok (len data + len idx), fs).
Proof.
  intros Hne bo n. pose proof (len_nonneg data). pose proof (len_nonneg idx). destruct f as [f|].
  - unfold bo. cbn [bloom_offset_of]. destruct (Z.eqb_spec (len data + len idx) 0); [|done].
    exfalso. apply (Hne ltac:(done)), len_0_nil. lia.
  - unfold bo, n. cbn [bloom_offset_of Z.eqb bloom_bytes_of]. rewrite len_nil.
    unfold lift. rewrite usub_ok by (unfold FOOTER_LEN; lia). do 2 f_equal. unfold FOOTER_LEN. lia.
Qed.

(** The bloom region of [open]: absent, or a filter that covers the keys the
    written one covers. *)
Lemma open_bloom ino data idx f n rs fs :
  faults fs = [] -> data_of fs ino = data ++ idx ++ bloom_bytes_of f ++ footer (len data) (bloom_offset_of data idx f) ->
  n = len data + len idx + len (bloom_bytes_of f) -> len (bloom_bytes_of f) <= isize_max ->
  n <= u64_max ->
  bloom_covers f rs ->
  let bo := bloom_offset_of data idx f in
  exists f', (if bo =? 0 then mret None else
      bloom_len ← lift (usub n bo);
      bloom_bytes ← read_region ino bo bloom_len;
      b ← lift (decode_bloom bloom_bytes); mret (Some b)) fs = (Ok f', fs) /\
    Forall (fun rc => bf_contains (rkey rc) <$> f' <> Some false) rs.
Proof.
  intros Hf Hd Hn Hbl Hmax Hcov bo. destruct (Z.eqb_spec bo 0) as [Hbo|Hbo].
  { exists None. split; [done|]. by apply Forall_true. }
  destruct f as [f|]; [|done]. destruct Hcov as [Hst Hcov]. unfold bo in *. cbn [bloom_offset_of] in *.
  pose proof (len_nonneg (bloom_bytes_of (Some f))).
  assert (n - (len data + len idx) = len (bloom_bytes_of (Some f))) as Hsz by lia.
  rewrite (lift_bind_ok _ _ _ _ (usub_ok n (len data + len idx) ltac:(lia))). rewrite Hsz.
  assert (read_region ino (len data + len idx) (len (bloom_bytes_of (Some f))) fs
    = (Ok (bloom_bytes_of (Some f)), fs)) as Hrb.
  { apply (read_region_at _ _ _ (data ++ idx) _ (footer (len data) (len data + len idx))); try done;
      [rewrite Hd; assoc_refl|by rewrite len_app]. }
  rewrite (M_bind_ok _ _ _ _ _ Hrb).
  destruct (decode_encode_bloom f Hst Hbl) as (f' & Hdec & Heq).
  rewrite (lift_bind_ok _ _ _ _ Hdec). exists (Some f'). split; [done|].
  eapply Forall_impl; [exact Hcov|]. intros rc Hrc. simpl in *. by rewrite Heq, Hrc.
Qed.

Lemma open_ok path ino d rs fs :
  faults fs = [] -> dirents fs !! path = Some ino -> data_of fs ino = d -> table_of d rs ->
  exists r, open path fs = (Ok r, fs) /\ reads r d rs /\ sr_file r = ino /\ sr_path r = path.
Proof.
  intros Hf Hp Hd (blocks & f & [Hb Hcat Hok Hs Hc Hcov Hsome Hsmall]).
  pose proof (len_index_of 0 blocks Hok) as Hil. rewrite Hcat in Hil.
  unfold table_bytes in Hb. rewrite Hcat in Hb.
  remember (records_bytes rs) as data eqn:Edata.
  remember (index_bytes (index_of 0 blocks)) as idx eqn:Eidx.
  change (match f with Some _ => len data + len idx | None => 0 end) with (bloom_offset_of data idx f) in Hb.
  pose proof (len_nonneg data). pose proof (len_nonneg idx). pose proof (len_nonneg (bloom_bytes_of f)).
  destruct (table_regions data idx f ltac:(lia) ltac:(lia)) as (Hbl & Hlen & Hbo & Fm & Fi & Fb).
  rewrite <- Hb in Hlen. rewrite <- Hb in Hbo. remember (bloom_offset_of data idx f) as bo eqn:Ebo.
  unfold open. rewrite (M_bind_ok _ _ _ _ _ (file_open_ok path ino fs Hf Hp)).
  rewrite (M_bind_ok _ _ _ _ _ (file_len_ok ino fs Hf)). rewrite Hd.
  rewrite (proj2 (Z.ltb_ge _ _)) by (unfold FOOTER_LEN; lia).
  assert (file_read_exact_at ino (len d - FOOTER_LEN) FOOTER_LEN fs = (Ok (footer (len data) bo), fs)) as Hr.
  { apply (file_read_at _ _ _ (data ++ idx ++ bloom_bytes_of f) _ []); [done|..].
    - rewrite app_nil_r, Hd, Hb. assoc_refl.
    - unfold FOOTER_LEN. len_solve.
    - by rewrite len_footer. }
  rewrite (M_bind_ok _ _ _ _ _ Hr), (lift_bind_ok _ _ _ _ Fm).
  rewrite bool_decide_true by done. cbn [negb].
  rewrite (lift_bind_ok _ _ _ _ Fi), (lift_bind_ok _ _ _ _ Fb).
  rewrite (lift_bind_ok _ _ _ _ (usub_ok (len d) FOOTER_LEN ltac:(unfold FOOTER_LEN; lia))), Hbo.
  assert (f <> None -> data <> []) as Hdn.
  { intros Hfn Hdn. rewrite Hdn in Edata. symmetry in Edata. by apply records_bytes_nil_iff, Hsome in Edata. }
  pose proof (end_of_index data idx f fs Hdn) as Heoi. cbn zeta in Heoi. rewrite <- Ebo, <- Hlen in Heoi.
  rewrite (M_bind_ok _ _ _ _ _ Heoi).
  assert ((len data + len idx <? len data) || (len d <? len data + len idx) = false) as ->
    by (rewrite !(proj2 (Z.ltb_ge _ _)) by lia; done).
  rewrite (lift_bind_ok _ _ _ _ (usub_ok (len data + len idx) (len data) ltac:(lia))).
  assert (read_region ino (len data) (len data + len idx - len data) fs = (Ok idx, fs)) as Hri.
  { apply (read_region_at _ _ _ data idx (bloom_bytes_of f ++ footer (len data) bo)); try done;
      [by rewrite Hd|lia|unfold isize_max; lia]. }
  rewrite (M_bind_ok _ _ _ _ _ Hri).
  assert (parse_index idx = Ok (index_of 0 blocks)) as Hpi.
  { rewrite Eidx. apply parse_index_bytes; [|rewrite <- Eidx; unfold isize_max; lia].
    apply index_of_fits; try done; [by rewrite Hcat|]. rewrite Hcat, <- Edata. unfold u64_max. lia. }
  rewrite (lift_bind_ok _ _ _ _ Hpi).
  destruct (open_bloom ino data idx f (len d - FOOTER_LEN) rs fs) as (f' & Hbl' & Hcov');
    [done|by rewrite <- Ebo, Hd|unfold FOOTER_LEN; lia|done|unfold FOOTER_LEN, isize_max, u64_max in *; lia|done|].
  cbn zeta in Hbl'. rewrite <- Ebo in Hbl'. rewrite (M_bind_ok _ _ _ _ _ Hbl'). eexists. split; [done|].
  split; [|done]. split; try done; cbn [sr_index_offset sr_index sr_file_len].
  - by rewrite <- Edata.
  - by rewrite <- Edata.
  - eexists. by rewrite <- Edata.
  - by exists blocks.
Qed.

(** *** Scanning *)

Lemma lookup_cons r rs key :
  lookup (r :: rs) key =
    if decide (rkey r = key)
    then Some (if rdeleted r then Deleted else Present (rvalue r)) else lookup rs key.
Proof. unfold lookup. simpl. by case_decide. Qed.

Lemma lookup_None rs key : assoc key (as_assoc rs) = None -> lookup rs key = None.
Proof. unfold lookup. by intros ->. Qed.

Lemma scan_block_ok fuel p rs key :
  rs_sorted rs -> Forall capped rs -> len (p ++ records_bytes rs) <= isize_max ->
  (length rs < fuel)%nat ->
  scan_block fuel (p ++ records_bytes rs) key (len p) = Ok (lookup rs key).
Proof.
  revert p rs. induction fuel as [|fuel IH]; intros p rs Hs Hc Hu Hfuel; [lia|].
  cbn [scan_block]. destruct rs as [|r rs].
  { by rewrite app_nil_r, Z.ltb_irrefl. }
  inversion_clear Hc as [|? ? Hr Hc']. pose proof (len_record_pos r) as Hpos.
  rewrite records_bytes_cons in *. pose proof (len_nonneg (records_bytes rs)).
  rewrite (proj2 (Z.ltb_lt _ _)) by (rewrite !len_app; lia).
  rewrite read_record_mid by done. cbn [mbind outcome_bind]. rewrite lookup_cons.
  destruct (rs_sorted_cons _ _ Hs) as [Hs' Hgt].
  destruct (bytes_cmp (rkey r) key) eqn:E.
  - apply bytes_cmp_eq in E. by rewrite decide_True.
  - rewrite decide_False by (by apply key_lt_ne).
    unfold isize_max in Hu. rewrite !len_app in Hu.
    rewrite uadd_ok by (unfold usize_max; lia). cbn [mbind outcome_bind].
    rewrite <- len_app, app_assoc. apply IH; try done; [|simpl in Hfuel; lia].
    unfold isize_max. rewrite !len_app. lia.
  - apply key_cmp_gt in E. rewrite decide_False by (by apply not_eq_sym, key_lt_ne).
    rewrite lookup_None; [done|]. apply assoc_gt. intros x Hx. eapply key_lt_trans; [exact E|].
    by apply Hgt.
Qed.

Lemma walk_ok fuel p rs out :
  Forall capped rs -> len (p ++ records_bytes rs) <= isize_max -> (length rs < fuel)%nat ->
  walk fuel (p ++ records_bytes rs) (len p) out = Ok (out ++ rs).
Proof.
  revert p rs out. induction fuel as [|fuel IH]; intros p rs out Hc Hu Hfuel; [lia|].
  cbn [walk]. destruct rs as [|r rs].
  { by rewrite !app_nil_r, Z.ltb_irrefl. }
  inversion_clear Hc as [|? ? Hr Hc']. pose proof (len_record_pos r) as Hpos.
  rewrite records_bytes_cons in *. pose proof (len_nonneg (records_bytes rs)).
  rewrite (proj2 (Z.ltb_lt _ _)) by (rewrite !len_app; lia).
  rewrite read_record_mid by done. cbn [mbind outcome_bind].
  unfold isize_max in Hu. rewrite !len_app in Hu.
  rewrite uadd_ok by (unfold usize_max; lia). cbn [mbind outcome_bind].
  rewrite <- len_app, app_assoc. rewrite IH; [by rewrite <- app_assoc|done| |simpl in Hfuel; lia].
  unfold isize_max. rewrite !len_app. lia.
Qed.

(** *** The block of a key *)

Lemma elem_of_concat {A} (x : A) ls l : x ∈ l -> l ∈ ls -> x ∈ concat ls.
Proof.
  intros Hx Hl. apply list_elem_of_In, in_concat. exists l.
  split; by apply list_elem_of_In.
Qed.

Lemma elem_of_concat_inv {A} (x : A) ls : x ∈ concat ls -> exists l, l ∈ ls /\ x ∈ l.
Proof.
  intros (l & Hl & Hx)%list_elem_of_In%in_concat. exists l. split; by apply list_elem_of_In.
Qed.

Lemma index_of_app off b1 b2 :
  index_of off (b1 ++ b2) =
    index_of off b1 ++ index_of (off + len (records_bytes (concat b1))) b2.
Proof.
  revert off. induction b1 as [|blk b1 IH]; intros off; simpl; [by rewrite Z.add_0_r|].
  rewrite IH, records_bytes_app, len_app. by rewrite Z.add_assoc.
Qed.

Lemma length_index_of off blocks : length (index_of off blocks) = length blocks.
Proof. revert off. induction blocks as [|blk blocks IH]; intros off; simpl; [done|]. by rewrite IH. Qed.

Lemma index_of_split off blocks l1 l2 :
  index_of off blocks = l1 ++ l2 ->
  exists b1 b2, blocks = b1 ++ b2 /\ l1 = index_of off b1 /\
    l2 = index_of (off + len (records_bytes (concat b1))) b2.
Proof.
  intros H. pose proof (length_index_of off blocks) as Hl. rewrite H, length_app in Hl.
  exists (take (length l1) blocks), (drop (length l1) blocks).
  rewrite take_drop. split; [done|].
  rewrite <- (take_drop (length l1) blocks), index_of_app in H.
  apply app_inj_1 in H as [H1 H2]; [done|]. rewrite length_index_of, length_take. lia.
Qed.

(** The first key of a sorted block is its least. *)
Lemma head_least (blk : list record) r :
  rs_sorted blk -> r ∈ blk -> ~ key_lt (rkey r) (default [] (rkey <$> head blk)).
Proof.
  destruct blk as [|r0 blk]; [by intros _ ?%not_elem_of_nil|].
  intros [_ Hgt]%rs_sorted_cons [->|Hr]%elem_of_cons; simpl; [apply key_lt_irrefl|].
  intros Hlt. apply (key_lt_irrefl (rkey r)). eapply key_lt_trans; [exact Hlt|]. by apply Hgt.
Qed.

Lemma head_elem (blk : list record) :
  blk <> [] -> exists r, r ∈ blk /\ rkey r = default [] (rkey <$> head blk).
Proof. destruct blk as [|r blk]; [done|]. intros _. exists r. split; [apply list_elem_of_here|done]. Qed.

Lemma elem_of_index_of off blocks e :
  e ∈ index_of off blocks ->
  exists blk, blk ∈ blocks /\ first_key e = default [] (rkey <$> head blk).
Proof.
  revert off. induction blocks as [|blk blocks IH]; intros off; simpl; [by intros ?%not_elem_of_nil|].
  intros [->|(blk' & Hb & He)%IH]%elem_of_cons.
  - exists blk. split; [apply list_elem_of_here|done].
  - exists blk'. split; [by apply list_elem_of_further|done].
Qed.

Lemma index_of_elem off blocks blk :
  blk ∈ blocks ->
  exists e, e ∈ index_of off blocks /\ first_key e = default [] (rkey <$> head blk).
Proof.
  revert off. induction blocks as [|b blocks IH]; intros off; simpl; [by intros ?%not_elem_of_nil|].
  intros [->|Hb]%elem_of_cons.
  - eexists. split; [apply list_elem_of_here|done].
  - destruct (IH (off + len (records_bytes b)) Hb) as (e & He & Hk). exists e.
    split; [by apply list_elem_of_further|done].
Qed.

Lemma index_of_sorted off blocks :
  Forall block_ok blocks -> rs_sorted (concat blocks) -> index_sorted (index_of off blocks).
Proof.
  intros H. revert off. induction H as [|blk blocks [Hne _] Hbs IH]; intros off Hs; [constructor|].
  simpl in Hs. apply rs_sorted_app in Hs as (Hs1 & Hs2 & Hlt).
  constructor; [by apply IH|]. apply Forall_forall. intros e (b & Hb & ->)%elem_of_index_of.
  cbn [first_key]. destruct (head_elem blk Hne) as (r & Hr & <-).
  rewrite Forall_forall in Hbs. destruct (head_elem b (proj1 (Hbs b Hb))) as (r' & Hr' & <-).
  apply Hlt; [done|]. by apply (elem_of_concat _ _ b).
Qed.

(** All keys of the blocks after the located one are greater, all keys of
    those before it are smaller. *)
Lemma located off blocks key n :
  Forall block_ok blocks -> rs_sorted (concat blocks) ->
  locate_block (index_of off blocks) key = Some n ->
  exists b1 blk b2, blocks = b1 ++ blk :: b2 /\ length b1 = n /\
    lookup (concat blocks) key = lookup blk key.
Proof.
  intros Hok Hs Hloc.
  destruct (locate_split _ key (index_of_sorted off blocks Hok Hs)) as (l1 & l2 & Hl & H1 & H2 & Hn).
  rewrite Hn in Hloc. destruct (index_of_split _ _ _ _ Hl) as (b1 & b2 & -> & -> & ->).
  rewrite length_index_of in Hloc.
  destruct b1 as [|blk b1 _] using rev_ind; [done|]. rewrite length_app in Hloc. simpl in Hloc.
  rewrite Nat.add_1_r in Hloc. injection Hloc as <-.
  exists b1, blk, b2. rewrite <- app_assoc. split_and!; [done..|].
  rewrite <- app_assoc in Hs, Hok. rewrite concat_app in Hs |- *. cbn [app concat] in Hs |- *.
  apply rs_sorted_app in Hs as (Hs1 & Hs2 & Hlt1).
  pose proof Hs2 as (Hs3 & Hs4 & Hlt2)%rs_sorted_app.
  apply Forall_app in Hok as [Hok1 Hok2]. inversion_clear Hok2 as [|? ? [Hne _] Hok3].
  rewrite index_of_app in H1. apply Forall_app in H1 as [_ H1].
  apply Forall_inv in H1 as Hhead. cbn [first_key] in Hhead.
  destruct (head_elem blk Hne) as (r0 & Hr0 & Hk0). rewrite <- Hk0 in Hhead.
  unfold lookup. rewrite !as_assoc_app, !assoc_app.
  rewrite assoc_lt; [|intros r Hr; eapply key_lt_le_trans; [|exact Hhead]; apply Hlt1;
    [done|by apply elem_of_app; left]].
  destruct (assoc key (as_assoc blk)); [done|]. rewrite assoc_gt; [done|].
  intros r (b & Hb & Hr)%elem_of_concat_inv.
  rewrite Forall_forall in H2.
  destruct (index_of_elem (off + len (records_bytes (concat (b1 ++ [blk])))) b2 b Hb) as (e & He & Hk).
  specialize (H2 _ He). rewrite Hk in H2. eapply key_lt_le_trans; [exact H2|].
  apply head_least; [|done]. apply list_elem_of_split in Hb as (c1 & c2 & ->).
  rewrite concat_app in Hs4. by apply rs_sorted_app in Hs4 as (_ & (? & _)%rs_sorted_app & _).
Qed.

(** A key below every first key is in no block. *)
Lemma not_located off blocks key :
  Forall block_ok blocks -> rs_sorted (concat blocks) ->
  locate_block (index_of off blocks) key = None -> lookup (concat blocks) key = None.
Proof.
  intros Hok Hs Hloc.
  destruct (locate_split _ key (index_of_sorted off blocks Hok Hs)) as (l1 & l2 & Hl & _ & H2 & Hn).
  rewrite Hn in Hloc. destruct l1; [|done]. cbn [app] in Hl. subst l2.
  apply lookup_None, assoc_gt. intros r (b & Hb & Hr)%elem_of_concat_inv.
  rewrite Forall_forall in H2. destruct (index_of_elem off blocks b Hb) as (e & He & Hk).
  specialize (H2 _ He). rewrite Hk in H2. eapply key_lt_le_trans; [exact H2|].
  apply head_least; [|done]. apply list_elem_of_split in Hb as (c1 & c2 & ->).
  rewrite concat_app in Hs. by apply rs_sorted_app in Hs as (_ & (? & _)%rs_sorted_app & _).
Qed.

Lemma reader_get_ok r d rs key fs :
  faults fs = [] -> data_of fs (sr_file r) = d -> reads r d rs ->
  get r key fs = (Ok (lookup rs key), fs).
Proof.
  intros Hf Hd [Hsm Hs Hc Hdo [tl Htl] Hlen (blocks & Hcat & Hok & Hidx) Hbl]. unfold get.
  case_bool_decide as Hp.
  { rewrite lookup_None; [done|]. apply assoc_None. rewrite as_assoc_keys.
    intros (rc & -> & Hrc)%list_elem_of_fmap. rewrite Forall_forall in Hbl. by apply (Hbl rc). }
  rewrite Hidx. destruct (locate_block _ key) as [n|] eqn:Hloc.
  2: { by rewrite <- Hcat, (not_located _ _ _ Hok ltac:(by rewrite Hcat) Hloc). }
  destruct (located _ _ _ _ Hok ltac:(by rewrite Hcat) Hloc) as (b1 & blk & b2 & -> & <- & Hlk).
  rewrite Hcat in Hlk. rewrite Hlk. rewrite index_of_app. cbn [index_of].
  assert (Outcome.index (index_of 0 b1 ++ mkIndexEntry (default [] (rkey <$> head blk))
      (0 + len (records_bytes (concat b1))) (len (records_bytes blk)) ::
      index_of (0 + len (records_bytes (concat b1)) + len (records_bytes blk)) b2)
      (Z.of_nat (length b1)) = Ok (mkIndexEntry (default [] (rkey <$> head blk))
      (0 + len (records_bytes (concat b1))) (len (records_bytes blk)))) as Hi.
  { apply index_app_mid. unfold len. by rewrite length_index_of. }
  rewrite (lift_bind_ok _ _ _ _ Hi). cbn [offset size]. rewrite Z.add_0_l.
  rewrite concat_app in Hcat. cbn [concat] in Hcat.
  assert (records_bytes rs = records_bytes (concat b1) ++ records_bytes blk ++ records_bytes (concat b2))
    as Hrs by (by rewrite <- Hcat, !records_bytes_app).
  pose proof (len_nonneg (records_bytes (concat b1))). pose proof (len_nonneg (records_bytes blk)).
  pose proof (len_nonneg (records_bytes (concat b2))). pose proof (len_nonneg tl).
  assert (len (records_bytes rs) = len (records_bytes (concat b1)) + len (records_bytes blk)
     + len (records_bytes (concat b2))) as Hrl by (rewrite Hrs, !len_app; lia).
  unfold checked_add. rewrite (proj2 (Z.leb_le _ _)) by (unfold usize_max; lia).
  rewrite Hlen, (proj2 (Z.ltb_ge _ _)) by (rewrite Htl, len_app; lia).
  rewrite (lift_bind_ok _ _ _ _ (vec_zeroed_ok (len (records_bytes blk)) ltac:(unfold isize_max; lia))).
  assert (read_block_at r (len (records_bytes (concat b1))) (len (records_bytes blk)) fs
    = (Ok (records_bytes blk), fs)) as Hrd.
  { apply (file_read_at _ _ _ (records_bytes (concat b1)) _ (records_bytes (concat b2) ++ tl));
      try done. rewrite Hd, Htl, Hrs. assoc_refl. }
  rewrite (M_bind_ok _ _ _ _ _ Hrd). unfold lift. f_equal.
  pose proof (length_records_bytes blk).
  apply (scan_block_ok _ [] blk key); [| |cbn [app]; unfold isize_max; lia|lia].
  - rewrite <- Hcat in Hs. by apply rs_sorted_app in Hs as (_ & (? & _)%rs_sorted_app & _).
  - rewrite <- Hcat in Hc. by apply Forall_app in Hc as [_ [? _]%Forall_app].
Qed.

Lemma records_ok r d rs fs :
  faults fs = [] -> data_of fs (sr_file r) = d -> reads r d rs -> records r fs = (Ok rs, fs).
Proof.
  intros Hf Hd [Hsm Hs Hc Hdo [tl Htl] Hlen _ _]. unfold records. rewrite Hdo.
  pose proof (len_nonneg (records_bytes rs)). pose proof (length_records_bytes rs).
  rewrite (lift_bind_ok _ _ _ _ (vec_zeroed_ok (len (records_bytes rs)) ltac:(unfold isize_max; lia))).
  assert ((if negb (len (records_bytes rs) =? 0) then read_block_at r 0 (len (records_bytes rs))
           else mret []) fs = (Ok (records_bytes rs), fs)) as Hrd.
  { destruct (Z.eqb_spec (len (records_bytes rs)) 0) as [Hz|Hz]; cbn [negb].
    - by rewrite (len_0_nil _ Hz).
    - apply (file_read_at _ _ _ [] _ tl); try done. by rewrite Hd. }
  rewrite (M_bind_ok _ _ _ _ _ Hrd). unfold lift. f_equal.
  apply (walk_ok _ [] rs []); [done|cbn [app]; unfold isize_max; lia|lia].
Qed.

(** *** Arbitrary files *)

(** What [open] has checked of a file that may hold anything. *)
Definition opened (r : SsTableReader) (d : bytes) : Prop :=
  sr_file_len r = len d /\ 0 <= sr_index_offset r <= len d /\ Forall entry_fits (sr_index r).

Lemma file_read_exact_at_observes ino off n fs :
  faults fs = [] -> 0 <= off -> 0 <= n ->
  observes (file_read_exact_at ino off n) fs (fun b => len b = n /\ off + n <= len (data_of fs ino)).
Proof.
  intros Hf Ho Hn. unfold file_read_exact_at, observes. rewrite syscall_ok by done.
  destruct (Z.leb_spec (off + n) (len (data_of fs ino))); [|by exists (Err (Io UnexpectedEof))].
  eexists. split; [done|]. simpl. rewrite len_subslice; lia.
Qed.

Lemma read_region_observes ino off n fs :
  faults fs = [] -> 0 <= off -> 0 <= n <= isize_max ->
  observes (read_region ino off n) fs (fun b => len b = n).
Proof.
  intros Hf Ho Hn. unfold read_region.
  eapply observes_bind with (P := fun _ => True).
  { apply observes_lift. by rewrite vec_zeroed_ok by lia. }
  intros _ _. destruct (Z.ltb_spec 0 n).
  - destruct (file_read_exact_at_observes ino off n fs Hf Ho ltac:(lia)) as (o & H1 & H2).
    exists o. split; [done|]. eapply ends_mono; [exact H2|]. by intros b [].
  - apply observes_ret. rewrite len_nil. lia.
Qed.

Lemma open_observes path ino fs :
  faults fs = [] -> dirents fs !! path = Some ino -> len (data_of fs ino) <= isize_max ->
  observes (open path) fs (fun r => opened r (data_of fs ino) /\ sr_file r = ino).
Proof.
  intros Hf Hp Hu. unfold open.
  eapply observes_bind with (P := fun f => f = ino).
  { eexists. split; [by apply file_open_ok|done]. }
  intros _ ->. eapply observes_bind with (P := fun n => n = len (data_of fs ino)).
  { eexists. split; [by apply file_len_ok|done]. }
  intros _ ->. remember (data_of fs ino) as d eqn:Ed.
  destruct (Z.ltb_spec (len d) FOOTER_LEN) as [|Hl]; [apply observes_fail|]. unfold FOOTER_LEN in Hl.
  eapply observes_bind; [apply file_read_exact_at_observes; unfold FOOTER_LEN; (done || lia)|].
  intros ft [Hft _]. eapply observes_bind with (P := fun _ => True).
  { apply observes_lift. unfold FOOTER_LEN in *. rewrite slice_ok by lia. done. }
  intros m _. destruct (negb _); [apply observes_fail|].
  eapply observes_bind; [apply observes_lift, (read_u64_ends ft 0); lia|]. intros io Hio. simpl in Hio.
  eapply observes_bind; [apply observes_lift, (read_u64_ends ft 8); lia|]. intros bo Hbo. simpl in Hbo.
  eapply observes_bind with (P := fun be => be = len d - FOOTER_LEN).
  { apply observes_lift. rewrite usub_ok; [done|unfold FOOTER_LEN; lia]. }
  intros be ->. destruct (negb (bo =? 0) && _) eqn:Hover; [apply observes_fail|].
  eapply observes_bind with (P := fun e => e = if bo =? 0 then len d - FOOTER_LEN else bo).
  { destruct (bo =? 0); [|by apply observes_ret].
    apply observes_lift. rewrite usub_ok; [done|unfold FOOTER_LEN; lia]. }
  intros ei Hei. destruct ((ei <? io) || (len d <? ei)) eqn:Hrange; [apply observes_fail|].
  apply orb_false_iff in Hrange as [Hr1%Z.ltb_ge Hr2%Z.ltb_ge].
  eapply observes_bind with (P := fun n => n = ei - io).
  { apply observes_lift. by rewrite usub_ok. }
  intros n ->. eapply observes_bind; [apply read_region_observes; (done || lia)|].
  intros ib Hib. simpl in Hib. eapply observes_bind; [apply observes_lift, parse_index_ends; lia|].
  intros idx [Hidx _]. eapply observes_bind with (P := fun _ => True).
  { destruct (Z.eqb_spec bo 0) as [|Hb0]; [by apply observes_ret|]. cbn [negb andb] in Hover.
    apply Z.ltb_ge in Hover. eapply observes_bind with (P := fun n => n = len d - FOOTER_LEN - bo).
    { apply observes_lift. by rewrite usub_ok. }
    intros n ->. eapply observes_bind; [apply read_region_observes; unfold FOOTER_LEN in *; (done || lia)|].
    intros bb Hbb. simpl in Hbb. eapply observes_bind; [apply observes_lift, decode_bloom_ends;
      unfold FOOTER_LEN in *; lia|]. intros b _. by apply observes_ret. }
  intros bl _. apply observes_ret. split; [|done]. split_and!; cbn; (done || lia).
Qed.

Lemma scan_block_ends fuel block key offset :
  len block <= isize_max -> 0 <= offset <= len block -> len block - offset < Z.of_nat fuel ->
  ends (scan_block fuel block key offset) (fun _ => True).
Proof.
  revert offset. induction fuel as [|fuel IH]; intros offset Hu Ho Hfuel; [lia|]; cbn [scan_block].
  destruct (Z.ltb_spec offset (len block)) as [Hlt|]; [|done].
  eapply ends_bind; [apply read_record_ends; (done || lia)|]. intros [r n] (Hc & Hn & Hend).
  pose proof (len_nonneg (rkey r)). pose proof (len_nonneg (rvalue r)).
  destruct (bytes_cmp _ _); try done.
  rewrite uadd_ok by (sst_consts; lia). cbn [mbind outcome_bind].
  apply IH; [done|sst_consts; lia|]. sst_consts. lia.
Qed.

Lemma walk_ends fuel data offset out :
  len data <= isize_max -> 0 <= offset <= len data -> len data - offset < Z.of_nat fuel ->
  Forall capped out -> ends (walk fuel data offset out) (Forall capped).
Proof.
  revert offset out. induction fuel as [|fuel IH]; intros offset out Hu Ho Hfuel Hout; [lia|].
  cbn [walk]. destruct (Z.ltb_spec offset (len data)) as [Hlt|]; [|done].
  eapply ends_bind; [apply read_record_ends; (done || lia)|]. intros [r n] (Hc & Hn & Hend).
  pose proof (len_nonneg (rkey r)). pose proof (len_nonneg (rvalue r)).
  rewrite uadd_ok by (sst_consts; lia). cbn [mbind outcome_bind].
  apply IH; [done|sst_consts; lia|sst_consts; lia|].
  apply Forall_app. split; [done|]. by constructor.
Qed.

Lemma get_observes r key fs :
  faults fs = [] -> len (data_of fs (sr_file r)) <= isize_max ->
  opened r (data_of fs (sr_file r)) -> observes (get r key) fs (fun _ => True).
Proof.
  intros Hf Hu (Hlen & Hio & Hidx). unfold get. case_bool_decide; [by apply observes_ret|].
  destruct (locate_block (sr_index r) key) as [n|] eqn:Hloc; [|by apply observes_ret].
  assert (n < length (sr_index r))%nat as Hn.
  { unfold locate_block in Hloc.
    pose proof (partition_point_bound (fun e => key_leb (first_key e) key) (sr_index r)).
    destruct (Nat.eqb_spec (partition_point (fun e => key_leb (first_key e) key) (sr_index r)) 0);
      [done|]. injection Hloc as <-. lia. }
  destruct (index_ok (sr_index r) (Z.of_nat n)) as [e He]; [unfold len; lia|].
  eapply observes_bind with (P := entry_fits).
  { apply observes_lift. rewrite He. simpl. unfold Outcome.index in He.
    rewrite (proj2 (Z.leb_le _ _)) in He by lia. destruct (_ !! _) eqn:E; [|done]. injection He as ->.
    rewrite Forall_forall in Hidx. by eapply Hidx, list_elem_of_lookup_2. }
  intros e' (_ & Ho & Hs). unfold checked_add.
  destruct (offset e' + size e' <=? usize_max); [|apply observes_fail].
  destruct (Z.ltb_spec (sr_file_len r) (offset e' + size e')); [apply observes_fail|].
  eapply observes_bind with (P := fun _ => True).
  { apply observes_lift. by rewrite vec_zeroed_ok by lia. }
  intros _ _. eapply observes_bind; [apply file_read_exact_at_observes; (done || lia)|].
  intros b [Hb Hbl]. apply observes_lift, scan_block_ends; [lia|pose proof (len_nonneg b); lia|].
  unfold len. lia.
Qed.

Lemma records_observes r fs :
  faults fs = [] -> len (data_of fs (sr_file r)) <= isize_max ->
  opened r (data_of fs (sr_file r)) -> observes (records r) fs (Forall capped).
Proof.
  intros Hf Hu (Hlen & Hio & Hidx). unfold records.
  eapply observes_bind with (P := fun _ => True).
  { apply observes_lift. by rewrite vec_zeroed_ok by lia. }
  intros _ _. eapply observes_bind with (P := fun b => len b = sr_index_offset r).
  { destruct (Z.eqb_spec (sr_index_offset r) 0) as [Hz|Hz]; cbn [negb].
    - apply observes_ret. by rewrite Hz.
    - destruct (file_read_exact_at_observes (sr_file r) 0 (sr_index_offset r) fs Hf) as (o & H1 & H2);
        [lia..|]. exists o. split; [done|]. eapply ends_mono; [exact H2|]. by intros b []. }
  intros b Hb. apply observes_lift, walk_ends; [lia|pose proof (len_nonneg b); lia| |constructor].
  unfold len. lia.
Qed.
End reader.

(** ** Properties *)

(** C27: a table built from strictly ascending records can be opened again: a
    point lookup of any key answers with its record, a tombstone or absence,
    and the full scan returns the records as they were added.  Neither the
    sparse index nor the bloom filter ever hides a record. *)
Theorem table_roundtrip {FB : FastBloom} (n : Z) (rs : list record) path fs :
  Forall capped rs -> rs_sorted rs -> len (records_bytes rs) <= 2 ^ 60 -> faults fs = [] -> fs_wf fs ->
  exists b fs' r, for_each rs add_record (with_expected_items n) = (Ok tt, b) /\
    build path b fs = (Ok tt, fs') /\ open path fs' = (Ok r, fs') /\
    (forall key, get r key fs' =
      (Ok match assoc key (as_assoc rs) with
          | Some (v, d) => Some (if d : bool then Deleted else Present v)
          | None => None
          end, fs')) /\
    records r fs' = (Ok rs, fs').
Proof.
  intros Hc Hs Hu Hf Hwf. destruct (add_all_ok rs n Hc Hs) as (b & blocks & cur & Hadd & Hb & Hcat).
  rewrite <- Hcat in Hu. destruct (build_ok path b blocks cur fs Hb Hu Hf Hwf) as (ino & d & fs' & Hbuild & Hwr & Ht).
  rewrite Hcat in Ht. pose proof (wr_faults _ _ _ _ _ Hwr) as Hf'.
  assert (dirents fs' !! path = Some ino) as Hp by (by rewrite (wr_dirents _ _ _ _ _ Hwr), lookup_insert_eq).
  destruct (open_ok path ino d rs fs' Hf' Hp (wr_data _ _ _ _ _ Hwr) Ht) as (r & Hopen & Hr & <- & _).
  pose proof (wr_data _ _ _ _ _ Hwr) as Hd. exists b, fs', r. split_and!; [done..| |by eapply records_ok].
  intros key. rewrite (reader_get_ok r d rs key fs' Hf' Hd Hr). unfold lookup.
  by destruct (assoc key (as_assoc rs)) as [[v []]|].
Qed.

Lemma table_roundtrip_witness :
  exists b fs' r, for_each sample_records add_record (@with_expected_items Toy.bloom 3) = (Ok tt, b) /\
    build "L0-000001.sst" b empty_fs = (Ok tt, fs') /\ @open Toy.bloom "L0-000001.sst" fs' = (Ok r, fs') /\
    get r [x62] fs' = (Ok (Some Deleted), fs') /\ records r fs' = (Ok sample_records, fs').
Proof.
  destruct (@table_roundtrip Toy.bloom 3 sample_records "L0-000001.sst" empty_fs)
    as (b & fs' & r & H1 & H2 & H3 & H4 & H5).
  - exact sample_capped.
  - exact sample_sorted.
  - vm_compute. discriminate.
  - reflexivity.
  - exact fs_wf_empty.
  - exists b, fs', r. split; [exact H1|]. split; [exact H2|]. split; [exact H3|].
    split; [rewrite (H4 [x62]); reflexivity|exact H5].
Defined.

(** C30: on a file with arbitrary bytes, opening, every point lookup and the
    full scan report an error or return a value, and leave the file system as
    it is: corrupt footers, offsets, sizes, filters and records are detected
    without a panic, an out-of-bounds access or an endless loop. *)
Theorem reader_safe {FB : FastBloom} path ino fs :
  faults fs = [] -> dirents fs !! path = Some ino -> len (data_of fs ino) <= isize_max ->
  observes (open path) fs (fun r =>
    (forall key, observes (get r key) fs (fun _ => True)) /\ observes (records r) fs (Forall capped)).
Proof.
  intros Hf Hp Hu. destruct (open_observes path ino fs Hf Hp Hu) as (o & Ho & Hq). exists o. split; [done|].
  eapply ends_mono; [exact Hq|]. intros r [Hopened <-].
  split; [intros key; by apply get_observes|by apply records_observes].
Qed.

Lemma reader_safe_witness :
  observes (@open Toy.bloom "junk") (set_inode 0 (mkInode [x00; x01] 0) (mkFs {["junk" := 0%nat]} ∅ 1 [])) (fun r =>
    (forall key, observes (get r key) (set_inode 0 (mkInode [x00; x01] 0) (mkFs {["junk" := 0%nat]} ∅ 1 []))
       (fun _ => True)) /\
    observes (records r) (set_inode 0 (mkInode [x00; x01] 0) (mkFs {["junk" := 0%nat]} ∅ 1 [])) (Forall capped)).
Proof.
  apply (@reader_safe Toy.bloom "junk" 0).
  - reflexivity.
  - reflexivity.
  - vm_compute. discriminate.
Defined.
