(* ===== verification/Merge.v ===== *)
(** * The k-way merge of compaction ([src/src/compaction/leveled.rs]) *)

From S2P Require Import Prelude Outcome External StdVec SstRecord Builder Reader.

(** ** Definitions *)

Record Run := mkRun { seq : Z; records : list record }.

(** The [debug_assert!] on the file sequence numbers: no two neighbours of the
    sorted sequence are equal. *)
Fixpoint windows_differ (l : list Z) : bool :=
  match l with
  | a :: (b :: _) as l' => negb (a =? b) && windows_differ l'
  | _ => true
  end.

Definition seqs_distinct (runs : list Run) : bool :=
  windows_differ (sort_by_key id (seq <$> runs)).

(** [(0..runs.len()).filter(|&i| !runs[i].records.is_empty())] *)
Fixpoint active_runs (runs : list Run) (i : nat) : list nat :=
  match runs with
  | [] => []
  | run :: runs => if is_nil (records run) then active_runs runs (S i) else i :: active_runs runs (S i)
  end.

(** The first loop of a round: the smallest current key. *)
Fixpoint find_min (runs : list Run) (cursor : list nat) (active : list nat) (min_key : option bytes)
    : outcome (option bytes) :=
  match active with
  | [] => Ok min_key
  | i :: active =>
      c ← vec_at cursor i;
      run ← vec_at runs i;
      if (length (records run) <=? c)%nat then find_min runs cursor active min_key
      else
        r ← vec_at (records run) c;
        let key := rkey r in
        let smaller := match min_key with None => true | Some mk => key_ltb key mk end in
        find_min runs cursor active (if smaller then Some key else min_key)
  end.

(** The second loop: every run at that key consumes it, the record of the
    highest sequence number wins. *)
Fixpoint take_min (runs : list Run) (min_key : bytes) (active : list nat) (cursor : list nat)
    (winner_seq : option Z) (winner : option record) : outcome (list nat * option record) :=
  match active with
  | [] => Ok (cursor, winner)
  | i :: active =>
      c ← vec_at cursor i;
      run ← vec_at runs i;
      if (length (records run) <=? c)%nat then take_min runs min_key active cursor winner_seq winner
      else
        r ← vec_at (records run) c;
        if negb (bool_decide (rkey r = min_key))
        then take_min runs min_key active cursor winner_seq winner
        else
          let cursor := <[i := S c]> cursor in
          if match winner_seq with None => true | Some best => best <? seq run end
          then take_min runs min_key active cursor (Some (seq run)) (Some r)
          else take_min runs min_key active cursor winner_seq winner
  end.

(** The outer loop; [fuel] bounds the number of distinct keys. *)
Fixpoint merge_loop (fuel : nat) (runs : list Run) (active : list nat) (cursor : list nat)
    (out : list record) : outcome (list record) :=
  match fuel with
  | O => Halt
  | S fuel =>
      m ← find_min runs cursor active None;
      match m with
      | None => Ok out
      | Some min_key =>
          '(cursor, winner) ← take_min runs min_key active cursor None None;
          match winner with
          | None => Panic
          | Some w =>
              merge_loop fuel runs active cursor
                (if rdeleted w then out else out ++ [(rkey w, rvalue w, false)])
          end
      end
  end.

Definition total_records (runs : list Run) : nat := sum_list ((length ∘ records) <$> runs).

(** [merge_runs] *)
Definition merge_runs (runs : list Run) : outcome (list record) :=
  if negb (seqs_distinct runs) then Panic
  else
    let active := active_runs runs 0 in
    let cursor := replicate (length runs) 0%nat in
    merge_loop (S (total_records runs)) runs active cursor [].

(** ** Specification *)

(** [newest rs k e]: [e] is the entry of [k] in the run of the highest sequence
    number that has one. *)
Definition newest (rs : list Run) (k : bytes) (e : bytes * bool) : Prop :=
  exists run, run ∈ rs /\ assoc k (as_assoc (records run)) = Some e /\
    forall run', run' ∈ rs -> seq run < seq run' -> assoc k (as_assoc (records run')) = None.

(** Strictly ascending runs with different sequence numbers. *)
Definition mergeable (rs : list Run) : Prop :=
  Forall (fun run => rs_sorted (records run)) rs /\ NoDup (seq <$> rs).

(** ** The runs that remain to be read *)

Definition remaining (runs : list Run) (cursor : list nat) : list Run :=
  zip_with (fun run c => mkRun (seq run) (drop c (records run))) runs cursor.

Definition cursors_ok (runs : list Run) (cursor : list nat) : Prop := length cursor = length runs.

Lemma remaining_lookup runs cursor i :
  remaining runs cursor !! i =
    run ← runs !! i; c ← cursor !! i; Some (mkRun (seq run) (drop c (records run))).
Proof. unfold remaining. by rewrite lookup_zip_with. Qed.

(** The cursor of a run in range, the run, and its remaining records. *)
Lemma cursor_at runs cursor i run :
  cursors_ok runs cursor -> runs !! i = Some run ->
  exists c, cursor !! i = Some c /\
    remaining runs cursor !! i = Some (mkRun (seq run) (drop c (records run))).
Proof.
  intros Hc Hr. destruct (lookup_lt_is_Some_2 cursor i) as [c Hci].
  { rewrite Hc. by eapply lookup_lt_Some. }
  exists c. split; [done|]. by rewrite remaining_lookup, Hr, Hci.
Qed.

Definition head_of (runs : list Run) (cursor : list nat) (i : nat) : option record :=
  run ← remaining runs cursor !! i; head (records run).

(** Both inner loops look at a run through its head. *)
Lemma find_min_cons runs cursor i active mk :
  cursors_ok runs cursor -> (i < length runs)%nat ->
  find_min runs cursor (i :: active) mk =
    find_min runs cursor active
      match head_of runs cursor i with
      | Some r => if match mk with None => true | Some m => key_ltb (rkey r) m end
                  then Some (rkey r) else mk
      | None => mk
      end.
Proof.
  intros Hc [run Hr]%lookup_lt_is_Some_2. destruct (cursor_at _ _ _ _ Hc Hr) as (c & Hci & Hrem).
  cbn [find_min]. rewrite (vec_at_ok _ _ _ Hci), (vec_at_ok _ _ _ Hr). cbn [mbind outcome_bind].
  unfold head_of. rewrite Hrem. cbn [mbind option_bind records].
  destruct (Nat.leb_spec (length (records run)) c) as [Hl|Hl].
  - by rewrite drop_ge by done.
  - destruct (lookup_lt_is_Some_2 _ _ Hl) as [r Hrc]. rewrite (vec_at_ok _ _ _ Hrc).
    rewrite (drop_S _ _ _ Hrc). done.
Qed.

Lemma take_min_cons runs mk i active cursor ws w :
  cursors_ok runs cursor -> (i < length runs)%nat ->
  take_min runs mk (i :: active) cursor ws w =
    match runs !! i, head_of runs cursor i with
    | Some run, Some r =>
        if decide (rkey r = mk) then
          let cursor := <[i := S (default 0%nat (cursor !! i))]> cursor in
          if match ws with None => true | Some best => best <? seq run end
          then take_min runs mk active cursor (Some (seq run)) (Some r)
          else take_min runs mk active cursor ws w
        else take_min runs mk active cursor ws w
    | _, _ => take_min runs mk active cursor ws w
    end.
Proof.
  intros Hc [run Hr]%lookup_lt_is_Some_2. destruct (cursor_at _ _ _ _ Hc Hr) as (c & Hci & Hrem).
  cbn [take_min]. rewrite (vec_at_ok _ _ _ Hci), (vec_at_ok _ _ _ Hr). cbn [mbind outcome_bind].
  rewrite Hr. unfold head_of. rewrite Hrem. cbn [mbind option_bind records].
  destruct (Nat.leb_spec (length (records run)) c) as [Hl|Hl].
  - by rewrite drop_ge by done.
  - destruct (lookup_lt_is_Some_2 _ _ Hl) as [r Hrc]. rewrite (vec_at_ok _ _ _ Hrc).
    rewrite (drop_S _ _ _ Hrc). cbn [head mbind outcome_bind]. rewrite Hci. cbn [default].
    case_decide; [by rewrite bool_decide_true|by rewrite bool_decide_false].
Qed.

(** ** The inner loops *)

Lemma find_min_spec runs cursor active mk :
  cursors_ok runs cursor -> Forall (fun i => (i < length runs)%nat) active ->
  exists m, find_min runs cursor active mk = Ok m /\
    (m = None -> mk = None /\ forall i, i ∈ active -> head_of runs cursor i = None) /\
    (forall k, m = Some k ->
      (mk = Some k \/ exists i r, i ∈ active /\ head_of runs cursor i = Some r /\ rkey r = k) /\
      (forall k0, mk = Some k0 -> ~ key_lt k0 k) /\
      (forall i r, i ∈ active -> head_of runs cursor i = Some r -> ~ key_lt (rkey r) k)).
Proof.
  intros Hc Ha. revert mk. induction Ha as [|i active Hi _ IH]; intros mk.
  { exists mk. cbn [find_min]. split; [done|]. split.
    - intros ->. split; [done|]. by intros i ?%not_elem_of_nil.
    - intros k ->. split; [by left|]. split; [|by intros i r ?%not_elem_of_nil].
      intros k0 [= ->]. apply key_lt_irrefl. }
  rewrite find_min_cons by done.
  destruct (IH (match head_of runs cursor i with
                | Some r => if match mk with None => true | Some m => key_ltb (rkey r) m end
                            then Some (rkey r) else mk
                | None => mk end)) as (m & -> & Hn & Hs).
  exists m. split; [done|]. split.
  - intros Hm. destruct (Hn Hm) as [Hmk Hall].
    destruct (head_of runs cursor i) as [r|] eqn:Hh; [by destruct mk as [k|]; [destruct (key_ltb _ k)|]|].
    split; [done|]. by intros j [->|Hj]%elem_of_cons; [|apply Hall].
  - intros k Hk. destruct (Hs k Hk) as (Hwhere & Hle & Hall).
    destruct (head_of runs cursor i) as [r|] eqn:Hh.
    + destruct mk as [k0|].
      * destruct (key_ltb (rkey r) k0) eqn:E.
        -- apply key_ltb_lt in E. specialize (Hle _ eq_refl). split_and!.
           ++ right. destruct Hwhere as [[= <-]|(j & r' & Hj & ?)].
              ** exists i, r. split; [apply list_elem_of_here|done].
              ** exists j, r'. split; [by apply list_elem_of_further|done].
           ++ intros ? [= <-] Hlt. apply Hle. by eapply key_lt_trans.
           ++ intros j r' [->|Hj]%elem_of_cons Hj'; [by simplify_eq|by eapply Hall].
        -- apply key_ltb_false in E. specialize (Hle _ eq_refl) as Hle0. split_and!; [|done|].
           ++ destruct Hwhere as [[= <-]|(j & r' & Hj & ?)]; [by left|right].
              exists j, r'. split; [by apply list_elem_of_further|done].
           ++ intros j r' [->|Hj]%elem_of_cons Hj'; [simplify_eq|by eapply Hall].
              intros Hlt. apply Hle0. by apply (key_le_lt_trans _ (rkey r)).
      * specialize (Hle _ eq_refl). split_and!; [|done|].
        -- right. destruct Hwhere as [[= <-]|(j & r' & Hj & ?)].
           ++ exists i, r. split; [apply list_elem_of_here|done].
           ++ exists j, r'. split; [by apply list_elem_of_further|done].
        -- intros j r' [->|Hj]%elem_of_cons Hj'; [by simplify_eq|by eapply Hall].
    + split_and!; [|done|].
      * destruct Hwhere as [?|(j & r' & Hj & ?)]; [by left|right].
        exists j, r'. split; [by apply list_elem_of_further|done].
      * intros j r' [->|Hj]%elem_of_cons Hj'; [by simplify_eq|by eapply Hall].
Qed.

(** The records at the current key, with the sequence numbers of their runs. *)
Definition at_key (runs : list Run) (cursor : list nat) (mk : bytes) (i : nat) (s : Z) (r : record) : Prop :=
  exists run, runs !! i = Some run /\ head_of runs cursor i = Some r /\ rkey r = mk /\ s = seq run.

Lemma head_of_insert runs cursor i j c :
  i <> j -> head_of runs (<[i := c]> cursor) j = head_of runs cursor j.
Proof. intros H. unfold head_of. by rewrite !remaining_lookup, list_lookup_insert_ne. Qed.

(** What the scan of the runs in [active] does, from a best record so far to the
    final one: it advances the cursors of the runs at the key, and the record it
    returns has the largest sequence number. *)
Definition taken (runs : list Run) (mk : bytes) (active cursor : list nat) (ws : option Z) (w : option record)
    (cursor' : list nat) (w' : option record) : Prop :=
  cursors_ok runs cursor' /\
  (forall j, (j ∉ active \/ forall s r, ~ at_key runs cursor mk j s r) -> cursor' !! j = cursor !! j) /\
  (forall j s r, j ∈ active -> at_key runs cursor mk j s r -> cursor' !! j = S <$> cursor !! j) /\
  (w' = None -> w = None /\ forall j s r, j ∈ active -> ~ at_key runs cursor mk j s r) /\
  (forall r', w' = Some r' -> exists s',
    (ws = Some s' /\ w = Some r' \/ exists j, j ∈ active /\ at_key runs cursor mk j s' r') /\
    (forall s, ws = Some s -> s <= s') /\
    (forall j s r, j ∈ active -> at_key runs cursor mk j s r -> s <= s')).

Lemma taken_nil runs mk cursor ws w :
  cursors_ok runs cursor -> (ws = None <-> w = None) -> taken runs mk [] cursor ws w cursor w.
Proof.
  intros Hc Hws. split_and!; try done.
  - by intros j s r ?%not_elem_of_nil.
  - intros ->. split; [done|]. by intros j s r ?%not_elem_of_nil.
  - intros r' ->. destruct ws as [s|]; [|by discriminate (proj1 Hws eq_refl)].
    exists s. split_and!; [by left| |by intros j s' r ?%not_elem_of_nil]. by intros s' [= ->].
Qed.

(** A run that is not at the key changes nothing. *)
Lemma taken_skip runs mk i active cursor ws w cursor' w' :
  (forall s r, ~ at_key runs cursor mk i s r) ->
  taken runs mk active cursor ws w cursor' w' -> taken runs mk (i :: active) cursor ws w cursor' w'.
Proof.
  intros Hno (Hc' & Hsk & Htk & Hwn & Hws'). split; [done|]. split_and!.
  - intros j [Hj|Hj]; apply Hsk; [left|by right]. by apply not_elem_of_cons in Hj as [_ ?].
  - intros j s0 r0 [->|Hj]%elem_of_cons Hat'; [by apply Hno in Hat'|by eapply Htk].
  - intros Hw'. destruct (Hwn Hw') as [H1 H2]. split; [done|].
    intros j s0 r0 [->|Hj]%elem_of_cons; [apply Hno|by apply H2].
  - intros r' Hr'. destruct (Hws' r' Hr') as (s' & Hwhere & Hge & Hall). exists s'. split_and!; [|done|].
    + destruct Hwhere as [?|(j & Hj & Hat')]; [by left|right]. exists j.
      split; [by apply list_elem_of_further|done].
    + intros j s0 r0 [->|Hj]%elem_of_cons Hat'; [by apply Hno in Hat'|by eapply Hall].
Qed.

(** A run at the key: its cursor advances, and its record wins when its sequence
    number is larger. *)
Lemma taken_pop runs mk i active cursor ws w cursor' w' run r :
  i ∉ active -> (i < length cursor)%nat -> (ws = None <-> w = None) ->
  runs !! i = Some run -> head_of runs cursor i = Some r -> rkey r = mk ->
  let cursor1 := <[i := S (default 0%nat (cursor !! i))]> cursor in
  let wins := match ws with None => true | Some best => best <? seq run end in
  taken runs mk active cursor1 (if wins then Some (seq run) else ws) (if wins then Some r else w) cursor' w' ->
  taken runs mk (i :: active) cursor ws w cursor' w'.
Proof.
  intros Hni Hlen Hws Hrun Hr Hk cursor1 wins (Hc' & Hsk & Htk & Hwn & Hws').
  assert (at_key runs cursor mk i (seq run) r) as Hat by (by exists run).
  assert (forall j s r, j ∈ active -> at_key runs cursor1 mk j s r <-> at_key runs cursor mk j s r) as Hs1.
  { intros j s r0 Hj. assert (i <> j) by (by intros ->). unfold at_key, cursor1.
    by setoid_rewrite head_of_insert. }
  assert (forall j, i <> j -> cursor1 !! j = cursor !! j) as Hj1
    by (intros j Hj; unfold cursor1; by rewrite list_lookup_insert_ne).
  split; [done|]. split_and!.
  - intros j Hj. destruct (decide (i = j)) as [->|Hij].
    { destruct Hj as [Hj|Hj]; [by destruct Hj; left|by destruct (Hj _ _ Hat)]. }
    rewrite <- Hj1 by done. apply Hsk. destruct (decide (j ∈ active)) as [Hja|Hja]; [right|by left].
    intros s0 r0. rewrite Hs1 by done. destruct Hj as [Hj|Hj]; [|apply Hj].
    destruct Hj. by apply list_elem_of_further.
  - intros j s0 r0 [->|Hj]%elem_of_cons Hat'.
    + rewrite Hsk by (by left). unfold cursor1. rewrite list_lookup_insert_eq by done.
      by apply lookup_lt_is_Some_2 in Hlen as [c ->].
    + assert (i <> j) by (by intros ->). rewrite (Htk j s0 r0) by (done || by apply Hs1). by rewrite Hj1.
  - intros Hw'. destruct (Hwn Hw') as [Hwins _]. unfold wins in *.
    destruct ws as [best|]; [|done]. destruct (best <? seq run) eqn:E; [done|].
    by discriminate (proj2 Hws Hwins).
  - intros r' Hr'. destruct (Hws' r' Hr') as (s' & Hwhere & Hge & Hall). exists s'.
    assert (seq run <= s' /\ forall s0, ws = Some s0 -> s0 <= s') as [Hrs Hss].
    { unfold wins in Hge. destruct ws as [best|]; [|split; [by apply Hge|done]].
      destruct (Z.ltb_spec best (seq run)); specialize (Hge _ eq_refl);
        (split; [lia|]); intros s0 [= ->]; lia. }
    split_and!; [|done|].
    + destruct Hwhere as [[H1 H2]|(j & Hj & Hat')].
      * destruct wins; [right|by left]. simplify_eq. exists i. split; [apply list_elem_of_here|done].
      * right. exists j. split; [by apply list_elem_of_further|by apply Hs1].
    + intros j s0 r0 [->|Hj]%elem_of_cons Hat'; [|by eapply Hall; [|apply Hs1]].
      destruct Hat' as (? & ? & _ & _ & ->). by simplify_eq.
Qed.

Lemma take_min_spec runs mk active cursor ws w :
  cursors_ok runs cursor -> Forall (fun i => (i < length runs)%nat) active -> NoDup active ->
  (ws = None <-> w = None) ->
  exists cursor' w', take_min runs mk active cursor ws w = Ok (cursor', w') /\
    taken runs mk active cursor ws w cursor' w'.
Proof.
  intros Hc Ha. revert cursor ws w Hc. induction Ha as [|i active Hi _ IH]; intros cursor ws w Hc Hnd Hws.
  { exists cursor, w. split; [done|by apply taken_nil]. }
  apply NoDup_cons in Hnd as [Hni Hnd].
  destruct (lookup_lt_is_Some_2 _ _ Hi) as [run Hrun].
  rewrite take_min_cons, Hrun by done.
  destruct (head_of runs cursor i) as [r|] eqn:Hr; [case_decide as Hk|].
  - set (wins := match ws with None => true | Some best => best <? seq run end).
    destruct (IH (<[i := S (default 0%nat (cursor !! i))]> cursor) (if wins then Some (seq run) else ws)
      (if wins then Some r else w)) as (cursor' & w' & Hrun' & Ht).
    + unfold cursors_ok. by rewrite length_insert.
    + done.
    + by destruct wins.
    + exists cursor', w'. split; [by destruct wins|]. eapply taken_pop; try done. by rewrite Hc.
  - destruct (IH cursor ws w Hc Hnd Hws) as (cursor' & w' & Hrun' & Ht). exists cursor', w'.
    split; [done|]. apply taken_skip; [|done]. intros s r' (? & _ & Hr' & ? & _). by simplify_eq.
  - destruct (IH cursor ws w Hc Hnd Hws) as (cursor' & w' & Hrun' & Ht). exists cursor', w'.
    split; [done|]. apply taken_skip; [|done]. intros s r' (? & _ & Hr' & _). by rewrite Hr in Hr'.
Qed.

(** ** One round, abstractly *)

(** [popped mk run run']: the run without its head when that is at [mk]. *)
Definition popped (mk : bytes) (run run' : Run) : Prop :=
  seq run' = seq run /\
  (records run' = records run /\ (forall r, head (records run) = Some r -> rkey r <> mk) \/
   exists r, records run = r :: records run' /\ rkey r = mk).

(** No record is below [mk]. *)
Definition least (mk : bytes) (rs : list Run) : Prop :=
  forall run r, run ∈ rs -> r ∈ records run -> ~ key_lt (rkey r) mk.

(** [w] is the record at [mk] of the newest run that has one. *)
Definition wins (mk : bytes) (rs : list Run) (w : record) : Prop :=
  rkey w = mk /\
  exists run, run ∈ rs /\ head (records run) = Some w /\
    forall run' r, run' ∈ rs -> head (records run') = Some r -> rkey r = mk -> seq run' <= seq run.

(** [merged rs res]: the result of merging. *)
Record merged (rs : list Run) (res : list record) : Prop := {
  mg_sorted : rs_sorted res;
  mg_from : forall r, r ∈ res -> rdeleted r = false /\ exists run, run ∈ rs /\ r ∈ records run;
  mg_newest : forall k v, assoc k (as_assoc res) = Some (v, false) <-> newest rs k (v, false);
}.

Lemma as_assoc_elem r rs : r ∈ rs -> (rkey r, (rvalue r, rdeleted r)) ∈ as_assoc rs.
Proof. apply (list_elem_of_fmap_2 (fun r => (rkey r, (rvalue r, rdeleted r)))). Qed.

Lemma as_assoc_sorted rs : rs_sorted rs -> keys_sorted (as_assoc rs).
Proof. unfold rs_sorted, keys_sorted. by rewrite as_assoc_keys. Qed.

Lemma assoc_record rs k v d : assoc k (as_assoc rs) = Some (v, d) -> (k, v, d) ∈ rs.
Proof.
  intros ([[k' v'] d'] & Heq & Hin)%assoc_elem_of%list_elem_of_fmap.
  unfold rkey, rvalue, rdeleted in Heq. simpl in Heq. by simplify_eq.
Qed.

Lemma as_assoc_cons r rs k :
  assoc k (as_assoc (r :: rs)) =
    if decide (rkey r = k) then Some (rvalue r, rdeleted r) else assoc k (as_assoc rs).
Proof. done. Qed.

(** A popped run keeps every other key, and loses [mk]. *)
Lemma popped_other mk run run' k :
  popped mk run run' -> k <> mk -> assoc k (as_assoc (records run')) = assoc k (as_assoc (records run)).
Proof.
  intros [_ [[-> _]|(r & -> & Hr)]] Hk; [done|]. rewrite as_assoc_cons, decide_False; congruence.
Qed.

Lemma popped_gt mk run run' r :
  popped mk run run' -> rs_sorted (records run) ->
  (forall r, r ∈ records run -> ~ key_lt (rkey r) mk) -> r ∈ records run' -> key_lt mk (rkey r).
Proof.
  intros [_ [[-> Hne]|(r0 & Heq & Hr0)]] Hs Hle Hr.
  - destruct (records run) as [|r0 l]; [by apply not_elem_of_nil in Hr|].
    apply rs_sorted_cons in Hs as [_ Hgt].
    destruct (key_trichotomy (rkey r) mk) as [H|[H|H]]; [by apply Hle in Hr| |done]. exfalso.
    apply elem_of_cons in Hr as [->|Hr]; [by eapply Hne|].
    apply (Hle r0); [apply list_elem_of_here|]. rewrite <- H. by apply Hgt.
  - rewrite Heq in Hs. apply rs_sorted_cons in Hs as [_ Hgt]. rewrite <- Hr0. by apply Hgt.
Qed.

(** A run with an entry at the least key has it at its head. *)
Lemma least_at_head mk run e :
  rs_sorted (records run) -> (forall r, r ∈ records run -> ~ key_lt (rkey r) mk) ->
  assoc mk (as_assoc (records run)) = Some e ->
  exists r, head (records run) = Some r /\ rkey r = mk /\ e = (rvalue r, rdeleted r).
Proof.
  intros Hs Hle. destruct (records run) as [|r l]; [done|]. rewrite as_assoc_cons.
  case_decide as Hk; [intros [= <-]; by exists r|]. destruct e as [v d].
  intros H%assoc_record. apply rs_sorted_cons in Hs as [_ Hgt]. specialize (Hgt _ H). exfalso.
  by apply (Hle r); [apply list_elem_of_here|].
Qed.

Section step.
Context (mk : bytes) (rs rs' : list Run) (w : record) (res : list record).
Hypothesis Hmg : mergeable rs.
Hypothesis Hpop : Forall2 (popped mk) rs rs'.
Hypothesis Hleast : least mk rs.
Hypothesis Hwins : wins mk rs w.
Hypothesis Hres : merged rs' res.

Lemma pop_back run' : run' ∈ rs' -> exists run, run ∈ rs /\ popped mk run run'.
Proof.
  intros [i Hi]%list_elem_of_lookup. destruct (Forall2_lookup_r _ _ _ _ _ Hpop Hi) as (run & Hr & Hp).
  exists run. split; [by eapply list_elem_of_lookup_2|done].
Qed.

Lemma pop_forth run : run ∈ rs -> exists run', run' ∈ rs' /\ popped mk run run'.
Proof.
  intros [i Hi]%list_elem_of_lookup. destruct (Forall2_lookup_l _ _ _ _ _ Hpop Hi) as (run' & Hr & Hp).
  exists run'. split; [by eapply list_elem_of_lookup_2|done].
Qed.

Lemma run_sorted run : run ∈ rs -> rs_sorted (records run).
Proof. destruct Hmg as [H _]. rewrite Forall_forall in H. apply H. Qed.

Lemma above_mk r run' : run' ∈ rs' -> r ∈ records run' -> key_lt mk (rkey r).
Proof.
  intros (run & Hrun & Hp)%pop_back. eapply popped_gt; [done|by apply run_sorted|].
  intros r0. by apply Hleast.
Qed.

Lemma res_above r : r ∈ res -> key_lt mk (rkey r).
Proof. intros Hr. destruct (mg_from _ _ Hres r Hr) as (_ & run & Hrun & Hin). by eapply above_mk. Qed.

Lemma newest_other k e : k <> mk -> newest rs' k e <-> newest rs k e.
Proof.
  intros Hk. split; intros (run & Hrun & Hat & Hall).
  - destruct (pop_back run Hrun) as (run0 & Hrun0 & Hp). exists run0. split; [done|].
    rewrite <- (popped_other _ _ _ k Hp Hk). split; [done|]. intros run1 Hrun1 Hlt.
    destruct (pop_forth run1 Hrun1) as (run1' & Hin & Hp1). rewrite <- (popped_other _ _ _ k Hp1 Hk).
    apply Hall; [done|]. destruct Hp as [Hq _], Hp1 as [Hq1 _]. lia.
  - destruct (pop_forth run Hrun) as (run0 & Hrun0 & Hp). exists run0. split; [done|].
    rewrite (popped_other _ _ _ k Hp Hk). split; [done|]. intros run1 Hrun1 Hlt.
    destruct (pop_back run1 Hrun1) as (run1' & Hin & Hp1). rewrite (popped_other _ _ _ k Hp1 Hk).
    apply Hall; [done|]. destruct Hp as [Hq _], Hp1 as [Hq1 _]. lia.
Qed.

(** The winner is the newest entry at [mk]. *)
Lemma newest_mk e : newest rs mk e <-> e = (rvalue w, rdeleted w).
Proof.
  destruct Hwins as (Hk & run & Hrun & Hh & Hmax).
  assert (assoc mk (as_assoc (records run)) = Some (rvalue w, rdeleted w)) as Hw.
  { destruct (records run) as [|r l]; [done|]. simpl in Hh. simplify_eq.
    by rewrite as_assoc_cons, decide_True. }
  assert (forall run', run' ∈ rs -> seq run < seq run' -> assoc mk (as_assoc (records run')) = None)
    as Hnewer.
  { intros run' Hrun' Hlt.
    destruct (assoc mk (as_assoc (records run'))) as [e'|] eqn:E; [|done].
    apply least_at_head in E as (r & Hr & Hrk & _); [|by apply run_sorted|intros r0; by apply Hleast].
    specialize (Hmax _ _ Hrun' Hr Hrk). lia. }
  split.
  - intros (run1 & Hrun1 & Hat & Hall).
    destruct (Z.lt_trichotomy (seq run) (seq run1)) as [Hlt|[Heq|Hlt]].
    + by rewrite Hnewer in Hat.
    + assert (run1 = run) as ->; [|congruence]. destruct Hmg as [_ Hnd].
      apply list_elem_of_lookup in Hrun as [i Hi], Hrun1 as [j Hj].
      assert (i = j) as ->; [|congruence].
      eapply NoDup_lookup; [exact Hnd|by rewrite list_lookup_fmap, Hi|].
      by rewrite list_lookup_fmap, Hj; simpl; rewrite Heq.
    + rewrite (Hall run) in Hw; done.
  - intros ->. by exists run.
Qed.

Lemma merge_step :
  merged rs ((if rdeleted w then [] else [(rkey w, rvalue w, false)]) ++ res).
Proof.
  destruct Hres as [Hs Hfrom Hnew]. pose proof Hwins as (Hk & run & Hrun & Hh & _).
  assert (assoc mk (as_assoc res) = None) as Hno
    by (apply assoc_gt; intros r; apply res_above).
  split.
  - destruct (rdeleted w); [done|]. unfold rs_sorted. simpl. constructor; [done|].
    apply Forall_fmap, Forall_forall. intros r Hr. unfold rkey at 1. simpl. rewrite Hk.
    by apply res_above.
  - intros r [Hr|Hr]%elem_of_app.
    + destruct (rdeleted w) eqn:Hd; [by apply not_elem_of_nil in Hr|].
      apply list_elem_of_singleton in Hr as ->. split; [done|]. exists run. split; [done|].
      destruct (records run) as [|r l]; [done|]. simpl in Hh. simplify_eq.
      destruct w as [[kw vw] dw]. unfold rdeleted in Hd. simpl in Hd. subst. apply list_elem_of_here.
    + destruct (Hfrom r Hr) as (Hd & run' & Hrun' & Hin). split; [done|].
      destruct (pop_back run' Hrun') as (run0 & Hrun0 & Hp). exists run0. split; [done|].
      destruct Hp as [_ [[<- _]|(r0 & -> & _)]]; [done|by apply list_elem_of_further].
  - intros k v. destruct (decide (k = mk)) as [->|Hne].
    + rewrite newest_mk. destruct (rdeleted w) eqn:Hd; cbn [app].
      * rewrite Hno. split; [done|]. by intros [= _ ?].
      * rewrite as_assoc_cons, decide_True by done. unfold rvalue, rdeleted. simpl.
        split; [by intros [= ->]|by intros [= ->]].
    + rewrite <- newest_other, <- Hnew by done. destruct (rdeleted w); cbn [app]; [done|].
      rewrite as_assoc_cons, decide_False; [done|]. unfold rkey. simpl.
      change (rkey w <> k). congruence.
Qed.

Lemma popped_mergeable : mergeable rs'.
Proof.
  destruct Hmg as [Hall Hnd]. split.
  - apply Forall_forall. intros run' Hrun'. destruct (pop_back run' Hrun') as (run & Hrun & Hp).
    pose proof (run_sorted _ Hrun) as Hs. destruct Hp as [_ [[-> _]|(r & Heq & _)]]; [done|].
    rewrite Heq in Hs. by apply rs_sorted_cons in Hs as [? _].
  - assert (forall l l', Forall2 (popped mk) l l' -> seq <$> l' = seq <$> l) as Hseq.
    { induction 1 as [|a b l l' [Hab _] _ IH]; [done|]. by rewrite !fmap_cons, IH, Hab. }
    by rewrite (Hseq rs rs').
Qed.

Lemma popped_total : (total_records rs' < total_records rs)%nat.
Proof.
  destruct Hwins as (Hk & run & Hrun & Hh & _). clear -Hpop Hk Hrun Hh. unfold total_records.
  assert (forall l l', Forall2 (popped mk) l l' ->
    (sum_list ((length ∘ records) <$> l') <= sum_list ((length ∘ records) <$> l))%nat) as Hle.
  { induction 1 as [|a b l l' [_ Hp] _ IH]; [done|]. rewrite !fmap_cons. simpl.
    destruct Hp as [[-> _]|(r & -> & _)]; simpl; lia. }
  induction Hpop as [|a b l l' Hab Hl IH]; [by apply not_elem_of_nil in Hrun|].
  rewrite !fmap_cons. simpl. pose proof (Hle _ _ Hl). apply elem_of_cons in Hrun as [<-|Hrun].
  - destruct Hab as [_ [[_ Hne]|(r & -> & _)]]; [by apply Hne in Hh|simpl; lia].
  - specialize (IH Hl Hrun). destruct Hab as [_ [[-> _]|(r & -> & _)]]; simpl; lia.
Qed.
End step.

(** ** The outer loop *)

(** [active] lists every run that has records left. *)
Definition covers (runs : list Run) (cursor active : list nat) : Prop :=
  Forall (fun i => (i < length runs)%nat) active /\ NoDup active /\
  forall i r, head_of runs cursor i = Some r -> i ∈ active.

Lemma head_of_lookup runs cursor i run :
  remaining runs cursor !! i = Some run -> head_of runs cursor i = head (records run).
Proof. unfold head_of. by intros ->. Qed.

Lemma head_of_Some runs cursor i r :
  head_of runs cursor i = Some r ->
  exists run, remaining runs cursor !! i = Some run /\ head (records run) = Some r.
Proof. unfold head_of. intros H. apply bind_Some in H as (run & H1 & H2). by exists run. Qed.

Lemma at_key_iff runs cursor mk i s r :
  cursors_ok runs cursor ->
  at_key runs cursor mk i s r <->
  exists run, remaining runs cursor !! i = Some run /\ head (records run) = Some r /\
    rkey r = mk /\ s = seq run.
Proof.
  intros Hc. split.
  - intros (run & Hr & Hh & Hk & ->). destruct (cursor_at _ _ _ _ Hc Hr) as (c & _ & Hrem).
    rewrite (head_of_lookup _ _ _ _ Hrem) in Hh. by eexists.
  - intros (run & Hr & Hh & Hk & ->). pose proof Hr as Hr'. rewrite remaining_lookup in Hr'.
    apply bind_Some in Hr' as (run0 & H0 & (c & _ & [= <-])%bind_Some). exists run0.
    by rewrite (head_of_lookup _ _ _ _ Hr).
Qed.

(** The smallest head is the least key left. *)
Lemma find_min_least runs cursor active k :
  covers runs cursor active -> Forall (fun run => rs_sorted (records run)) (remaining runs cursor) ->
  (forall i r, i ∈ active -> head_of runs cursor i = Some r -> ~ key_lt (rkey r) k) ->
  least k (remaining runs cursor).
Proof.
  intros (_ & _ & Hcov) Hs Hmin run r [i Hi]%list_elem_of_lookup Hr.
  rewrite Forall_lookup in Hs. specialize (Hs _ _ Hi).
  pose proof (head_of_lookup _ _ _ _ Hi) as Hh. destruct (records run) as [|r0 l]; [by apply not_elem_of_nil in Hr|].
  simpl in Hh. specialize (Hmin i r0 (Hcov _ _ Hh) Hh).
  apply rs_sorted_cons in Hs as [_ Hgt]. apply elem_of_cons in Hr as [->|Hr]; [done|].
  intros Hlt. apply Hmin. eapply key_lt_trans; [by apply Hgt|done].
Qed.

Lemma take_min_popped runs cursor cursor' active mk :
  cursors_ok runs cursor -> cursors_ok runs cursor' -> covers runs cursor active ->
  (forall j, (j ∉ active \/ forall s r, ~ at_key runs cursor mk j s r) -> cursor' !! j = cursor !! j) ->
  (forall j s r, j ∈ active -> at_key runs cursor mk j s r -> cursor' !! j = S <$> cursor !! j) ->
  Forall2 (popped mk) (remaining runs cursor) (remaining runs cursor').
Proof.
  intros Hc Hc' (_ & _ & Hcov) Hsk Htk. apply Forall2_same_length_lookup_2.
  { unfold remaining. rewrite !length_zip_with. unfold cursors_ok in *. lia. }
  intros i run run' Hi Hi'. pose proof Hi as Hi0. rewrite remaining_lookup in Hi, Hi'.
  apply bind_Some in Hi as (r0 & Hr0 & (c & Hci & [= <-])%bind_Some).
  rewrite Hr0 in Hi'. cbn [mbind option_bind] in Hi'. apply bind_Some in Hi' as (c' & Hci' & [= <-]).
  split; [done|]. cbn [records].
  pose proof (head_of_lookup _ _ _ _ Hi0) as Hh. cbn [records] in Hh.
  destruct (drop c (records r0)) as [|r l] eqn:Hd.
  - left. rewrite Hsk, Hci in Hci' by (right; intros s r (? & _ & Hr & _); by rewrite Hh in Hr).
    simplify_eq. by rewrite Hd.
  - destruct (decide (rkey r = mk)) as [Hk|Hk].
    + right. exists r. split; [|done]. rewrite (Htk i (seq r0) r), Hci in Hci'.
      * simpl in Hci'. simplify_eq.
        assert (drop (c + 1) (records r0) = l) as Hd1 by (by rewrite <- drop_drop, Hd).
        by rewrite <- Hd1, Nat.add_1_r.
      * by eapply Hcov.
      * by exists r0.
    + left. rewrite Hsk, Hci in Hci'.
      * simplify_eq. rewrite Hd. split; [done|]. by intros ? [= <-].
      * right. intros s r' (? & _ & Hr & Hk' & _). rewrite Hh in Hr. simpl in Hr. by simplify_eq.
Qed.

Lemma covers_popped runs cursor cursor' active mk :
  covers runs cursor active -> Forall2 (popped mk) (remaining runs cursor) (remaining runs cursor') ->
  covers runs cursor' active.
Proof.
  intros (H1 & H2 & H3) Hp. split_and!; [done..|]. intros i r (run' & Hi & Hh)%head_of_Some.
  destruct (Forall2_lookup_r _ _ _ _ _ Hp Hi) as (run & Hi0 & [_ Hcase]).
  pose proof (head_of_lookup _ _ _ _ Hi0) as Hh0. destruct Hcase as [[Heq _]|(r0 & Heq & _)].
  - eapply H3. by rewrite Hh0, <- Heq.
  - eapply H3. by rewrite Hh0, Heq.
Qed.

Lemma merged_nil rs : Forall (fun run => records run = []) rs -> merged rs [].
Proof.
  intros H. rewrite Forall_forall in H. split; [constructor|by intros r ?%not_elem_of_nil|].
  intros k v. split; [done|]. intros (run & Hr & Ha & _). by rewrite (H _ Hr) in Ha.
Qed.

Lemma merge_loop_ok fuel runs active cursor out :
  mergeable (remaining runs cursor) -> cursors_ok runs cursor -> covers runs cursor active ->
  (total_records (remaining runs cursor) < fuel)%nat ->
  exists res, merge_loop fuel runs active cursor out = Ok (out ++ res) /\
    merged (remaining runs cursor) res.
Proof.
  revert cursor out. induction fuel as [|fuel IH]; intros cursor out Hmg Hc Hcov Hf; [lia|].
  pose proof Hcov as (Hact & Hnd & Hall). cbn [merge_loop].
  destruct (find_min_spec runs cursor active None Hc Hact) as (m & -> & Hnone & Hsome).
  cbn [mbind outcome_bind]. destruct m as [mk|].
  2: { exists []. rewrite app_nil_r. split; [done|]. apply merged_nil.
       destruct (Hnone eq_refl) as [_ Hno]. apply Forall_forall. intros run [i Hi]%list_elem_of_lookup.
       pose proof (head_of_lookup _ _ _ _ Hi) as Hh. destruct (records run) as [|r l]; [done|].
       simpl in Hh. pose proof (Hall _ _ Hh) as Hia. by rewrite (Hno i Hia) in Hh. }
  destruct (Hsome mk eq_refl) as ([[=]|(i & r & Hi & Hh & Hk)] & _ & Hmin).
  pose proof (find_min_least _ _ _ _ Hcov (proj1 Hmg) Hmin) as Hleast.
  destruct (take_min_spec runs mk active cursor None None Hc Hact Hnd ltac:(done))
    as (cursor' & w & -> & Hc' & Hsk & Htk & Hwn & Hws). cbn [mbind outcome_bind].
  pose proof (take_min_popped _ _ _ _ _ Hc Hc' Hcov Hsk Htk) as Hpop.
  apply head_of_Some in Hh as (run & Hrun & Hh).
  destruct w as [w|].
  2: { exfalso. destruct (Hwn eq_refl) as [_ Hno]. apply (Hno i (seq run) r Hi).
       apply at_key_iff; [done|]. by exists run. }
  assert (wins mk (remaining runs cursor) w) as Hwins.
  { destruct (Hws w eq_refl) as (s & [[[=] _]|(j & Hj & Hat)] & _ & Hmax).
    apply at_key_iff in Hat as (run1 & Hrun1 & Hh1 & Hk1 & ->); [|done]. split; [done|].
    exists run1. split; [by eapply list_elem_of_lookup_2|]. split; [done|].
    intros run2 r2 [l Hl]%list_elem_of_lookup Hh2 Hk2. apply (Hmax l _ r2).
    - eapply Hall. by rewrite (head_of_lookup _ _ _ _ Hl).
    - apply at_key_iff; [done|]. by exists run2. }
  destruct (IH cursor' (if rdeleted w then out else out ++ [(rkey w, rvalue w, false)]))
    as (res & -> & Hres).
  - by eapply popped_mergeable.
  - done.
  - by eapply covers_popped.
  - pose proof (popped_total _ _ _ _ Hpop Hwins). lia.
  - eexists. split; [|by eapply merge_step]. destruct (rdeleted w); [done|].
    by rewrite <- app_assoc.
Qed.

(** ** The whole merge *)

Lemma active_runs_spec runs n i :
  i ∈ active_runs runs n <->
  exists j run, i = (n + j)%nat /\ runs !! j = Some run /\ records run <> [].
Proof.
  revert n. induction runs as [|run runs IH]; intros n; cbn [active_runs].
  { split; [by intros ?%not_elem_of_nil|]. by intros (j & run & _ & ? & _). }
  assert (i ∈ active_runs runs (S n) <->
    exists j run0, i = (n + S j)%nat /\ runs !! j = Some run0 /\ records run0 <> []) as Htl.
  { rewrite IH. split; intros (j & r & -> & ? & ?); exists j, r; (split; [lia|done]). }
  destruct (is_nil (records run)) eqn:Hn.
  - apply is_nil_iff in Hn. rewrite Htl. split.
    + intros (j & r & -> & ? & ?). by exists (S j), r.
    + intros ([|j] & r & -> & Hr & ?); [simpl in Hr; by simplify_eq|]. by exists j, r.
  - apply is_nil_false in Hn. rewrite elem_of_cons, Htl. split.
    + intros [->|(j & r & -> & ? & ?)]; [exists 0%nat, run; by rewrite Nat.add_0_r|by exists (S j), r].
    + intros ([|j] & r & -> & Hr & ?); [left; lia|right]. by exists j, r.
Qed.

Lemma active_runs_NoDup runs n : NoDup (active_runs runs n).
Proof.
  revert n. induction runs as [|run runs IH]; intros n; cbn [active_runs]; [constructor|].
  destruct (is_nil _); [done|]. constructor; [|done].
  intros (j & r & Hj & _)%active_runs_spec. lia.
Qed.

Lemma remaining_start runs : remaining runs (replicate (length runs) 0%nat) = runs.
Proof.
  induction runs as [|run runs IH]; [done|]. unfold remaining. cbn [length replicate zip_with].
  f_equal; [by destruct run|exact IH].
Qed.

Lemma windows_differ_sorted l :
  StronglySorted (fun a b => id a <= id b) l -> windows_differ l = true <-> NoDup l.
Proof.
  induction 1 as [|a l Hl IH Ha]; [split; [constructor|done]|].
  destruct l as [|b l]; [split; [intros _; apply NoDup_singleton|done]|].
  cbn [windows_differ]. rewrite andb_true_iff, negb_true_iff, Z.eqb_neq, NoDup_cons.
  rewrite IH. apply Forall_cons in Ha as [Hab Ha]. apply StronglySorted_inv in Hl as [_ Hb].
  unfold id in *. split; intros [H1 H2]; (split; [|done]).
  - intros [->|Hin]%elem_of_cons; [done|]. rewrite Forall_forall in Hb. specialize (Hb _ Hin). simpl in Hb. lia.
  - intros ->. apply H1, list_elem_of_here.
Qed.

Lemma seqs_distinct_iff runs : seqs_distinct runs = true <-> NoDup (seq <$> runs).
Proof.
  unfold seqs_distinct. rewrite windows_differ_sorted by apply sort_by_key_sorted.
  by rewrite sort_by_key_Permutation.
Qed.

Lemma merge_runs_ok runs :
  mergeable runs -> exists out, merge_runs runs = Ok out /\ merged runs out.
Proof.
  intros Hmg. unfold merge_runs. rewrite (proj2 (seqs_distinct_iff runs)) by apply Hmg. cbn [negb].
  destruct (merge_loop_ok (S (total_records runs)) runs (active_runs runs 0)
    (replicate (length runs) 0%nat) []) as (res & -> & Hres); rewrite ?remaining_start in *.
  - done.
  - unfold cursors_ok. apply length_replicate.
  - split_and!; [|apply active_runs_NoDup|].
    + apply Forall_forall. intros i (j & run & -> & Hj & _)%active_runs_spec. by eapply lookup_lt_Some.
    + intros i r (run & Hi & Hh)%head_of_Some. rewrite remaining_start in Hi.
      apply active_runs_spec. exists i, run. split_and!; [done..|]. by intros Hn; rewrite Hn in Hh.
  - lia.
  - by exists res.
Qed.

(** ** Properties *)

(** C28: merging strictly ascending runs with different sequence numbers ends
    with strictly ascending live records, each taken from an input; a key is
    in the output exactly when the newest run that mentions it has a live
    record for it, and with that record's value.  Tombstones and everything
    they shadow are gone. *)
Theorem merge_correct (runs : list Run) :
  mergeable runs ->
  exists out, merge_runs runs = Ok out /\ rs_sorted out /\
    (forall r, r ∈ out -> rdeleted r = false /\ exists run, run ∈ runs /\ r ∈ records run) /\
    (forall k v, assoc k (as_assoc out) = Some (v, false) <-> newest runs k (v, false)).
Proof.
  intros Hm. destruct (merge_runs_ok runs Hm) as (out & Hrun & [H1 H2 H3]). by exists out.
Qed.

Definition sample_runs : list Run :=
  [mkRun 7 [([x61], [], true); ([x62], [x39], false)]; mkRun 3 [([x61], [x31], false); ([x63], [x33], false)]].

Lemma merge_correct_witness :
  exists out, merge_runs sample_runs = Ok out /\ rs_sorted out /\ length out = 2%nat.
Proof.
  destruct (merge_correct sample_runs) as (out & Hrun & Hs & _).
  - split; [repeat constructor|]. vm_compute. repeat constructor; set_solver.
  - exists out. split; [exact Hrun|]. split; [exact Hs|]. vm_compute in Hrun. injection Hrun as <-. reflexivity.
Defined.

(** Two runs with the same sequence number trip the assertion of a debug
    build before anything is merged, whatever their records. *)
Theorem merge_rejects_duplicates (runs : list Run) :
  ~ NoDup (seq <$> runs) -> merge_runs runs = Panic.
Proof.
  intros Hd. unfold merge_runs. destruct (seqs_distinct runs) eqn:E; [|done].
  exfalso. by apply Hd, seqs_distinct_iff.
Qed.

Lemma merge_rejects_duplicates_witness :
  ~ NoDup (seq <$> [mkRun 3 []; mkRun 3 []]) /\ merge_runs [mkRun 3 []; mkRun 3 []] = Panic.
Proof.
  assert (~ NoDup (seq <$> [mkRun 3 []; mkRun 3 []])) as Hd.
  { intros H. inversion H as [|? ? Hn _]. apply Hn. apply list_elem_of_here. }
  split; [exact Hd|]. exact (merge_rejects_duplicates [mkRun 3 []; mkRun 3 []] Hd).
Defined.
