(* ===== verification/Manifest.v ===== *)
(** * The manifest ([src/src/manifest.rs])

    Which tables exist at which level, rewritten as a whole on every commit
    through a temporary file and a rename. *)

From S2P Require Import Prelude Outcome Utils External Fs StdVec.

(** ** Definitions *)

Definition MAGIC_MANIFEST : bytes :=
  [x4c; x53; x4d; x4d; x41; x4e; x49; x46; x45; x53; x54; x30; x31].
Definition MANIFEST_FILE_NAME : string := "MANIFEST".
Definition MANIFEST_TMP_FILE_NAME : string := "MANIFEST.tmp".
Definition MAGIC_LEN : Z := 13.
Definition FIXED_HEADER_LEN : Z := 4 + 8 + 4.

Record SstMeta := mkSstMeta { level : Z; seq : Z; name : string; min : bytes; max : bytes }.

Record Manifest := mkManifest { levels : list (list SstMeta) }.

#[export] Instance SstMeta_eq_dec : EqDecision SstMeta.
Proof. solve_decision. Defined.
#[export] Instance Manifest_eq_dec : EqDecision Manifest.
Proof. solve_decision. Defined.

(** [Manifest::default()] *)
Definition default_manifest : Manifest := mkManifest [].

Definition ssts_at (m : Manifest) (level : Z) : list SstMeta :=
  default [] (levels m !! Z.to_nat level).

(** [Manifest::add] *)
Definition add (meta : SstMeta) (m : Manifest) : outcome Manifest :=
  let l := Z.to_nat (level meta) in
  let ls := if (length (levels m) <=? l)%nat then vec_grow (S l) (levels m) else levels m in
  metas ← vec_at ls l;
  let pos := partition_point (fun x => seq x <? seq meta) metas in
  metas' ← vec_insert pos meta metas;
  Ok (mkManifest (<[l := metas']> ls)).

(** [Manifest::remove] *)
Definition remove (level seq_ : Z) (m : Manifest) : Manifest * bool :=
  match levels m !! Z.to_nat level with
  | None => (m, false)
  | Some metas =>
      match position (fun x => seq x =? seq_) metas with
      | Some pos => (mkManifest (<[Z.to_nat level := vec_remove pos metas]> (levels m)), true)
      | None => (m, false)
      end
  end.

(** *** Strings: [as_bytes] and [from_utf8] *)

Definition as_bytes (s : string) : bytes := String.list_byte_of_string s.

Definition in_range (lo hi : Z) (b : byte) : bool := (lo <=? b2z b) && (b2z b <=? hi).

(** Well-formed UTF-8: one to four bytes per scalar value, no overlong form
    and no surrogate. *)
Fixpoint valid_utf8 (bs : bytes) : bool :=
  match bs with
  | [] => true
  | a :: r1 =>
      if b2z a <? 0x80 then valid_utf8 r1
      else
        match r1 with
        | [] => false
        | b :: r2 =>
            if in_range 0xC2 0xDF a then in_range 0x80 0xBF b && valid_utf8 r2
            else
              match r2 with
              | [] => false
              | c :: r3 =>
                  if in_range 0xE0 0xEF a then
                    in_range (if b2z a =? 0xE0 then 0xA0 else 0x80)
                             (if b2z a =? 0xED then 0x9F else 0xBF) b &&
                    in_range 0x80 0xBF c && valid_utf8 r3
                  else
                    match r3 with
                    | [] => false
                    | d :: r4 =>
                        in_range 0xF0 0xF4 a &&
                        in_range (if b2z a =? 0xF0 then 0x90 else 0x80)
                                 (if b2z a =? 0xF4 then 0x8F else 0xBF) b &&
                        in_range 0x80 0xBF c && in_range 0x80 0xBF d && valid_utf8 r4
                    end
              end
        end
  end.

Definition from_utf8 (bs : bytes) : option string :=
  if valid_utf8 bs then Some (String.string_of_list_byte bs) else None.

(** *** The codec *)

(** [u32::try_from(n).expect(..)] *)
Definition expect_u32 (n : Z) : outcome Z := if n <=? u32_max then Ok n else Panic.

(** One turn of the inner loop of [encode]. *)
Definition encode_meta (buf : bytes) (level : nat) (meta : SstMeta) : outcome bytes :=
  let buf := put_u32 buf (Z.of_nat level) in
  let buf := put_u64 buf (seq meta) in
  name_len ← expect_u32 (len (as_bytes (name meta)));
  let buf := put_u32 buf name_len in
  let buf := buf ++ as_bytes (name meta) in
  min_len ← expect_u32 (len (min meta));
  let buf := put_u32 buf min_len in
  let buf := buf ++ min meta in
  max_len ← expect_u32 (len (max meta));
  let buf := put_u32 buf max_len in
  Ok (buf ++ max meta).

Fixpoint encode_level (buf : bytes) (level : nat) (metas : list SstMeta) : outcome bytes :=
  match metas with
  | [] => Ok buf
  | meta :: metas => buf ← encode_meta buf level meta; encode_level buf level metas
  end.

Fixpoint encode_levels (buf : bytes) (level : nat) (ls : list (list SstMeta)) : outcome bytes :=
  match ls with
  | [] => Ok buf
  | metas :: ls => buf ← encode_level buf level metas; encode_levels buf (S level) ls
  end.

Definition encode (m : Manifest) : outcome bytes := encode_levels MAGIC_MANIFEST 0 (levels m).

Definition read_payload (bs : bytes) (offset n : Z) (what : string) : outcome (bytes * Z) :=
  match checked_add offset n with
  | None => Err (Corruption ("manifest " +:+ what +:+ " length overflows at offset " +:+ pretty offset))
  | Some end_ =>
      if len bs <? end_ then
        available ← usub (len bs) offset;
        Err (Corruption ("manifest " +:+ what +:+ " runs past end of file: declared " +:+ pretty n +:+
          " bytes, " +:+ pretty available +:+ " available"))
      else
        payload ← slice bs offset end_;
        Ok (payload, end_)
  end.

Section codec.
Context {AL : Allocator}.

(** The fields of one record. *)
Definition decode_fields (bs : bytes) (offset : Z) : outcome (SstMeta * Z) :=
  level ← read_u32 bs offset;
  offset ← uadd offset 4;
  seq ← read_u64 bs offset;
  offset ← uadd offset 8;
  name_len ← read_u32 bs offset;
  offset ← uadd offset 4;
  '(name_bytes, offset) ← read_payload bs offset name_len "sst name";
  name ← match from_utf8 name_bytes with
         | Some s => Ok s
         | None => Err (Corruption "manifest sst name is not valid utf-8")
         end;
  min_len ← read_u32 bs offset;
  offset ← uadd offset 4;
  '(min, offset) ← read_payload bs offset min_len "min key";
  max_len ← read_u32 bs offset;
  offset ← uadd offset 4;
  '(max, offset) ← read_payload bs offset max_len "max key";
  Ok (mkSstMeta level seq name min max, offset).

(** The rest of the loop body: the level is created if needed, and the new
    sequence number must be the largest of its level. *)
Definition push_meta (m : Manifest) (meta : SstMeta) : outcome Manifest :=
  let l := Z.to_nat (level meta) in
  ls ← (if len (levels m) <=? level meta then
          match checked_add (level meta) 1 with
          | None => Err (Corruption "manifest level number overflows usize")
          | Some need =>
              grow ← usub need (len (levels m));
              if reserve_ok grow then Ok (vec_grow (Z.to_nat need) (levels m))
              else Err (Corruption ("manifest level number " +:+ pretty (level meta) +:+ " too large"))
          end
        else Ok (levels m));
  level_seqs ← vec_at ls l;
  match last level_seqs with
  | Some prev =>
      if seq meta <=? seq prev then
        Err (Corruption ("manifest level " +:+ pretty (level meta) +:+ " seq out of order: " +:+
          pretty (seq meta) +:+ " after " +:+ pretty (seq prev)))
      else Ok (mkManifest (<[l := level_seqs ++ [meta]]> ls))
  | None => Ok (mkManifest (<[l := level_seqs ++ [meta]]> ls))
  end.

(** The loop of [decode]; [fuel] bounds the number of records. *)
Fixpoint decode_loop (fuel : nat) (bs : bytes) (offset : Z) (m : Manifest) : outcome Manifest :=
  match fuel with
  | O => Halt
  | S fuel =>
      if offset <? len bs then
        remaining ← usub (len bs) offset;
        if remaining <? FIXED_HEADER_LEN then
          Err (Corruption ("manifest record shorter than " +:+ pretty FIXED_HEADER_LEN +:+
            "-byte header: " +:+ pretty remaining +:+ " bytes remain"))
        else
          '(meta, offset) ← decode_fields bs offset;
          m ← push_meta m meta;
          decode_loop fuel bs offset m
      else Ok m
  end.

Definition decode (bs : bytes) : outcome Manifest :=
  if (len bs <? MAGIC_LEN) || negb (bool_decide (subslice bs 0 MAGIC_LEN = MAGIC_MANIFEST)) then
    Err (Corruption "invalid manifest magic")
  else decode_loop (S (length bs)) bs MAGIC_LEN default_manifest.

(** [load] *)
Definition load : M Fs Manifest :=
  r ← try_ (fs_read MANIFEST_FILE_NAME);
  match r with
  | inr bs => lift (decode bs)
  | inl (Io NotFound) => mret default_manifest
  | inl e => fail e
  end.
End codec.

(** [write_atomic] *)
Definition write_atomic (m : Manifest) : M Fs unit :=
  result ← try_
    (file ← file_create MANIFEST_TMP_FILE_NAME;
     _ ← scoped (bw_new file)
           (buf ← lift (encode m);
            _ ← bw_write_all buf;
            _ ← bw_flush;
            bw_sync_all)
           bw_drop;
     fs_rename MANIFEST_TMP_FILE_NAME MANIFEST_FILE_NAME);
  _ ← match result with
      | inl _ => ignore (fs_remove_file MANIFEST_TMP_FILE_NAME)
      | inr _ => mret tt
      end;
  question result.

(** ** Specification: the bytes of a manifest *)

Definition field (bs : bytes) : bytes := le_bytes 4 (len bs) ++ bs.

Definition meta_bytes (level : Z) (meta : SstMeta) : bytes :=
  le_bytes 4 level ++ le_bytes 8 (seq meta) ++
  field (as_bytes (name meta)) ++ field (min meta) ++ field (max meta).

Definition level_bytes (level : nat) (metas : list SstMeta) : bytes :=
  concat (meta_bytes (Z.of_nat level) <$> metas).

Fixpoint levels_bytes (level : nat) (ls : list (list SstMeta)) : bytes :=
  match ls with
  | [] => []
  | metas :: ls => level_bytes level metas ++ levels_bytes (S level) ls
  end.

(** Metadata whose fields fit the format, at its level. *)
Definition meta_fits (meta : SstMeta) : Prop :=
  0 <= seq meta <= u64_max /\ len (as_bytes (name meta)) <= u32_max /\
  len (min meta) <= u32_max /\ len (max meta) <= u32_max.

Definition meta_ok (l : nat) (meta : SstMeta) : Prop :=
  level meta = Z.of_nat l /\ meta_fits meta /\ valid_utf8 (as_bytes (name meta)) = true.

(** Ascending sequence numbers within a level: the order of [add]. *)
Definition level_ordered (metas : list SstMeta) : Prop :=
  StronglySorted (fun a b => seq a < seq b) metas.

Fixpoint levels_ok (l : nat) (ls : list (list SstMeta)) : Prop :=
  match ls with
  | [] => True
  | metas :: ls => Forall (meta_ok l) metas /\ level_ordered metas /\ levels_ok (S l) ls
  end.

Definition manifest_ok (m : Manifest) : Prop := levels_ok 0 (levels m).

(** The file does not tell trailing empty levels apart. *)
Fixpoint trim (ls : list (list SstMeta)) : list (list SstMeta) :=
  match ls with
  | [] => []
  | metas :: ls =>
      match trim ls, metas with
      | [], [] => []
      | ls', _ => metas :: ls'
      end
  end.

(** ** Lemmas *)

Lemma expect_u32_ok n : n <= u32_max -> expect_u32 n = Ok n.
Proof. intros H. unfold expect_u32. by rewrite (proj2 (Z.leb_le _ _)). Qed.

Lemma encode_meta_ok buf l meta :
  meta_fits meta -> encode_meta buf l meta = Ok (buf ++ meta_bytes (Z.of_nat l) meta).
Proof.
  intros (Hs & Hn & Hmin & Hmax). unfold encode_meta.
  rewrite (expect_u32_ok (len (as_bytes (name meta)))) by done. cbn [mbind outcome_bind].
  rewrite (expect_u32_ok (len (min meta))) by done. cbn [mbind outcome_bind].
  rewrite (expect_u32_ok (len (max meta))) by done. cbn [mbind outcome_bind].
  unfold put_u32, put_u64, meta_bytes, field. by rewrite <- !app_assoc.
Qed.

Lemma encode_level_ok buf l metas :
  Forall meta_fits metas -> encode_level buf l metas = Ok (buf ++ level_bytes l metas).
Proof.
  intros H. revert buf. induction H as [|meta metas Hm _ IH]; intros buf; cbn [encode_level].
  { by rewrite app_nil_r. }
  rewrite encode_meta_ok by done. cbn [mbind outcome_bind]. rewrite IH.
  unfold level_bytes. rewrite fmap_cons. cbn [concat]. by rewrite app_assoc.
Qed.

Lemma encode_levels_ok buf l ls :
  Forall (Forall meta_fits) ls -> encode_levels buf l ls = Ok (buf ++ levels_bytes l ls).
Proof.
  intros H. revert buf l. induction H as [|metas ls Hm _ IH]; intros buf l; cbn [encode_levels].
  { by rewrite app_nil_r. }
  rewrite encode_level_ok by done. cbn [mbind outcome_bind]. rewrite IH.
  cbn [levels_bytes]. by rewrite app_assoc.
Qed.

Lemma levels_ok_fits l ls : levels_ok l ls -> Forall (Forall meta_fits) ls.
Proof.
  revert l. induction ls as [|metas ls IH]; intros l; simpl; [constructor|].
  intros (Hm & _ & Hl). constructor; [|by eapply IH]. eapply Forall_impl; [exact Hm|].
  by intros meta (_ & ? & _).
Qed.

Lemma encode_ok m : manifest_ok m -> encode m = Ok (MAGIC_MANIFEST ++ levels_bytes 0 (levels m)).
Proof. intros H. unfold encode. apply encode_levels_ok. by eapply levels_ok_fits. Qed.

Lemma read_payload_at bs p m q offset n what :
  bs = p ++ m ++ q -> offset = len p -> n = len m -> len bs <= isize_max ->
  read_payload bs offset n what = Ok (m, offset + n).
Proof.
  intros Hseg -> -> Hu. assert (len bs = len p + len m + len q) as Hl by (rewrite Hseg; len_solve).
  pose proof (len_nonneg q). unfold read_payload, checked_add, isize_max, usize_max in *.
  rewrite (proj2 (Z.leb_le _ _)) by lia. rewrite (proj2 (Z.ltb_ge _ _)) by lia.
  rewrite (slice_at bs p m q) by done. done.
Qed.

Lemma from_utf8_as_bytes s : valid_utf8 (as_bytes s) = true -> from_utf8 (as_bytes s) = Some s.
Proof.
  intros H. unfold from_utf8. rewrite H. unfold as_bytes. by rewrite String.string_of_list_byte_of_string.
Qed.

Lemma len_meta_bytes l meta :
  len (meta_bytes l meta) =
    24 + len (as_bytes (name meta)) + len (min meta) + len (max meta).
Proof. unfold meta_bytes, field. len_solve. Qed.

(** *** Decoding what was encoded *)

Lemma read_field {B} bs p m q what (k : bytes -> Z -> outcome B) :
  bs = p ++ field m ++ q -> len m <= u32_max -> len bs <= isize_max ->
  (n ← read_u32 bs (len p); o ← uadd (len p) 4; '(x, o) ← read_payload bs o n what; k x o) =
    k m (len p + len (field m)).
Proof.
  intros Hseg Hm Hu. unfold field in *. rewrite <- app_assoc in Hseg.
  assert (len bs = len p + 4 + len m + len q) as Hl by (rewrite Hseg; len_solve).
  pose proof (len_nonneg p). pose proof (len_nonneg q). pose proof (len_nonneg m).
  rewrite (read_u32_at (len m) bs p (m ++ q)) by (done || (unfold usize_max, isize_max in *; lia)).
  cbn [mbind outcome_bind]. rewrite uadd_ok by (unfold usize_max, isize_max in *; lia).
  cbn [mbind outcome_bind].
  rewrite (read_payload_at bs (p ++ le_bytes 4 (len m)) m q) by (segs Hseg || len_solve || done).
  cbn [mbind outcome_bind]. f_equal. len_solve.
Qed.

Section lemmas.
Context {AL : Allocator}.

Lemma decode_fields_ok bs p l meta q :
  bs = p ++ meta_bytes (Z.of_nat l) meta ++ q -> meta_ok l meta -> Z.of_nat l <= u32_max ->
  len bs <= isize_max ->
  decode_fields bs (len p) = Ok (meta, len p + len (meta_bytes (Z.of_nat l) meta)).
Proof.
  intros Hseg (Hl & (Hs & Hn & Hmin & Hmax) & Hutf) Hlu Hu.
  pose proof (len_meta_bytes (Z.of_nat l) meta) as Hml.
  assert (len bs = len p + len (meta_bytes (Z.of_nat l) meta) + len q) as Hlen by (rewrite Hseg; len_solve).
  pose proof (len_nonneg p). pose proof (len_nonneg q). pose proof (len_nonneg (as_bytes (name meta))).
  pose proof (len_nonneg (min meta)). pose proof (len_nonneg (max meta)).
  unfold meta_bytes in Hseg. rewrite <- !app_assoc in Hseg. unfold decode_fields.
  unfold isize_max in Hu.
  rewrite (read_u32_at (Z.of_nat l) bs p _ _ Hseg) by (done || (unfold usize_max; lia)).
  cbn [mbind outcome_bind]. rewrite uadd_ok by (unfold usize_max; lia). cbn [mbind outcome_bind].
  rewrite (read_u64_at (seq meta) bs (p ++ le_bytes 4 (Z.of_nat l))
            (field (as_bytes (name meta)) ++ field (min meta) ++ field (max meta) ++ q))
    by (segs Hseg || (unfold usize_max; len_solve)).
  cbn [mbind outcome_bind]. rewrite uadd_ok by (unfold usize_max; lia). cbn [mbind outcome_bind].
  remember (p ++ le_bytes 4 (Z.of_nat l) ++ le_bytes 8 (seq meta)) as p1 eqn:Ep1.
  replace (len p + 4 + 8) with (len p1) by (rewrite Ep1; len_solve).
  rewrite (read_field bs p1 (as_bytes (name meta)) (field (min meta) ++ field (max meta) ++ q))
    by (done || (rewrite Ep1; segs Hseg)).
  rewrite from_utf8_as_bytes by done. cbn [mbind outcome_bind].
  remember (p1 ++ field (as_bytes (name meta))) as p2 eqn:Ep2.
  replace (len p1 + len _) with (len p2) by (rewrite Ep2; len_solve).
  rewrite (read_field bs p2 (min meta) (field (max meta) ++ q))
    by (done || (rewrite Ep2, Ep1; segs Hseg)).
  remember (p2 ++ field (min meta)) as p3 eqn:Ep3.
  replace (len p2 + len _) with (len p3) by (rewrite Ep3; len_solve).
  rewrite (read_field bs p3 (max meta) q) by (done || (rewrite Ep3, Ep2, Ep1; segs Hseg)).
  rewrite <- Hl. do 2 f_equal; [by destruct meta|].
  rewrite Ep3, Ep2, Ep1. unfold meta_bytes. len_solve.
Qed.

Lemma trim_snoc ls metas : metas <> [] -> trim (ls ++ [metas]) = ls ++ [metas].
Proof.
  intros H. induction ls as [|l ls IH]; simpl; [by destruct metas|]. rewrite IH.
  by destruct ls.
Qed.

Lemma trim_snoc_nil ls : trim (ls ++ [[]]) = trim ls.
Proof. induction ls as [|l ls IH]; simpl; [done|]. by rewrite IH. Qed.

Lemma trim_pad ls : trim ls ++ replicate (length ls - length (trim ls)) [] = ls.
Proof.
  induction ls as [|l ls IH]; [done|]. cbn [trim]. destruct (trim ls) as [|t ts] eqn:E.
  - simpl in IH. rewrite Nat.sub_0_r in IH. destruct l as [|x l].
    + cbn [app length]. rewrite Nat.sub_0_r. simpl. by rewrite IH.
    + simpl. by rewrite Nat.sub_0_r, IH.
  - cbn [app length]. f_equal. exact IH.
Qed.

Lemma length_trim ls : (length (trim ls) <= length ls)%nat.
Proof.
  induction ls as [|l ls IH]; [done|]. cbn [trim].
  destruct (trim ls), l; simpl in *; lia.
Qed.

(** Growing the trimmed levels restores the empty ones. *)
Lemma grow_trim ls : vec_grow (length ls) (trim ls) = ls.
Proof. unfold vec_grow. apply trim_pad. Qed.

Lemma push_meta_ok done cur meta :
  level meta = Z.of_nat (length done) -> (length done < 1024)%nat ->
  (forall x, last cur = Some x -> seq x < seq meta) ->
  push_meta (mkManifest (trim (done ++ [cur]))) meta = Ok (mkManifest (done ++ [cur ++ [meta]])).
Proof.
  intros Hl Hsm Hlast. unfold push_meta. cbn [levels]. rewrite Hl, Nat2Z.id.
  assert ((if len (trim (done ++ [cur])) <=? Z.of_nat (length done)
    then match checked_add (Z.of_nat (length done)) 1 with
         | None => Err (Corruption "manifest level number overflows usize")
         | Some need => grow ← usub need (len (trim (done ++ [cur])));
             if reserve_ok grow then Ok (vec_grow (Z.to_nat need) (trim (done ++ [cur])))
             else Err (Corruption ("manifest level number " +:+ pretty (Z.of_nat (length done)) +:+ " too large"))
         end
    else Ok (trim (done ++ [cur]))) = Ok (done ++ [cur])) as ->.
  { pose proof (length_trim (done ++ [cur])) as Hlt. rewrite length_app in Hlt. simpl in Hlt.
    destruct (Z.leb_spec (len (trim (done ++ [cur]))) (Z.of_nat (length done))) as [Hg|Hg].
    - unfold checked_add. rewrite (proj2 (Z.leb_le _ _)) by (unfold usize_max; lia).
      rewrite usub_ok by lia. cbn [mbind outcome_bind].
      rewrite reserve_small by (pose proof (len_nonneg (trim (done ++ [cur]))); lia).
      f_equal. replace (Z.to_nat (Z.of_nat (length done) + 1)) with (length (done ++ [cur]))
        by (rewrite length_app; simpl; lia). apply grow_trim.
    - f_equal. rewrite <- (trim_pad (done ++ [cur])) at 2.
      replace (_ - _)%nat with 0%nat by (rewrite length_app; unfold len in Hg; simpl; lia).
      by rewrite app_nil_r. }
  cbn [mbind outcome_bind]. rewrite (vec_at_ok _ _ cur) by (by apply list_lookup_middle).
  cbn [mbind outcome_bind].
  assert (<[length done := cur ++ [meta]]> (done ++ [cur]) = done ++ [cur ++ [meta]]) as ->.
  { rewrite <- (Nat.add_0_r (length done)). by rewrite insert_app_r. }
  destruct (last cur) as [x|]; [|done]. by rewrite (proj2 (Z.leb_gt _ _)) by (by apply Hlast).
Qed.

Lemma decode_level fuel bs p dn cur metas q :
  bs = p ++ level_bytes (length dn) metas ++ q -> Forall (meta_ok (length dn)) metas ->
  level_ordered (cur ++ metas) -> (length dn < 1024)%nat -> len bs <= isize_max ->
  decode_loop (length metas + fuel) bs (len p) (mkManifest (trim (dn ++ [cur]))) =
    decode_loop fuel bs (len p + len (level_bytes (length dn) metas))
      (mkManifest (trim (dn ++ [cur ++ metas]))).
Proof.
  intros Hseg Hok. revert p cur Hseg. induction Hok as [|meta metas Hm _ IH]; intros p cur Hseg Hord Hl Hu.
  { by rewrite app_nil_r, Z.add_0_r. }
  unfold level_bytes in Hseg |- *. rewrite fmap_cons in Hseg |- *. cbn [concat] in Hseg |- *.
  fold (level_bytes (length dn) metas) in Hseg |- *. rewrite <- app_assoc in Hseg.
  pose proof (len_meta_bytes (Z.of_nat (length dn)) meta) as Hml.
  pose proof (len_nonneg (as_bytes (name meta))). pose proof (len_nonneg (min meta)).
  pose proof (len_nonneg (max meta)). pose proof (len_nonneg q).
  pose proof (len_nonneg (level_bytes (length dn) metas)). pose proof (len_nonneg p).
  assert (len bs = len p + len (meta_bytes (Z.of_nat (length dn)) meta)
    + len (level_bytes (length dn) metas) + len q) as Hlen by (rewrite Hseg; len_solve).
  cbn [length Nat.add decode_loop]. rewrite (proj2 (Z.ltb_lt _ _)) by lia.
  rewrite usub_ok by lia. cbn [mbind outcome_bind].
  rewrite (proj2 (Z.ltb_ge _ _)) by (unfold FIXED_HEADER_LEN; lia).
  rewrite (decode_fields_ok bs p (length dn) meta _ Hseg) by (done || (unfold u32_max; lia)).
  cbn [mbind outcome_bind].
  rewrite (push_meta_ok dn cur meta) by (apply Hm || done || (intros x Hx;
    apply last_Some in Hx as [l' ->]; rewrite <- !app_assoc in Hord;
    apply StronglySorted_app in Hord as (_ & _ & Hord); apply (StronglySorted_app _ [x]) in Hord as (Hord & _ & _);
    apply Hord; apply list_elem_of_here)).
  cbn [mbind outcome_bind].
  rewrite <- (trim_snoc dn (cur ++ [meta])) by (by destruct cur).
  rewrite <- len_app. rewrite (IH (p ++ meta_bytes (Z.of_nat (length dn)) meta) (cur ++ [meta])).
  - rewrite <- app_assoc. cbn [app]. f_equal. rewrite !len_app. lia.
  - segs Hseg.
  - rewrite <- app_assoc. exact Hord.
  - done.
  - done.
Qed.

Definition count_metas (ls : list (list SstMeta)) : nat := sum_list (length <$> ls).

Lemma decode_levels fuel bs p dn ls :
  bs = p ++ levels_bytes (length dn) ls -> levels_ok (length dn) ls ->
  (length dn + length ls <= 1024)%nat -> len bs <= isize_max ->
  decode_loop (count_metas ls + S fuel) bs (len p) (mkManifest (trim dn)) =
    Ok (mkManifest (trim (dn ++ ls))).
Proof.
  revert p dn. induction ls as [|metas ls IH]; intros p dn Hseg Hok Hn Hu.
  { cbn [count_metas sum_list fmap list_fmap length foldr Nat.add decode_loop].
    rewrite Hseg. cbn [levels_bytes]. rewrite !app_nil_r, Z.ltb_irrefl. done. }
  destruct Hok as (Hm & Hord & Hok). cbn [levels_bytes] in Hseg. simpl in Hn.
  unfold count_metas. rewrite fmap_cons. cbn [sum_list foldr].
  fold (count_metas ls). change (sum_list (length <$> ls)) with (count_metas ls).
  rewrite <- Nat.add_assoc. rewrite <- (trim_snoc_nil dn).
  rewrite (decode_level _ bs p dn [] metas (levels_bytes (S (length dn)) ls)) by (done || lia).
  cbn [app]. rewrite <- len_app.
  assert (S (length dn) = length (dn ++ [metas])) as Hlen by (rewrite length_app; simpl; lia).
  rewrite (IH _ (dn ++ [metas])); rewrite <- ?Hlen; try done; [|rewrite Hseg; assoc_refl|lia].
  by rewrite <- app_assoc.
Qed.

Lemma length_level_bytes l metas : (length metas <= length (level_bytes l metas))%nat.
Proof.
  unfold level_bytes. induction metas as [|meta metas IH]; [done|].
  rewrite fmap_cons. cbn [concat]. rewrite length_app. simpl.
  pose proof (len_meta_bytes (Z.of_nat l) meta) as H. unfold len in H. lia.
Qed.

Lemma count_levels_bytes l ls : (count_metas ls <= length (levels_bytes l ls))%nat.
Proof.
  revert l. induction ls as [|metas ls IH]; intros l; [done|]. cbn [levels_bytes].
  unfold count_metas. rewrite fmap_cons. cbn [sum_list foldr]. rewrite length_app.
  pose proof (length_level_bytes l metas). specialize (IH (S l)). unfold count_metas in IH. simpl in *. lia.
Qed.

(** The bytes of a well-formed manifest decode to it. *)
Lemma decode_bytes m :
  manifest_ok m -> (length (levels m) <= 1024)%nat ->
  len (MAGIC_MANIFEST ++ levels_bytes 0 (levels m)) <= isize_max ->
  decode (MAGIC_MANIFEST ++ levels_bytes 0 (levels m)) = Ok (mkManifest (trim (levels m))).
Proof.
  intros Hok Hn Hu. unfold decode, default_manifest.
  change (len (MAGIC_MANIFEST ++ levels_bytes 0 (levels m)) <? MAGIC_LEN) with
    (len (MAGIC_MANIFEST ++ levels_bytes 0 (levels m)) <? len MAGIC_MANIFEST).
  rewrite (proj2 (Z.ltb_ge _ _)) by (rewrite len_app; pose proof (len_nonneg (levels_bytes 0 (levels m))); lia).
  change MAGIC_LEN with (len MAGIC_MANIFEST).
  assert (subslice (MAGIC_MANIFEST ++ levels_bytes 0 (levels m)) 0 (len MAGIC_MANIFEST) = MAGIC_MANIFEST)
    as -> by (by apply (subslice_app_mid [] MAGIC_MANIFEST)).
  rewrite bool_decide_true by done. cbn [orb negb].
  pose proof (count_levels_bytes 0 (levels m)) as Hc.
  replace (S (length (MAGIC_MANIFEST ++ levels_bytes 0 (levels m)))) with
    (count_metas (levels m) + S (length (MAGIC_MANIFEST ++ levels_bytes 0 (levels m)) - count_metas (levels m)))%nat
    by (rewrite length_app in *; lia).
  by apply (decode_levels _ _ MAGIC_MANIFEST [] (levels m)).
Qed.
End lemmas.

(** *** Levels by position *)

Lemma levels_ok_lookup l ls :
  levels_ok l ls <->
  forall i metas, ls !! i = Some metas -> Forall (meta_ok (l + i)) metas /\ level_ordered metas.
Proof.
  revert l. induction ls as [|metas0 ls IH]; intros l; [split; [by intros _ [|i]|done]|].
  cbn [levels_ok]. rewrite IH. split.
  - intros (H1 & H2 & H3) [|i] metas Hi; [simpl in Hi; simplify_eq; by rewrite Nat.add_0_r|].
    rewrite <- Nat.add_succ_comm. by apply H3.
  - intros H. split_and!; [by destruct (H 0%nat metas0 eq_refl) as [H1 _]; rewrite Nat.add_0_r in H1
      |by destruct (H 0%nat metas0 eq_refl)|].
    intros i metas Hi. rewrite Nat.add_succ_comm. by apply (H (S i)).
Qed.

Lemma manifest_ok_lookup m :
  manifest_ok m <->
  forall i metas, levels m !! i = Some metas -> Forall (meta_ok i) metas /\ level_ordered metas.
Proof. unfold manifest_ok. by rewrite levels_ok_lookup. Qed.

Lemma vec_grow_lookup {A} n (ls : list (list A)) i :
  vec_grow n ls !! i = match ls !! i with
                       | Some l => Some l
                       | None => if decide (i < n)%nat then Some [] else None
                       end.
Proof.
  unfold vec_grow. destruct (ls !! i) as [l|] eqn:E.
  - by apply lookup_app_l_Some.
  - apply lookup_ge_None in E. rewrite lookup_app_r by done. case_decide.
    + rewrite lookup_replicate_2; [done|lia].
    + apply lookup_ge_None. rewrite length_replicate. lia.
Qed.

Lemma grow_ok n m : manifest_ok m -> manifest_ok (mkManifest (vec_grow n (levels m))).
Proof.
  rewrite !manifest_ok_lookup. cbn [levels]. intros H i metas. rewrite vec_grow_lookup.
  destruct (levels m !! i) as [l|] eqn:E; [intros [= <-]; by apply H|].
  case_decide; [intros [= <-]|done]. by repeat constructor.
Qed.

Lemma insert_level_ok m l metas :
  manifest_ok m -> Forall (meta_ok l) metas -> level_ordered metas ->
  manifest_ok (mkManifest (<[l := metas]> (levels m))).
Proof.
  rewrite !manifest_ok_lookup. cbn [levels]. intros H Hm Ho i ms.
  destruct (decide (i = l)) as [->|Hne].
  - intros Hi. pose proof (lookup_lt_Some _ _ _ Hi) as Hl. rewrite length_insert in Hl.
    rewrite list_lookup_insert_eq in Hi by done. by simplify_eq.
  - rewrite list_lookup_insert_ne by done. apply H.
Qed.

Lemma level_ordered_app l1 l2 :
  level_ordered (l1 ++ l2) <->
  level_ordered l1 /\ level_ordered l2 /\ forall a b, a ∈ l1 -> b ∈ l2 -> seq a < seq b.
Proof.
  unfold level_ordered. split.
  - intros (H & H1 & H2)%StronglySorted_app. done.
  - intros (H1 & H2 & H). by apply StronglySorted_app.
Qed.

(** [add] keeps a manifest well formed, and adds exactly its argument. *)
Lemma manifest_add_ok meta m :
  manifest_ok m -> 0 <= level meta -> meta_ok (Z.to_nat (level meta)) meta ->
  (forall x, x ∈ ssts_at m (level meta) -> seq x <> seq meta) ->
  exists m', add meta m = Ok m' /\ manifest_ok m' /\
    length (levels m') = Nat.max (length (levels m)) (S (Z.to_nat (level meta))) /\
    exists l1 l2, ssts_at m (level meta) = l1 ++ l2 /\ ssts_at m' (level meta) = l1 ++ meta :: l2 /\
      Forall (fun x => seq x < seq meta) l1 /\ Forall (fun x => seq meta < seq x) l2 /\
      forall l, 0 <= l -> l <> level meta -> ssts_at m' l = ssts_at m l.
Proof.
  intros Hok Hl0 Hmeta Hfresh. unfold add. remember (Z.to_nat (level meta)) as l eqn:El.
  assert (exists ls, (if (length (levels m) <=? l)%nat then vec_grow (S l) (levels m) else levels m) = ls /\
    manifest_ok (mkManifest ls) /\ length ls = Nat.max (length (levels m)) (S l) /\
    forall i, default [] (ls !! i) = default [] (levels m !! i)) as (ls & -> & Hls & Hlen & Hsame).
  { destruct (Nat.leb_spec (length (levels m)) l) as [Hle|Hgt].
    - eexists. split; [done|]. split_and!; [by apply grow_ok| |].
      + unfold vec_grow. rewrite length_app, length_replicate. lia.
      + intros i. rewrite vec_grow_lookup. destruct (levels m !! i); [done|]. by case_decide.
    - eexists. split; [done|]. split_and!; [by destruct m|lia|done]. }
  destruct (lookup_lt_is_Some_2 ls l) as [metas Hmetas]; [lia|].
  rewrite (vec_at_ok _ _ _ Hmetas). cbn [mbind outcome_bind].
  assert (ssts_at m (level meta) = metas) as Hat
    by (unfold ssts_at; rewrite <- El, <- Hsame, Hmetas; done).
  rewrite Hat in *. pose proof (proj1 (manifest_ok_lookup _) Hls l metas Hmetas) as [Hmok Hord].
  destruct (partitioned_filter (fun x => seq x <? seq meta) metas) as (l1 & l2 & -> & [H1 H2]).
  { eapply StronglySorted_impl; [|exact Hord]. simpl. intros a b Hab. rewrite !Z.ltb_lt. lia. }
  rewrite partition_point_spec by done. rewrite vec_insert_app. cbn [mbind outcome_bind].
  assert (Forall (fun x => seq x < seq meta) l1) as H1'
    by (eapply Forall_impl; [exact H1|]; intros x; apply Z.ltb_lt).
  assert (Forall (fun x => seq meta < seq x) l2) as H2'.
  { apply Forall_forall. intros x Hx. rewrite Forall_forall in H2. specialize (H2 x Hx).
    apply Z.ltb_ge in H2. assert (seq x <> seq meta) by (apply Hfresh; by apply elem_of_app; right). lia. }
  eexists. split; [done|]. split.
  { apply (insert_level_ok (mkManifest ls)); [done| |].
    - apply Forall_app in Hmok as [? ?]. apply Forall_app. by split; [|constructor].
    - apply level_ordered_app in Hord as (Ho1 & Ho2 & Ho12). apply level_ordered_app. split_and!; [done| |].
      + by constructor.
      + rewrite Forall_forall in H1'. intros a b Ha [->|Hb]%elem_of_cons; [by apply H1'|by apply Ho12]. }
  cbn [levels]. rewrite length_insert. split; [done|]. exists l1, l2. split_and!; try done.
  - unfold ssts_at. cbn [levels]. rewrite <- El, list_lookup_insert_eq; [done|]. by eapply lookup_lt_Some.
  - intros l' Hl' Hne. unfold ssts_at. cbn [levels].
    rewrite list_lookup_insert_ne by (rewrite El; lia). apply Hsame.
Qed.

(** *** Arbitrary bytes *)

Section safety.
Context {AL : Allocator}.

Lemma read_payload_ends bs offset n what :
  len bs <= isize_max -> 0 <= offset <= len bs -> 0 <= n ->
  ends (read_payload bs offset n what)
    (fun '(p, o) => len p = n /\ o = offset + n /\ o <= len bs).
Proof.
  intros Hu Ho Hn. unfold read_payload, checked_add. destruct (_ <=? _); [|done].
  destruct (Z.ltb_spec (len bs) (offset + n)).
  - rewrite usub_ok by lia. done.
  - rewrite slice_ok by lia. cbn [mbind outcome_bind ends]. rewrite len_subslice by lia. lia.
Qed.

Lemma uadd_ends a b (Q : Z -> Prop) : a + b <= usize_max -> Q (a + b) -> ends (uadd a b) Q.
Proof. intros H HQ. by rewrite uadd_ok. Qed.

Lemma read_u32_bound bs o :
  0 <= o -> ends (read_u32 bs o) (fun z => 0 <= z <= u32_max /\ o + 4 <= len bs).
Proof.
  intros Ho. destruct (read_u32 bs o) as [z|e| |] eqn:E; [|done|..].
  - pose proof (read_u32_ends bs o Ho) as Hz. rewrite E in Hz. split; [exact Hz|].
    rewrite read_u32_le in E. apply read_le_inv in E as (p & q & -> & Hp & _).
    len_simpl. pose proof (len_nonneg q). lia.
  - pose proof (read_u32_ends bs o Ho) as Hz. by rewrite E in Hz.
  - pose proof (read_u32_ends bs o Ho) as Hz. by rewrite E in Hz.
Qed.

Lemma decode_fields_ends bs offset :
  len bs <= isize_max -> 0 <= offset -> offset + FIXED_HEADER_LEN <= len bs ->
  ends (decode_fields bs offset) (fun '(meta, o) =>
    0 <= level meta <= u32_max /\ meta_fits meta /\ valid_utf8 (as_bytes (name meta)) = true /\
    offset < o <= len bs).
Proof.
  intros Hu Ho Hh. unfold FIXED_HEADER_LEN in Hh. unfold decode_fields.
  assert (len bs <= usize_max) as Hu' by (unfold isize_max, usize_max in *; lia).
  eapply ends_bind; [by apply read_u32_ends|]. intros lv Hlv. simpl in Hlv.
  rewrite uadd_ok by lia. cbn [mbind outcome_bind].
  eapply ends_bind; [apply read_u64_ends; lia|]. intros sq Hsq. simpl in Hsq.
  rewrite uadd_ok by lia. cbn [mbind outcome_bind].
  eapply ends_bind; [apply read_u32_ends; lia|]. intros nl Hnl. simpl in Hnl.
  rewrite uadd_ok by lia. cbn [mbind outcome_bind].
  eapply ends_bind; [apply read_payload_ends; lia|]. intros [nb o1] (Hnb & -> & Ho1).
  unfold from_utf8. destruct (valid_utf8 nb) eqn:Hutf; [|done]. cbn [mbind outcome_bind].
  eapply ends_bind; [apply read_u32_bound; lia|]. intros ml [Hml Hml']. 
  rewrite uadd_ok by lia. cbn [mbind outcome_bind].
  eapply ends_bind; [apply read_payload_ends; lia|]. intros [mn o2] (Hmn & -> & Ho2).
  eapply ends_bind; [apply read_u32_bound; lia|]. intros xl [Hxl Hxl'].
  rewrite uadd_ok by lia. cbn [mbind outcome_bind].
  eapply ends_bind; [apply read_payload_ends; lia|]. intros [mx o3] (Hmx & -> & Ho3).
  cbn [ends level name]. unfold meta_fits, as_bytes. cbn [seq name min max].
  rewrite String.list_byte_of_string_of_list_byte. split_and!; (done || lia).
Qed.

Lemma push_meta_ends m meta :
  manifest_ok m -> 0 <= level meta <= u32_max -> meta_fits meta ->
  valid_utf8 (as_bytes (name meta)) = true -> ends (push_meta m meta) manifest_ok.
Proof.
  intros Hok Hl Hfit Hutf. unfold push_meta.
  eapply ends_bind with (P := fun ls => manifest_ok (mkManifest ls) /\ (Z.to_nat (level meta) < length ls)%nat).
  { destruct (Z.leb_spec (len (levels m)) (level meta)) as [Hg|Hg].
    - unfold checked_add. rewrite (proj2 (Z.leb_le _ _)) by (unfold u32_max, usize_max in *; lia).
      rewrite usub_ok by lia. cbn [mbind outcome_bind]. destruct (reserve_ok _); [|done].
      split; [by apply grow_ok|]. unfold vec_grow. rewrite length_app, length_replicate. lia.
    - split; [by destruct m|]. unfold len in Hg. lia. }
  intros ls [Hls Hlt]. destruct (lookup_lt_is_Some_2 _ _ Hlt) as [metas Hm].
  rewrite (vec_at_ok _ _ _ Hm). cbn [mbind outcome_bind].
  pose proof (proj1 (manifest_ok_lookup _) Hls _ _ Hm) as [Hmok Hord].
  assert (meta_ok (Z.to_nat (level meta)) meta) as Hnew by (split_and!; [lia|done..]).
  assert ((forall x, x ∈ metas -> seq x < seq meta) ->
    manifest_ok (mkManifest (<[Z.to_nat (level meta) := metas ++ [meta]]> ls))) as Hins.
  { intros Hlt'. apply (insert_level_ok (mkManifest ls)); [done| |].
    - apply Forall_app. by split; [|constructor].
    - apply level_ordered_app. split_and!; [done|by repeat constructor|].
      intros a b Ha ->%list_elem_of_singleton. by apply Hlt'. }
  destruct (last metas) as [prev|] eqn:Hlast.
  - destruct (Z.leb_spec (seq meta) (seq prev)); [done|]. apply Hins.
    apply last_Some in Hlast as [l' ->]. intros x [Hx| ->%list_elem_of_singleton]%elem_of_app; [|done].
    apply level_ordered_app in Hord as (_ & _ & Hord).
    specialize (Hord x prev Hx ltac:(apply list_elem_of_here)). lia.
  - apply last_None in Hlast as ->. apply Hins. by intros x ?%not_elem_of_nil.
Qed.

Lemma decode_loop_ends fuel bs offset m :
  len bs <= isize_max -> 0 <= offset <= len bs -> len bs - offset < Z.of_nat fuel -> manifest_ok m ->
  ends (decode_loop fuel bs offset m) manifest_ok.
Proof.
  revert offset m. induction fuel as [|fuel IH]; intros offset m Hu Ho Hfuel Hm; [lia|].
  cbn [decode_loop]. destruct (Z.ltb_spec offset (len bs)); [|done].
  rewrite usub_ok by lia. cbn [mbind outcome_bind].
  destruct (Z.ltb_spec (len bs - offset) FIXED_HEADER_LEN); [done|].
  eapply ends_bind; [apply decode_fields_ends; (done || lia)|]. intros [meta o] (H1 & H2 & H3 & H4).
  eapply ends_bind; [by apply push_meta_ends|]. intros m' Hm'. apply IH; (done || lia).
Qed.

(** Whatever the bytes, decoding ends in an error or in a manifest whose
    levels are in the engine's order. *)
Lemma decode_ends bs : len bs <= isize_max -> ends (decode bs) manifest_ok.
Proof.
  intros Hu. unfold decode. destruct (Z.ltb_spec (len bs) MAGIC_LEN) as [|Hl]; [done|].
  destruct (negb _); [done|]. cbn [orb]. unfold MAGIC_LEN in *.
  apply decode_loop_ends; [done|lia| |by apply manifest_ok_lookup].
  unfold len in *. lia.
Qed.
End safety.

(** ** The commit *)

Definition manifest_bytes (m : Manifest) : bytes := MAGIC_MANIFEST ++ levels_bytes 0 (levels m).

(** Whatever happens, only the temporary file is touched; when all calls
    succeed it holds the whole manifest, durably. *)
Lemma write_body_any m ino fs :
  manifest_ok m -> data_of fs ino = [] ->
  exists o fs', scoped (bw_new ino)
      (buf ← lift (encode m); _ ← bw_write_all buf; _ ← bw_flush; bw_sync_all) bw_drop fs = (o, fs') /\
    frames ino fs fs' /\
    (o = Ok tt -> inode_of fs' ino = mkInode (manifest_bytes m) (length (manifest_bytes m))).
Proof.
  intros Hok Hd. unfold scoped. rewrite (lift_bind_ok _ _ _ _ (encode_ok m Hok)).
  fold (manifest_bytes m).
  assert (exists o fs1 w1,
    (_ ← bw_write_all (manifest_bytes m); _ ← bw_flush; bw_sync_all) (fs, bw_new ino) = (o, (fs1, w1)) /\
    bw_file w1 = ino /\ frames ino fs fs1 /\
    (o = Ok tt -> bw_buf w1 = [] /\
      inode_of fs1 ino = mkInode (manifest_bytes m) (length (manifest_bytes m))))
    as (o & fs1 & w1 & -> & Hw1 & Hf1 & Hok1).
  { destruct (bw_write_all_any fs (bw_new ino) (manifest_bytes m)) as (o1 & fs1 & w1 & H1 & W1 & F1 & K1).
    unfold mbind, M_bind. rewrite H1. destruct o1 as [[]|e| |]; try (eexists _, _, _; by split_and!).
    specialize (K1 eq_refl). cbn [bw_new bw_file] in *.
    unfold bw_flush. destruct (bw_flush_buf_any fs1 w1) as (o2 & fs2 & w2 & H2 & W2 & F2 & K2). rewrite H2.
    rewrite W1 in *. assert (frames ino fs fs2) by (by eapply frames_trans).
    destruct o2 as [[]|e| |]; try (eexists _, _, _; by split_and!). destruct (K2 eq_refl) as [B2 D2].
    destruct (bw_sync_all_any fs2 w2) as (o3 & fs3 & H3 & F3 & K3). rewrite H3. rewrite W2 in *.
    eexists _, _, _. split; [done|]. split; [done|]. split; [by eapply frames_trans|].
    intros Ho. split; [done|]. rewrite (K3 Ho), D2, K1. unfold bw_log. cbn [bw_new bw_file bw_buf].
    by rewrite Hd. }
  destruct (bw_drop_any fs1 w1) as (o2 & fs2 & w2 & H2 & F2 & K2). rewrite Hw1 in *.
  assert (frames ino fs fs2) as Hf2 by (by eapply frames_trans).
  destruct o as [[]|e| |].
  - destruct (Hok1 eq_refl) as [Hb Hi]. destruct (K2 Hb) as [-> ->]. rewrite H2. by eexists _, _.
  - rewrite H2. destruct o2 as [[]|e2| |]; eexists _, _; by split_and!.
  - rewrite H2. destruct o2 as [[]|e2| |]; eexists _, _; by split_and!.
  - eexists _, _. by split_and!.
Qed.

(** A file is as it was. *)
Definition kept (name : string) (fs fs' : Fs) : Prop :=
  dirents fs' !! name = dirents fs !! name /\
  forall i, dirents fs !! name = Some i -> inode_of fs' i = inode_of fs i.

(** The manifest's name refers to the new one, which is durable; the bytes of
    the old one, still reachable should the rename be lost, are as they were. *)
Definition replaced (m : Manifest) (fs fs' : Fs) : Prop :=
  (exists i, dirents fs' !! MANIFEST_FILE_NAME = Some i /\
    inode_of fs' i = mkInode (manifest_bytes m) (length (manifest_bytes m))) /\
  forall i, dirents fs !! MANIFEST_FILE_NAME = Some i -> inode_of fs' i = inode_of fs i.

Lemma tmp_ne_final : MANIFEST_TMP_FILE_NAME <> MANIFEST_FILE_NAME.
Proof. done. Qed.

Lemma kept_dirents name fs fs' :
  inodes fs' = inodes fs -> dirents fs' !! name = dirents fs !! name -> kept name fs fs'.
Proof. intros Hi Hd. split; [done|]. intros i _. unfold inode_of. by rewrite Hi. Qed.

Lemma kept_trans name fs1 fs2 fs3 : kept name fs1 fs2 -> kept name fs2 fs3 -> kept name fs1 fs3.
Proof.
  intros [D1 I1] [D2 I2]. split; [congruence|]. intros i Hi. rewrite I2, I1 by congruence. done.
Qed.

(** The closure of [write_atomic], under any faults. *)
Lemma commit_any m fs :
  manifest_ok m -> fs_wf fs ->
  exists o fs',
    (file ← file_create MANIFEST_TMP_FILE_NAME;
     _ ← scoped (bw_new file)
           (buf ← lift (encode m); _ ← bw_write_all buf; _ ← bw_flush; bw_sync_all) bw_drop;
     fs_rename MANIFEST_TMP_FILE_NAME MANIFEST_FILE_NAME) fs = (o, fs') /\
    (forall n, n <> MANIFEST_TMP_FILE_NAME -> n <> MANIFEST_FILE_NAME -> kept n fs fs') /\
    match o with
    | Ok _ => replaced m fs fs'
    | _ => kept MANIFEST_FILE_NAME fs fs'
    end.
Proof.
  intros Hok Hwf.
  destruct (file_create_any MANIFEST_TMP_FILE_NAME fs Hwf) as (o1 & fs1 & H1 & K1).
  destruct o1 as [ino|e| |];
    [|destruct K1 as [l ->]; run_stop H1; eexists _, _;
      split; [done|]; split; [intros; by apply kept_dirents|by apply kept_dirents]..].
  rewrite (M_bind_ok _ _ _ _ _ H1).
  pose proof K1 as (D1 & E1 & _ & _ & I1).
  destruct (write_body_any m ino fs1 Hok E1) as (o2 & fs2 & H2 & (D2 & _ & I2) & K2).
  assert (forall n, n <> MANIFEST_TMP_FILE_NAME -> kept n fs fs2) as Hkept.
  { intros n Hn. split; [by rewrite D2, D1, lookup_insert_ne|]. intros i Hi.
    assert (i <> ino) by (by eapply created_inode). by rewrite I2, I1. }
  pose proof tmp_ne_final as Hne.
  destruct o2 as [[]|e| |];
    [|run_stop H2; eexists _, _;
      split; [done|]; split; [intros n Hn _; by apply Hkept|by apply Hkept]..].
  rewrite (M_bind_ok _ _ _ _ _ H2).
  destruct (fs_rename_any MANIFEST_TMP_FILE_NAME MANIFEST_FILE_NAME fs2) as (o3 & fs3 & -> & K3).
  eexists o3, fs3. split; [done|].
  destruct o3 as [[]|e| |];
    [|destruct K3 as [l ->]; split;
      [intros n Hn _; by apply Hkept|by apply Hkept]..].
  destruct K3 as (ino' & l & Hino' & ->).
  rewrite D2, D1, lookup_insert_eq in Hino'. injection Hino' as <-. split.
  - intros n Hn1 Hn2. destruct (Hkept n Hn1) as [Hd Hi]. split; [|exact Hi].
    cbn. by rewrite lookup_insert_ne, lookup_delete_ne.
  - split; [exists ino; split; [cbn; by rewrite lookup_insert_eq|by apply K2]|].
    destruct (Hkept MANIFEST_FILE_NAME) as [_ Hi]; [done|exact Hi].
Qed.

Lemma write_atomic_any m fs :
  manifest_ok m -> fs_wf fs ->
  exists o fs', write_atomic m fs = (o, fs') /\
    (forall n, n <> MANIFEST_TMP_FILE_NAME -> n <> MANIFEST_FILE_NAME -> kept n fs fs') /\
    match o with
    | Ok _ => replaced m fs fs'
    | _ => kept MANIFEST_FILE_NAME fs fs'
    end.
Proof.
  intros Hok Hwf. destruct (commit_any m fs Hok Hwf) as (o1 & fs1 & H1 & K1 & R1).
  unfold write_atomic. unfold try_ at 1, mbind at 1, M_bind at 1. rewrite H1.
  destruct o1 as [[]|e| |]; try (eexists _, _; by split_and!).
  destruct (fs_remove_any MANIFEST_TMP_FILE_NAME fs1) as (o2 & fs2 & H2 & Hi & _ & Hd).
  assert (forall n, n <> MANIFEST_TMP_FILE_NAME -> kept n fs1 fs2) as Hkept.
  { intros n Hn. apply kept_dirents; [done|]. destruct Hd as [->| ->]; [done|].
    by rewrite lookup_delete_ne. }
  pose proof tmp_ne_final as Hne. unfold ignore, try_, mbind, M_bind. rewrite H2.
  destruct o2 as [[]|e2| |]; eexists _, _; (split; [done|]); (split;
    [intros n Hn1 Hn2; eapply kept_trans; [by apply K1|by apply Hkept]
    |eapply kept_trans; [done|by apply Hkept]]).
Qed.

(** A fault-free commit: the manifest is replaced, the temporary name is gone,
    every other name and every other open handle is as before. *)
Lemma write_atomic_ok m fs :
  faults fs = [] -> fs_wf fs -> manifest_ok m ->
  exists fs', write_atomic m fs = (Ok tt, fs') /\ faults fs' = [] /\ fs_wf fs' /\
    file_of fs' MANIFEST_FILE_NAME = Some (manifest_bytes m) /\
    dirents fs' !! MANIFEST_TMP_FILE_NAME = None /\
    (forall n, n <> MANIFEST_TMP_FILE_NAME -> n <> MANIFEST_FILE_NAME ->
      dirents fs' !! n = dirents fs !! n) /\
    (forall i, (i < next_ino fs)%nat -> dirents fs !! MANIFEST_TMP_FILE_NAME <> Some i ->
      inode_of fs' i = inode_of fs i) /\
    (next_ino fs <= next_ino fs')%nat /\
    exists ino, dirents fs' !! MANIFEST_FILE_NAME = Some ino /\
      (dirents fs !! MANIFEST_TMP_FILE_NAME = Some ino \/ (next_ino fs <= ino)%nat).
Proof.
  intros Hf Hwf Hok. destruct (file_create_ok MANIFEST_TMP_FILE_NAME fs Hf Hwf) as (ino & fs1 & H1 & W1).
  pose proof (encode_ok m Hok) as He. fold (manifest_bytes m) in He.
  assert (exists fs2, scoped (bw_new ino)
      (buf ← lift (encode m); _ ← bw_write_all buf; _ ← bw_flush; bw_sync_all) bw_drop fs1 = (Ok tt, fs2) /\
    wrote MANIFEST_TMP_FILE_NAME ino (manifest_bytes m) fs fs2) as (fs2 & H2 & W2).
  { unfold scoped. rewrite (lift_bind_ok _ _ _ _ He).
    destruct (bw_write_all_ok fs1 (bw_new ino) (manifest_bytes m) ltac:(apply W1)) as (f2 & w2 & A2 & B2 & T2 & L2).
    destruct (bw_flush_buf_ok f2 w2 (touches_faults _ _ _ T2)) as (f3 & A3 & T3 & D3).
    destruct (bw_sync_all_ok f3 (mkBufWriter (bw_file w2) []) (touches_faults _ _ _ T3)) as (f4 & A4 & T4 & I4).
    destruct (bw_flush_buf_ok f4 (mkBufWriter (bw_file w2) []) (touches_faults _ _ _ T4)) as (f5 & A5 & T5 & D5).
    rewrite (M_bind_ok _ _ _ _ _ A2). unfold bw_flush. rewrite (M_bind_ok _ _ _ _ _ A3), A4.
    unfold bw_drop. rewrite (ignore_ok _ _ _ _ A5). exists f5. split; [done|].
    cbn [bw_new bw_file bw_buf] in *. rewrite B2 in *.
    eapply wrote_touch; [exact W1| |].
    - do 3 (eapply touches_trans; [eassumption|]). done.
    - rewrite D5. unfold bw_log. cbn [bw_file bw_buf]. rewrite app_nil_r. unfold data_of.
      rewrite I4. cbn [content]. rewrite D3, L2. unfold bw_log. cbn [bw_new bw_file bw_buf].
      by rewrite (wr_data _ _ _ _ _ W1). }
  pose proof W2 as [D2 C2 I2 O2 N2 F2]. pose proof (wrote_wf _ _ _ _ _ W2 Hwf) as Hwf2.
  assert (dirents fs2 !! MANIFEST_TMP_FILE_NAME = Some ino) as Htmp by (by rewrite D2, lookup_insert_eq).
  pose proof (fs_rename_ok _ MANIFEST_FILE_NAME _ _ F2 Htmp) as H3.
  eexists. split.
  { unfold write_atomic. rewrite (M_bind_ok _ _ _ (inr tt) (set_dirents (<[MANIFEST_FILE_NAME := ino]>
      (delete MANIFEST_TMP_FILE_NAME (dirents fs2))) fs2)); [done|].
    apply try_ok. by rewrite (M_bind_ok _ _ _ _ _ H1), (M_bind_ok _ _ _ _ _ H2). }
  pose proof tmp_ne_final as Hne. split; [done|]. split; [by apply rename_wf|]. split_and!.
  - rewrite (rename_file_of _ _ _ _ _ Htmp), decide_True by done. by rewrite <- C2.
  - cbn. rewrite lookup_insert_ne by done. by rewrite lookup_delete_eq.
  - intros n Hn1 Hn2. cbn. by rewrite lookup_insert_ne, lookup_delete_ne, D2, lookup_insert_ne.
  - intros i Hi Hd. unfold inode_of. cbn. apply O2. intros ->.
    destruct I2 as [I2|[_ ->]]; [done|lia].
  - cbn. rewrite N2. lia.
  - exists ino. split; [by cbn; rewrite lookup_insert_eq|]. destruct I2 as [I2|[_ ->]]; [by left|by right].
Qed.

(** ** Building a manifest in order *)

Lemma trim_prefix ls i x : trim ls !! i = Some x -> ls !! i = Some x.
Proof. intros H. rewrite <- (trim_pad ls). by apply lookup_app_l_Some. Qed.

Lemma trim_idem ls : trim (trim ls) = trim ls.
Proof.
  induction ls as [|l ls IH]; [done|]. cbn [trim].
  destruct (trim ls) as [|t ts] eqn:E; [by destruct l|]. cbn [trim] in *.
  destruct (trim ts), t; simplify_eq; by rewrite ?H.
Qed.

Lemma trim_ok ls : manifest_ok (mkManifest ls) -> manifest_ok (mkManifest (trim ls)).
Proof. rewrite !manifest_ok_lookup. cbn. intros H i x Hi. apply H. by apply trim_prefix. Qed.

(** [add] of a newer table appends it to its level. *)
Lemma add_append dn cur x :
  level x = Z.of_nat (length dn) -> Forall (fun y => seq y < seq x) cur ->
  add x (mkManifest (trim (dn ++ [cur]))) = Ok (mkManifest (dn ++ [cur ++ [x]])).
Proof.
  intros Hl Hlt. unfold add. cbn [levels]. rewrite Hl, Nat2Z.id.
  assert ((if (length (trim (dn ++ [cur])) <=? length dn)%nat
           then vec_grow (S (length dn)) (trim (dn ++ [cur])) else trim (dn ++ [cur])) = dn ++ [cur]) as ->.
  { pose proof (length_trim (dn ++ [cur])) as Hle. rewrite length_app in Hle. simpl in Hle.
    destruct (Nat.leb_spec (length (trim (dn ++ [cur]))) (length dn)).
    - replace (S (length dn)) with (length (dn ++ [cur])) by (rewrite length_app; simpl; lia). apply grow_trim.
    - rewrite <- (trim_pad (dn ++ [cur])) at 2.
      replace (_ - _)%nat with 0%nat by (rewrite length_app; simpl; lia). by rewrite app_nil_r. }
  rewrite (vec_at_ok _ _ cur) by (by apply list_lookup_middle). cbn [mbind outcome_bind].
  assert (partition_point (fun y => seq y <? seq x) cur = length cur) as ->.
  { rewrite <- (app_nil_r cur) at 1. apply partition_point_spec. split; [|constructor].
    eapply Forall_impl; [exact Hlt|]. intros y. apply Z.ltb_lt. }
  assert (vec_insert (length cur) x cur = Ok (cur ++ [x])) as ->
    by (rewrite <- (app_nil_r cur) at 2; apply vec_insert_app).
  cbn [mbind outcome_bind]. do 2 f_equal. rewrite <- (Nat.add_0_r (length dn)). by rewrite insert_app_r.
Qed.

(** *** Removal *)

Lemma remove_at_seq metas pos s :
  level_ordered metas -> position (fun x => seq x =? s) metas = Some pos ->
  vec_remove pos metas = base.filter (fun x => seq x <> s) metas /\ exists x, x ∈ metas /\ seq x = s.
Proof.
  unfold level_ordered, vec_remove. revert pos. induction metas as [|x metas IH]; intros pos; [done|].
  intros [Hs Hx]%StronglySorted_inv. cbn [position]. cbn beta. destruct (Z.eqb_spec (seq x) s) as [<-|Hne].
  - intros [= <-]. split; [|by exists x; split; [apply list_elem_of_here|]].
    rewrite filter_cons_False by naive_solver. cbn [take drop app].
    symmetry. apply filter_id. eapply Forall_impl; [exact Hx|]. simpl. lia.
  - destruct (position (fun x => seq x =? s) metas) as [p|] eqn:E; [|done]. intros [= <-].
    destruct (IH p Hs eq_refl) as [H1 (y & Hy & Hys)]. split.
    + rewrite filter_cons_True by done. cbn [take drop app]. by rewrite <- H1.
    + exists y. split; [by apply list_elem_of_further|done].
Qed.

Lemma position_None {A} (p : A -> bool) l x : position p l = None -> x ∈ l -> p x = false.
Proof.
  induction l as [|y l IH]; [by intros _ ?%not_elem_of_nil|]. cbn [position].
  destruct (p y) eqn:E; [done|]. destruct (position p l); [done|].
  intros _ [->|H]%elem_of_cons; [done|by apply IH].
Qed.

(** ** Properties *)

Definition sample_meta (s : Z) : SstMeta := mkSstMeta 0 s "L0-000001.sst" [x61] [x7a].
Definition sample_manifest : Manifest := mkManifest [[sample_meta 2; sample_meta 5]; []].

Lemma sample_manifest_ok : manifest_ok sample_manifest.
Proof.
  unfold manifest_ok, sample_manifest. cbn [levels levels_ok]. split_and!; try done; repeat constructor;
    vm_compute; try discriminate; reflexivity.
Qed.

(** C35: writing a manifest to bytes and decoding them gives the same levels
    back, up to trailing empty levels, which the format does not store. *)
Theorem manifest_roundtrip {AL : Allocator} (m : Manifest) :
  manifest_ok m -> (length (levels m) <= 1024)%nat -> len (manifest_bytes m) <= isize_max ->
  exists bs, encode m = Ok bs /\ decode bs = Ok (mkManifest (trim (levels m))).
Proof. intros Hm Hl Hu. exists (manifest_bytes m). split; [by apply encode_ok|by apply decode_bytes]. Qed.

Lemma manifest_roundtrip_witness :
  exists bs, encode sample_manifest = Ok bs /\
    @decode Toy.allocator bs = Ok (mkManifest [[sample_meta 2; sample_meta 5]]).
Proof.
  apply (@manifest_roundtrip Toy.allocator sample_manifest).
  - exact sample_manifest_ok.
  - vm_compute. lia.
  - vm_compute. discriminate.
Defined.

(** C36: decoding arbitrary bytes reports corruption or returns a manifest
    whose levels are strictly ordered by sequence number and whose fields are
    in range; it never panics and never reads past the buffer. *)
Theorem manifest_decode_safe {AL : Allocator} (bs : bytes) :
  len bs <= isize_max ->
  match decode bs with Ok m => manifest_ok m | Err _ => True | Panic | Halt => False end.
Proof. intros Hu. pose proof (decode_ends bs Hu) as H. by destruct (decode bs). Qed.

Lemma manifest_decode_safe_witness :
  len (MAGIC_MANIFEST ++ [xff]) <= isize_max /\
  match @decode Toy.allocator (MAGIC_MANIFEST ++ [xff]) with
  | Ok m => manifest_ok m | Err _ => True | Panic | Halt => False
  end.
Proof.
  split; [vm_compute; discriminate|]. apply (@manifest_decode_safe Toy.allocator). vm_compute. discriminate.
Defined.

(** [add] puts a table with a new sequence number at its place in the
    order of its level, growing the level list as needed, and touches no other
    level. *)
Theorem manifest_add_ordered (meta : SstMeta) (m : Manifest) :
  manifest_ok m -> 0 <= level meta -> meta_ok (Z.to_nat (level meta)) meta ->
  (forall x, x ∈ ssts_at m (level meta) -> seq x <> seq meta) ->
  exists m', add meta m = Ok m' /\ manifest_ok m' /\
    exists l1 l2, ssts_at m (level meta) = l1 ++ l2 /\ ssts_at m' (level meta) = l1 ++ meta :: l2 /\
      Forall (fun x => seq x < seq meta) l1 /\ Forall (fun x => seq meta < seq x) l2 /\
      forall l, 0 <= l -> l <> level meta -> ssts_at m' l = ssts_at m l.
Proof.
  intros H1 H2 H3 H4. destruct (manifest_add_ok meta m H1 H2 H3 H4) as (m' & Ha & Hok & _ & Hrest).
  by exists m'.
Qed.

Lemma manifest_add_ordered_witness :
  exists m', add (sample_meta 3) sample_manifest = Ok m' /\ manifest_ok m'.
Proof.
  destruct (manifest_add_ordered (sample_meta 3) sample_manifest) as (m' & Ha & Hok & _).
  - exact sample_manifest_ok.
  - vm_compute. discriminate.
  - split; [reflexivity|]. split; [|reflexivity]. vm_compute. split_and!; discriminate.
  - vm_compute. intros x Hx. apply elem_of_cons in Hx as [->|Hx]; [discriminate|].
    apply elem_of_cons in Hx as [->|Hx]; [discriminate|]. by apply not_elem_of_nil in Hx.
  - exists m'. split; [exact Ha|exact Hok].
Defined.

(** [remove] takes exactly the table with the given sequence number out of
    its level, tells whether it was there, and keeps the manifest well formed
    and every other level as it is. *)
Theorem manifest_remove_exact (l s : Z) (m : Manifest) :
  manifest_ok m -> 0 <= l ->
  let '(m', found) := remove l s m in
  manifest_ok m' /\ (found = true <-> exists x, x ∈ ssts_at m l /\ seq x = s) /\
  ssts_at m' l = base.filter (fun x => seq x <> s) (ssts_at m l) /\
  forall l', 0 <= l' -> l' <> l -> ssts_at m' l' = ssts_at m l'.
Proof.
  intros Hm Hl. unfold remove, ssts_at. destruct (levels m !! Z.to_nat l) as [metas|] eqn:E.
  2: { rewrite E. split_and!; try done. split; [done|]. intros (x & Hx & _). by apply not_elem_of_nil in Hx. }
  pose proof Hm as Hall. rewrite manifest_ok_lookup in Hall. destruct (Hall _ _ E) as [Hmetas Hord].
  destruct (position (fun x => seq x =? s) metas) as [pos|] eqn:Ep.
  - destruct (remove_at_seq metas pos s Hord Ep) as [Hrm Hex]. cbn [levels]. split_and!.
    + apply insert_level_ok; [done| |]; rewrite Hrm.
      * apply Forall_forall. intros x [_ Hx]%list_elem_of_filter. rewrite Forall_forall in Hmetas. by apply Hmetas.
      * unfold level_ordered in *. clear -Hord. induction Hord as [|x l _ IH Hx]; [constructor|].
        rewrite filter_cons. case_decide; [|done]. constructor; [done|].
        apply Forall_forall. intros y [_ Hy]%list_elem_of_filter. rewrite Forall_forall in Hx. by apply Hx.
    + done.
    + by rewrite list_lookup_insert_eq by (by eapply lookup_lt_Some).
    + intros l' Hl' Hne. by rewrite list_lookup_insert_ne by lia.
  - rewrite E. cbn. split_and!; try done.
    + split; [done|]. intros (x & Hx & Hxs). pose proof (position_None _ _ x Ep Hx) as Hf.
      apply Z.eqb_neq in Hf. done.
    + symmetry. apply filter_id, Forall_forall. intros x Hx. pose proof (position_None _ _ x Ep Hx) as Hf.
      by apply Z.eqb_neq in Hf.
Qed.

Lemma manifest_remove_exact_witness :
  let '(m', found) := remove 0 2 sample_manifest in
  manifest_ok m' /\ found = true /\ ssts_at m' 0 = [sample_meta 5].
Proof.
  pose proof (manifest_remove_exact 0 2 sample_manifest sample_manifest_ok ltac:(lia)) as H.
  destruct (remove 0 2 sample_manifest) as [m' found] eqn:E. destruct H as (H1 & _).
  vm_compute in E. injection E as <- <-. split; [exact H1|]. split; reflexivity.
Defined.

(** C29: whichever system calls fail or find the process dying, [write_atomic]
    leaves the manifest either as it was or entirely replaced by the new one,
    and reports success only in the second case; no other file is touched.
    After a power loss following a success the manifest is complete: the new
    one if the rename survived, and otherwise the old file, as durable as it
    was before. *)
Theorem manifest_commit_atomic (m : Manifest) fs :
  manifest_ok m -> fs_wf fs ->
  exists o fs', write_atomic m fs = (o, fs') /\
    (forall n, n <> MANIFEST_TMP_FILE_NAME -> n <> MANIFEST_FILE_NAME -> kept n fs fs') /\
    match o with
    | Ok _ => forall fs2, power_loss fs' fs2 ->
        (dirents fs2 !! MANIFEST_FILE_NAME = dirents fs' !! MANIFEST_FILE_NAME ->
          file_of fs2 MANIFEST_FILE_NAME = Some (manifest_bytes m)) /\
        (forall i, dirents fs !! MANIFEST_FILE_NAME = Some i ->
          exists n, (synced (inode_of fs i) <= n)%nat /\ data_of fs2 i = take n (data_of fs i))
    | _ => kept MANIFEST_FILE_NAME fs fs'
    end.
Proof.
  intros Hm Hwf. destruct (write_atomic_any m fs Hm Hwf) as (o & fs' & Hrun & Hk & Ho).
  exists o, fs'. split_and!; try done. destruct o; try done. destruct Ho as [(i & Hd & Hi) Hold].
  intros fs2 (_ & _ & Hpl). split.
  - intros Dp. unfold file_of. rewrite Dp, Hd. cbn. destruct (Hpl i) as (n & Hn & Hi2).
    unfold data_of. rewrite Hi2, Hi in *. cbn in *. by rewrite take_ge.
  - intros j Hj. destruct (Hpl j) as (n & Hn & Hi2). rewrite (Hold j Hj) in *. exists n.
    unfold data_of. by rewrite Hi2.
Qed.

Lemma manifest_commit_atomic_witness :
  exists fs', write_atomic sample_manifest (set_faults [Pass; Pass; Fail 0] empty_fs) = (Err (Io OtherIo), fs') /\
    kept MANIFEST_FILE_NAME (set_faults [Pass; Pass; Fail 0] empty_fs) fs'.
Proof.
  destruct (manifest_commit_atomic sample_manifest (set_faults [Pass; Pass; Fail 0] empty_fs))
    as (o & fs' & Hrun & _ & Hk).
  - exact sample_manifest_ok.
  - exact fs_wf_empty.
  - exists fs'. assert (o = Err (Io OtherIo)) as ->; [|split; [exact Hrun|exact Hk]].
    vm_compute in Hrun. congruence.
Defined.
