(* ===== verification/Names.v ===== *)
(** * File names of the engine directory ([src/src/engine.rs])

    [format!("wal_{seq:06}.wal")] and its parser [parse_wal_name], and the
    names of tables. *)

From S2P Require Import Prelude Outcome Manifest.

(** ** Definitions *)

(** Decimal digits; twenty are enough for a [u64]. *)
Definition digit (d : Z) : byte := z2b (48 + d).

Fixpoint dec (fuel : nat) (n : Z) (acc : bytes) : bytes :=
  match fuel with
  | O => acc
  | S fuel =>
      let acc := digit (n mod 10) :: acc in
      if n <? 10 then acc else dec fuel (n / 10) acc
  end.

Definition decimal (n : Z) : bytes := dec 20 n [].

(** [{n:06}] *)
Definition fmt06 (n : Z) : bytes := replicate (6 - length (decimal n)) (digit 0) ++ decimal n.

Definition to_string (bs : bytes) : string := String.string_of_list_byte bs.

Definition wal_prefix : bytes := [x77; x61; x6c; x5f].
Definition wal_suffix : bytes := [x2e; x77; x61; x6c].
Definition sst_suffix : bytes := [x2e; x73; x73; x74].
Definition tmp_suffix : bytes := [x2e; x74; x6d; x70].

(** [format!("wal_{seq:06}.wal")] *)
Definition wal_name (seq : Z) : string := to_string (wal_prefix ++ fmt06 seq ++ wal_suffix).

(** [format!("L0_{seq:06}.sst")] and [format!("L1_{seq:06}.sst")] *)
Definition sst_bytes (level : nat) (seq : Z) : bytes :=
  [x4c; digit (Z.of_nat level); x5f] ++ fmt06 seq ++ sst_suffix.
Definition sst_name (level : nat) (seq : Z) : string := to_string (sst_bytes level seq).

(** [format!("{name}.tmp")] *)
Definition tmp_name (name : string) : string := to_string (as_bytes name ++ tmp_suffix).

(** [str::strip_prefix] and [str::strip_suffix] *)
Definition strip_prefix (p s : bytes) : option bytes :=
  if decide (take (length p) s = p) then Some (drop (length p) s) else None.

Definition strip_suffix (p s : bytes) : option bytes :=
  if (length p <=? length s)%nat then
    let n := (length s - length p)%nat in
    if decide (drop n s = p) then Some (take n s) else None
  else None.

(** [str::parse::<u64>]: an optional plus sign, then digits; [None] on an empty
    string, on any other character and on overflow. *)
Definition digit_value (b : byte) : option Z :=
  if (48 <=? b2z b) && (b2z b <=? 57) then Some (b2z b - 48) else None.

Fixpoint parse_digits (acc : Z) (s : bytes) : option Z :=
  match s with
  | [] => Some acc
  | b :: s =>
      d ← digit_value b;
      let acc := acc * 10 + d in
      if acc <=? u64_max then parse_digits acc s else None
  end.

Definition parse_u64 (s : bytes) : option Z :=
  match s with
  | [] => None
  | [x2b] => None
  | x2b :: s => parse_digits 0 s
  | _ => parse_digits 0 s
  end.

(** [parse_wal_name] *)
Definition parse_wal_name (name : string) : option Z :=
  rest ← strip_prefix wal_prefix (as_bytes name);
  seq ← strip_suffix wal_suffix rest;
  parse_u64 seq.

Arguments wal_name seq : simpl never.
Arguments sst_name level seq : simpl never.
Arguments tmp_name name : simpl never.
Arguments parse_wal_name name : simpl never.

(** ** Lemmas *)

Definition is_digit (b : byte) : Prop := 48 <= b2z b <= 57.

(** The value of a string of digits. *)
Definition digits_value (acc : Z) (s : bytes) : Z := foldl (fun a b => a * 10 + (b2z b - 48)) acc s.

Lemma b2z_digit d : 0 <= d < 10 -> b2z (digit d) = 48 + d.
Proof. intros H. unfold digit. rewrite b2z_z2b. by apply Z.mod_small; lia. Qed.

Lemma digits_value_app acc s1 s2 : digits_value acc (s1 ++ s2) = digits_value (digits_value acc s1) s2.
Proof. apply foldl_app. Qed.

Lemma digits_value_mono acc s : Forall is_digit s -> 0 <= acc -> acc <= digits_value acc s.
Proof.
  intros H. revert acc. induction H as [|b s Hb _ IH]; intros acc Ha; simpl; [lia|].
  unfold is_digit in Hb. specialize (IH (acc * 10 + (b2z b - 48)) ltac:(lia)).
  unfold digits_value in *. lia.
Qed.

Lemma parse_digits_value acc s :
  Forall is_digit s -> 0 <= acc -> digits_value acc s <= u64_max ->
  parse_digits acc s = Some (digits_value acc s).
Proof.
  intros H. revert acc. induction H as [|b s Hb Hs IH]; intros acc Ha Hm; [done|].
  cbn [parse_digits]. unfold digit_value. unfold is_digit in Hb.
  rewrite !(proj2 (Z.leb_le _ _)) by lia. cbn [andb mbind option_bind].
  pose proof (digits_value_mono (acc * 10 + (b2z b - 48)) s Hs ltac:(lia)) as Hle.
  change (digits_value acc (b :: s)) with (digits_value (acc * 10 + (b2z b - 48)) s) in *.
  rewrite (proj2 (Z.leb_le _ _)) by lia. apply IH; [lia|done].
Qed.

Lemma dec_digits fuel n acc : 0 <= n -> Forall is_digit acc -> Forall is_digit (dec fuel n acc).
Proof.
  revert n acc. induction fuel as [|fuel IH]; intros n acc Hn Ha; cbn [dec]; [done|].
  pose proof (Z.mod_pos_bound n 10 ltac:(lia)).
  assert (Forall is_digit (digit (n mod 10) :: acc)).
  { constructor; [|done]. unfold is_digit. rewrite b2z_digit; lia. }
  destruct (n <? 10); [done|]. apply IH; [|done]. apply Z.div_pos; lia.
Qed.

Lemma dec_value fuel n acc :
  0 <= n < 10 ^ Z.of_nat fuel -> digits_value 0 (dec fuel n acc) = digits_value n acc.
Proof.
  revert n acc. induction fuel as [|fuel IH]; intros n acc Hn; cbn [dec].
  { simpl in Hn. by replace n with 0 by lia. }
  pose proof (Z.mod_pos_bound n 10 ltac:(lia)). pose proof (Z.div_mod n 10 ltac:(lia)).
  rewrite Nat2Z.inj_succ, Z.pow_succ_r in Hn by lia.
  destruct (Z.ltb_spec n 10).
  - unfold digits_value. cbn [foldl]. rewrite b2z_digit by lia. f_equal.
    rewrite Z.mod_small by lia. lia.
  - rewrite IH by (split; [apply Z.div_pos; lia|apply Z.div_lt_upper_bound; lia]).
    unfold digits_value. cbn [foldl]. rewrite b2z_digit by lia. f_equal. lia.
Qed.

Lemma decimal_value n : 0 <= n <= u64_max -> digits_value 0 (decimal n) = n.
Proof. intros H. unfold decimal. rewrite dec_value; [done|]. unfold u64_max in H. simpl. lia. Qed.

Lemma dec_nonempty fuel n acc : dec (S fuel) n acc <> [].
Proof.
  revert n acc. induction fuel as [|fuel IH]; intros n acc; cbn [dec]; [by destruct (n <? 10)|].
  destruct (n <? 10); [done|]. apply IH.
Qed.

Lemma fmt06_digits n : 0 <= n -> Forall is_digit (fmt06 n).
Proof.
  intros Hn. unfold fmt06. apply Forall_app. split; [|by apply dec_digits].
  apply Forall_replicate. unfold is_digit. rewrite b2z_digit; lia.
Qed.

Lemma fmt06_value n : 0 <= n <= u64_max -> digits_value 0 (fmt06 n) = n.
Proof.
  intros Hn. unfold fmt06. rewrite digits_value_app.
  assert (forall k, digits_value 0 (replicate k (digit 0)) = 0) as ->; [|by apply decimal_value].
  induction k as [|k IH]; [done|]. cbn [replicate]. unfold digits_value in *. cbn [foldl].
  by rewrite b2z_digit by lia.
Qed.

Lemma fmt06_nonempty n : fmt06 n <> [].
Proof. unfold fmt06. intros [_ H]%app_nil. by apply (dec_nonempty 19) in H. Qed.

Lemma parse_u64_digits s :
  Forall is_digit s -> s <> [] -> digits_value 0 s <= u64_max -> parse_u64 s = Some (digits_value 0 s).
Proof.
  intros Hd Hne Hv. destruct s as [|b s]; [done|].
  assert (parse_u64 (b :: s) = parse_digits 0 (b :: s)) as ->; [|by apply parse_digits_value].
  inversion_clear Hd as [|? ? Hb _]. unfold is_digit in Hb.
  destruct b; try reflexivity; exfalso; revert Hb; vm_compute; intros [H1 H2]; by apply H1.
Qed.

Lemma as_bytes_to_string bs : as_bytes (to_string bs) = bs.
Proof. apply String.list_byte_of_string_of_list_byte. Qed.

Lemma to_string_inj bs1 bs2 : to_string bs1 = to_string bs2 -> bs1 = bs2.
Proof. intros H. by rewrite <- (as_bytes_to_string bs1), H, as_bytes_to_string. Qed.

(** The parser recognises the names the engine writes, and reads the number
    back. *)
Lemma parse_wal_name_ok n : 0 <= n <= u64_max -> parse_wal_name (wal_name n) = Some n.
Proof.
  intros Hn. unfold parse_wal_name, wal_name. rewrite as_bytes_to_string.
  unfold strip_prefix. rewrite take_app_length, decide_True, drop_app_length by done.
  cbn [mbind option_bind]. unfold strip_suffix. rewrite length_app.
  rewrite (proj2 (Nat.leb_le _ _)) by lia.
  replace (_ - _)%nat with (length (fmt06 n)) by lia.
  rewrite drop_app_length, decide_True, take_app_length by done. cbn [mbind option_bind].
  rewrite parse_u64_digits, fmt06_value; [done|done|apply fmt06_digits; lia|apply fmt06_nonempty|].
  rewrite fmt06_value; lia.
Qed.

Lemma wal_name_inj n m : 0 <= n <= u64_max -> 0 <= m <= u64_max -> wal_name n = wal_name m -> n = m.
Proof.
  intros Hn Hm H. apply (f_equal parse_wal_name) in H. rewrite !parse_wal_name_ok in H by done. congruence.
Qed.

Lemma sst_name_inj l n m :
  0 <= n <= u64_max -> 0 <= m <= u64_max -> sst_name l n = sst_name l m -> n = m.
Proof.
  intros Hn Hm H%to_string_inj. unfold sst_bytes in H. apply app_inv_head in H.
  apply app_inv_tail in H. rewrite <- (fmt06_value n), <- (fmt06_value m) by done. by rewrite H.
Qed.

(** ** Names of different kinds are different *)

Definition initial (n : string) : option byte := head (as_bytes n).

Lemma initial_wal s : initial (wal_name s) = Some x77.
Proof. unfold initial, wal_name. by rewrite as_bytes_to_string. Qed.

Lemma initial_sst l s : initial (sst_name l s) = Some x4c.
Proof. unfold initial, sst_name. by rewrite as_bytes_to_string. Qed.

Lemma initial_sst_tmp l s : initial (tmp_name (sst_name l s)) = Some x4c.
Proof. unfold initial, tmp_name, sst_name. by rewrite !as_bytes_to_string. Qed.

Lemma initial_manifest : initial MANIFEST_FILE_NAME = Some x4d.
Proof. done. Qed.

Lemma initial_manifest_tmp : initial MANIFEST_TMP_FILE_NAME = Some x4d.
Proof. done. Qed.

(** Different initials, different names. *)
Lemma initial_ne n m a b : initial n = Some a -> initial m = Some b -> a <> b -> n <> m.
Proof. intros Hn Hm Hab ->. congruence. Qed.

Lemma parse_wal_name_initial n s : parse_wal_name n = Some s -> initial n = Some x77.
Proof.
  unfold parse_wal_name, strip_prefix, initial. intros H. destruct (decide _) as [Ht|]; [|done].
  rewrite <- (take_drop (length wal_prefix) (as_bytes n)), Ht. done.
Qed.

Lemma parse_wal_name_other n b : initial n = Some b -> b <> x77 -> parse_wal_name n = None.
Proof.
  intros Hn Hb. destruct (parse_wal_name n) as [s|] eqn:E; [|done].
  apply parse_wal_name_initial in E. congruence.
Qed.

Lemma last_sst l s : last (as_bytes (sst_name l s)) = Some x74.
Proof.
  unfold sst_name. rewrite as_bytes_to_string. unfold sst_bytes. rewrite app_assoc.
  unfold sst_suffix. by rewrite (last_app_cons _ [x2e; x73; x73] x74 []) || (rewrite last_app; done).
Qed.

Lemma last_tmp n : last (as_bytes (tmp_name n)) = Some x70.
Proof. unfold tmp_name. rewrite as_bytes_to_string. by rewrite last_app. Qed.

Lemma tmp_ne_sst n l s : tmp_name n <> sst_name l s.
Proof. intros H. pose proof (last_tmp n) as Ht. by rewrite H, last_sst in Ht. Qed.

Lemma sst_name_level n m : sst_name 0 n <> sst_name 1 m.
Proof. intros H%to_string_inj. unfold sst_bytes in H. simpl in H. discriminate H. Qed.

(** The names are ASCII, hence valid UTF-8. *)
Lemma ascii_utf8 bs : Forall (fun b => b2z b < 128) bs -> valid_utf8 bs = true.
Proof. induction 1 as [|b bs Hb _ IH]; [done|]. simpl. by rewrite (proj2 (Z.ltb_lt _ _)). Qed.

Lemma digits_ascii s : Forall is_digit s -> Forall (fun b => b2z b < 128) s.
Proof. intros H. eapply Forall_impl; [exact H|]. unfold is_digit. simpl. lia. Qed.

Lemma wal_name_utf8 s : 0 <= s -> valid_utf8 (as_bytes (wal_name s)) = true.
Proof.
  intros Hs. unfold wal_name. rewrite as_bytes_to_string. apply ascii_utf8.
  rewrite !Forall_app. split_and!; [by repeat constructor|by apply digits_ascii, fmt06_digits|by repeat constructor].
Qed.

Lemma sst_bytes_ascii l s : (l <= 1)%nat -> 0 <= s -> Forall (fun b => b2z b < 128) (sst_bytes l s).
Proof.
  intros Hl Hs. unfold sst_bytes. rewrite !Forall_app.
  split_and!; [|by apply digits_ascii, fmt06_digits|by repeat constructor].
  destruct l as [|[|]]; [by repeat constructor..|lia].
Qed.

Lemma sst_name_utf8 l s : (l <= 1)%nat -> 0 <= s -> valid_utf8 (as_bytes (sst_name l s)) = true.
Proof. intros Hl Hs. unfold sst_name. rewrite as_bytes_to_string. by apply ascii_utf8, sst_bytes_ascii. Qed.

Lemma sst_tmp_utf8 l s : (l <= 1)%nat -> 0 <= s -> valid_utf8 (as_bytes (tmp_name (sst_name l s))) = true.
Proof.
  intros Hl Hs. unfold tmp_name, sst_name. rewrite !as_bytes_to_string. apply ascii_utf8, Forall_app.
  split; [by apply sst_bytes_ascii|by repeat constructor].
Qed.

Lemma dec_length fuel n acc : (length (dec fuel n acc) <= length acc + fuel)%nat.
Proof.
  revert n acc. induction fuel as [|fuel IH]; intros n acc; cbn [dec]; [lia|].
  destruct (n <? 10); [simpl; lia|]. specialize (IH (n / 10) (digit (n mod 10) :: acc)). simpl in IH. lia.
Qed.

Lemma sst_name_len l s : len (as_bytes (sst_name l s)) <= 40.
Proof.
  unfold sst_name. rewrite as_bytes_to_string. unfold sst_bytes, fmt06, len.
  rewrite !length_app, length_replicate. pose proof (dec_length 20 s []) as H. fold (decimal s) in H.
  simpl in *. lia.
Qed.

(** ** Properties *)

(** Every log name the engine writes parses back to its generation, and
    names of different generations, tables of different sequence numbers and
    files of different kinds never collide. *)
Theorem names_roundtrip (n m : Z) (l : nat) :
  0 <= n <= u64_max -> 0 <= m <= u64_max ->
  parse_wal_name (wal_name n) = Some n /\
  (wal_name n = wal_name m <-> n = m) /\ (sst_name l n = sst_name l m <-> n = m) /\
  parse_wal_name (sst_name l m) = None /\ parse_wal_name (tmp_name (sst_name l m)) = None /\
  parse_wal_name MANIFEST_FILE_NAME = None /\ wal_name n <> sst_name l m /\ sst_name 0 n <> sst_name 1 m /\
  tmp_name (sst_name l n) <> sst_name l m.
Proof.
  intros Hn Hm. split_and!.
  - by apply parse_wal_name_ok.
  - split; [by apply wal_name_inj|by intros ->].
  - split; [by apply sst_name_inj|by intros ->].
  - by eapply parse_wal_name_other; [apply initial_sst|].
  - by eapply parse_wal_name_other; [apply initial_sst_tmp|].
  - done.
  - by eapply initial_ne; [apply initial_wal|apply initial_sst|].
  - apply sst_name_level.
  - apply tmp_ne_sst.
Qed.

Lemma names_roundtrip_witness :
  parse_wal_name (wal_name 42) = Some 42 /\ wal_name 42 <> sst_name 0 7.
Proof.
  assert (0 <= 42 <= u64_max) as H1 by (vm_compute; split; discriminate).
  assert (0 <= 7 <= u64_max) as H2 by (vm_compute; split; discriminate).
  destruct (names_roundtrip 42 7 0 H1 H2) as (Hp & _ & _ & _ & _ & _ & Hne & _).
  split; [exact Hp|exact Hne].
Defined.
