(* ===== verification/KvSpec.v ===== *)
(** * The contract of a key-value store

    What a client of the engine relies on: a finite map from keys to values,
    the size limits of the API, and replies that depend on the map only.  A
    store is any machine that follows the map one request at a time
    ([KvStore]), also when it stops inside one ([CrashStore]) or meets I/O
    errors ([FaultyStore]); what holds of a whole session of requests is proved
    against these interfaces. *)

From S2P Require Import Prelude Outcome Fs Crash SstRecord.

(** ** Requests and the map they act on *)

Inductive request :=
  | ReqPut (k v : bytes)
  | ReqDelete (k : bytes)
  | ReqGet (k : bytes)
  | ReqFlush
  | ReqCompact
  | ReqBackground
  | ReqReopen.

(** The size checks, in order. *)
Definition oversize (k v : bytes) : option LsmError :=
  if SstRecord.MAX_KEY_LEN <? len k then Some (KeyTooLarge (len k) SstRecord.MAX_KEY_LEN)
  else if SstRecord.MAX_VALUE_LEN <? len v then Some (ValueTooLarge (len v) SstRecord.MAX_VALUE_LEN)
  else None.

Lemma oversize_None k v :
  oversize k v = None <-> len k <= SstRecord.MAX_KEY_LEN /\ len v <= SstRecord.MAX_VALUE_LEN.
Proof.
  unfold oversize. destruct (Z.ltb_spec SstRecord.MAX_KEY_LEN (len k)),
    (Z.ltb_spec SstRecord.MAX_VALUE_LEN (len v)); split; intros; try done; lia.
Qed.

Abbreviation kvmap := (gmap (list Byte.byte) (list Byte.byte)).
Abbreviation reply := (outcome (option (list Byte.byte))).

Definition spec_reply (r : request) (m : kvmap) : reply :=
  match r with
  | ReqPut k v => match oversize k v with Some err => Err err | None => Ok None end
  | ReqDelete k => match oversize k [] with Some err => Err err | None => Ok None end
  | ReqGet k => Ok (m !! k)
  | ReqFlush | ReqCompact | ReqBackground | ReqReopen => Ok None
  end.

Definition spec_next (r : request) (m : kvmap) : kvmap :=
  match r with
  | ReqPut k v => match oversize k v with Some _ => m | None => <[k := v]> m end
  | ReqDelete k => match oversize k [] with Some _ => m | None => base.delete k m end
  | _ => m
  end.

(** ** The interface *)

(** [kv_room r s]: the machine has the resources to serve [r] in state [s]. *)
Class KvStore (S : Type) := {
  kv_rep : kvmap -> S -> Prop;
  kv_room : request -> S -> Prop;
  kv_serve : request -> S -> reply * S;
  kv_serve_ok r m s : kv_rep m s -> kv_room r s ->
    exists s', kv_serve r s = (spec_reply r m, s') /\ kv_rep (spec_next r m) s';
}.

(** ** Sessions *)

Fixpoint spec_session (rs : list request) (m : kvmap) : list reply * kvmap :=
  match rs with
  | [] => ([], m)
  | r :: rs => let '(l, m') := spec_session rs (spec_next r m) in (spec_reply r m :: l, m')
  end.

Section session.
Context {S : Type} {K : KvStore S}.

Fixpoint session (rs : list request) (s : S) : list reply * S :=
  match rs with
  | [] => ([], s)
  | r :: rs =>
      let '(o, s) := kv_serve r s in
      let '(l, s) := session rs s in (o :: l, s)
  end.

(** Resources at every step of a session. *)
Fixpoint session_room (rs : list request) (s : S) : Prop :=
  match rs with
  | [] => True
  | r :: rs => kv_room r s /\ session_room rs (kv_serve r s).2
  end.

(** Every session is answered as the map answers it. *)
Lemma session_ok rs m s :
  kv_rep m s -> session_room rs s ->
  exists s', session rs s = ((spec_session rs m).1, s') /\ kv_rep (spec_session rs m).2 s'.
Proof.
  revert m s. induction rs as [|r rs IH]; intros m s Hrep Hroom; [by exists s|].
  destruct Hroom as [Hr Hroom]. destruct (kv_serve_ok r m s Hrep Hr) as (s1 & H1 & Hrep1).
  rewrite H1 in Hroom. destruct (IH _ _ Hrep1 Hroom) as (s2 & H2 & Hrep2).
  exists s2. cbn [session spec_session]. rewrite H1, H2.
  by destruct (spec_session rs (spec_next r m)).
Qed.
End session.

(** ** Stopping

    A store that keeps what it has answered: wherever it stops in a request, its
    directory stands for the map before the request or for the map after it.
    [kv_durable s]: every answered write is in the files.  [kv_limits r s]:
    sizes under which what is left can be opened again. *)
Class CrashStore (S : Type) `{Machine S} `{KvStore S} := {
  kv_durable : S -> Prop;
  kv_limits : request -> S -> Prop;
  kv_recovers : kvmap -> Fs -> Prop;
  kv_calm m s : kv_rep m s -> calm s;
  kv_steady r : steady (kv_serve r);
  kv_durable_ok r m s : kv_rep m s -> kv_durable s -> kv_room r s -> kv_limits r s ->
    kv_durable (kv_serve r s).2;
  kv_crash_ok r m s : kv_rep m s -> kv_durable s -> kv_room r s -> kv_limits r s ->
    crashes (kv_serve r) s (fun fs => kv_recovers m fs \/ kv_recovers (spec_next r m) fs);
}.

Section crash.
Context {S : Type} {MS : Machine S} {K : KvStore S} {CS : CrashStore S}.

(** A session up to the request in which the process dies. *)
Fixpoint until_stop (rs : list request) (s : S) : list reply * S :=
  match rs with
  | [] => ([], s)
  | r :: rs =>
      match kv_serve r s with
      | (Halt, s) => ([Halt], s)
      | (o, s) => let '(l, s) := until_stop rs s in (o :: l, s)
      end
  end.

Fixpoint session_limits (rs : list request) (s : S) : Prop :=
  match rs with
  | [] => True
  | r :: rs => kv_room r s /\ kv_limits r s /\ session_limits rs (kv_serve r s).2
  end.

Lemma spec_reply_no_stop r m : spec_reply r m <> Halt.
Proof. destruct r; cbn; try done; by case_match. Qed.

Lemma until_stop_step r rs s o s1 :
  kv_serve r s = (o, s1) -> o <> Halt ->
  until_stop (r :: rs) s = (o :: (until_stop rs s1).1, (until_stop rs s1).2).
Proof. intros Hrun Ho. cbn [until_stop]. rewrite Hrun. by destruct o, (until_stop rs s1). Qed.

Lemma crash_session_ok rs m s n k :
  kv_rep m s -> kv_durable s -> session_limits rs s ->
  (exists n' s', until_stop rs (arm n k s) = ((spec_session rs m).1, arm n' k s') /\
    kv_rep (spec_session rs m).2 s') \/
  (exists i s', (i < length rs)%nat /\
    until_stop rs (arm n k s) = (take i (spec_session rs m).1 ++ [Halt], s') /\
    (kv_recovers (spec_session (take i rs) m).2 (killed (disk s')) \/
     kv_recovers (spec_session (take (1 + i) rs) m).2 (killed (disk s')))).
Proof.
  revert m s n. induction rs as [|r rs IH]; intros m s n Hrep Hdur Hlim; [left; by exists n, s|].
  destruct Hlim as (Hroom & Hlim & Hrest). destruct (kv_serve_ok r m s Hrep Hroom) as (s1 & Hrun & Hrep1).
  pose proof (kv_durable_ok r m s Hrep Hdur Hroom Hlim) as Hdur1. rewrite Hrun in Hrest, Hdur1.
  destruct (armed_run (kv_serve r) s n k _ (kv_calm m s Hrep) (kv_steady r) (kv_crash_ok r m s Hrep Hdur Hroom Hlim))
    as [[n1 Hgo]|(s' & Hstop & Hrec)].
  - rewrite Hrun in Hgo. rewrite (until_stop_step _ _ _ _ _ Hgo (spec_reply_no_stop r m)). cbn [fst snd spec_session] in *.
    destruct (IH (spec_next r m) s1 n1 Hrep1 Hdur1 Hrest) as [(n' & s' & E & Hr)|(i & s' & Hi & E & Hr)];
      rewrite E; destruct (spec_session rs (spec_next r m)) as [l m'] eqn:Es; cbn [fst snd] in *.
    + left. by exists n', s'.
    + right. exists (1 + i)%nat, s'. split; [simpl; lia|]. split; [done|].
      change (take (1 + i) (r :: rs)) with (r :: take i rs). change (take (1 + (1 + i)) (r :: rs)) with (r :: take (1 + i) rs).
      cbn [spec_session]. by destruct (spec_session (take i rs) _), (spec_session (take (1 + i) rs) _).
  - right. exists 0%nat, s'. split; [simpl; lia|]. cbn [until_stop]. rewrite Hstop.
    cbn [take spec_session]. by destruct (spec_session rs _), rs.
Qed.
End crash.

(** ** I/O errors

    A store that goes on after errors: a request that is answered has the answer
    of the map, one that reports an error has been carried out or not, and no
    request panics.  [kv_shows] may be weaker than [kv_rep]: what is left on disk
    after an error need not open to the map again, so that a session under
    errors does not reopen the store. *)

Definition explained (r : request) (m : kvmap) (o : reply) (m' : kvmap) : Prop :=
  match o with
  | Ok v => Ok v = spec_reply r m /\ m' = spec_next r m
  | Err _ => m' = m \/ m' = spec_next r m
  | Panic | Halt => False
  end.

Class FaultyStore (S : Type) `{Machine S} `{KvStore S} := {
  kv_shows : kvmap -> S -> Prop;
  kv_fault_room : request -> S -> Prop;
  kv_shows_rep l m s : kv_rep m s -> kv_shows m (set_disk (set_faults l (disk s)) s);
  kv_fault_ok r m s : kv_shows m s -> kv_fault_room r s -> ~ stops s ->
    ~ stops (kv_serve r s).2 /\
    exists m', explained r m (kv_serve r s).1 m' /\ kv_shows m' (kv_serve r s).2;
}.

Section faulty.
Context {S : Type} {MS : Machine S} {K : KvStore S} {FS : FaultyStore S}.

(** The replies of a session, explained one after the other. *)
Fixpoint accounts (rs : list request) (os : list reply) (m m' : kvmap) : Prop :=
  match rs, os with
  | [], [] => m' = m
  | r :: rs, o :: os => exists m1, explained r m o m1 /\ accounts rs os m1 m'
  | _, _ => False
  end.

Fixpoint session_fault_room (rs : list request) (s : S) : Prop :=
  match rs with
  | [] => True
  | r :: rs => kv_fault_room r s /\ session_fault_room rs (kv_serve r s).2
  end.

Lemma fault_session_ok rs m s :
  kv_shows m s -> session_fault_room rs s -> ~ stops s ->
  exists m', accounts rs (session rs s).1 m m' /\ kv_shows m' (session rs s).2.
Proof.
  revert m s. induction rs as [|r rs IH]; intros m s Hs Hroom Hst; [by exists m|].
  destruct Hroom as [Hr Hroom]. destruct (kv_fault_ok r m s Hs Hr Hst) as (Hst1 & m1 & Hex & Hs1).
  cbn [session]. destruct (kv_serve r s) as [o s1]. cbn [fst snd] in *.
  destruct (IH m1 s1 Hs1 Hroom Hst1) as (m' & Hacc & Hs').
  exists m'. destruct (session rs s1) as [os s2]. cbn [fst snd] in *. split; [by exists m1|done].
Qed.
End faulty.
