(* ===== verification/Engine.v ===== *)
(** * The engine ([src/src/engine.rs])

    The orchestrator: the active and frozen memtables, the write-ahead log
    generations, the levels of tables, flush, compaction and recovery.

    [Arc<MemTable>] and [Arc<SstHandle>] are shared objects: the state holds
    references into two heaps, so that a snapshot taken by a reader, the
    immutable list and the active slot see the same table, and the lazily
    opened reader of a table handle is opened once for all its users.  An
    operation runs on the file system next to the engine.  Paths are relative
    to the engine directory. *)

From S2P Require Import Prelude Outcome External Fs MemTable Wal WalWriter WalReader.
From S2P Require Import StdVec SstRecord SstIndex Bloom Builder Reader Merge Manifest.
From S2P Require Import Names.

(** ** State *)

Definition DEFAULT_FLUSH_THRESHOLD_BYTES : Z := 64 * 1024 * 1024.

Record LsmOptions := mkLsmOptions {
  flush_threshold_bytes : Z;
  sync_per_write : bool;
  compaction_l0_file_threshold : Z;
}.

(** [LsmOptions::default()] *)
Definition default_options : LsmOptions := mkLsmOptions DEFAULT_FLUSH_THRESHOLD_BYTES false 4.

Record PendingImm := mkPendingImm { mem : nat; wal_seq : Z }.

Record EngineState := mkEngineState {
  active : option nat;
  immutables : list PendingImm;
  levels : list (list nat);
}.

Record ActiveWal := mkActiveWal { writer : WalWriter; seq : Z }.

(** The locks of [LsmEngineInner] that a panic can poison. *)
Inductive lock := WalLock | StateLock | FlushLock | StateRw.

Section engine.
Context {C : Crc32} {SM : SkipMap Entry} {FB : FastBloom} {AL : Allocator}.

(** [OnceLock<Result<Arc<SsTableReader>, String>>] *)
Record SstHandle := mkSstHandle {
  meta : SstMeta;
  path : string;
  reader : option (string + SsTableReader);
}.

Record LsmEngineInner := mkEngine {
  options : LsmOptions;
  state : EngineState;
  wal : ActiveWal;
  next_seq : Z;
  flush_tx : nat;                 (* notifications the worker has not received *)
  poisoned : list lock;
  mems : list MemTable;           (* the heap of [Arc<MemTable>] *)
  handles : list SstHandle;       (* the heap of [Arc<SstHandle>] *)
}.

Abbreviation Sys := (Fs * LsmEngineInner)%type.

Definition set_state (st : EngineState) (e : LsmEngineInner) : LsmEngineInner :=
  mkEngine (options e) st (wal e) (next_seq e) (flush_tx e) (poisoned e) (mems e) (handles e).
Definition set_wal (w : ActiveWal) (e : LsmEngineInner) : LsmEngineInner :=
  mkEngine (options e) (state e) w (next_seq e) (flush_tx e) (poisoned e) (mems e) (handles e).
Definition set_next_seq (n : Z) (e : LsmEngineInner) : LsmEngineInner :=
  mkEngine (options e) (state e) (wal e) n (flush_tx e) (poisoned e) (mems e) (handles e).
Definition set_flush_tx (n : nat) (e : LsmEngineInner) : LsmEngineInner :=
  mkEngine (options e) (state e) (wal e) (next_seq e) n (poisoned e) (mems e) (handles e).
Definition set_poisoned (l : list lock) (e : LsmEngineInner) : LsmEngineInner :=
  mkEngine (options e) (state e) (wal e) (next_seq e) (flush_tx e) l (mems e) (handles e).
Definition set_mems (ms : list MemTable) (e : LsmEngineInner) : LsmEngineInner :=
  mkEngine (options e) (state e) (wal e) (next_seq e) (flush_tx e) (poisoned e) ms (handles e).
Definition set_handles (hs : list SstHandle) (e : LsmEngineInner) : LsmEngineInner :=
  mkEngine (options e) (state e) (wal e) (next_seq e) (flush_tx e) (poisoned e) (mems e) hs.

Definition eng {A} (f : LsmEngineInner -> A) : M Sys A := gets (fun s => f s.2).
Definition upd (f : LsmEngineInner -> LsmEngineInner) : M Sys unit := modify (fun s => (s.1, f s.2)).

#[local] Instance lock_eq_dec : EqDecision lock.
Proof. solve_decision. Defined.

Definition is_poisoned (l : lock) (e : LsmEngineInner) : bool := bool_decide (l ∈ poisoned e).
Definition poison (l : lock) (s : Sys) : Sys := (s.1, set_poisoned (l :: poisoned s.2) s.2).

(** [lock().map_err(|_| LsmError::InvalidOp(msg))?] and the guard's scope. *)
Definition with_lock {A} (l : lock) (msg : string) (body : M Sys A) : M Sys A :=
  p ← eng (is_poisoned l);
  if p : bool then fail (InvalidOp msg) else guarded (poison l) body.

(** [state.read().expect("state lock not poisoned")] *)
Definition read_state : M Sys EngineState :=
  p ← eng (is_poisoned StateRw); if p : bool then panic else eng state.

(** [state.write().expect(..)] and the guard's scope. *)
Definition write_state {A} (body : M Sys A) : M Sys A :=
  p ← eng (is_poisoned StateRw); if p : bool then panic else guarded (poison StateRw) body.

(** Dereferences of [Arc]s: the heaps only grow. *)
Definition mem_at (i : nat) : M Sys MemTable := e ← eng mems; lift (vec_at e i).
Definition handle_at (i : nat) : M Sys SstHandle := e ← eng handles; lift (vec_at e i).

(** [Arc::new] *)
Definition alloc_mem (t : MemTable) : M Sys nat :=
  ms ← eng mems; _ ← upd (set_mems (ms ++ [t])); mret (length ms).
Definition alloc_handle (h : SstHandle) : M Sys nat :=
  hs ← eng handles; _ ← upd (set_handles (hs ++ [h])); mret (length hs).

(** Interior mutability of a shared memtable. *)
Definition on_mem {A} (i : nat) (m : M MemTable A) : M Sys A :=
  t ← mem_at i;
  let (o, t') := m t in
  _ ← upd (fun e => set_mems (<[i := t']> (mems e)) e);
  lift o.

(** Runs on the WAL writer and the file system. *)
Definition on_writer {A} (m : M (Fs * WalWriter) A) : M Sys A :=
  zoom (fun s => (s.1, writer (wal s.2)))
    (fun '(fs, w) s => (fs, set_wal (mkActiveWal w (seq (wal s.2))) s.2)) m.

(** [next_seq.fetch_add(1, SeqCst)], which wraps. *)
Definition fetch_add_seq : M Sys Z :=
  n ← eng next_seq; _ ← upd (set_next_seq ((n + 1) mod 2 ^ 64)); mret n.

(** [SstHandle::open_reader] *)
Definition open_reader (i : nat) : M Sys SsTableReader :=
  h ← handle_at i;
  r ← match reader h with
      | Some r => mret r
      | None =>
          r ← try_ (on_fs (Reader.open (path h)));
          let r := match r with inl e => inl (error_to_string e) | inr r => inr r end in
          _ ← upd (fun e => set_handles (<[i := mkSstHandle (meta h) (path h) (Some r)]> (handles e)) e);
          mret r
      end;
  match r with
  | inr r => mret r
  | inl e => fail (Corruption ("failed to open sstable " +:+ path h +:+ ": " +:+ e))
  end.

(** ** Flush and compaction *)

(** Feeds a builder with records, as the loops of [flush_pending] and
    [compact_all_pending] do. *)
Definition fill_builder (n : Z) (rs : list record) : outcome SsTableBuilder :=
  match for_each rs add_record (with_expected_items n) with
  | (Ok _, b) => Ok b
  | (Err e, _) => Err e
  | (Panic, _) => Panic
  | (Halt, _) => Halt
  end.

(** [builder.build(&tmp)?], [File::open(&tmp)?.sync_all()?],
    [rename(&tmp, &final)?] *)
Definition write_table (b : SsTableBuilder) (tmp_path final_path : string) : M Sys unit :=
  _ ← on_fs (Builder.build tmp_path b);
  f ← on_fs (file_open tmp_path);
  _ ← on_fs (file_sync f);
  on_fs (fs_rename tmp_path final_path).

Definition entry_record (kv : bytes * Entry) : record :=
  (kv.1, MemTable.value kv.2, MemTable.deleted kv.2).

(** The state change of [flush_pending], under [state_lock] and the write
    lock. *)
Definition commit_flush (i : nat) (sst_seq pending_wal : Z) : M Sys unit :=
  st ← eng state;
  let ls := if is_nil (levels st) then [[]] else levels st in
  level0 ← lift (vec_at ls 0);
  hs ← eng handles;
  let before h := match hs !! h with
                  | Some h => Manifest.seq (meta h) <? sst_seq
                  | None => false
                  end in
  let pos := partition_point before level0 in
  level0 ← lift (vec_insert pos i level0);
  upd (set_state (mkEngineState (active st)
         (base.filter (fun p => wal_seq p <> pending_wal) (immutables st))
         (<[0%nat := level0]> ls))).

(** The table of a frozen memtable, before it joins the state. *)
Definition build_pending (pending : PendingImm) (sst_seq : Z) : M Sys SstMeta :=
  let name := sst_name 0 sst_seq in
  let tmp_path := tmp_name name in
  let final_path := name in
  t ← mem_at (mem pending);
  builder ← lift (fill_builder (mem_len t) (entry_record <$> MemTable.iter t));
  let min := default [] (Builder.min_key builder) in
  let max := default [] (Builder.max_key builder) in
  _ ← write_table builder tmp_path final_path;
  mret (mkSstMeta 0 sst_seq name min max).

(** The commit of [flush_pending]. *)
Definition join_table (m : SstMeta) (pending : PendingImm) : M Sys unit :=
  with_lock StateLock "state lock poisoned"
    (write_state
      (i ← alloc_handle (mkSstHandle m (Manifest.name m) None);
       commit_flush i (Manifest.seq m) (wal_seq pending))).

Definition flush_pending (pending : PendingImm) : M Sys unit :=
  sst_seq ← fetch_add_seq;
  m ← build_pending pending sst_seq;
  join_table m pending.

(** One level of [write_manifest]. *)
Fixpoint manifest_level (level : nat) (hs : list nat) (m : Manifest) : M Sys Manifest :=
  match hs with
  | [] => mret m
  | i :: hs =>
      h ← handle_at i;
      let x := meta h in
      let x := mkSstMeta (Z.of_nat level mod 2 ^ 32) (Manifest.seq x) (Manifest.name x)
                 (Manifest.min x) (Manifest.max x) in
      m ← lift (Manifest.add x m);
      manifest_level level hs m
  end.

Fixpoint manifest_levels (level : nat) (ls : list (list nat)) (m : Manifest) : M Sys Manifest :=
  match ls with
  | [] => mret m
  | hs :: ls => m ← manifest_level level hs m; manifest_levels (S level) ls m
  end.

Definition write_manifest : M Sys unit :=
  st ← read_state;
  m ← manifest_levels 0 (levels st) default_manifest;
  on_fs (write_atomic m).

(** The draining loop of [flush_all_pending]; every turn removes the oldest
    immutable, so [fuel] above their number is enough. *)
Fixpoint drain (fuel : nat) (flushed : list Z) : M Sys (list Z) :=
  match fuel with
  | O => fun s => (Halt, s)
  | S fuel =>
      st ← read_state;
      match head (immutables st) with
      | None => mret flushed
      | Some pending =>
          _ ← flush_pending pending;
          drain fuel (flushed ++ [wal_seq pending])
      end
  end.

Definition flush_all_pending : M Sys unit :=
  with_lock FlushLock "flush lock poisoned"
    (n ← eng (fun e => length (immutables (state e)));
     flushed ← drain (S n) [];
     if is_nil flushed then mret tt
     else
       _ ← write_manifest;
       for_each flushed (fun w => ignore (on_fs (fs_remove_file (wal_name w))))).

Definition compact_needed : M Sys bool :=
  th ← eng (fun e => compaction_l0_file_threshold (options e));
  if th =? 0 then mret false
  else
    st ← read_state;
    mret (match head (levels st) with Some l0 => th <=? len l0 | None => false end).

(** The state change of [compact_all_pending]. *)
Definition commit_compact (output : option nat) : M Sys unit :=
  st ← eng state;
  let ls := if is_nil (levels st) then [[]] else levels st in
  let ls := <[0%nat := []]> ls in
  let ls := match output with
            | Some i =>
                let ls := if (length ls <=? 1)%nat then vec_grow 2 ls else ls in
                <[1%nat := [i]]> ls
            | None => take 1 ls
            end in
  upd (set_state (mkEngineState (active st) (immutables st) ls)).

(** The runs of a compaction. *)
Definition read_run (i : nat) : M Sys Run :=
  r ← open_reader i;
  rs ← on_fs (Reader.records r);
  h ← handle_at i;
  mret (mkRun (Manifest.seq (meta h)) rs).

(** The merged table: written, then renamed; the temporary file is removed
    on an error. *)
Definition build_merged (merged : list record) (sst_seq : Z) : M Sys nat :=
  let name := sst_name 1 sst_seq in
  let tmp_path := tmp_name name in
  let final_path := name in
  builder ← lift (fill_builder (len merged) merged);
  let min := default [] (Builder.min_key builder) in
  let max := default [] (Builder.max_key builder) in
  result ← try_ (write_table builder tmp_path final_path);
  _ ← match result with
      | inl _ => ignore (on_fs (fs_remove_file tmp_path))
      | inr _ => mret tt
      end;
  _ ← question result;
  alloc_handle (mkSstHandle (mkSstMeta 1 sst_seq name min max) final_path None).

Definition write_merged (merged : list record) : M Sys (option nat) :=
  if is_nil merged then mret None
  else
    sst_seq ← fetch_add_seq;
    i ← build_merged merged sst_seq;
    mret (Some i).

Definition compact_all_pending : M Sys unit :=
  with_lock FlushLock "flush lock poisoned"
    (st ← read_state;
     match head (levels st) with
     | None | Some [] => mret tt
     | Some l0 =>
         let inputs := l0 ++ default [] (levels st !! 1%nat) in
         runs ← map_each inputs read_run;
         merged ← lift (merge_runs runs);
         output ← write_merged merged;
         _ ← with_lock StateLock "state lock poisoned" (write_state (commit_compact output));
         _ ← write_manifest;
         for_each inputs (fun i =>
           h ← handle_at i; ignore (on_fs (fs_remove_file (path h))))
     end).

(** One notification received by [flush_worker]. *)
Definition worker_tick : M Sys unit :=
  n ← eng flush_tx;
  match n with
  | O => mret tt
  | S n =>
      _ ← upd (set_flush_tx n);
      catch_unwind
        (r ← try_ flush_all_pending;
         match r with
         | inl _ => mret tt
         | inr _ =>
             need ← compact_needed;
             if need : bool then ignore compact_all_pending else mret tt
         end)
  end.

(** The loop of [flush_worker] over the notifications in its channel; when the
    channel is empty the worker waits.  Every turn receives one, so [fuel] above
    their number is enough. *)
Fixpoint flush_worker (fuel : nat) : M Sys unit :=
  match fuel with
  | O => fun s => (Halt, s)
  | S fuel =>
      n ← eng flush_tx;
      match n with
      | O => mret tt
      | S _ => _ ← worker_tick; flush_worker fuel
      end
  end.

(** ** The public operations *)

Definition snapshot_active : M Sys nat :=
  st ← read_state;
  match active st with Some i => mret i | None => panic end.

(** The rotation of [freeze_active], to the log of the generation [new_seq]. *)
Definition rotate (new_seq : Z) : M Sys bool :=
  new_writer ← on_fs (wal_create (wal_name new_seq));
  _ ← with_lock StateLock "state lock poisoned"
        (write_state
          (st ← eng state;
           match active st with
           | None => panic
           | Some cur =>
               fresh ← alloc_mem MemTable.new;
               old_seq ← eng (fun e => seq (wal e));
               upd (set_state (mkEngineState (Some fresh)
                      (immutables st ++ [mkPendingImm cur old_seq]) (levels st)))
           end));
  _ ← on_writer wal_drop;
  _ ← upd (set_wal (mkActiveWal new_writer new_seq));
  mret true.

(** [freeze_active]; the caller holds the WAL lock. *)
Definition freeze_active : M Sys bool :=
  i ← snapshot_active;
  t ← mem_at i;
  if MemTable.is_empty t then mret false
  else
    new_seq ← fetch_add_seq;
    rotate new_seq.

Definition apply_and_maybe_freeze (key value : bytes) (deleted : bool) : M Sys unit :=
  i ← snapshot_active;
  _ ← on_mem i (if deleted then MemTable.delete key else MemTable.put key value);
  t ← mem_at i;
  o ← eng options;
  if (0 <? flush_threshold_bytes o) && (flush_threshold_bytes o <=? approximate_size t) then
    froze ← freeze_active;
    if froze : bool then upd (fun e => set_flush_tx (S (flush_tx e)) e) else mret tt
  else mret tt.

Definition put (key value : bytes) : M Sys unit :=
  with_lock WalLock "wal lock poisoned"
    (_ ← on_writer (append Put key value);
     o ← eng options;
     _ ← (if sync_per_write o then on_writer sync else mret tt);
     apply_and_maybe_freeze key value false).

Definition delete (key : bytes) : M Sys unit :=
  with_lock WalLock "wal lock poisoned"
    (_ ← on_writer (append Delete key []);
     o ← eng options;
     _ ← (if sync_per_write o then on_writer sync else mret tt);
     apply_and_maybe_freeze key [] true).

(** The search of [get] through frozen memtables, newest first. *)
Fixpoint get_immutables (ps : list PendingImm) (key : bytes) : M Sys (option Entry) :=
  match ps with
  | [] => mret None
  | p :: ps =>
      t ← mem_at (mem p);
      match MemTable.get_entry t key with
      | Some e => mret (Some e)
      | None => get_immutables ps key
      end
  end.

(** Through the tables of a level, newest first. *)
Fixpoint get_level (hs : list nat) (key : bytes) : M Sys (option LookupValue) :=
  match hs with
  | [] => mret None
  | i :: hs =>
      h ← handle_at i;
      if key_ltb key (Manifest.min (meta h)) || key_ltb (Manifest.max (meta h)) key
      then get_level hs key
      else
        r ← open_reader i;
        v ← on_fs (Reader.get r key);
        match v with
        | Some v => mret (Some v)
        | None => get_level hs key
        end
  end.

Fixpoint get_levels (ls : list (list nat)) (key : bytes) : M Sys (option LookupValue) :=
  match ls with
  | [] => mret None
  | hs :: ls =>
      v ← get_level (reverse hs) key;
      match v with
      | Some v => mret (Some v)
      | None => get_levels ls key
      end
  end.

Definition get (key : bytes) : M Sys (option bytes) :=
  p ← eng (is_poisoned StateRw);
  if p : bool then fail (InvalidOp "state lock poisoned")
  else
    st ← eng state;
    match active st with
    | None => panic
    | Some i =>
        t ← mem_at i;
        match MemTable.get_entry t key with
        | Some entry => mret (entry_value entry)
        | None =>
            im ← get_immutables (reverse (immutables st)) key;
            match im with
            | Some entry => mret (entry_value entry)
            | None =>
                v ← get_levels (levels st) key;
                match v with
                | Some (Present v) => mret (Some v)
                | Some Deleted => mret None
                | None => mret None
                end
            end
        end
    end.

Definition flush : M Sys unit :=
  _ ← with_lock WalLock "wal lock poisoned"
        (_ ← on_writer sync;
         freeze_active);
  flush_all_pending.

Definition compact : M Sys unit := compact_all_pending.

(** The last handle is dropped: [Drop] syncs the log, then the writer's own
    destructor runs. *)
Definition drop_engine : M Sys unit :=
  p ← eng (is_poisoned WalLock);
  _ ← (if p : bool then mret tt else ignore (on_writer sync));
  on_writer wal_drop.

(** ** Opening *)

(** The handles of one level of the manifest. *)
Fixpoint open_level (metas : list SstMeta) (hs : list SstHandle) : M Fs (list nat * list SstHandle) :=
  match metas with
  | [] => mret ([], hs)
  | m :: metas =>
      let path := Manifest.name m in
      there ← fs_exists path;
      if negb there then
        fail (Corruption ("manifest references missing sstable " +:+ path))
      else
        '(ids, hs') ← open_level metas (hs ++ [mkSstHandle m path None]);
        mret (length hs :: ids, hs')
  end.

Fixpoint open_levels (ls : list (list SstMeta)) (hs : list SstHandle)
    : M Fs (list (list nat) * list SstHandle) :=
  match ls with
  | [] => mret ([], hs)
  | metas :: ls =>
      '(ids, hs) ← open_level metas hs;
      '(idss, hs) ← open_levels ls hs;
      mret (ids :: idss, hs)
  end.

(** The WAL generations among the directory's names. *)
Fixpoint wal_files (names : list string) : M Fs (list (Z * string)) :=
  match names with
  | [] => mret []
  | n :: names =>
      if negb (valid_utf8 (as_bytes n)) then
        fail (Corruption "non-utf8 file name in engine directory")
      else
        rest ← wal_files names;
        mret (match parse_wal_name n with Some s => (s, n) :: rest | None => rest end)
  end.

Definition replay_file (f : Z * string) : M (Fs * MemTable) unit :=
  r ← on_fs (wal_open f.2);
  _ ← replay_into r;
  mret tt.

(** The re-append of the recovered table. *)
Definition append_entry (kv : bytes * Entry) : M (Fs * WalWriter) unit :=
  let op := if MemTable.deleted kv.2 then Delete else Put in
  let value := if MemTable.deleted kv.2 then [] else MemTable.value kv.2 in
  append op kv.1 value.

Definition max_seq_of (m : Manifest) (wals : list (Z * string)) : Z :=
  foldl (fun acc f => Z.max acc f.1)
    (foldl (fun acc meta => Z.max acc (Manifest.seq meta)) 0 (concat (Manifest.levels m))) wals.

(** [tokio::runtime::Builder::..build()?] *)
Definition runtime_build : M Fs unit := syscall (fun fs => (Ok tt, fs)) nothing.

Definition open_with_options (options : LsmOptions) : M Fs LsmEngineInner :=
  _ ← fs_create_dir_all;
  manifest ← load;
  '(ls, hs) ← open_levels (Manifest.levels manifest) [];
  names ← fs_read_dir;
  wals ← wal_files names;
  let wals := sort_by_key fst wals in
  '(_, table) ← moved MemTable.new (for_each wals replay_file) (mret tt);
  let max_seq := max_seq_of manifest wals in
  wal_seq ← lift (uadd max_seq 1);
  let next := (wal_seq + 1) mod 2 ^ 64 in
  w ← wal_create (wal_name wal_seq);
  '(_, w) ← moved w
    (_ ← (if MemTable.is_empty table then mret tt
          else
            _ ← for_each (MemTable.iter table) append_entry;
            sync);
     _ ← for_each wals (fun f => ignore (on_fs (fs_remove_file f.2)));
     on_fs runtime_build)
    wal_drop;
  mret (mkEngine options (mkEngineState (Some 0%nat) [] ls)
          (mkActiveWal w wal_seq) next 0 [] [table] hs).

(** [LsmEngine::open] *)
Definition open : M Fs LsmEngineInner := open_with_options default_options.
End engine.
