(* ===== verification/Steady.v ===== *)
(** * The engine's operations are steady

    Every operation of the source does the same under a pending stop as without
    it until the stop strikes ([Crash]); the operations that only read leave the
    disk as it is under any faults. *)

From S2P Require Import Prelude Outcome External Fs Crash MemTable Wal WalWriter WalReader.
From S2P Require Import StdVec SstRecord SstIndex Bloom Builder Reader Merge Manifest.
From S2P Require Import Names Engine.

#[export] Instance part_on_file :
  Part (S := Fs * WalWriter) (T := Fs * BufWriter) (fun '(fs, w) => (fs, ww_file w))
    (fun '(fs, f) '(_, w) => (fs, mkWalWriter f (ww_path w) (ww_buf w))).
Proof. split; by repeat intros []. Qed.

Section steady.
Context {C : Crc32} {SM : SkipMap Entry} {FB : FastBloom} {AL : Allocator}.

#[export] Instance part_on_writer :
  Part (S := Fs * LsmEngineInner) (T := Fs * WalWriter) (fun s => (s.1, writer (wal s.2)))
    (fun '(fs, w) s => (fs, set_wal (mkActiveWal w (Engine.seq (wal s.2))) s.2)).
Proof. split; [done|]. by intros ?? [] []. Qed.

(** ** Logs *)

Lemma steady_on_file {A} (m : M (Fs * BufWriter) A) : steady m -> steady (on_file m).
Proof. apply steady_zoom. apply _. Qed.

Lemma steady_wal_create path : steady (wal_create path).
Proof. unfold wal_create. steady_tac. Qed.

Lemma steady_set_buf b : steady (set_buf b).
Proof. apply inert_steady. by intros ? []. Qed.

Lemma steady_append op k v : steady (append op k v).
Proof.
  unfold append. repeat (apply steady_bind; [first [apply steady_set_buf | by apply inert_steady]|intros]).
  apply steady_on_file, steady_bw_write_all.
Qed.

Lemma steady_sync : steady sync.
Proof. apply steady_bind; [|intros _]; apply steady_on_file; auto with steady. Qed.

Lemma steady_wal_drop : steady wal_drop.
Proof. apply steady_on_file, steady_bw_drop. Qed.

Lemma quiet_wal_open path : quiet (wal_open path).
Proof. unfold wal_open. steady_tac. Qed.
Lemma steady_wal_open path : steady (wal_open path).
Proof. unfold wal_open. steady_tac. Qed.
Lemma quiet_scan r : quiet (scan r).
Proof. unfold scan. steady_tac. Qed.
Lemma steady_scan r : steady (scan r).
Proof. unfold scan. steady_tac. Qed.

(** A computation on the part of the state that is not the disk. *)
Lemma inert_zoom_snd {W A} (m : M W A) : inert (S := Fs * W) (zoom snd (fun t s => (s.1, t)) m).
Proof. intros f [fs w]. unfold zoom. cbn. by destruct (m w). Qed.

Hint Resolve steady_wal_create steady_append steady_sync steady_wal_drop steady_wal_open quiet_wal_open
  steady_scan quiet_scan inert_zoom_snd : steady.

Lemma steady_replay_into r : steady (replay_into r).
Proof. unfold replay_into. steady_tac. Qed.
Lemma quiet_replay_into r : quiet (replay_into r).
Proof. unfold replay_into. steady_tac. Qed.

(** ** Tables *)

Lemma steady_build path b : steady (Builder.build path b).
Proof. unfold Builder.build. steady_tac. Qed.

Lemma steady_read_region f a n : steady (read_region f a n).
Proof. unfold read_region. steady_tac. Qed.
Lemma quiet_read_region f a n : quiet (read_region f a n).
Proof. unfold read_region. steady_tac. Qed.
Hint Resolve steady_replay_into quiet_replay_into steady_build steady_read_region quiet_read_region : steady.

Lemma steady_table_open path : steady (Reader.open path).
Proof. unfold Reader.open. steady_tac. Qed.
Lemma quiet_table_open path : quiet (Reader.open path).
Proof. unfold Reader.open. steady_tac. Qed.
Lemma steady_table_get r k : steady (Reader.get r k).
Proof. unfold Reader.get, read_block_at. steady_tac. Qed.
Lemma quiet_table_get r k : quiet (Reader.get r k).
Proof. unfold Reader.get, read_block_at. steady_tac. Qed.
Lemma steady_records r : steady (Reader.records r).
Proof. unfold Reader.records, read_block_at. steady_tac. Qed.
Lemma quiet_records r : quiet (Reader.records r).
Proof. unfold Reader.records, read_block_at. steady_tac. Qed.
Hint Resolve steady_table_open quiet_table_open steady_table_get quiet_table_get steady_records quiet_records : steady.

(** ** The manifest *)

Lemma steady_load : steady load.
Proof. unfold load. steady_tac. Qed.
Lemma quiet_load : quiet load.
Proof. unfold load. steady_tac. Qed.
Lemma steady_write_atomic m : steady (write_atomic m).
Proof. unfold write_atomic. steady_tac; destruct a; steady_tac. Qed.
Hint Resolve steady_load quiet_load steady_write_atomic : steady.

(** ** The engine's locks and heaps *)

Lemma inert_eng {A} (f : LsmEngineInner -> A) : inert (eng f).
Proof. done. Qed.
Lemma inert_upd f : inert (upd f).
Proof. done. Qed.
Lemma inert_read_state : inert read_state.
Proof. apply inert_bind; [done|]. by intros []. Qed.
Lemma inert_mem_at i : inert (mem_at i).
Proof. by apply inert_bind. Qed.
Lemma inert_handle_at i : inert (handle_at i).
Proof. by apply inert_bind. Qed.
Lemma inert_alloc_mem t : inert (alloc_mem t).
Proof. apply inert_bind; [done|]. intros ms. by apply inert_bind. Qed.
Lemma inert_alloc_handle h : inert (alloc_handle h).
Proof. apply inert_bind; [done|]. intros hs. by apply inert_bind. Qed.
Lemma inert_on_mem {A} i (m : M MemTable A) : inert (on_mem i m).
Proof.
  apply inert_bind; [apply inert_mem_at|]. intros t. cbn beta. destruct (m t) as [o t']. by apply inert_bind.
Qed.
Lemma inert_fetch_add_seq : inert fetch_add_seq.
Proof. apply inert_bind; [done|]. intros n. by apply inert_bind. Qed.
Lemma inert_snapshot_active : inert snapshot_active.
Proof. apply inert_bind; [apply inert_read_state|]. intros st. by destruct (active st). Qed.
Hint Resolve inert_eng inert_upd inert_read_state inert_mem_at inert_handle_at inert_alloc_mem
  inert_alloc_handle inert_on_mem inert_fetch_add_seq inert_snapshot_active : steady.

Lemma steady_with_lock {A} l msg (m : M (Fs * LsmEngineInner) A) : steady m -> steady (with_lock l msg m).
Proof.
  intros Hm. unfold with_lock. apply steady_bind; [steady_tac|]. intros [|]; [steady_tac|].
  by apply steady_guarded.
Qed.

Lemma steady_write_state {A} (m : M (Fs * LsmEngineInner) A) : steady m -> steady (write_state m).
Proof.
  intros Hm. unfold write_state. apply steady_bind; [steady_tac|]. intros [|]; [steady_tac|].
  by apply steady_guarded.
Qed.

Lemma quiet_locked {A} l msg (m : M (Fs * LsmEngineInner) A) :
  quiet m -> quiet (with_lock l msg (write_state m)).
Proof.
  intros Hm. unfold with_lock, write_state.
  apply quiet_bind; [by apply inert_quiet|]. intros [|]; [by apply inert_quiet|].
  apply quiet_guarded; [done|]. apply quiet_bind; [by apply inert_quiet|]. intros [|]; [by apply inert_quiet|].
  by apply quiet_guarded.
Qed.

Lemma steady_on_writer {A} (m : M (Fs * WalWriter) A) : steady m -> steady (on_writer m).
Proof. apply steady_zoom. apply _. Qed.

Ltac engine_step :=
  lazymatch goal with
  | |- steady (with_lock _ _ _) => apply steady_with_lock
  | |- steady (write_state _) => apply steady_write_state
  | |- steady (on_writer _) => apply steady_on_writer
  | |- _ => steady_step
  end.
Ltac engine_tac := repeat (engine_step; cbn zeta).

(** ** The engine's operations *)

Lemma steady_open_reader i : steady (open_reader i).
Proof. unfold open_reader. engine_tac. Qed.
Lemma quiet_open_reader i : quiet (open_reader i).
Proof. unfold open_reader. steady_tac. Qed.
Hint Resolve steady_open_reader quiet_open_reader : steady.

Lemma steady_write_table b tmp final : steady (write_table b tmp final).
Proof. unfold write_table. engine_tac. Qed.
Lemma inert_commit_flush i s w : inert (commit_flush i s w).
Proof.
  unfold commit_flush. repeat (apply inert_bind; [done|intros]; cbn zeta). done.
Qed.
Hint Resolve steady_write_table inert_commit_flush : steady.

Lemma steady_build_pending p n : steady (build_pending p n).
Proof. unfold build_pending. engine_tac. Qed.
Hint Resolve steady_build_pending : steady.
Lemma steady_flush_pending p : steady (flush_pending p).
Proof. unfold flush_pending, join_table. engine_tac. Qed.
Hint Resolve steady_flush_pending : steady.

Lemma inert_manifest_levels ls : forall l m, inert (manifest_levels l ls m).
Proof.
  induction ls as [|hs ls IH]; intros l m; [done|]. cbn [manifest_levels]. apply inert_bind; [|intros; apply IH].
  revert m. induction hs as [|i hs IHh]; intros m; [done|]. cbn [manifest_level].
  apply inert_bind; [apply inert_handle_at|]. intros h. cbn zeta. apply inert_bind; [done|]. intros m'. apply IHh.
Qed.
Hint Resolve inert_manifest_levels : steady.

Lemma steady_write_manifest : steady write_manifest.
Proof. unfold write_manifest. engine_tac. Qed.
Hint Resolve steady_write_manifest : steady.

Lemma steady_drain fuel : forall flushed, steady (drain fuel flushed).
Proof.
  induction fuel as [|fuel IH]; intros flushed; [by apply inert_steady|]. cbn [drain].
  apply steady_bind; [steady_tac|]. intros st. destruct (head (immutables st)); [|steady_tac].
  apply steady_bind; [steady_tac|]. intros _. apply IH.
Qed.
Hint Resolve steady_drain : steady.

Lemma steady_flush_all_pending : steady flush_all_pending.
Proof. unfold flush_all_pending. engine_tac. Qed.
Hint Resolve steady_flush_all_pending : steady.

Lemma inert_commit_compact o : inert (commit_compact o).
Proof. unfold commit_compact. by apply inert_bind. Qed.
Lemma steady_read_run i : steady (read_run i).
Proof. unfold read_run. engine_tac. Qed.
Lemma quiet_read_run i : quiet (read_run i).
Proof. unfold read_run. steady_tac. Qed.
Lemma steady_question {A} (r : LsmError + A) : steady (S := Fs * LsmEngineInner) (question r).
Proof. apply inert_steady. by destruct r. Qed.
Hint Resolve inert_commit_compact steady_read_run quiet_read_run steady_question : steady.

Lemma steady_build_merged rs n : steady (build_merged rs n).
Proof. unfold build_merged. engine_tac. Qed.
Hint Resolve steady_build_merged : steady.
Lemma steady_write_merged rs : steady (write_merged rs).
Proof. unfold write_merged. engine_tac. Qed.
Hint Resolve steady_write_merged : steady.

Lemma steady_compact_all_pending : steady compact_all_pending.
Proof. unfold compact_all_pending. engine_tac. Qed.
Lemma steady_compact_needed : steady compact_needed.
Proof. unfold compact_needed. engine_tac. Qed.
Hint Resolve steady_compact_all_pending steady_compact_needed : steady.

Lemma steady_worker_tick : steady worker_tick.
Proof. unfold worker_tick. engine_tac. Qed.

Lemma steady_rotate n : steady (rotate n).
Proof. unfold rotate. engine_tac. Qed.
Hint Resolve steady_rotate : steady.
Lemma steady_freeze_active : steady freeze_active.
Proof. unfold freeze_active, rotate. engine_tac. Qed.
Hint Resolve steady_freeze_active : steady.
Lemma steady_apply k v d : steady (apply_and_maybe_freeze k v d).
Proof. unfold apply_and_maybe_freeze. engine_tac. Qed.
Hint Resolve steady_apply : steady.
Lemma steady_put k v : steady (put k v).
Proof. unfold put. engine_tac. Qed.
Lemma steady_delete k : steady (delete k).
Proof. unfold delete. engine_tac. Qed.
Lemma steady_flush : steady flush.
Proof. unfold flush. engine_tac. Qed.
Lemma steady_compact : steady compact.
Proof. apply steady_compact_all_pending. Qed.
Lemma steady_drop_engine : steady drop_engine.
Proof. unfold drop_engine. engine_tac. Qed.

Lemma quiet_get k : quiet (get k).
Proof.
  assert (forall hs, quiet (get_level hs k)) as Hl.
  { induction hs as [|i hs IH]; [done|]. cbn [get_level]. steady_tac; apply IH. }
  assert (forall ls, quiet (get_levels ls k)) as Hls.
  { induction ls as [|hs ls IH]; [done|]. cbn [get_levels]. apply quiet_bind; [apply Hl|]. steady_tac; apply IH. }
  assert (forall ps, inert (get_immutables ps k)) as Hi.
  { induction ps as [|p ps IH]; [done|]. cbn [get_immutables]. apply inert_bind; [apply inert_mem_at|].
    intros t. by destruct (get_entry t k). }
  unfold get. steady_tac; auto.
Qed.

Lemma steady_get k : steady (get k).
Proof.
  assert (forall hs, steady (get_level hs k)) as Hl.
  { induction hs as [|i hs IH]; [steady_tac|]. cbn [get_level]. steady_tac; apply IH. }
  assert (forall ls, steady (get_levels ls k)) as Hls.
  { induction ls as [|hs ls IH]; [steady_tac|]. cbn [get_levels]. apply steady_bind; [apply Hl|]. steady_tac; apply IH. }
  assert (forall ps, inert (get_immutables ps k)) as Hi.
  { induction ps as [|p ps IH]; [done|]. cbn [get_immutables]. apply inert_bind; [apply inert_mem_at|].
    intros t. by destruct (get_entry t k). }
  unfold get. steady_tac; auto.
Qed.

(** ** Opening *)

Lemma steady_open_levels ls : forall hs, steady (open_levels ls hs) /\ quiet (open_levels ls hs).
Proof.
  assert (forall metas hs, steady (open_level metas hs) /\ quiet (open_level metas hs)) as Hl.
  { induction metas as [|m metas IH]; intros hs; [split; steady_tac|]. cbn [open_level].
    split; steady_tac; apply IH. }
  induction ls as [|metas ls IH]; intros hs; [split; steady_tac|]. cbn [open_levels]. split.
  - apply steady_bind; [apply Hl|]. intros [ids hs']. apply steady_bind; [apply IH|]. intros []. steady_tac.
  - apply quiet_bind; [apply Hl|]. intros [ids hs']. apply quiet_bind; [apply IH|]. intros []. steady_tac.
Qed.

Lemma inert_wal_files names : inert (wal_files names).
Proof.
  induction names as [|n names IH]; [done|]. cbn [wal_files]. destruct (negb _); [done|]. by apply inert_bind.
Qed.

Lemma steady_replay_file f : steady (replay_file f).
Proof. unfold replay_file. steady_tac. Qed.
Lemma quiet_replay_file f : quiet (replay_file f).
Proof. unfold replay_file. steady_tac. Qed.
Lemma steady_append_entry kv : steady (append_entry kv).
Proof. unfold append_entry. steady_tac. Qed.
Lemma steady_runtime_build : steady runtime_build.
Proof. apply steady_syscall. syscall_tac. Qed.

Lemma steady_open_with_options o : steady (open_with_options o).
Proof.
  unfold open_with_options. pose proof (fun ls hs => proj1 (steady_open_levels ls hs)) as Hls.
  pose proof steady_replay_file. pose proof steady_append_entry. pose proof steady_runtime_build.
  pose proof inert_wal_files.
  apply steady_bind; [steady_tac|]. intros _. apply steady_bind; [steady_tac|]. intros m.
  apply steady_bind; [apply Hls|]. intros [ls hs]. apply steady_bind; [steady_tac|]. intros names.
  apply steady_bind; [apply inert_steady, inert_wal_files|]. intros wals. cbn zeta. engine_tac; auto.
Qed.
End steady.

#[export] Hint Resolve inert_eng inert_upd inert_read_state inert_mem_at inert_handle_at inert_alloc_mem
  inert_alloc_handle inert_fetch_add_seq inert_snapshot_active inert_commit_flush inert_commit_compact : steady.
#[export] Hint Resolve quiet_open_reader quiet_table_get quiet_read_run : steady.
