(* ===== verification/EngineSpec.v ===== *)
(** * What the engine promises: its view, its invariant and the file system
    changes of its operations *)

From S2P Require Import Prelude Outcome External Fs MemTable Wal WalWriter WalReader.
From S2P Require Import StdVec SstRecord SstIndex Bloom Builder Reader Merge Manifest.
From S2P Require Import Names Engine.

(** ** File system changes by name *)

(** A file that is reached through an open handle only. *)
Definition orphan (fs : Fs) (i : nat) : Prop :=
  (i < next_ino fs)%nat /\ forall n, dirents fs !! n <> Some i.

(** [keeps N fs fs']: a fault-free change that leaves every file outside [N]
    as it is, those without a name included. *)
Record keeps (N : string -> Prop) (fs fs' : Fs) : Prop := {
  kp_faults : faults fs' = [];
  kp_wf : fs_wf fs';
  kp_next : (next_ino fs <= next_ino fs')%nat;
  kp_kept : forall n, ~ N n -> kept n fs fs';
  kp_orphans : forall i, orphan fs i -> orphan fs' i /\ inode_of fs' i = inode_of fs i;
}.

Lemma kept_refl n fs : kept n fs fs.
Proof. done. Qed.

Lemma keeps_refl N fs : faults fs = [] -> fs_wf fs -> keeps N fs fs.
Proof. intros Hf Hw. split; try done. Qed.

Lemma keeps_trans N fs1 fs2 fs3 : keeps N fs1 fs2 -> keeps N fs2 fs3 -> keeps N fs1 fs3.
Proof.
  intros [F1 W1 X1 K1 O1] [F2 W2 X2 K2 O2]. split; try done; [lia|..].
  - intros n Hn. eapply kept_trans; [by apply K1|by apply K2].
  - intros i [Hi ->%eq_sym]%O1. by apply O2.
Qed.

Lemma keeps_mono (N N' : string -> Prop) fs fs' :
  (forall n, N n -> N' n) -> keeps N fs fs' -> keeps N' fs fs'.
Proof. intros H [F W X K O]. split; try done. intros n Hn. apply K. intros ?. by apply Hn, H. Qed.

Lemma kept_file_of n fs fs' : kept n fs fs' -> file_of fs' n = file_of fs n.
Proof.
  intros [Hd Hi]. unfold file_of. rewrite Hd. destruct (dirents fs !! n) as [i|] eqn:E; [|done].
  simpl. unfold data_of. by rewrite (Hi i).
Qed.

Lemma kept_data n i fs fs' : kept n fs fs' -> dirents fs !! n = Some i ->
  dirents fs' !! n = Some i /\ data_of fs' i = data_of fs i.
Proof. intros [Hd Hi] Hn. split; [congruence|]. unfold data_of. by rewrite (Hi i). Qed.

Lemma keeps_wrote name ino d fs fs' :
  fs_wf fs -> wrote name ino d fs fs' -> keeps (eq name) fs fs'.
Proof.
  intros Hwf Hw. pose proof (wrote_wf _ _ _ _ _ Hw Hwf) as Hwf'. destruct Hw as [H1 H2 H3 H4 H5 H6].
  destruct Hwf as [Hlt Hinj]. split; try done; [lia|..].
  - intros n Hn. split; [by rewrite H1, lookup_insert_ne|].
    intros i Hi. apply H4. intros ->. destruct H3 as [H3|[_ ->]].
    + by apply Hn, (Hinj _ _ ino).
    + apply Hlt in Hi. lia.
  - intros i [Hi Hu]. assert (i <> ino) as Hne by (intros ->; destruct H3 as [H3|[_ ->]]; [by eapply Hu|lia]).
    split; [split; [lia|]|by apply H4]. intros n. rewrite H1, lookup_insert. case_decide; [congruence|apply Hu].
Qed.

Lemma keeps_touches name ino fs fs' :
  fs_wf fs -> dirents fs !! name = Some ino -> touches ino fs fs' -> keeps (eq name) fs fs'.
Proof.
  intros [Hlt Hinj] Hn (D & X & F & I). split; try done; [|lia|..].
  - split; rewrite D; [rewrite X; apply Hlt|apply Hinj].
  - intros n Hne. split; [by rewrite D|]. intros i Hi. apply I. intros ->.
    by apply Hne, (Hinj _ _ ino).
  - intros i [Hi Hu]. split; [split; [by rewrite X|intros n; rewrite D; apply Hu]|].
    apply I. intros ->. by eapply Hu.
Qed.

Lemma keeps_rename from to ino fs :
  faults fs = [] -> fs_wf fs -> dirents fs !! from = Some ino ->
  keeps (fun n => n = from \/ n = to) fs (set_dirents (<[to := ino]> (base.delete from (dirents fs))) fs).
Proof.
  intros Hf Hwf Hd. split; [done|by apply rename_wf|done|..].
  - intros n Hn. split; [|done]. cbn. by rewrite lookup_insert_ne, lookup_delete_ne by naive_solver.
  - intros i [Hi Hu]. split; [split; [done|]|done]. intros n. cbn. rewrite lookup_insert, lookup_delete.
    case_decide; [intros [= ->]; by eapply Hu|]. case_decide; [done|apply Hu].
Qed.

Lemma keeps_remove name fs :
  faults fs = [] -> fs_wf fs -> keeps (eq name) fs (set_dirents (base.delete name (dirents fs)) fs).
Proof.
  intros Hf Hwf. split; [done|by apply remove_wf|done|..].
  - intros n Hn. split; [|done]. cbn. by rewrite lookup_delete_ne.
  - intros i [Hi Hu]. split; [split; [done|]|done]. intros n. cbn. rewrite lookup_delete.
    case_decide; [done|apply Hu].
Qed.

(** ** The view *)

(** The first source that has an entry. *)
Fixpoint first_some {K A} (sources : list (K -> option A)) (k : K) : option A :=
  match sources with
  | [] => None
  | f :: sources => match f k with Some a => Some a | None => first_some sources k end
  end.

Lemma first_some_app {K A} (l1 l2 : list (K -> option A)) k :
  first_some (l1 ++ l2) k = match first_some l1 k with Some a => Some a | None => first_some l2 k end.
Proof. induction l1 as [|f l1 IH]; simpl; [done|]. by destruct (f k). Qed.

Lemma first_some_ext {K A} (l1 l2 : list (K -> option A)) k :
  Forall2 (fun f g => f k = g k) l1 l2 -> first_some l1 k = first_some l2 k.
Proof. induction 1 as [|f g l1 l2 H _ IH]; simpl; [done|]. rewrite H. by destruct (g k). Qed.

Section spec.
Context {C : Crc32} {SM : SkipMap Entry} {FB : FastBloom} {AL : Allocator}.

(** The entry of a key in a table of records. *)
Definition record_entry (rs : list record) (k : bytes) : option Entry :=
  (fun '(v, d) => mkEntry v d) <$> assoc k (as_assoc rs).

Definition mem_entry (ms : list MemTable) (i : nat) (k : bytes) : option Entry :=
  t ← ms !! i; get_entry t k.

(** The sources of a lookup, newest first; [T] gives the records of each
    table handle. *)
Definition table_sources (T : nat -> list record) (ls : list (list nat)) : list (bytes -> option Entry) :=
  (fun i => record_entry (T i)) <$> concat (reverse <$> ls).

Definition mem_sources (ms : list MemTable) (st : EngineState) : list (bytes -> option Entry) :=
  (match active st with Some a => [mem_entry ms a] | None => [] end) ++
  ((fun p => mem_entry ms (mem p)) <$> reverse (immutables st)).

Definition sources (e : LsmEngineInner) (T : nat -> list record) : list (bytes -> option Entry) :=
  mem_sources (mems e) (state e) ++ table_sources T (levels (state e)).

(** The key-value map a client sees. *)
Definition view (e : LsmEngineInner) (T : nat -> list record) (k : bytes) : option bytes :=
  first_some (sources e T) k ≫= entry_value.

(** ** The invariant *)

(** A log that stands for a memtable. *)
Definition wal_holds (log : bytes) (t : MemTable) : Prop :=
  exists es, log = frames es /\ Forall encodable es /\
    forall k, get_entry t k = last_write (entry_mutation <$> es) k.

(** The memtables: the active one and the frozen ones are different objects. *)
Definition live_mems (st : EngineState) (a : nat) : list nat := a :: (mem <$> immutables st).

Record mems_ok (e : LsmEngineInner) (a : nat) : Prop := {
  mo_active : active (state e) = Some a;
  mo_alloc : Forall (fun i => (i < length (mems e))%nat) (live_mems (state e) a);
  mo_distinct : NoDup (live_mems (state e) a);
}.

(** A table handle at level [l] whose file holds the records [rs]. *)
Record handle_ok (fs : Fs) (l : nat) (h : SstHandle) (rs : list record) : Prop := {
  ho_name : path h = sst_name l (Manifest.seq (meta h));
  ho_meta : Manifest.name (meta h) = path h;
  ho_level : Manifest.level (meta h) = Z.of_nat l;
  ho_seq : 0 <= Manifest.seq (meta h) <= u64_max;
  ho_min : Some (Manifest.min (meta h)) = rkey <$> head rs;
  ho_max : Some (Manifest.max (meta h)) = rkey <$> last rs;
  ho_file : exists ino, dirents fs !! path h = Some ino /\ table_of (data_of fs ino) rs /\
    match reader h with
    | None => True
    | Some (inl _) => False
    | Some (inr r) => reads r (data_of fs ino) rs /\ sr_file r = ino
    end;
}.

(** The sequence numbers of a list of handles. *)
Definition seq_of (hs : list SstHandle) (i : nat) : Z :=
  match hs !! i with Some h => Manifest.seq (meta h) | None => 0 end.

Record tables_ok (fs : Fs) (e : LsmEngineInner) (T : nat -> list record) : Prop := {
  ta_levels : (length (levels (state e)) <= 2)%nat;
  ta_handles : forall l ids i, levels (state e) !! l = Some ids -> i ∈ ids ->
    exists h, handles e !! i = Some h /\ handle_ok fs l h (T i) /\ Manifest.seq (meta h) < next_seq e;
  ta_order : forall l ids, levels (state e) !! l = Some ids ->
    StronglySorted (fun i j => seq_of (handles e) i < seq_of (handles e) j) ids;
  ta_newer : forall ids0 ids1 i j, levels (state e) !! 0%nat = Some ids0 ->
    levels (state e) !! 1%nat = Some ids1 -> i ∈ ids0 -> j ∈ ids1 ->
    seq_of (handles e) j < seq_of (handles e) i;
}.

(** The log generations. *)
Definition live_wals (e : LsmEngineInner) : list Z :=
  (wal_seq <$> immutables (state e)) ++ [seq (wal e)].

Record wals_ok (fs : Fs) (e : LsmEngineInner) (a : nat) : Prop := {
  wo_active : exists t, mems e !! a = Some t /\
    dirents fs !! wal_name (seq (wal e)) = Some (bw_file (ww_file (writer (wal e)))) /\
    wal_holds (log_of fs (writer (wal e))) t;
  wo_frozen : forall p, p ∈ immutables (state e) ->
    exists t ino, mems e !! mem p = Some t /\ iter t <> [] /\
      dirents fs !! wal_name (wal_seq p) = Some ino /\ wal_holds (data_of fs ino) t;
  wo_sorted : StronglySorted Z.lt (live_wals e);
  wo_range : Forall (fun s => 0 <= s < next_seq e) (live_wals e);
  wo_only : forall n s, is_Some (dirents fs !! n) -> parse_wal_name n = Some s ->
    n = wal_name s /\ s ∈ live_wals e;
}.

(** The metadata of the live tables. *)
Definition meta_at (hs : list SstHandle) (i : nat) : SstMeta :=
  match hs !! i with Some h => meta h | None => mkSstMeta 0 0 EmptyString [] [] end.
Definition live_metas (e : LsmEngineInner) : list (list SstMeta) :=
  (fun ids : list nat => meta_at (handles e) <$> ids) <$> levels (state e).

(** The manifest on disk lists the live tables. *)
Definition manifest_current (fs : Fs) (e : LsmEngineInner) : Prop :=
  match file_of fs MANIFEST_FILE_NAME with
  | None => concat (levels (state e)) = []
  | Some b => b = manifest_bytes (mkManifest (trim (live_metas e)))
  end.

(** No acknowledged write is still in the log writer's buffer. *)
Definition unbuffered (e : LsmEngineInner) : Prop := bw_buf (ww_file (writer (wal e))) = [].

(** The log writer and the options are those of before. *)
Definition same_log (e e' : LsmEngineInner) : Prop := wal e' = wal e /\ options e' = options e.

Lemma same_log_trans e1 e2 e3 : same_log e1 e2 -> same_log e2 e3 -> same_log e1 e3.
Proof. unfold same_log. intuition congruence. Qed.

Lemma same_log_unbuffered e e' : same_log e e' -> unbuffered e -> unbuffered e'.
Proof. intros [Hw _]. unfold unbuffered. by rewrite Hw. Qed.

Record engine_ok (fs : Fs) (e : LsmEngineInner) (T : nat -> list record) (a : nat) : Prop := {
  eo_faults : faults fs = [];
  eo_fs : fs_wf fs;
  eo_utf8 : forall n, is_Some (dirents fs !! n) -> valid_utf8 (as_bytes n) = true;
  eo_poison : poisoned e = [];
  eo_next : 0 < next_seq e <= u64_max;
  eo_mems : mems_ok e a;
  eo_tables : tables_ok fs e T;
  eo_wals : wals_ok fs e a;
  eo_manifest : manifest_current fs e;
}.

(** ** The invariant while a flush is under way

    [flushed] are the generations whose memtables are in tables already; the
    manifest is not current. *)
Record wals_mid (fs : Fs) (e : LsmEngineInner) (a : nat) (flushed : list Z) : Prop := {
  wm_active : exists t, mems e !! a = Some t /\
    dirents fs !! wal_name (seq (wal e)) = Some (bw_file (ww_file (writer (wal e)))) /\
    wal_holds (log_of fs (writer (wal e))) t;
  wm_frozen : forall p, p ∈ immutables (state e) ->
    exists t ino, mems e !! mem p = Some t /\ iter t <> [] /\
      dirents fs !! wal_name (wal_seq p) = Some ino /\ wal_holds (data_of fs ino) t;
  wm_sorted : StronglySorted Z.lt (flushed ++ live_wals e);
  wm_range : Forall (fun s => 0 <= s < next_seq e) (flushed ++ live_wals e);
  wm_only : forall n s, is_Some (dirents fs !! n) -> parse_wal_name n = Some s ->
    n = wal_name s /\ s ∈ flushed ++ live_wals e;
}.

Record mid_ok (fs : Fs) (e : LsmEngineInner) (T : nat -> list record) (a : nat) (flushed : list Z) : Prop := {
  md_faults : faults fs = [];
  md_fs : fs_wf fs;
  md_utf8 : forall n, is_Some (dirents fs !! n) -> valid_utf8 (as_bytes n) = true;
  md_poison : poisoned e = [];
  md_next : 0 < next_seq e <= u64_max;
  md_mems : mems_ok e a;
  md_tables : tables_ok fs e T;
  md_wals : wals_mid fs e a flushed;
}.

Lemma mid_of_ok fs e T a : engine_ok fs e T a -> mid_ok fs e T a [].
Proof. intros [F1 F2 F3 F4 F5 F6 F7 [W1 W2 W3 W4 W5] F9]. by split; [..|split]. Qed.

Lemma ok_of_mid fs e T a : mid_ok fs e T a [] -> manifest_current fs e -> engine_ok fs e T a.
Proof. intros [F1 F2 F3 F4 F5 F6 F7 [W1 W2 W3 W4 W5]] F9. by split; [..|split|]. Qed.

(** Both halves of the invariant under a change of the engine. *)
Lemma ok_by_mid fs e T a fs' e' T' a' :
  engine_ok fs e T a -> (mid_ok fs e T a [] -> mid_ok fs' e' T' a' []) ->
  (manifest_current fs e -> manifest_current fs' e') -> engine_ok fs' e' T' a'.
Proof. intros Hok Hmid Hman. apply ok_of_mid; [by apply Hmid, mid_of_ok|by apply Hman, Hok]. Qed.
End spec.
