(* ===== verification/EngineGet.v ===== *)
(** * Reading through the engine: [get] and the reader cache *)

From S2P Require Import Prelude Outcome External Fs MemTable Wal WalWriter WalReader.
From S2P Require Import StdVec SstRecord SstIndex Bloom Builder Reader Merge Manifest.
From S2P Require Import Names Engine EngineSpec.

Section get.
Context {C : Crc32} {SM : SkipMap Entry} {FB : FastBloom} {AL : Allocator}.

Lemma handle_at_ok fs e i h : handles e !! i = Some h -> handle_at i (fs, e) = (Ok h, (fs, e)).
Proof. intros H. unfold handle_at, eng. mstep. unfold lift. cbn [snd]. by rewrite (vec_at_ok _ _ _ H). Qed.

Lemma mem_at_ok fs e i t : mems e !! i = Some t -> mem_at i (fs, e) = (Ok t, (fs, e)).
Proof. intros H. unfold mem_at, eng. mstep. unfold lift. cbn [snd]. by rewrite (vec_at_ok _ _ _ H). Qed.

(** ** Changes of the reader cache *)

Definition same_handle (h h' : SstHandle) : Prop := meta h' = meta h /\ path h' = path h.

(** Only the cached readers of the handles differ. *)
Definition cached (e e' : LsmEngineInner) : Prop :=
  e' = set_handles (handles e') e /\ Forall2 same_handle (handles e) (handles e').

Lemma same_handle_refl h : same_handle h h.
Proof. done. Qed.

Lemma cached_refl e : cached e e.
Proof. split; [by destruct e|]. apply Forall2_same_length_lookup_2; [done|]. intros. by simplify_eq. Qed.

Lemma cached_trans e1 e2 e3 : cached e1 e2 -> cached e2 e3 -> cached e1 e3.
Proof.
  intros [H1 F1] [H2 F2]. split; [by rewrite H2, H1|].
  apply Forall2_same_length_lookup_2.
  { by rewrite (Forall2_length _ _ _ F1), (Forall2_length _ _ _ F2). }
  intros i h1 h3 Hi1 Hi3. destruct (Forall2_lookup_l _ _ _ _ _ F1 Hi1) as (h2 & Hi2 & [A1 A2]).
  destruct (Forall2_lookup_l _ _ _ _ _ F2 Hi2) as (h & Hi & [B1 B2]). simplify_eq. split; congruence.
Qed.

Lemma cached_seq_of e e' i : cached e e' -> seq_of (handles e') i = seq_of (handles e) i.
Proof.
  intros [_ F]. unfold seq_of. destruct (handles e !! i) as [h|] eqn:E.
  - destruct (Forall2_lookup_l _ _ _ _ _ F E) as (h' & -> & [-> _]). done.
  - destruct (handles e' !! i) as [h'|] eqn:E'; [|done].
    destruct (Forall2_lookup_r _ _ _ _ _ F E') as (h & ? & _). congruence.
Qed.

Lemma cached_meta_at e e' i : cached e e' -> meta_at (handles e') i = meta_at (handles e) i.
Proof.
  intros [_ F]. unfold meta_at. destruct (handles e !! i) as [h|] eqn:E.
  - destruct (Forall2_lookup_l _ _ _ _ _ F E) as (h' & -> & [-> _]). done.
  - destruct (handles e' !! i) as [h'|] eqn:E'; [|done].
    destruct (Forall2_lookup_r _ _ _ _ _ F E') as (h & ? & _). congruence.
Qed.

Lemma cached_state e e' : cached e e' -> state e' = state e /\ mems e' = mems e /\ wal e' = wal e /\
  next_seq e' = next_seq e /\ options e' = options e /\ flush_tx e' = flush_tx e /\ poisoned e' = poisoned e.
Proof. intros [-> _]. done. Qed.

Lemma cached_view e e' T k : cached e e' -> view e' T k = view e T k.
Proof. intros [-> _]. done. Qed.

Lemma cached_live_metas e e' : cached e e' -> live_metas e' = live_metas e.
Proof.
  intros Hc. unfold live_metas. destruct (cached_state _ _ Hc) as (-> & _). apply list_fmap_ext.
  intros i ids _. apply list_fmap_ext. intros j id _. by apply cached_meta_at.
Qed.

Lemma cached_manifest fs e e' : cached e e' -> manifest_current fs e -> manifest_current fs e'.
Proof.
  intros Hc. unfold manifest_current. rewrite (cached_live_metas _ _ Hc).
  by destruct (cached_state _ _ Hc) as (-> & _).
Qed.

(** ** Live handles *)

Definition live (e : LsmEngineInner) (l i : nat) : Prop :=
  exists ids, levels (state e) !! l = Some ids /\ i ∈ ids.

Lemma live_handle fs e T a l i :
  engine_ok fs e T a -> live e l i ->
  exists h, handles e !! i = Some h /\ handle_ok fs l h (T i) /\ Manifest.seq (meta h) < next_seq e.
Proof. intros Hok (ids & Hl & Hi). by eapply (ta_handles _ _ _ (eo_tables _ _ _ _ Hok)). Qed.

(** A handle whose cached reader changed. *)
Definition recache (h : SstHandle) (x : string + SsTableReader) : SstHandle :=
  mkSstHandle (meta h) (path h) (Some x).

Lemma recached e i h x :
  handles e !! i = Some h -> cached e (set_handles (<[i := recache h x]> (handles e)) e).
Proof.
  intros Hh. split; [done|]. cbn. apply Forall2_same_length_lookup_2; [by rewrite length_insert|].
  intros j h1 h2 H1. destruct (decide (i = j)) as [->|Hne].
  - rewrite list_lookup_insert_eq by (by eapply lookup_lt_Some). intros [= <-]. by simplify_eq.
  - rewrite list_lookup_insert_ne by done. intros H2. by simplify_eq.
Qed.

Lemma recached_tables fs e T i h x :
  tables_ok fs e T -> handles e !! i = Some h ->
  (forall l, handle_ok fs l h (T i) -> handle_ok fs l (recache h x) (T i)) ->
  tables_ok fs (set_handles (<[i := recache h x]> (handles e)) e) T.
Proof.
  intros [T1 T2 T3 T4] Hh Hx. pose proof (recached e i h x Hh) as Hc.
  set (e' := set_handles _ e) in *. split; [done| | |].
  - intros l' ids j Hl Hj. destruct (T2 l' ids j Hl Hj) as (h' & Hh' & Hok' & Hlt).
    destruct (decide (i = j)) as [<-|Hne].
    + rewrite Hh in Hh'. injection Hh' as <-. exists (recache h x). split_and!; [|by apply Hx|done].
      cbn. by rewrite list_lookup_insert_eq by (by eapply lookup_lt_Some).
    + exists h'. cbn. by rewrite list_lookup_insert_ne.
  - intros l' ids Hl. eapply StronglySorted_impl; [|by apply (T3 l')].
    intros y z. cbn beta. by rewrite !(cached_seq_of e e').
  - intros ids0 ids1 y z Hl0 Hl1 Hy Hz. rewrite !(cached_seq_of e e') by done. by eapply T4.
Qed.

Lemma recached_mid fs e T a fl i h x :
  mid_ok fs e T a fl -> handles e !! i = Some h ->
  (forall l, handle_ok fs l h (T i) -> handle_ok fs l (recache h x) (T i)) ->
  mid_ok fs (set_handles (<[i := recache h x]> (handles e)) e) T a fl.
Proof.
  intros [H1 H2 H3 H4 H5 H6 H7 H8] Hh Hx. split; try done.
  - destruct H6. by split.
  - by apply recached_tables.
  - destruct H8. by split.
Qed.

(** The file of a handle holds what its new reader reads. *)
Lemma recache_handle fs l h rs r :
  reads r (data_of fs (sr_file r)) rs -> dirents fs !! path h = Some (sr_file r) ->
  handle_ok fs l h rs -> handle_ok fs l (recache h (inr r)) rs.
Proof.
  intros Hr Hd [A1 A2 A3 A4 A5 A6 (ino & A7 & A8 & _)]. split; try done.
  exists ino. cbn. assert (ino = sr_file r) as -> by congruence. done.
Qed.

(** The invariant after a handle's reader has been cached. *)
Lemma cache_ok fs e T a i h r :
  engine_ok fs e T a -> handles e !! i = Some h ->
  reads r (data_of fs (sr_file r)) (T i) -> dirents fs !! path h = Some (sr_file r) ->
  let e' := set_handles (<[i := recache h (inr r)]> (handles e)) e in
  cached e e' /\ engine_ok fs e' T a.
Proof.
  intros Hok Hh Hr Hd e'. pose proof (recached e i h (inr r) Hh) as Hc. split; [done|].
  apply (ok_by_mid _ _ _ _ _ _ _ _ Hok).
  - intros Hm. apply recached_mid; [done..|]. intros l. by apply recache_handle.
  - by apply cached_manifest.
Qed.

Lemma open_reader_ok fs e T a l i :
  engine_ok fs e T a -> live e l i ->
  exists r e', open_reader i (fs, e) = (Ok r, (fs, e')) /\ cached e e' /\ engine_ok fs e' T a /\
    reads r (data_of fs (sr_file r)) (T i).
Proof.
  intros Hok Hlive. destruct (live_handle _ _ _ _ _ _ Hok Hlive) as (h & Hh & Hho & _).
  destruct (ho_file _ _ _ _ Hho) as (ino & Hd & Ht & Hr).
  pose proof (handle_at_ok fs e i h Hh) as Hat.
  unfold open_reader. rewrite (M_bind_ok _ _ _ _ _ Hat).
  destruct (reader h) as [[msg|r]|] eqn:Er; [done| |].
  - destruct Hr as [Hr <-]. mstep. exists r, e. split_and!; [done|apply cached_refl|done|done].
  - destruct (Reader.open_ok (path h) ino _ (T i) fs (eo_faults _ _ _ _ Hok) Hd eq_refl Ht)
      as (r & Hopen & Hrd & Hf & _).
    subst ino.
    destruct (cache_ok fs e T a i h r Hok Hh Hrd Hd) as [Hc Hok'].
    exists r. eexists. split; [|split; [exact Hc|split; [exact Hok'|exact Hrd]]].
    assert (try_ (on_fs (Reader.open (path h))) (fs, e) = (Ok (inr r), (fs, e))) as Hrun
      by (apply try_ok; unfold on_fs, zoom; cbn [fst snd]; by rewrite Hopen).
    rewrite M_bind_assoc. rewrite (M_bind_ok _ _ _ _ _ Hrun). cbn beta zeta.
    rewrite M_bind_assoc. mstep. mstep. done.
Qed.

(** ** Lookups *)

Definition entry_lookup (e : Entry) : LookupValue :=
  if deleted e then Deleted else Present (MemTable.value e).

(** What a list of table sources answers. *)
Definition found (sources : list (bytes -> option Entry)) (k : bytes) : option LookupValue :=
  entry_lookup <$> first_some sources k.

Lemma lookup_record_entry rs k : Reader.lookup rs k = entry_lookup <$> record_entry rs k.
Proof.
  unfold Reader.lookup, record_entry. by destruct (assoc k (as_assoc rs)) as [[v []]|].
Qed.

(** A key outside the key range of a table has no entry in it. *)
Lemma outside_keys h rs k :
  rs_sorted rs -> Some (Manifest.min (meta h)) = rkey <$> head rs ->
  Some (Manifest.max (meta h)) = rkey <$> last rs ->
  key_ltb k (Manifest.min (meta h)) || key_ltb (Manifest.max (meta h)) k = true ->
  record_entry rs k = None.
Proof.
  intros Hs Hmin Hmax Hout. unfold record_entry.
  apply orb_true_iff in Hout as [Hlt%key_ltb_lt|Hlt%key_ltb_lt].
  - rewrite assoc_gt; [done|]. intros r Hr. destruct rs as [|r0 rs]; [done|].
    injection Hmin as Hmin. rewrite Hmin in Hlt.
    apply rs_sorted_cons in Hs as [_ Hgt]. apply elem_of_cons in Hr as [->|Hr]; [done|].
    eapply key_lt_trans; [exact Hlt|by apply Hgt].
  - rewrite assoc_lt; [done|]. intros r Hr. destruct rs as [|r0 rs _] using rev_ind; [done|].
    rewrite last_snoc in Hmax. injection Hmax as Hmax. rewrite Hmax in Hlt.
    apply rs_sorted_app in Hs as (_ & _ & Hgt). apply elem_of_app in Hr as [Hr| ->%list_elem_of_singleton]; [|done].
    eapply key_lt_trans; [|exact Hlt]. apply Hgt; [done|apply list_elem_of_here].
Qed.

Lemma outside_range fs l h rs k :
  handle_ok fs l h rs ->
  key_ltb k (Manifest.min (meta h)) || key_ltb (Manifest.max (meta h)) k = true ->
  record_entry rs k = None.
Proof.
  intros [_ _ _ _ Hmin Hmax (ino & _ & (blocks & f & Ht) & _)]. apply outside_keys; [|done..].
  apply (tb_sorted _ _ _ _ Ht).
Qed.

Lemma live_cached e e' l i : cached e e' -> live e l i -> live e' l i.
Proof. intros Hc. unfold live. by destruct (cached_state _ _ Hc) as (-> & _). Qed.

Lemma get_level_ok fs e T a l ids k :
  engine_ok fs e T a -> (forall i, i ∈ ids -> live e l i) ->
  exists e', get_level ids k (fs, e) =
      (Ok (found ((fun i => record_entry (T i)) <$> ids) k), (fs, e')) /\
    cached e e' /\ engine_ok fs e' T a.
Proof.
  revert e. induction ids as [|i ids IH]; intros e Hok Hlive.
  { exists e. split_and!; [done|apply cached_refl|done]. }
  assert (live e l i) as Hi by (apply Hlive, list_elem_of_here).
  destruct (live_handle _ _ _ _ _ _ Hok Hi) as (h & Hh & Hho & _).
  pose proof (handle_at_ok fs e i h Hh) as Hat.
  cbn [get_level]. rewrite (M_bind_ok _ _ _ _ _ Hat). rewrite fmap_cons. unfold found. cbn [first_some].
  destruct (_ || _) eqn:Hrange.
  { rewrite (outside_range _ _ _ _ _ Hho Hrange). apply IH; [done|].
    intros j Hj. apply Hlive. by apply list_elem_of_further. }
  destruct (open_reader_ok fs e T a l i Hok Hi) as (r & e1 & Hopen & Hc1 & Hok1 & Hrd).
  rewrite (M_bind_ok _ _ _ _ _ Hopen).
  pose proof (reader_get_ok r _ (T i) k fs (eo_faults _ _ _ _ Hok1) eq_refl Hrd) as Hget.
  assert (on_fs (Reader.get r k) (fs, e1) = (Ok (Reader.lookup (T i) k), (fs, e1))) as Hget'
    by (unfold on_fs, zoom; cbn [fst snd]; by rewrite Hget).
  rewrite (M_bind_ok _ _ _ _ _ Hget'), lookup_record_entry.
  destruct (record_entry (T i) k) as [en|]; cbn [fmap option_fmap option_map].
  - exists e1. done.
  - destruct (IH e1 Hok1) as (e2 & Hrun & Hc2 & Hok2).
    { intros j Hj. eapply live_cached; [done|]. apply Hlive. by apply list_elem_of_further. }
    exists e2. split_and!; [exact Hrun|by eapply cached_trans|done].
Qed.

Lemma get_levels_ok fs e T a ls d k :
  engine_ok fs e T a -> (forall l ids i, ls !! l = Some ids -> i ∈ ids -> live e (d + l) i) ->
  exists e', get_levels ls k (fs, e) =
      (Ok (found (table_sources T ls) k), (fs, e')) /\
    cached e e' /\ engine_ok fs e' T a.
Proof.
  revert e d. induction ls as [|ids ls IH]; intros e d Hok Hlive.
  { exists e. split_and!; [done|apply cached_refl|done]. }
  cbn [get_levels]. unfold table_sources. rewrite fmap_cons. cbn [concat].
  unfold found. rewrite fmap_app, first_some_app.
  destruct (get_level_ok fs e T a d (reverse ids) k Hok) as (e1 & Hrun & Hc1 & Hok1).
  { intros i Hi. rewrite elem_of_reverse in Hi. pose proof (Hlive 0%nat ids i eq_refl Hi) as Hl.
    by rewrite Nat.add_0_r in Hl. }
  rewrite (M_bind_ok _ _ _ _ _ Hrun). unfold found.
  destruct (first_some ((fun i => record_entry (T i)) <$> reverse ids) k) as [en|];
    cbn [fmap option_fmap option_map].
  - by exists e1.
  - destruct (IH e1 (S d) Hok1) as (e2 & Hrun2 & Hc2 & Hok2).
    { intros l ids' i Hl Hi. eapply live_cached; [done|]. rewrite Nat.add_succ_comm.
      by apply (Hlive (S l) ids' i). }
    exists e2. split_and!; [exact Hrun2|by eapply cached_trans|done].
Qed.

Lemma get_immutables_ok fs e ps k :
  Forall (fun p => (mem p < length (mems e))%nat) ps ->
  get_immutables ps k (fs, e) = (Ok (first_some ((fun p => mem_entry (mems e) (mem p)) <$> ps) k), (fs, e)).
Proof.
  induction 1 as [|p ps Hp _ IH]; [done|]. cbn [get_immutables]. rewrite fmap_cons. cbn [first_some].
  destruct (lookup_lt_is_Some_2 _ _ Hp) as [t Ht].
  pose proof (mem_at_ok fs e _ t Ht) as Hat.
  rewrite (M_bind_ok _ _ _ _ _ Hat). unfold mem_entry at 1. rewrite Ht. cbn [mbind option_bind].
  by destruct (get_entry t k).
Qed.

(** [get] answers from the view, and leaves it as it is. *)
Lemma engine_get_ok fs e T a k :
  engine_ok fs e T a ->
  exists e', get k (fs, e) = (Ok (view e T k), (fs, e')) /\ cached e e' /\ engine_ok fs e' T a.
Proof.
  intros Hok. pose proof (eo_mems _ _ _ _ Hok) as [Ha Halloc Hnd]. unfold get. mstep.
  unfold is_poisoned. cbn [snd]. rewrite (eo_poison _ _ _ _ Hok), bool_decide_false by apply not_elem_of_nil.
  mstep. cbn [snd]. rewrite Ha. unfold live_mems in Halloc.
  inversion_clear Halloc as [|? ? Hlt Halloc'].
  destruct (lookup_lt_is_Some_2 _ _ Hlt) as [t Ht].
  pose proof (mem_at_ok fs e _ t Ht) as Hat.
  rewrite (M_bind_ok _ _ _ _ _ Hat). unfold view, sources, mem_sources. rewrite Ha. cbn [app first_some].
  unfold mem_entry at 1. rewrite Ht. cbn [mbind option_bind].
  destruct (get_entry t k) as [en|]; [exists e; split_and!; [done|apply cached_refl|done]|].
  rewrite first_some_app.
  rewrite (M_bind_ok _ _ _ _ _ (get_immutables_ok fs e (reverse (immutables (state e))) k
    ltac:(apply Forall_reverse; by rewrite Forall_fmap in Halloc'))).
  destruct (first_some _ k) as [en|]; [exists e; split_and!; [done|apply cached_refl|done]|].
  destruct (get_levels_ok fs e T a (levels (state e)) 0 k Hok) as (e' & Hrun & Hc & Hok').
  { intros l ids i Hl Hi. by exists ids. }
  rewrite (M_bind_ok _ _ _ _ _ Hrun). exists e'. unfold found.
  destruct (first_some (table_sources T (levels (state e))) k) as [en|]; [|done].
  cbn [fmap option_fmap option_map mbind option_bind]. unfold entry_lookup, entry_value.
  by destruct (deleted en).
Qed.
End get.
