(* ===== verification/EnginePut.v ===== *)
(** * Writing through the engine: [put], [delete] and the rotation of the
    active memtable *)

From S2P Require Import Prelude Outcome External Fs MemTable Wal WalWriter WalReader.
From S2P Require Import StdVec SstRecord SstIndex Bloom Builder Reader Merge Manifest.
From S2P Require Import Names KvSpec Engine EngineSpec EngineGet.

Section put.
Context {C : Crc32} {SM : SkipMap Entry} {FB : FastBloom} {AL : Allocator}.

(** ** The invariant under file system changes *)

Lemma handle_ok_kept fs fs' l h rs :
  kept (path h) fs fs' -> handle_ok fs l h rs -> handle_ok fs' l h rs.
Proof.
  intros Hk [H1 H2 H3 H4 H5 H6 (ino & Hd & Ht & Hr)]. split; try done.
  destruct (kept_data _ _ _ _ Hk Hd) as [Hd' Hdat]. exists ino. by rewrite Hdat.
Qed.

Definition live_path (e : LsmEngineInner) (n : string) : Prop :=
  exists l i h, live e l i /\ handles e !! i = Some h /\ path h = n.

Lemma tables_ok_kept fs fs' e T :
  (forall n, live_path e n -> kept n fs fs') -> tables_ok fs e T -> tables_ok fs' e T.
Proof.
  intros Hk [H1 H2 H3 H4]. split; try done. intros l ids i Hl Hi.
  destruct (H2 l ids i Hl Hi) as (h & Hh & Hok & Hlt). exists h. split_and!; try done.
  eapply handle_ok_kept; [|done]. apply Hk. exists l, i, h. split_and!; [by exists ids|done..].
Qed.

(** Live tables have table names of the past. *)
Lemma live_path_name fs e T n :
  tables_ok fs e T -> live_path e n ->
  exists l s, n = sst_name l s /\ (l <= 1)%nat /\ 0 <= s < next_seq e /\ s <= u64_max.
Proof.
  intros Ht (l & i & h & (ids & Hl & Hi) & Hh & <-).
  destruct (ta_handles _ _ _ Ht l ids i Hl Hi) as (h' & Hh' & Hok & Hlt). simplify_eq.
  pose proof (ta_levels _ _ _ Ht). apply lookup_lt_Some in Hl.
  exists l, (Manifest.seq (meta h)). destruct (ho_seq _ _ _ _ Hok).
  split_and!; [by apply (ho_name _ _ _ _ Hok)|lia..].
Qed.

Lemma manifest_current_kept fs fs' e :
  kept MANIFEST_FILE_NAME fs fs' -> manifest_current fs e -> manifest_current fs' e.
Proof. intros Hk. unfold manifest_current. by rewrite (kept_file_of _ _ _ Hk). Qed.

(** The parts of the invariant that only look at state, levels and handles. *)
Lemma tables_ok_same fs e e' T :
  levels (state e') = levels (state e) -> handles e' = handles e -> next_seq e <= next_seq e' ->
  tables_ok fs e T -> tables_ok fs e' T.
Proof.
  intros Hl Hh Hn [H1 H2 H3 H4]. split; rewrite ?Hl, ?Hh; try done.
  intros l ids i Hli Hi. destruct (H2 l ids i Hli Hi) as (h & ? & ? & ?). exists h. split_and!; [done..|lia].
Qed.

Lemma manifest_current_same fs e e' :
  levels (state e') = levels (state e) -> handles e' = handles e ->
  manifest_current fs e -> manifest_current fs e'.
Proof. intros Hl Hh. unfold manifest_current, live_metas. by rewrite Hl, Hh. Qed.

Lemma live_path_same e e' n :
  levels (state e') = levels (state e) -> handles e' = handles e -> live_path e' n -> live_path e n.
Proof. intros Hl Hh. unfold live_path, live. by rewrite Hl, Hh. Qed.

(** ** The log of the active generation *)

Lemma live_wal_frozen e p : p ∈ immutables (state e) -> wal_seq p ∈ live_wals e.
Proof. intros Hp. apply elem_of_app; left. by apply list_elem_of_fmap_2. Qed.

Lemma live_wal_active e : seq (wal e) ∈ live_wals e.
Proof. apply elem_of_app; right. apply list_elem_of_here. Qed.

(** The generation a frozen memtable was logged to is not the active one. *)
Lemma frozen_wal_lt fs e T a fl p :
  mid_ok fs e T a fl -> p ∈ immutables (state e) -> 0 <= wal_seq p < seq (wal e) /\ seq (wal e) < next_seq e.
Proof.
  intros Hok Hp. pose proof (md_wals _ _ _ _ _ Hok) as [_ _ (_ & _ & W3)%StronglySorted_app [_ W4]%Forall_app _].
  rewrite Forall_forall in W4.
  pose proof (W4 _ (live_wal_frozen e p Hp)). pose proof (W4 _ (live_wal_active e)).
  apply StronglySorted_app in W3 as (Hlt & _).
  specialize (Hlt (wal_seq p) (seq (wal e)) (list_elem_of_fmap_2 _ _ _ Hp) ltac:(apply list_elem_of_here)). lia.
Qed.

Lemma log_of_kept fs fs' e w :
  dirents fs !! wal_name w = Some (bw_file (ww_file (writer (wal e)))) -> kept (wal_name w) fs fs' ->
  log_of fs' (writer (wal e)) = log_of fs (writer (wal e)).
Proof. intros Hd Hk. unfold log_of. by destruct (kept_data _ _ _ _ Hk Hd) as [_ ->]. Qed.

(** A change of the directory that leaves the live files alone; the logs of
    flushed generations may go, oldest first. *)
Lemma mid_fs fs e T a fl fl' fs' :
  mid_ok fs e T a fl -> faults fs' = [] -> fs_wf fs' ->
  (forall x, live_path e x -> kept x fs fs') -> (forall s, s ∈ live_wals e -> kept (wal_name s) fs fs') ->
  fl' `suffix_of` fl ->
  (forall x, is_Some (dirents fs' !! x) -> valid_utf8 (as_bytes x) = true) ->
  (forall x s, is_Some (dirents fs' !! x) -> parse_wal_name x = Some s ->
    is_Some (dirents fs !! x) /\ (s ∈ fl -> s ∈ fl')) ->
  mid_ok fs' e T a fl'.
Proof.
  intros [F1 F2 F3 F4 F5 F6 F7 [W1 W2 W3 W4 W5]] Hf Hwf Hlive Hk [gone ->] Hutf Hnames.
  split; try done.
  - by eapply tables_ok_kept.
  - split.
    + destruct W1 as (t & A1 & A2 & A3). exists t. pose proof (Hk _ (live_wal_active e)) as Hka.
      split_and!; [done|by rewrite (proj1 Hka)|]. by rewrite (log_of_kept fs fs' e _ A2 Hka).
    + intros p Hp. destruct (W2 p Hp) as (t & ino & B1 & B2 & B3 & B4). exists t, ino.
      by destruct (kept_data _ _ _ _ (Hk _ (live_wal_frozen e p Hp)) B3) as [-> ->].
    + rewrite <- app_assoc in W3. by apply StronglySorted_app in W3 as (_ & _ & ?).
    + rewrite <- app_assoc in W4. by apply Forall_app in W4 as [_ ?].
    + intros x s Hx Hs. destruct (Hnames x s Hx Hs) as [Hx' Hfl].
      destruct (W5 x s Hx' Hs) as [-> [Hin|Hin]%elem_of_app]; (split; [done|]); apply elem_of_app; auto.
Qed.

(** [logs d fs w fs' w']: the writer accepted the bytes [d]. *)
Definition logs (d : bytes) (fs : Fs) (w : WalWriter) (fs' : Fs) (w' : WalWriter) : Prop :=
  bw_file (ww_file w') = bw_file (ww_file w) /\ touches (bw_file (ww_file w)) fs fs' /\
  log_of fs' w' = log_of fs w ++ d.

Lemma on_writer_ok {A} (m : M (Fs * WalWriter) A) fs e x fs' w' :
  m (fs, writer (wal e)) = (Ok x, (fs', w')) ->
  on_writer m (fs, e) = (Ok x, (fs', set_wal (mkActiveWal w' (seq (wal e))) e)).
Proof. intros H. unfold on_writer, zoom. cbn [fst snd]. by rewrite H. Qed.

Lemma on_writer_err {A} (m : M (Fs * WalWriter) A) fs e err fs' w' :
  m (fs, writer (wal e)) = (Err err, (fs', w')) ->
  on_writer m (fs, e) = (Err err, (fs', set_wal (mkActiveWal w' (seq (wal e))) e)).
Proof. intros H. unfold on_writer, zoom. cbn [fst snd]. by rewrite H. Qed.

Lemma sync_logs fs w :
  faults fs = [] -> exists fs' w', sync (fs, w) = (Ok tt, (fs', w')) /\ logs [] fs w fs' w' /\
    bw_buf (ww_file w') = [].
Proof.
  intros Hf. destruct (sync_ok fs w Hf) as (fs' & w' & H & Hb & Hbuf & _ & Ht & Hi).
  exists fs', w'. split; [done|]. split; [|done]. split; [done|]. split; [done|].
  unfold log_of at 1. rewrite Hb, Hbuf. unfold data_of. rewrite Hi. cbn. by rewrite !app_nil_r.
Qed.

Lemma logs_trans d1 d2 fs1 w1 fs2 w2 fs3 w3 :
  logs d1 fs1 w1 fs2 w2 -> logs d2 fs2 w2 fs3 w3 -> logs (d1 ++ d2) fs1 w1 fs3 w3.
Proof.
  intros (B1 & T1 & L1) (B2 & T2 & L2). rewrite B1 in *.
  split; [done|]. split; [by eapply touches_trans|]. by rewrite L2, L1, app_assoc.
Qed.

(** ** Applying a mutation *)

Lemma mem_entry_insert_eq ms i t k :
  (i < length ms)%nat -> mem_entry (<[i := t]> ms) i k = get_entry t k.
Proof. intros H. unfold mem_entry. by rewrite list_lookup_insert_eq. Qed.

Lemma mem_entry_insert_ne ms i j t : i <> j -> mem_entry (<[i := t]> ms) j = mem_entry ms j.
Proof. intros H. unfold mem_entry. by rewrite list_lookup_insert_ne. Qed.

Lemma wal_holds_snoc log t t' en :
  wal_holds log t -> encodable en ->
  (forall k, get_entry t' k =
     if decide ((entry_mutation en).1 = k) then Some (entry_mutation en).2 else get_entry t k) ->
  wal_holds (log ++ frame en) t'.
Proof.
  intros (es & -> & Hes & Hget) Hen Ht'. exists (es ++ [en]). split; [by rewrite frames_snoc|].
  split; [apply Forall_app; by split; [|constructor]|].
  intros k. rewrite Ht', Hget. rewrite fmap_app. unfold last_write. rewrite rev_app_distr. simpl.
  destruct (entry_mutation en) as [k0 e0]. simpl. by case_decide.
Qed.

(** The state after the log and the memtable took an entry. *)
Definition applied (e : LsmEngineInner) (w : WalWriter) (a : nat) (t : MemTable) : LsmEngineInner :=
  set_mems (<[a := t]> (mems e)) (set_wal (mkActiveWal w (seq (wal e))) e).

Lemma kept_wal_others fs fs' e T a fl n :
  mid_ok fs e T a fl -> touches (bw_file (ww_file (writer (wal e)))) fs fs' ->
  n <> wal_name (seq (wal e)) -> kept n fs fs'.
Proof.
  intros Hok Ht Hn. destruct (wm_active _ _ _ _ (md_wals _ _ _ _ _ Hok)) as (t & _ & Hd & _).
  apply (kp_kept _ _ _ (keeps_touches _ _ _ _ (md_fs _ _ _ _ _ Hok) Hd Ht)). by apply not_eq_sym.
Qed.

(** A change of the active log alone. *)
Lemma logged_mid fs e T a fl fs' w' t t' ms' :
  mid_ok fs e T a fl -> mems e !! a = Some t ->
  bw_file (ww_file w') = bw_file (ww_file (writer (wal e))) ->
  touches (bw_file (ww_file (writer (wal e)))) fs fs' ->
  ms' = <[a := t']> (mems e) -> wal_holds (log_of fs' w') t' ->
  mid_ok fs' (set_mems ms' (set_wal (mkActiveWal w' (seq (wal e))) e)) T a fl.
Proof.
  intros Hok Hta HB HT -> Hh. pose proof Hok as [F1 F2 F3 F4 F5 F6 F7 F8].
  destruct (wm_active _ _ _ _ F8) as (t0 & Hta0 & Hd & _). simplify_eq.
  pose proof (keeps_touches _ _ _ _ F2 Hd HT) as Hk.
  pose proof (fun n Hn => kept_wal_others fs fs' e T a fl n Hok HT Hn) as Hkept.
  pose proof HT as (Dd & _ & _ & _).
  assert (a < length (mems e))%nat as Hal by (by eapply lookup_lt_Some).
  split; try done.
  - apply Hk.
  - apply Hk.
  - intros n. rewrite Dd. apply F3.
  - destruct F6 as [M1 M2 M3]. split; try done. cbn. by rewrite length_insert.
  - apply (tables_ok_same _ e); [done|done|cbn; lia|]. eapply tables_ok_kept; [|done].
    intros n (l & s & -> & _)%(live_path_name _ _ _ _ F7). apply Hkept.
    eapply initial_ne; [apply initial_sst|apply initial_wal|done].
  - destruct F8 as [W1 W2 W3 W4 W5]. split; try done.
    + exists t'. cbn. rewrite list_lookup_insert_eq by done. by rewrite HB, Dd.
    + intros p Hp. destruct (W2 p Hp) as (tp & ino & H1 & H2 & H3 & H4). exists tp, ino. cbn.
      assert (a <> mem p) as Hne.
      { destruct F6 as [_ _ Hnd]. apply NoDup_cons in Hnd as [Hnd _]. intros ->. apply Hnd.
        by apply list_elem_of_fmap_2. }
      rewrite list_lookup_insert_ne by done. split_and!; try done; [by rewrite Dd|].
      destruct (kept_data (wal_name (wal_seq p)) ino fs fs') as [_ ->]; [|done..].
      destruct (frozen_wal_lt _ _ _ _ _ p Hok Hp). apply Hkept. intros Heq. apply wal_name_inj in Heq; lia.
    + intros n s. rewrite Dd. apply W5.
Qed.

Lemma logged_manifest fs e T a fl fs' ms' w :
  mid_ok fs e T a fl -> touches (bw_file (ww_file (writer (wal e)))) fs fs' ->
  manifest_current fs e -> manifest_current fs' (set_mems ms' (set_wal w e)).
Proof.
  intros Hok HT Hman. apply (manifest_current_same _ e); [done..|]. eapply manifest_current_kept; [|done].
  eapply kept_wal_others; [done|done|]. eapply initial_ne; [apply initial_manifest|apply initial_wal|done].
Qed.

Lemma applied_mid fs e T a fl t t' en fs' w' :
  mid_ok fs e T a fl -> mems e !! a = Some t -> encodable en ->
  logs (frame en) fs (writer (wal e)) fs' w' ->
  (forall k, get_entry t' k =
     if decide ((entry_mutation en).1 = k) then Some (entry_mutation en).2 else get_entry t k) ->
  mid_ok fs' (applied e w' a t') T a fl.
Proof.
  intros Hok Hta Hen (HB & HT & HL) Ht'. eapply logged_mid; try done. rewrite HL.
  destruct (wm_active _ _ _ _ (md_wals _ _ _ _ _ Hok)) as (t0 & Hta0 & _ & Hh). simplify_eq.
  by eapply wal_holds_snoc.
Qed.

Lemma applied_ok fs e T a t t' en fs' w' :
  engine_ok fs e T a -> mems e !! a = Some t -> encodable en ->
  logs (frame en) fs (writer (wal e)) fs' w' ->
  (forall k, get_entry t' k =
     if decide ((entry_mutation en).1 = k) then Some (entry_mutation en).2 else get_entry t k) ->
  engine_ok fs' (applied e w' a t') T a.
Proof.
  intros Hok Hta Hen HL Ht'. apply (ok_by_mid _ _ _ _ _ _ _ _ Hok).
  - intros Hm. by eapply applied_mid.
  - eapply logged_manifest; [by apply mid_of_ok|apply HL].
Qed.

(** The view after a mutation. *)
Lemma applied_view e T a t t' k0 e0 w' k :
  mems_ok e a -> mems e !! a = Some t ->
  (forall k, get_entry t' k = if decide (k0 = k) then Some e0 else get_entry t k) ->
  view (applied e w' a t') T k = if decide (k0 = k) then entry_value e0 else view e T k.
Proof.
  intros [M1 M2 M3] Hta Ht'.
  assert (a < length (mems e))%nat as Hal by (by eapply lookup_lt_Some).
  unfold view, sources, mem_sources. cbn [applied set_mems set_wal mems state]. rewrite M1.
  cbn [app first_some]. rewrite mem_entry_insert_eq, Ht' by done.
  unfold mem_entry at 2. rewrite Hta. cbn [mbind option_bind]. case_decide; [done|].
  destruct (get_entry t k); [done|]. f_equal. apply first_some_ext. apply Forall2_app.
  - apply Forall2_fmap, Forall_Forall2_diag, Forall_forall. intros p Hp.
    rewrite elem_of_reverse in Hp. rewrite mem_entry_insert_ne; [done|].
    apply NoDup_cons in M3 as [M3 _]. intros ->. apply M3. by apply list_elem_of_fmap_2.
  - by apply Forall_Forall2_diag, Forall_forall.
Qed.

(** ** Locks that are not poisoned *)

Lemma with_lock_ok {A} l msg (body : M (Fs * LsmEngineInner) A) fs e o s' :
  poisoned e = [] -> body (fs, e) = (o, s') -> (o <> Panic) -> with_lock l msg body (fs, e) = (o, s').
Proof.
  intros Hp Hb Ho. unfold with_lock. mstep. unfold is_poisoned. cbn [snd].
  rewrite Hp, bool_decide_false by apply not_elem_of_nil. unfold guarded. rewrite Hb. by destruct o.
Qed.

Lemma write_state_ok {A} (body : M (Fs * LsmEngineInner) A) fs e o s' :
  poisoned e = [] -> body (fs, e) = (o, s') -> (o <> Panic) -> write_state body (fs, e) = (o, s').
Proof.
  intros Hp Hb Ho. unfold write_state. mstep. unfold is_poisoned. cbn [snd].
  rewrite Hp, bool_decide_false by apply not_elem_of_nil. unfold guarded. rewrite Hb. by destruct o.
Qed.

Lemma read_state_ok fs e : poisoned e = [] -> read_state (fs, e) = (Ok (state e), (fs, e)).
Proof.
  intros Hp. unfold read_state. mstep. unfold is_poisoned. cbn [snd].
  by rewrite Hp, bool_decide_false by apply not_elem_of_nil.
Qed.

Lemma snapshot_active_ok fs e a :
  poisoned e = [] -> active (state e) = Some a -> snapshot_active (fs, e) = (Ok a, (fs, e)).
Proof.
  intros Hp Ha. unfold snapshot_active. rewrite (M_bind_ok _ _ _ _ _ (read_state_ok fs e Hp)). by rewrite Ha.
Qed.

Lemma fetch_add_seq_ok fs e :
  0 <= next_seq e < u64_max ->
  fetch_add_seq (fs, e) = (Ok (next_seq e), (fs, set_next_seq (next_seq e + 1) e)).
Proof.
  intros H. unfold fetch_add_seq. mstep. mstep. cbn [snd].
  rewrite Z.mod_small; [done|]. unfold u64_max in H. lia.
Qed.

Lemma on_fs_run {W A} (m : M Fs A) fs (w : W) o fs' :
  m fs = (o, fs') -> on_fs m (fs, w) = (o, (fs', w)).
Proof. intros H. unfold on_fs, zoom. cbn [fst]. by rewrite H. Qed.

(** ** Freezing *)

(** The engine with the next sequence number drawn. *)
Definition drawn (e : LsmEngineInner) : LsmEngineInner := set_next_seq (next_seq e + 1) e.

(** The engine after the active memtable [a] was frozen; [w] writes the
    generation [n]. *)
Definition frozen_at (n : Z) (e : LsmEngineInner) (a : nat) (w : WalWriter) : LsmEngineInner :=
  mkEngine (options e)
    (mkEngineState (Some (length (mems e)))
      (immutables (state e) ++ [mkPendingImm a (seq (wal e))]) (levels (state e)))
    (mkActiveWal w n) (next_seq e) (flush_tx e) (poisoned e)
    (mems e ++ [MemTable.new]) (handles e).

Definition frozen (e : LsmEngineInner) (a : nat) (w : WalWriter) : LsmEngineInner :=
  frozen_at (next_seq e) (drawn e) a w.

Lemma live_wals_frozen n e a w : live_wals (frozen_at n e a w) = live_wals e ++ [n].
Proof. unfold live_wals. cbn. by rewrite fmap_app. Qed.

(** A generation that was drawn for the next log. *)
Definition fresh_wal (fs : Fs) (e : LsmEngineInner) (n : Z) : Prop :=
  Forall (fun s => s < n) (live_wals e) /\ 0 <= n < next_seq e /\ dirents fs !! wal_name n = None.

Lemma drawn_mems e a : mems_ok e a -> mems_ok (drawn e) a.
Proof. by intros []. Qed.

Lemma drawn_mid fs e T a fl :
  mid_ok fs e T a fl -> next_seq e < u64_max -> mid_ok fs (drawn e) T a fl.
Proof.
  intros [F1 F2 F3 F4 F5 [M1 M2 M3] F7 [W1 W2 W3 W4 W5]] Hroom. split; try done.
  - cbn. lia.
  - apply (tables_ok_same _ e); [done..|cbn; lia|done].
  - split; try done. eapply Forall_impl; [exact W4|]. cbn. lia.
Qed.

Lemma drawn_fresh fs e T a fl : mid_ok fs e T a fl -> fresh_wal fs (drawn e) (next_seq e).
Proof.
  intros Hok. pose proof (md_next _ _ _ _ _ Hok) as Hn.
  destruct (md_wals _ _ _ _ _ Hok) as [_ _ _ Hr Honly]. split; [|split].
  - apply Forall_app in Hr as [_ Hr]. eapply Forall_impl; [exact Hr|]. cbn. lia.
  - cbn. lia.
  - destruct (dirents fs !! wal_name (next_seq e)) as [i|] eqn:E; [|done]. exfalso.
    destruct (Honly (wal_name (next_seq e)) (next_seq e)) as [_ Hin].
    + by rewrite E.
    + apply parse_wal_name_ok. lia.
    + rewrite Forall_forall in Hr. specialize (Hr _ Hin). lia.
Qed.

Lemma next_wal_absent fs e T a : engine_ok fs e T a -> dirents fs !! wal_name (next_seq e) = None.
Proof. intros Hok. by apply (drawn_fresh fs e T a []), mid_of_ok. Qed.

Lemma frozen_mems n e a w : mems_ok e a -> mems_ok (frozen_at n e a w) (length (mems e)).
Proof.
  intros [M1 M2 M3]. rewrite Forall_forall in M2. split; [done| |].
  - cbn. unfold live_mems. cbn. rewrite length_app, fmap_app. apply Forall_forall.
    intros i [->|[Hi|Hi]%elem_of_app]%elem_of_cons; [simpl; lia| |].
    + assert (i < length (mems e))%nat by (apply M2; by apply list_elem_of_further). lia.
    + apply list_elem_of_singleton in Hi as ->. assert (a < length (mems e))%nat
        by (apply M2, list_elem_of_here). cbn. lia.
  - unfold live_mems in *. cbn. rewrite fmap_app. apply NoDup_cons. split.
    + intros [Hi|Hi]%elem_of_app.
      * assert (length (mems e) < length (mems e))%nat by (apply M2; by apply list_elem_of_further). lia.
      * apply list_elem_of_singleton in Hi. cbn in Hi.
        assert (a < length (mems e))%nat by (apply M2, list_elem_of_here). lia.
    + apply NoDup_cons in M3 as [M3 M4]. apply NoDup_app. split_and!; [done| |apply NoDup_singleton].
      intros i Hi ->%list_elem_of_singleton. done.
Qed.

(** The state of the file system: the new log is there and empty, the old
    one holds all it was given. *)
Definition rotated_at (n : Z) (fs : Fs) (e : LsmEngineInner) (w : WalWriter) (fs' : Fs) : Prop :=
  exists ino, w = mkWalWriter (bw_new ino) (wal_name n) [] /\
    dirents fs' = <[wal_name n := ino]> (dirents fs) /\
    data_of fs' ino = [] /\
    data_of fs' (bw_file (ww_file (writer (wal e)))) = log_of fs (writer (wal e)) /\
    keeps (fun x => x = wal_name (seq (wal e)) \/ x = wal_name n) fs fs'.

Definition rotated (fs : Fs) (e : LsmEngineInner) (w : WalWriter) (fs' : Fs) : Prop :=
  rotated_at (next_seq e) fs e w fs'.

Lemma frozen_wals n fs e T a fl t w fs' :
  mid_ok fs e T a fl -> fresh_wal fs e n -> mems e !! a = Some t -> iter t <> [] ->
  rotated_at n fs e w fs' -> wals_mid fs' (frozen_at n e a w) (length (mems e)) fl.
Proof.
  intros Hok (Hlast & Hn & Habs) Hta Hne (ino & Hw & Hd & Hnew & Hold & Hk).
  pose proof (md_next _ _ _ _ _ Hok) as Hnx.
  pose proof (md_wals _ _ _ _ _ Hok) as [W1 W2 W3 W4 W5].
  destruct W1 as (t0 & Hta0 & Hdw & Hholds). simplify_eq. rewrite Forall_forall in Hlast.
  assert (forall s, s ∈ live_wals e -> dirents fs' !! wal_name s = dirents fs !! wal_name s) as Hsame.
  { intros s Hs. rewrite Hd, lookup_insert_ne; [done|]. specialize (Hlast s Hs).
    rewrite Forall_forall in W4. assert (0 <= s) by (apply W4, elem_of_app; by right).
    intros Heq%wal_name_inj; lia. }
  split.
  - exists MemTable.new. cbn. rewrite lookup_app_r, Nat.sub_diag by done. split_and!; [done| |].
    + by rewrite Hd, lookup_insert_eq.
    + exists []. split; [|split; [constructor|]].
      * unfold log_of. cbn. by rewrite Hnew.
      * intros k. unfold get_entry. cbn. apply sm_get_new.
  - intros p [Hp| ->%list_elem_of_singleton]%elem_of_app.
    + destruct (W2 p Hp) as (tp & i & H1 & H2 & H3 & H4).
      destruct (frozen_wal_lt _ _ _ _ _ p Hok Hp) as [Hp1 Hp2]. pose proof (Hlast _ (live_wal_frozen e p Hp)).
      exists tp, i. cbn. split_and!; [by apply lookup_app_l_Some|done| |].
      * by rewrite Hsame by (by apply live_wal_frozen).
      * destruct (kept_data (wal_name (wal_seq p)) i fs fs') as [_ ->]; [|done..].
        apply (kp_kept _ _ _ Hk). intros [Heq|Heq]; apply wal_name_inj in Heq; lia.
    + exists t, (bw_file (ww_file (writer (wal e)))). cbn. split_and!; [by apply lookup_app_l_Some|done| |].
      * by rewrite Hsame by apply live_wal_active.
      * by rewrite Hold.
  - rewrite live_wals_frozen, app_assoc. apply StronglySorted_app. split_and!; [|done|by repeat constructor].
    intros x y Hx ->%list_elem_of_singleton. apply elem_of_app in Hx as [Hx|Hx]; [|by apply Hlast].
    apply StronglySorted_app in W3 as (Hlt & _). specialize (Hlast _ (live_wal_active e)).
    specialize (Hlt x _ Hx (live_wal_active e)). lia.
  - rewrite live_wals_frozen, app_assoc. cbn. apply Forall_app. split; [done|repeat constructor; lia].
  - rewrite live_wals_frozen, app_assoc. intros x s. rewrite Hd, lookup_insert. case_decide as Hx.
    + subst x. intros _. rewrite parse_wal_name_ok by lia. intros [= <-]. split; [done|].
      apply elem_of_app; right. apply list_elem_of_here.
    + intros Hx' Hp. destruct (W5 x s Hx' Hp) as [-> Hin]. split; [done|]. by apply elem_of_app; left.
Qed.

(** Only logs are new after a rotation. *)
Lemma rotated_kept n fs e w fs' x b :
  rotated_at n fs e w fs' -> initial x = Some b -> b <> x77 -> kept x fs fs'.
Proof.
  intros (ino & _ & _ & _ & _ & Hk) Hx Hb. apply (kp_kept _ _ _ Hk).
  intros [->| ->]; rewrite initial_wal in Hx; congruence.
Qed.

Lemma frozen_mid n fs e T a fl t w fs' :
  mid_ok fs e T a fl -> fresh_wal fs e n -> mems e !! a = Some t -> iter t <> [] ->
  rotated_at n fs e w fs' -> mid_ok fs' (frozen_at n e a w) T (length (mems e)) fl.
Proof.
  intros Hok Hfr Hta Hne Hrot. pose proof (frozen_wals _ _ _ _ _ _ _ _ _ Hok Hfr Hta Hne Hrot) as HW.
  pose proof (fun x b => rotated_kept _ _ _ _ _ x b Hrot) as Hkept. destruct Hfr as (_ & Hn & _).
  destruct Hrot as (ino & Hw & Hd & Hnew & Hold & Hk). pose proof Hok as [F1 F2 F3 F4 F5 F6 F7 F8].
  split; try done.
  - apply Hk.
  - apply Hk.
  - intros x. rewrite Hd, lookup_insert. case_decide as Hx; [|apply F3]. intros _. subst x.
    apply wal_name_utf8. lia.
  - by apply frozen_mems.
  - apply (tables_ok_same _ e); [done|done|cbn; lia|]. eapply tables_ok_kept; [|done].
    intros x (l & s & -> & _)%(live_path_name _ _ _ _ F7). by eapply Hkept; [apply initial_sst|].
Qed.

Lemma frozen_manifest n fs e a w fs' :
  rotated_at n fs e w fs' -> manifest_current fs e -> manifest_current fs' (frozen_at n e a w).
Proof.
  intros Hrot. intros Hman. apply (manifest_current_same _ e); [done..|].
  eapply manifest_current_kept; [|done]. by eapply rotated_kept; [|apply initial_manifest|].
Qed.

Lemma frozen_ok fs e T a t w fs' :
  engine_ok fs e T a -> next_seq e < u64_max -> mems e !! a = Some t -> iter t <> [] ->
  rotated fs e w fs' -> engine_ok fs' (frozen e a w) T (length (mems e)).
Proof.
  intros Hok Hroom Hta Hne Hrot. apply (ok_by_mid _ _ _ _ _ _ _ _ Hok).
  - intros Hm. apply (frozen_mid _ fs (drawn e) T a [] t); [by apply drawn_mid|by eapply drawn_fresh|done..].
  - intros Hman. by apply (frozen_manifest _ fs (drawn e)).
Qed.

Lemma frozen_view n e T a t w k :
  mems_ok e a -> mems e !! a = Some t -> view (frozen_at n e a w) T k = view e T k.
Proof.
  intros [M1 M2 M3] Hta.
  unfold view, sources, mem_sources. cbn [frozen_at mems state active immutables levels]. rewrite M1.
  rewrite reverse_app. cbn [reverse rev_append app fmap list_fmap first_some].
  assert (mem_entry (mems e ++ [MemTable.new]) (length (mems e)) k = None) as ->.
  { unfold mem_entry. rewrite lookup_app_r, Nat.sub_diag by done. apply sm_get_new. }
  cbn [mem].
  f_equal. apply (first_some_ext (_ :: _) (_ :: _)). constructor.
  - unfold mem_entry. by rewrite (lookup_app_l_Some _ _ _ _ Hta), Hta.
  - apply Forall2_app; [|by apply Forall_Forall2_diag, Forall_forall].
    apply Forall2_fmap, Forall_Forall2_diag, Forall_forall. intros p Hp.
    rewrite elem_of_reverse in Hp. unfold mem_entry. rewrite lookup_app_l; [done|].
    rewrite Forall_forall in M2. apply M2. apply list_elem_of_further. by apply list_elem_of_fmap_2.
Qed.

Lemma rotate_ok n fs e T a fl :
  mid_ok fs e T a fl -> fresh_wal fs e n ->
  exists w fs', rotate n (fs, e) = (Ok true, (fs', frozen_at n e a w)) /\ rotated_at n fs e w fs'.
Proof.
  intros Hok (_ & _ & Habs). pose proof Hok as [F1 F2 F3 F4 F5 F6 F7 F8].
  pose proof (mo_active _ _ F6) as Ha. destruct (wm_active _ _ _ _ F8) as (t & Hta & Hdw & Hholds).
  unfold rotate. destruct (file_create_ok (wal_name n) fs F1 F2) as (ino & fs1 & Hcr & Hwr).
  assert (on_fs (wal_create (wal_name n)) (fs, e)
    = (Ok (mkWalWriter (bw_new ino) (wal_name n) []), (fs1, e))) as Hcr'.
  { apply on_fs_run. unfold wal_create. by rewrite (M_bind_ok _ _ _ _ _ Hcr). }
  rewrite (M_bind_ok _ _ _ _ _ Hcr').
  pose (e2 := set_state (mkEngineState (Some (length (mems e)))
      (immutables (state e) ++ [mkPendingImm a (seq (wal e))]) (levels (state e)))
      (set_mems (mems e ++ [MemTable.new]) e)).
  erewrite (M_bind_ok _ _ _ tt (fs1, e2)).
  2: { apply with_lock_ok; [done| |done]. apply write_state_ok; [done| |done].
       mstep. cbn [snd state]. rewrite Ha. reflexivity. }
  pose proof (wr_faults _ _ _ _ _ Hwr) as Hf1.
  destruct (wal_drop_ok fs1 (writer (wal e)) Hf1) as (fs2 & w2 & Hdrop & Ht & Hdat).
  rewrite (M_bind_ok _ _ _ _ _ (on_writer_ok wal_drop fs1 e2 tt fs2 w2 Hdrop)). mstep.
  eexists _, fs2. split; [reflexivity|]. exists ino.
  pose proof Hwr as [D1 E1 I1 O1 N1 _]. destruct I1 as [I1|[_ ->]]; [congruence|].
  pose proof Ht as (D2 & _ & _ & I2). destruct F2 as [Hlt Hinj].
  assert (bw_file (ww_file (writer (wal e))) < next_ino fs)%nat as Hino by (by eapply Hlt).
  split_and!; [done| | | |].
  - by rewrite D2, D1.
  - rewrite (touches_data _ _ _ _ Ht) by lia. done.
  - rewrite Hdat. unfold log_of. unfold data_of. by rewrite O1 by lia.
  - eapply keeps_trans.
    + eapply keeps_mono; [|by eapply (keeps_wrote _ _ _ _ _ (conj Hlt Hinj) Hwr)]. intros x <-. by right.
    + assert (dirents fs1 !! wal_name (seq (wal e)) = Some (bw_file (ww_file (writer (wal e))))) as Hdw1.
      { rewrite D1, lookup_insert_ne; [done|]. intros Heq. congruence. }
      eapply keeps_mono; [|eapply (keeps_touches (wal_name (seq (wal e)))); [|done|exact Ht]].
      * intros x <-. by left.
      * by eapply wrote_wf.
Qed.

Lemma freeze_active_ok fs e T a t :
  engine_ok fs e T a -> next_seq e < u64_max -> mems e !! a = Some t -> iter t <> [] ->
  exists w fs', freeze_active (fs, e) = (Ok true, (fs', frozen e a w)) /\ rotated fs e w fs'.
Proof.
  intros Hok Hroom Hta Hne. pose proof Hok as [F1 F2 F3 F4 F5 F6 F7 F8 F9].
  unfold freeze_active. rewrite (M_bind_ok _ _ _ _ _ (snapshot_active_ok fs e a F4 (mo_active _ _ F6))).
  rewrite (M_bind_ok _ _ _ _ _ (mem_at_ok fs e a t Hta)).
  destruct (MemTable.is_empty t) eqn:He; [by apply is_empty_iter in He|].
  rewrite (M_bind_ok _ _ _ _ _ (fetch_add_seq_ok fs e ltac:(lia))). apply mid_of_ok in Hok.
  apply (rotate_ok (next_seq e) fs (drawn e) T a []); [by apply drawn_mid|by eapply drawn_fresh].
Qed.

(** ** The operations *)

Lemma engine_ok_tx fs e T a n : engine_ok fs e T a -> engine_ok fs (set_flush_tx n e) T a.
Proof.
  intros [F1 F2 F3 F4 F5 [M1 M2 M3] [T1 T2 T3 T4] [W1 W2 W3 W4 W5] F9].
  split; try done; by split.
Qed.

(** The mutation of an entry, as the memtable performs it. *)
Definition mutate (en : WalEntry) : M MemTable unit :=
  if deleted (entry_mutation en).2 then MemTable.delete (Wal.key en)
  else MemTable.put (Wal.key en) (Wal.value en).

Lemma mutate_ok en t :
  encodable en ->
  exists t', mutate en t = (Ok tt, t') /\
    forall k, get_entry t' k =
      if decide ((entry_mutation en).1 = k) then Some (entry_mutation en).2 else get_entry t k.
Proof.
  intros [[Hk Hv] Hd]. unfold mutate, entry_mutation in *. unfold Wal.MAX_KEY_LEN, Wal.MAX_VALUE_LEN, u32_max in *.
  destruct (Wal.op en); cbn [deleted fst snd].
  - rewrite put_run by (unfold ENTRY_OVERHEAD, usize_max; lia). eexists. split; [done|].
    intros k. unfold get_entry. cbn. apply sm_get_insert.
  - rewrite delete_run by (unfold ENTRY_OVERHEAD, usize_max; lia). eexists. split; [done|].
    intros k. unfold get_entry. cbn. apply sm_get_insert.
Qed.

Lemma get_entry_iter t k x : get_entry t k = Some x -> iter t <> [].
Proof. rewrite <- iter_get_entry. by intros H Hn; rewrite Hn in H. Qed.

Lemma on_mem_ok {A} a (m : M MemTable A) fs e t t' x :
  mems e !! a = Some t -> m t = (Ok x, t') ->
  on_mem a m (fs, e) = (Ok x, (fs, set_mems (<[a := t']> (mems e)) e)).
Proof.
  intros Ht Hm. unfold on_mem. rewrite (M_bind_ok _ _ _ _ _ (mem_at_ok fs e a t Ht)). rewrite Hm. by mstep.
Qed.

Lemma apply_ok fs e T a en fs1 w1 key value d :
  engine_ok fs e T a -> next_seq e < u64_max -> encodable en ->
  logs (frame en) fs (writer (wal e)) fs1 w1 ->
  mutate en = (if d : bool then MemTable.delete key else MemTable.put key value) ->
  exists fs' e' a',
    apply_and_maybe_freeze key value d (fs1, set_wal (mkActiveWal w1 (seq (wal e))) e)
      = (Ok tt, (fs', e')) /\ engine_ok fs' e' T a' /\ next_seq e' <= next_seq e + 1 /\
    options e' = options e /\ (bw_buf (ww_file w1) = [] -> unbuffered e') /\
    forall k, view e' T k =
      if decide ((entry_mutation en).1 = k) then entry_value (entry_mutation en).2 else view e T k.
Proof.
  intros Hok Hroom Hen Hlog Hmut. pose proof (eo_mems _ _ _ _ Hok) as [Ha Hal _].
  apply Forall_inv in Hal. destruct (lookup_lt_is_Some_2 _ _ Hal) as [t Hta].
  destruct (mutate_ok en t Hen) as (t' & Hm & Hget). rewrite Hmut in Hm.
  pose proof (applied_ok _ _ _ _ _ _ _ _ _ Hok Hta Hen Hlog Hget) as Hok'.
  assert (forall k, view (applied e w1 a t') T k =
    if decide ((entry_mutation en).1 = k) then entry_value (entry_mutation en).2 else view e T k) as Hview
    by (intros k; eapply applied_view; [apply Hok|done|done]).
  unfold apply_and_maybe_freeze.
  rewrite (M_bind_ok _ _ _ _ _ (snapshot_active_ok fs1 (set_wal (mkActiveWal w1 (seq (wal e))) e) a
             (eo_poison _ _ _ _ Hok) Ha)).
  rewrite (M_bind_ok _ _ _ _ _ (on_mem_ok a _ fs1 (set_wal (mkActiveWal w1 (seq (wal e))) e) t t' tt Hta Hm)).
  fold (applied e w1 a t').
  assert (mems (applied e w1 a t') !! a = Some t') as Hta'
    by (cbn; by rewrite list_lookup_insert_eq by (by eapply lookup_lt_Some)).
  change (set_mems (<[a:=t']> (mems (set_wal (mkActiveWal w1 (seq (wal e))) e)))
            (set_wal (mkActiveWal w1 (seq (wal e))) e)) with (applied e w1 a t').
  rewrite (M_bind_ok _ _ _ _ _ (mem_at_ok fs1 (applied e w1 a t') a t' Hta')). mstep.
  destruct (_ && _); [|exists fs1, (applied e w1 a t'), a; split_and!; try done; cbn; lia].
  assert (iter t' <> []) as Hne.
  { eapply (get_entry_iter t' (entry_mutation en).1). rewrite Hget. by rewrite decide_True. }
  destruct (freeze_active_ok fs1 (applied e w1 a t') T a t' Hok' Hroom Hta' Hne) as (w & fs' & Hfr & Hrot).
  rewrite (M_bind_ok _ _ _ _ _ Hfr).
  exists fs', (set_flush_tx (S (flush_tx (frozen (applied e w1 a t') a w))) (frozen (applied e w1 a t') a w)),
    (length (mems (applied e w1 a t'))).
  split; [done|]. split; [apply engine_ok_tx; by eapply frozen_ok|]. split; [cbn; lia|]. split; [done|].
  split; [intros _; by destruct Hrot as (ino & -> & _)|].
  intros k. rewrite <- Hview. eapply (frozen_view _ (drawn (applied e w1 a t'))); [|exact Hta']. by apply drawn_mems, Hok'.
Qed.

(** The body of [put] and [delete]. *)
Lemma write_ok fs e T a en key value d :
  engine_ok fs e T a -> next_seq e < u64_max -> encodable en ->
  mutate en = (if d : bool then MemTable.delete key else MemTable.put key value) ->
  exists fs' e' a',
    with_lock WalLock "wal lock poisoned"
      (_ ← on_writer (append (Wal.op en) (Wal.key en) (Wal.value en));
       o ← eng options;
       _ ← (if sync_per_write o then on_writer sync else mret tt);
       apply_and_maybe_freeze key value d) (fs, e) = (Ok tt, (fs', e')) /\
    engine_ok fs' e' T a' /\ next_seq e' <= next_seq e + 1 /\
    options e' = options e /\ (sync_per_write (options e) = true -> unbuffered e') /\
    forall k, view e' T k =
      if decide ((entry_mutation en).1 = k) then entry_value (entry_mutation en).2 else view e T k.
Proof.
  intros Hok Hroom Hen Hmut. pose proof (eo_faults _ _ _ _ Hok) as Hf.
  destruct (append_ok fs (writer (wal e)) en Hf Hen) as (fs1 & w1 & H1 & B1 & _ & T1 & L1).
  assert (logs (frame en) fs (writer (wal e)) fs1 w1) as HL1 by done.
  assert (exists fs2 w2, (if sync_per_write (options e) then on_writer sync else mret tt)
      (fs1, set_wal (mkActiveWal w1 (seq (wal e))) e) = (Ok tt, (fs2, set_wal (mkActiveWal w2 (seq (wal e))) e)) /\
    logs (frame en) fs (writer (wal e)) fs2 w2 /\
    (sync_per_write (options e) = true -> bw_buf (ww_file w2) = [])) as (fs2 & w2 & H2 & HL2 & Hbuf).
  { destruct (sync_per_write (options e)); [|by exists fs1, w1].
    destruct (sync_logs fs1 w1 (touches_faults _ _ _ T1)) as (fs2 & w2 & H2 & L2 & Hb2).
    exists fs2, w2. split; [|split; [|done]].
    - by rewrite (on_writer_ok sync fs1 (set_wal (mkActiveWal w1 (seq (wal e))) e) tt fs2 w2 H2).
    - rewrite <- (app_nil_r (frame en)). by eapply logs_trans. }
  destruct (apply_ok fs e T a en fs2 w2 key value d Hok Hroom Hen HL2 Hmut) as (fs' & e' & a' & H3 & Hok' & Hns & Ho & Hub & Hview).
  exists fs', e', a'. split; [|split_and!; try done; by intros; apply Hub, Hbuf]. apply with_lock_ok; [apply (eo_poison _ _ _ _ Hok)| |done].
  rewrite (M_bind_ok _ _ _ _ _ (on_writer_ok _ fs e tt fs1 w1 H1)). mstep. cbn [snd options set_wal].
  by rewrite (M_bind_ok _ _ _ _ _ H2).
Qed.

Lemma put_ok fs e T a k v :
  engine_ok fs e T a -> next_seq e < u64_max -> len k <= SstRecord.MAX_KEY_LEN -> len v <= SstRecord.MAX_VALUE_LEN ->
  exists fs' e' a', put k v (fs, e) = (Ok tt, (fs', e')) /\ engine_ok fs' e' T a' /\
    next_seq e' <= next_seq e + 1 /\ options e' = options e /\
    (sync_per_write (options e) = true -> unbuffered e') /\
    forall k', view e' T k' = if decide (k = k') then Some v else view e T k'.
Proof.
  intros Hok Hroom Hk Hv. apply (write_ok fs e T a (mkWalEntry Put k v) k v false Hok Hroom); [|done].
  by split; [split|].
Qed.

Lemma delete_ok fs e T a k :
  engine_ok fs e T a -> next_seq e < u64_max -> len k <= SstRecord.MAX_KEY_LEN ->
  exists fs' e' a', delete k (fs, e) = (Ok tt, (fs', e')) /\ engine_ok fs' e' T a' /\
    next_seq e' <= next_seq e + 1 /\ options e' = options e /\
    (sync_per_write (options e) = true -> unbuffered e') /\
    forall k', view e' T k' = if decide (k = k') then None else view e T k'.
Proof.
  intros Hok Hroom Hk. apply (write_ok fs e T a (mkWalEntry Delete k []) k [] true Hok Hroom); [|done].
  by split; [split|].
Qed.

Lemma append_oversize fs w o k v err :
  oversize k v = Some err ->
  exists w', append o k v (fs, w) = (Err err, (fs, w')) /\ ww_file w' = ww_file w.
Proof.
  intros Hbig.
  assert (~ encodable (mkWalEntry o k v)) as Hne.
  { intros [[Hk Hv] _]. assert (oversize k v = None); [by apply oversize_None|congruence]. }
  destruct (append_refused fs w o k v Hne) as (err' & w' & H1 & Hf1 & _ & Henc).
  destruct (encode_entry_err o k v [] Hne) as (err2 & Henc' & Hcases).
  rewrite Henc in Henc'. injection Henc' as <-. exists w'. split; [|done]. rewrite H1. do 2 f_equal.
  unfold oversize in Hbig.
  unfold SstRecord.MAX_KEY_LEN, SstRecord.MAX_VALUE_LEN, Wal.MAX_KEY_LEN, Wal.MAX_VALUE_LEN in *.
  destruct Hcases as [[Hk ->]|[(Hk & Hv & ->)|([Hk Hv] & _)]].
  - rewrite (proj2 (Z.ltb_lt _ _)) in Hbig by done. congruence.
  - rewrite (proj2 (Z.ltb_ge 65535 (len k))), (proj2 (Z.ltb_lt _ _)) in Hbig by done. congruence.
  - exfalso. cbn in Hk, Hv. rewrite (proj2 (Z.ltb_ge 65535 (len k))), (proj2 (Z.ltb_ge _ _)) in Hbig by done. done.
Qed.

(** Only the writer's scratch buffer differs. *)
Lemma scratch_mid fs e T a fl w' :
  mid_ok fs e T a fl -> ww_file w' = ww_file (writer (wal e)) ->
  mid_ok fs (set_wal (mkActiveWal w' (seq (wal e))) e) T a fl.
Proof.
  intros [F1 F2 F3 F4 F5 [M1 M2 M3] [T1 T2 T3 T4] [W1 W2 W3 W4 W5]] Hf1.
  split; try done. split; try done.
  destruct W1 as (t & H2 & H3 & H4). exists t. unfold log_of in *. cbn. by rewrite Hf1.
Qed.

Lemma scratch_ok fs e T a w' :
  engine_ok fs e T a -> ww_file w' = ww_file (writer (wal e)) ->
  engine_ok fs (set_wal (mkActiveWal w' (seq (wal e))) e) T a.
Proof. intros Hok Hf1. apply (ok_by_mid _ _ _ _ _ _ _ _ Hok); [|done]. intros Hm. by apply scratch_mid. Qed.

(** A refused write leaves the engine as it is. *)
Lemma put_refused fs e T a k v err :
  engine_ok fs e T a -> oversize k v = Some err ->
  exists e', put k v (fs, e) = (Err err, (fs, e')) /\ engine_ok fs e' T a /\
    options e' = options e /\ (unbuffered e -> unbuffered e') /\ forall k', view e' T k' = view e T k'.
Proof.
  intros Hok Hbig. destruct (append_oversize fs (writer (wal e)) Put k v err Hbig) as (w' & H1 & Hf1).
  exists (set_wal (mkActiveWal w' (seq (wal e))) e). split; [|split; [by apply scratch_ok|split; [done|split; [|done]]]].
  2: { unfold unbuffered. cbn. by rewrite Hf1. }
  unfold put. apply with_lock_ok; [apply (eo_poison _ _ _ _ Hok)| |done].
  by rewrite (M_bind_err _ _ _ _ _ (on_writer_err _ fs e err fs w' H1)).
Qed.

Lemma delete_refused fs e T a k err :
  engine_ok fs e T a -> oversize k [] = Some err ->
  exists e', delete k (fs, e) = (Err err, (fs, e')) /\ engine_ok fs e' T a /\
    options e' = options e /\ (unbuffered e -> unbuffered e') /\ forall k', view e' T k' = view e T k'.
Proof.
  intros Hok Hbig. destruct (append_oversize fs (writer (wal e)) Delete k [] err Hbig) as (w' & H1 & Hf1).
  exists (set_wal (mkActiveWal w' (seq (wal e))) e). split; [|split; [by apply scratch_ok|split; [done|split; [|done]]]].
  2: { unfold unbuffered. cbn. by rewrite Hf1. }
  unfold delete. apply with_lock_ok; [apply (eo_poison _ _ _ _ Hok)| |done].
  by rewrite (M_bind_err _ _ _ _ _ (on_writer_err _ fs e err fs w' H1)).
Qed.
End put.
