(* ===== verification/EngineFlush.v ===== *)
(** * Flushing frozen memtables to tables *)

From S2P Require Import Prelude Outcome External Fs MemTable Wal WalWriter WalReader.
From S2P Require Import StdVec SstRecord SstIndex Bloom Builder Reader Merge Manifest.
From S2P Require Import Names Engine EngineSpec EngineGet EnginePut.

Section flush.
Context {C : Crc32} {SM : SkipMap Entry} {FB : FastBloom} {AL : Allocator}.

(** ** The records of a memtable *)

Definition mem_records (t : MemTable) : list record := entry_record <$> iter t.

(** A table that fits the offsets of the format. *)
Definition small (t : MemTable) : Prop := len (records_bytes (mem_records t)) <= 2 ^ 60.

Lemma mem_records_keys t : rkey <$> mem_records t = (iter t).*1.
Proof. unfold mem_records. rewrite <- list_fmap_compose. by apply list_fmap_ext. Qed.

Lemma mem_records_sorted t : rs_sorted (mem_records t).
Proof. unfold rs_sorted. rewrite mem_records_keys. apply iter_sorted. Qed.

Lemma as_assoc_mem_records t :
  as_assoc (mem_records t) = (fun kv => (kv.1, (MemTable.value kv.2, deleted kv.2))) <$> iter t.
Proof. unfold as_assoc, mem_records. rewrite <- list_fmap_compose. by apply list_fmap_ext. Qed.

Lemma record_entry_mem t k : record_entry (mem_records t) k = get_entry t k.
Proof.
  rewrite <- iter_get_entry. unfold record_entry. rewrite as_assoc_mem_records.
  induction (iter t) as [|[k' [v d]] l IH]; [done|]. simpl. by case_decide.
Qed.

Lemma wal_holds_capped log t : wal_holds log t -> Forall capped (mem_records t).
Proof.
  intros (es & _ & Hes & Hget). unfold mem_records. apply Forall_fmap, Forall_forall.
  intros [k en] Hin. apply (elem_of_assoc _ _ _ (iter_sorted t)) in Hin.
  rewrite iter_get_entry, Hget in Hin. unfold last_write in Hin. apply assoc_elem_of in Hin.
  apply list_elem_of_In, in_rev, list_elem_of_In, list_elem_of_fmap in Hin as (e & He & Hin).
  rewrite Forall_forall in Hes. destruct (Hes e Hin) as [[Hk Hv] Hd].
  unfold capped, entry_record, rkey, rvalue. cbn. unfold entry_mutation in He.
  unfold Wal.MAX_KEY_LEN, Wal.MAX_VALUE_LEN, SstRecord.MAX_KEY_LEN, SstRecord.MAX_VALUE_LEN in *.
  by destruct (Wal.op e); simplify_eq.
Qed.

(** ** Building and writing a table *)

Lemma fill_builder_ok n rs :
  Forall capped rs -> rs_sorted rs ->
  exists b blocks cur, fill_builder n rs = Ok b /\ builds b blocks cur /\ concat blocks ++ cur = rs /\
    Builder.min_key b = rkey <$> head rs /\ Builder.max_key b = rkey <$> last rs.
Proof.
  intros Hc Hs. destruct (add_all_ok rs n Hc Hs) as (b & blocks & cur & Hrun & Hb & Hcat).
  exists b, blocks, cur. unfold fill_builder. rewrite Hrun. split_and!; try done.
  - unfold Builder.min_key. by rewrite (bi_first _ _ _ Hb), Hcat.
  - unfold Builder.max_key. by rewrite (bi_last _ _ _ Hb), Hcat.
Qed.

(** The file system after a table was written: the file is there under its
    final name, and no other name is new. *)
Record table_written (tmp final : string) (rs : list record) (fs fs' : Fs) : Prop := {
  tw_keeps : keeps (fun n => n = tmp \/ n = final) fs fs';
  tw_file : exists ino, dirents fs' !! final = Some ino /\ table_of (data_of fs' ino) rs;
  tw_names : forall n, is_Some (dirents fs' !! n) -> n = final \/ is_Some (dirents fs !! n);
}.

Lemma write_table_ok b blocks cur tmp final fs e :
  builds b blocks cur -> len (records_bytes (concat blocks ++ cur)) <= 2 ^ 60 ->
  faults fs = [] -> fs_wf fs -> tmp <> final ->
  exists fs', write_table b tmp final (fs, e) = (Ok tt, (fs', e)) /\
    table_written tmp final (concat blocks ++ cur) fs fs'.
Proof.
  intros Hb Hs Hf Hwf Hne.
  destruct (build_ok tmp b blocks cur fs Hb Hs Hf Hwf) as (ino & d & fs1 & H1 & W1 & Ht).
  pose proof (wrote_wf _ _ _ _ _ W1 Hwf) as Hwf1. pose proof W1 as [D1 C1 I1 O1 N1 F1].
  assert (dirents fs1 !! tmp = Some ino) as Htmp by (by rewrite D1, lookup_insert_eq).
  destruct (file_sync_ok ino fs1 F1) as (fs2 & H2 & T2 & I2).
  pose proof T2 as (D2 & _ & F2 & _).
  assert (dirents fs2 !! tmp = Some ino) as Htmp2 by (by rewrite D2).
  pose proof (fs_rename_ok tmp final ino fs2 F2 Htmp2) as H3.
  pose proof (keeps_touches _ _ _ _ Hwf1 Htmp T2) as K2.
  eexists. split.
  { unfold write_table. rewrite (M_bind_ok _ _ _ _ _ (on_fs_run _ fs e _ _ H1)).
    rewrite (M_bind_ok _ _ _ _ _ (on_fs_run _ fs1 e _ _ (file_open_ok tmp ino fs1 F1 Htmp))).
    rewrite (M_bind_ok _ _ _ _ _ (on_fs_run _ fs1 e _ _ H2)).
    by rewrite (on_fs_run _ fs2 e _ _ H3). }
  split.
  - eapply keeps_trans; [eapply keeps_mono; [|by eapply keeps_wrote]; intros n <-; by left|].
    eapply keeps_trans; [eapply keeps_mono; [|exact K2]; intros n <-; by left|].
    apply (keeps_rename tmp final ino fs2 F2 (kp_wf _ _ _ K2) Htmp2).
  - exists ino. split; [cbn; by rewrite lookup_insert_eq|].
    assert (data_of fs2 ino = d) as Hd by (unfold data_of; rewrite I2; exact C1).
    change (table_of (data_of fs2 ino) (concat blocks ++ cur)). by rewrite Hd.
  - intros n. cbn. rewrite lookup_insert. case_decide as H; [by left|]. rewrite lookup_delete.
    case_decide as H'; [by intros []|]. rewrite D2, D1, lookup_insert_ne by done. by right.
Qed.

(** The handle of a freshly written table. *)
Definition new_handle (l : nat) (s : Z) (rs : list record) : SstHandle :=
  mkSstHandle (mkSstMeta (Z.of_nat l) s (sst_name l s) (default [] (rkey <$> head rs))
    (default [] (rkey <$> last rs))) (sst_name l s) None.

Lemma new_handle_ok fs l s rs ino :
  0 <= s <= u64_max -> rs <> [] -> dirents fs !! sst_name l s = Some ino ->
  table_of (data_of fs ino) rs -> handle_ok fs l (new_handle l s rs) rs.
Proof.
  intros Hs Hne Hd Ht. split; try done.
  - by destruct rs.
  - destruct rs as [|r rs _] using rev_ind; [done|]. cbn. by rewrite last_snoc.
  - by exists ino.
Qed.

Definition set_T (T : nat -> list record) (i : nat) (rs : list record) : nat -> list record :=
  fun j => if decide (i = j) then rs else T j.

(** The tables after a new one joined level 0. *)
Definition add_l0 (ls : list (list nat)) (i : nat) : list (list nat) :=
  match ls with [] => [[i]] | l0 :: ls => (l0 ++ [i]) :: ls end.

Lemma seq_of_app hs h i : (i < length hs)%nat -> seq_of (hs ++ [h]) i = seq_of hs i.
Proof. intros H. unfold seq_of. by rewrite lookup_app_l. Qed.

Lemma seq_of_last hs h : seq_of (hs ++ [h]) (length hs) = Manifest.seq (meta h).
Proof. unfold seq_of. by rewrite lookup_app_r, Nat.sub_diag. Qed.

Lemma live_alloc fs e T l ids i :
  tables_ok fs e T -> levels (state e) !! l = Some ids -> i ∈ ids ->
  (i < length (handles e))%nat /\ seq_of (handles e) i < next_seq e.
Proof.
  intros Ht Hl Hi. destruct (ta_handles _ _ _ Ht l ids i Hl Hi) as (h & Hh & _ & Hlt).
  split; [by eapply lookup_lt_Some|]. unfold seq_of. by rewrite Hh.
Qed.

Lemma add_l0_lookup ls i l ids :
  add_l0 ls i !! l = Some ids ->
  (l = 0%nat /\ exists ids0, ids = ids0 ++ [i] /\ (ls !! 0%nat = Some ids0 \/ ls = [] /\ ids0 = [])) \/
  ((0 < l)%nat /\ ls !! l = Some ids).
Proof.
  destruct ls as [|l0 ls]; destruct l as [|l]; cbn; intros H; simplify_eq.
  - left. split; [done|]. exists []. split; [done|]. by right.
  - left. split; [done|]. exists l0. split; [done|]. by left.
  - right. split; [lia|done].
Qed.

Lemma ordered_app_handle e ids (h : SstHandle) :
  Forall (fun i => (i < length (handles e))%nat) ids ->
  StronglySorted (fun i j => seq_of (handles e) i < seq_of (handles e) j) ids ->
  StronglySorted (fun i j => seq_of (handles e ++ [h]) i < seq_of (handles e ++ [h]) j) ids.
Proof.
  intros Hal Hs. induction Hs as [|i ids Hs IH Hi]; [constructor|].
  inversion_clear Hal as [|? ? Hai Hal']. constructor; [by apply IH|].
  rewrite Forall_forall in Hi, Hal' |- *. intros j Hj. rewrite !seq_of_app by auto. by apply Hi.
Qed.

(** [n] is above the sequence numbers of the live tables. *)
Definition above (e : LsmEngineInner) (n : Z) : Prop :=
  forall l i, live e l i -> seq_of (handles e) i < n.

Lemma above_next fs e T : tables_ok fs e T -> above e (next_seq e).
Proof. intros Ht l i (ids & Hl & Hi). by eapply live_alloc. Qed.

(** A table that is not live is allocated. *)
Lemma tables_ok_alloc fs e T h rs :
  tables_ok fs e T -> tables_ok fs (set_handles (handles e ++ [h]) e) (set_T T (length (handles e)) rs).
Proof.
  intros Ht. pose proof Ht as [T1 T2 T3 T4].
  assert (forall l ids, levels (state e) !! l = Some ids -> Forall (fun i => (i < length (handles e))%nat) ids) as Hal.
  { intros l ids Hl. apply Forall_forall. intros i Hi. by eapply live_alloc. }
  split; cbn [state handles next_seq set_handles]; [done|..].
  - intros l ids i Hl Hi. destruct (T2 l ids i Hl Hi) as (h0 & Hh0 & Hok & Hlt). exists h0.
    split; [by apply lookup_app_l_Some|]. unfold set_T. rewrite decide_False; [done|].
    apply lookup_lt_Some in Hh0. lia.
  - intros l ids Hl. apply ordered_app_handle; [by eapply Hal|by eapply T3].
  - intros ids0 ids1 i j H0 H1 Hi Hj. pose proof (Hal _ _ H0) as A0. pose proof (Hal _ _ H1) as A1.
    rewrite Forall_forall in A0, A1. rewrite !seq_of_app by auto. by eapply T4.
Qed.

(** A new table of the highest sequence number joins level 0. *)
Lemma tables_ok_l0 fs e T h rs st' :
  tables_ok fs e T -> handle_ok fs 0 h rs -> above e (Manifest.seq (meta h)) ->
  Manifest.seq (meta h) < next_seq e ->
  levels st' = add_l0 (levels (state e)) (length (handles e)) ->
  tables_ok fs (set_state st' (set_handles (handles e ++ [h]) e)) (set_T T (length (handles e)) rs).
Proof.
  intros Ht Hh Habove Hseq Hls. pose proof (tables_ok_alloc fs e T h rs Ht) as [T1 T2 T3 T4].
  cbn [state handles next_seq set_handles] in T1, T2, T3, T4.
  assert (forall l ids i, levels (state e) !! l = Some ids -> i ∈ ids ->
    seq_of (handles e ++ [h]) i < Manifest.seq (meta h)) as Hold.
  { intros l ids i Hl Hi. rewrite seq_of_app by (by eapply live_alloc). apply (Habove l). by exists ids. }
  split; cbn [state levels handles next_seq set_state set_handles]; rewrite ?Hls.
  - destruct (levels (state e)); cbn in *; lia.
  - intros l ids i [(-> & ids0 & -> & Hids0)|[Hl Hl']]%add_l0_lookup Hi; [|by eapply T2].
    apply elem_of_app in Hi as [Hi| ->%list_elem_of_singleton].
    + destruct Hids0 as [Hids0|[_ ->]]; [by eapply T2|by apply not_elem_of_nil in Hi].
    + exists h. split; [by rewrite lookup_app_r, Nat.sub_diag|]. unfold set_T. by rewrite decide_True.
  - intros l ids [(-> & ids0 & -> & Hids0)|[Hl Hl']]%add_l0_lookup; [|by eapply T3].
    apply StronglySorted_app. destruct Hids0 as [H0|[_ ->]]; split_and!; try by repeat constructor.
    + intros i j Hi ->%list_elem_of_singleton. rewrite seq_of_last. by eapply Hold.
    + by eapply T3.
    + by intros i j ?%not_elem_of_nil.
  - intros ids0 ids1 i j H0 H1 Hi Hj.
    apply add_l0_lookup in H1 as [[? _]|[_ H1]]; [done|].
    apply add_l0_lookup in H0 as [(_ & ids & -> & Hids)|[? _]]; [|lia].
    apply elem_of_app in Hi as [Hi| ->%list_elem_of_singleton].
    + destruct Hids as [Hids|[_ ->]]; [by eapply T4|by apply not_elem_of_nil in Hi].
    + rewrite seq_of_last. by eapply Hold.
Qed.

(** ** Flushing one memtable *)

(** The state after the table [h] of the oldest frozen memtable joined. *)
Definition joined (e : LsmEngineInner) (ps : list PendingImm) (h : SstHandle) : LsmEngineInner :=
  set_state (mkEngineState (active (state e)) ps (add_l0 (levels (state e)) (length (handles e))))
    (set_handles (handles e ++ [h]) e).

Definition after_flush (e : LsmEngineInner) (ps : list PendingImm) (h : SstHandle) : LsmEngineInner :=
  joined (drawn e) ps h.

(** [n] is above the sequence numbers of the live tables, which are allocated. *)
Definition joins (e : LsmEngineInner) (n : Z) : Prop :=
  forall l i, live e l i -> (i < length (handles e))%nat /\ seq_of (handles e) i < n.

Lemma above_joins fs e T n : tables_ok fs e T -> above e n -> joins e n.
Proof.
  intros Ht Hn l i Hi. split; [|by eapply Hn]. destruct Hi as (ids & Hl & Hi). by eapply live_alloc.
Qed.

Lemma commit_flush_ok fs e h p ps :
  joins e (Manifest.seq (meta h)) -> immutables (state e) = p :: ps ->
  NoDup (wal_seq <$> p :: ps) ->
  commit_flush (length (handles e)) (Manifest.seq (meta h)) (wal_seq p) (fs, set_handles (handles e ++ [h]) e) =
    (Ok tt, (fs, joined e ps h)).
Proof.
  intros Hjoin Himm Hnd. unfold commit_flush. mstep. cbn [snd state set_handles].
  assert (exists l0 ls, (if is_nil (levels (state e)) then [[]] else levels (state e)) = l0 :: ls /\
    add_l0 (levels (state e)) (length (handles e)) = (l0 ++ [length (handles e)]) :: ls /\
    forall j, j ∈ l0 -> (j < length (handles e))%nat /\ seq_of (handles e) j < Manifest.seq (meta h))
    as (l0 & ls & -> & Hadd & Hl0).
  { destruct (levels (state e)) as [|l0 ls] eqn:E; cbn.
    - exists [], []. split_and!; [done..|]. by intros j ?%not_elem_of_nil.
    - exists l0, ls. split_and!; [done..|]. intros j Hj. apply (Hjoin 0%nat). exists l0. by rewrite E. }
  rewrite (lift_bind_ok _ _ _ l0) by done. mstep. cbn [snd handles set_handles].
  assert (partition_point (fun j => match (handles e ++ [h]) !! j with
      | Some h0 => Manifest.seq (meta h0) <? Manifest.seq (meta h) | None => false end) l0 = length l0) as ->.
  { rewrite <- (app_nil_r l0) at 1. apply partition_point_spec. split; [|constructor].
    apply Forall_forall. intros j Hj. destruct (Hl0 j Hj) as [Ha Hs]. rewrite lookup_app_l by done.
    unfold seq_of in Hs. destruct (lookup_lt_is_Some_2 _ _ Ha) as [h0 Hh0]. rewrite Hh0 in Hs |- *.
    by apply Z.ltb_lt. }
  assert (vec_insert (length l0) (length (handles e)) l0 = Ok (l0 ++ [length (handles e)])) as Hins
    by (rewrite <- (app_nil_r l0) at 2; apply vec_insert_app).
  rewrite (lift_bind_ok _ _ _ _ Hins). unfold upd, modify. cbn [fst snd]. unfold joined.
  rewrite Hadd, Himm. repeat f_equal.
  cbn [fmap list_fmap] in Hnd. apply NoDup_cons in Hnd as [Hnp _].
  rewrite filter_cons, decide_False by (by intros ?).
  apply filter_id, Forall_forall. intros q Hq Heq. apply Hnp. rewrite <- Heq.
  by apply list_elem_of_fmap_2.
Qed.

Lemma frozen_generations fs e T a fl : mid_ok fs e T a fl -> NoDup (wal_seq <$> immutables (state e)).
Proof.
  intros [_ _ _ _ _ _ _ [_ _ (_ & _ & (_ & Hs & _)%StronglySorted_app)%StronglySorted_app _ _]].
  induction Hs as [|x l _ IH Hx]; [constructor|]. constructor; [|done].
  intros Hin. rewrite Forall_forall in Hx. specialize (Hx _ Hin). lia.
Qed.

Lemma join_table_run fs e l n rs p ps :
  poisoned e = [] -> joins e n -> immutables (state e) = p :: ps -> NoDup (wal_seq <$> p :: ps) ->
  join_table (meta (new_handle l n rs)) p (fs, e) = (Ok tt, (fs, joined e ps (new_handle l n rs))).
Proof.
  intros Hp Hjoin Himm Hnd.
  apply with_lock_ok; [done| |done]. apply write_state_ok; [done| |done].
  unfold alloc_handle. rewrite M_bind_assoc. mstep. rewrite M_bind_assoc. mstep. mstep. cbn [fst snd].
  by apply (commit_flush_ok fs e (new_handle l n rs)).
Qed.

Lemma join_table_ok fs e T a fl l n rs p ps :
  mid_ok fs e T a fl -> above e n -> immutables (state e) = p :: ps ->
  join_table (meta (new_handle l n rs)) p (fs, e) = (Ok tt, (fs, joined e ps (new_handle l n rs))).
Proof.
  intros Hok Habove Himm. apply join_table_run; [apply Hok|by eapply above_joins; [apply Hok|]|done|].
  rewrite <- Himm. by eapply frozen_generations.
Qed.

Lemma build_pending_ok fs e T a fl p t n :
  mid_ok fs e T a fl -> p ∈ immutables (state e) -> mems e !! mem p = Some t -> small t ->
  exists fs', build_pending p n (fs, e) = (Ok (meta (new_handle 0 n (mem_records t))), (fs', e)) /\
    table_written (tmp_name (sst_name 0 n)) (sst_name 0 n) (mem_records t) fs fs'.
Proof.
  intros [F1 F2 F3 F4 F5 F6 F7 F8] Hp Ht Hsmall.
  destruct (wm_frozen _ _ _ _ F8 p Hp) as (t0 & ino & Ht0 & Hne & _ & Hholds). rewrite Ht in Ht0. injection Ht0 as <-.
  unfold build_pending. rewrite (M_bind_ok _ _ _ _ _ (mem_at_ok fs e (mem p) t Ht)).
  destruct (fill_builder_ok (mem_len t) (mem_records t) (wal_holds_capped _ _ Hholds) (mem_records_sorted t))
    as (b & blocks & cur & Hfill & Hb & Hcat & Hmin & Hmax).
  rewrite (lift_bind_ok _ _ _ _ Hfill).
  destruct (write_table_ok b blocks cur (tmp_name (sst_name 0 n)) (sst_name 0 n) fs e Hb)
    as (fs' & Hwrite & Htw); [by rewrite Hcat|done|done|apply tmp_ne_sst|].
  rewrite (M_bind_ok _ _ _ _ _ Hwrite). rewrite Hcat in Htw. exists fs'. split; [|done].
  by rewrite Hmin, Hmax.
Qed.

(** A table name with a new number is not in use, nor is its temporary name. *)
Lemma above_not_live l s fs e T n :
  tables_ok fs e T -> (l <= 1)%nat -> 0 <= s <= u64_max -> above e s -> live_path e n ->
  ~ (n = tmp_name (sst_name l s) \/ n = sst_name l s).
Proof.
  intros Ht Hl Hs Hns (l' & i & h & Hlv & Hh & <-) Hcase.
  pose proof (Hns l' i Hlv) as Hlt. unfold seq_of in Hlt. rewrite Hh in Hlt. destruct Hlv as (ids & Hl' & Hi).
  destruct (ta_handles _ _ _ Ht l' ids i Hl' Hi) as (h' & Hh' & Hok & _). simplify_eq.
  pose proof (ta_levels _ _ _ Ht). apply lookup_lt_Some in Hl'. destruct (ho_seq _ _ _ _ Hok).
  rewrite (ho_name _ _ _ _ Hok) in Hcase.
  destruct Hcase as [Hc|Hc]; [symmetry in Hc; by apply tmp_ne_sst in Hc|].
  destruct l as [|[|]], l' as [|[|]]; try lia.
  - apply sst_name_inj in Hc; lia.
  - symmetry in Hc. by apply sst_name_level in Hc.
  - by apply sst_name_level in Hc.
  - apply sst_name_inj in Hc; lia.
Qed.

(** A table written under a new name leaves the live files and logs alone. *)
Lemma table_written_above l s rs fs e T fs' n :
  tables_ok fs e T -> (l <= 1)%nat -> 0 <= s <= u64_max -> above e s ->
  table_written (tmp_name (sst_name l s)) (sst_name l s) rs fs fs' ->
  live_path e n \/ initial n <> Some x4c -> kept n fs fs'.
Proof.
  intros Ht Hl Hs Hns Htw Hn. apply (kp_kept _ _ _ (tw_keeps _ _ _ _ _ Htw)).
  destruct Hn as [Hn|Hn]; [by eapply above_not_live|].
  intros [->| ->]; apply Hn; [apply initial_sst_tmp|apply initial_sst].
Qed.

Lemma table_written_kept l s rs fs e T fs' n :
  tables_ok fs e T -> (l <= 1)%nat -> 0 <= s <= u64_max -> next_seq e <= s ->
  table_written (tmp_name (sst_name l s)) (sst_name l s) rs fs fs' ->
  live_path e n \/ initial n <> Some x4c -> kept n fs fs'.
Proof.
  intros Ht Hl Hs Hns. eapply table_written_above; try done. intros l' i Hi.
  pose proof (above_next _ _ _ Ht l' i Hi). lia.
Qed.

Lemma table_written_wal l s rs fs e T fs' w :
  tables_ok fs e T -> (l <= 1)%nat -> 0 <= s <= u64_max -> next_seq e <= s ->
  table_written (tmp_name (sst_name l s)) (sst_name l s) rs fs fs' -> kept (wal_name w) fs fs'.
Proof.
  intros. eapply table_written_kept; [done..|]. right. rewrite initial_wal. done.
Qed.

Lemma written_names l s rs fs fs' :
  0 <= s -> (l <= 1)%nat ->
  table_written (tmp_name (sst_name l s)) (sst_name l s) rs fs fs' ->
  (forall n, is_Some (dirents fs !! n) -> valid_utf8 (as_bytes n) = true) ->
  (forall n, is_Some (dirents fs' !! n) -> valid_utf8 (as_bytes n) = true) /\
  (forall n w, is_Some (dirents fs' !! n) -> parse_wal_name n = Some w -> is_Some (dirents fs !! n)).
Proof.
  intros Hs Hl Htw Hutf. split.
  - intros n [->|Hn]%(tw_names _ _ _ _ _ Htw); [by apply sst_name_utf8|by apply Hutf].
  - intros n w [->|Hn]%(tw_names _ _ _ _ _ Htw) Hp; [|done].
    apply parse_wal_name_initial in Hp. by rewrite initial_sst in Hp.
Qed.

Lemma written_mid l s rs fs e T a fl fs' :
  mid_ok fs e T a fl -> (l <= 1)%nat -> 0 <= s <= u64_max -> above e s ->
  table_written (tmp_name (sst_name l s)) (sst_name l s) rs fs fs' -> mid_ok fs' e T a fl.
Proof.
  intros Hok Hl Hs Hns Htw. pose proof (md_tables _ _ _ _ _ Hok) as Ht.
  destruct (written_names l s _ _ _ ltac:(lia) Hl Htw (md_utf8 _ _ _ _ _ Hok)) as [Hutf Hwal].
  apply (mid_fs _ _ _ _ fl _ _ Hok); try done; [apply Htw..| | |].
  - intros x Hx. eapply table_written_above; try done. by left.
  - intros w _. eapply table_written_above; try done. right. by rewrite initial_wal.
  - intros x w Hx Hp. split; [by eapply Hwal|done].
Qed.

Lemma joined_mid fs e T a fl p ps n t ino :
  mid_ok fs e T a fl -> immutables (state e) = p :: ps -> mems e !! mem p = Some t -> iter t <> [] ->
  above e n -> 0 <= n < next_seq e ->
  dirents fs !! sst_name 0 n = Some ino -> table_of (data_of fs ino) (mem_records t) ->
  mid_ok fs (joined e ps (new_handle 0 n (mem_records t)))
    (set_T T (length (handles e)) (mem_records t)) a (fl ++ [wal_seq p]).
Proof.
  intros Hok Himm Ht Hne Habove Hn Hino Htab. pose proof Hok as [F1 F2 F3 F4 F5 F6 F7 F8].
  assert ((fl ++ [wal_seq p]) ++ live_wals (joined e ps (new_handle 0 n (mem_records t))) = fl ++ live_wals e)
    as Hlive by (unfold live_wals; cbn; rewrite Himm; cbn; by rewrite <- app_assoc).
  split; try done.
  - destruct F6 as [M1 M2 M3]. unfold live_mems in *. rewrite Himm in M2, M3.
    split; [done| |]; unfold live_mems; cbn in *.
    + inversion_clear M2 as [|? ? Ha M2']. inversion_clear M2'. by constructor.
    + apply NoDup_cons in M3 as [N1 [_ N3]%NoDup_cons]. apply NoDup_cons. split; [|done].
      intros Hin. apply N1. by apply list_elem_of_further.
  - apply tables_ok_l0; [done| |done|cbn; lia|done].
    eapply new_handle_ok; [lia| |done|done]. unfold mem_records. by destruct (iter t).
  - destruct F8 as [W1 W2 W3 W4 W5]. split; rewrite ?Hlive; try done.
    intros q Hq. apply W2. rewrite Himm. by apply list_elem_of_further.
Qed.

Lemma flush_pending_ok fs e T a flushed p ps t :
  mid_ok fs e T a flushed -> immutables (state e) = p :: ps -> mems e !! mem p = Some t ->
  small t -> next_seq e < u64_max ->
  let rs := mem_records t in
  let name := sst_name 0 (next_seq e) in
  exists fs', flush_pending p (fs, e) = (Ok tt, (fs', after_flush e ps (new_handle 0 (next_seq e) rs))) /\
    table_written (tmp_name name) name rs fs fs'.
Proof.
  intros Hok Himm Ht Hsmall Hroom rs name. pose proof (md_next _ _ _ _ _ Hok) as Hn.
  pose proof (drawn_mid _ _ _ _ _ Hok Hroom) as Hok1. pose proof (above_next _ _ _ (md_tables _ _ _ _ _ Hok)) as Hab.
  destruct (build_pending_ok fs (drawn e) T a flushed p t (next_seq e) Hok1) as (fs' & Hb & Htw);
    [cbn; rewrite Himm; apply list_elem_of_here|done..|].
  pose proof (written_mid 0 (next_seq e) _ _ _ _ _ _ _ Hok1 ltac:(lia) ltac:(lia) Hab Htw) as Hok2.
  exists fs'. split; [|done]. unfold flush_pending.
  rewrite (M_bind_ok _ _ _ _ _ (fetch_add_seq_ok fs e ltac:(lia))), (M_bind_ok _ _ _ _ _ Hb).
  by eapply join_table_ok.
Qed.

Lemma after_flush_mid fs e T a flushed p ps t fs' :
  mid_ok fs e T a flushed -> immutables (state e) = p :: ps -> mems e !! mem p = Some t -> iter t <> [] ->
  next_seq e < u64_max ->
  table_written (tmp_name (sst_name 0 (next_seq e))) (sst_name 0 (next_seq e)) (mem_records t) fs fs' ->
  mid_ok fs' (after_flush e ps (new_handle 0 (next_seq e) (mem_records t)))
    (set_T T (length (handles e)) (mem_records t)) a (flushed ++ [wal_seq p]).
Proof.
  intros Hok Himm Ht Hne Hroom Htw. pose proof (md_next _ _ _ _ _ Hok) as Hn.
  pose proof (drawn_mid _ _ _ _ _ Hok Hroom) as Hok1. pose proof (above_next _ _ _ (md_tables _ _ _ _ _ Hok)) as Hab.
  pose proof (written_mid 0 (next_seq e) _ _ _ _ _ _ _ Hok1 ltac:(lia) ltac:(lia) Hab Htw) as Hok2.
  destruct (tw_file _ _ _ _ _ Htw) as (ino & Hino & Htab).
  eapply (joined_mid fs' (drawn e)); try done. cbn. lia.
Qed.

Lemma table_sources_set_T T i rs ls :
  (forall l ids j, ls !! l = Some ids -> j ∈ ids -> (j < i)%nat) ->
  forall k, Forall2 (fun f g => f k = g k) (table_sources (set_T T i rs) ls) (table_sources T ls).
Proof.
  intros H k. unfold table_sources. apply Forall2_fmap, Forall_Forall2_diag, Forall_forall.
  intros j (l & Hl & Hj)%elem_of_concat_inv. apply list_elem_of_fmap in Hl as (ids & -> & Hl).
  rewrite elem_of_reverse in Hj. apply list_elem_of_lookup in Hl as [n Hn].
  specialize (H n ids j Hn Hj). unfold set_T. by rewrite decide_False by lia.
Qed.

Lemma table_sources_add_l0 T ls i :
  table_sources T (add_l0 ls i) = (record_entry (T i)) :: table_sources T ls.
Proof. destruct ls as [|l0 ls]; [done|]. unfold table_sources. cbn. by rewrite reverse_app. Qed.

(** The flushed memtable is the newest table. *)
Lemma joined_tables fs e T ps m n t k :
  tables_ok fs e T -> mems e !! m = Some t ->
  first_some (table_sources (set_T T (length (handles e)) (mem_records t))
      (levels (state (joined e ps (new_handle 0 n (mem_records t)))))) k =
    first_some (mem_entry (mems e) m :: table_sources T (levels (state e))) k.
Proof.
  intros Hok Ht. cbn [joined set_state set_handles state levels].
  rewrite table_sources_add_l0. cbn [first_some].
  unfold set_T at 1. rewrite decide_True by done. rewrite record_entry_mem.
  unfold mem_entry. rewrite Ht. cbn [mbind option_bind]. destruct (get_entry t k); [done|].
  apply first_some_ext, table_sources_set_T. intros l ids j Hl Hj. by eapply live_alloc.
Qed.

Lemma joined_view fs e T p ps n t k :
  tables_ok fs e T -> immutables (state e) = p :: ps -> mems e !! mem p = Some t ->
  view (joined e ps (new_handle 0 n (mem_records t))) (set_T T (length (handles e)) (mem_records t)) k = view e T k.
Proof.
  intros Hok Himm Ht. unfold view, sources, mem_sources. f_equal. rewrite Himm, reverse_cons, fmap_app.
  set (e' := joined e ps (new_handle 0 n (mem_records t))).
  change (mems e') with (mems e). change (active (state e')) with (active (state e)).
  change (immutables (state e')) with ps.
  rewrite !first_some_app. destruct (first_some _ k); [done|]. destruct (first_some _ k); [done|].
  unfold e'. rewrite (joined_tables _ _ _ ps _ n _ k Hok Ht). cbn [fmap list_fmap first_some].
  by destruct (mem_entry (mems e) (mem p) k).
Qed.

Lemma after_flush_tables fs e T a flushed p ps t k :
  mid_ok fs e T a flushed -> mems e !! mem p = Some t ->
  first_some (table_sources (set_T T (length (handles e)) (mem_records t))
      (levels (state (after_flush e ps (new_handle 0 (next_seq e) (mem_records t)))))) k =
    first_some (mem_entry (mems e) (mem p) :: table_sources T (levels (state e))) k.
Proof. intros Hok Ht. exact (joined_tables fs e T ps (mem p) (next_seq e) t k (md_tables _ _ _ _ _ Hok) Ht). Qed.

Lemma after_flush_view fs e T a flushed p ps t k :
  mid_ok fs e T a flushed -> immutables (state e) = p :: ps -> mems e !! mem p = Some t ->
  view (after_flush e ps (new_handle 0 (next_seq e) (mem_records t)))
    (set_T T (length (handles e)) (mem_records t)) k = view e T k.
Proof.
  intros Hok Himm Ht. exact (joined_view fs e T p ps (next_seq e) t k (md_tables _ _ _ _ _ Hok) Himm Ht).
Qed.

(** ** Draining *)

Definition small_frozen (e : LsmEngineInner) : Prop :=
  forall p t, p ∈ immutables (state e) -> mems e !! mem p = Some t -> small t.

Lemma drain_ok fuel fs e T a flushed :
  mid_ok fs e T a flushed -> small_frozen e ->
  next_seq e + len (immutables (state e)) <= u64_max -> (length (immutables (state e)) < fuel)%nat ->
  exists fs' e' T', drain fuel flushed (fs, e) =
      (Ok (flushed ++ (wal_seq <$> immutables (state e))), (fs', e')) /\
    mid_ok fs' e' T' a (flushed ++ (wal_seq <$> immutables (state e))) /\
    immutables (state e') = [] /\ mems e' = mems e /\ same_log e e' /\
    (forall w, kept (wal_name w) fs fs') /\
    next_seq e' = next_seq e + len (immutables (state e)) /\
    (immutables (state e) = [] -> fs' = fs /\ e' = e /\ T' = T) /\
    (forall k, first_some (table_sources T' (levels (state e'))) k =
      first_some (((fun p => mem_entry (mems e) (mem p)) <$> reverse (immutables (state e))) ++
                  table_sources T (levels (state e))) k) /\
    forall k, view e' T' k = view e T k.
Proof.
  intros Hok Hsm Hroom Hfuel. remember (immutables (state e)) as ps eqn:Eps. symmetry in Eps.
  revert fuel fs e T flushed Eps Hok Hsm Hroom Hfuel.
  induction ps as [|p ps IH]; intros fuel fs e T flushed Himm Hok Hsm Hroom Hfuel;
    (destruct fuel as [|fuel]; [simpl in Hfuel; lia|]); cbn [drain];
    rewrite (M_bind_ok _ _ _ _ _ (read_state_ok fs e (md_poison _ _ _ _ _ Hok))), Himm; cbn [head].
  { exists fs, e, T. rewrite app_nil_r, len_nil, Z.add_0_r. split_and!; try done. }
  rewrite len_cons in Hroom. pose proof (len_nonneg ps).
  destruct (wm_frozen _ _ _ _ (md_wals _ _ _ _ _ Hok) p) as (t & ino & Ht & Hne & _);
    [rewrite Himm; apply list_elem_of_here|].
  assert (small t) as Hst by (eapply Hsm; [rewrite Himm; apply list_elem_of_here|done]).
  destruct (flush_pending_ok fs e T a flushed p ps t Hok Himm Ht Hst ltac:(lia)) as (fs1 & Hrun & Htw).
  rewrite (M_bind_ok _ _ _ _ _ Hrun).
  pose proof (after_flush_mid _ _ _ _ _ _ _ _ _ Hok Himm Ht Hne ltac:(lia) Htw) as Hok1.
  destruct (IH fuel fs1 (after_flush e ps (new_handle 0 (next_seq e) (mem_records t)))
    (set_T T (length (handles e)) (mem_records t)) (flushed ++ [wal_seq p]) eq_refl Hok1) as (fs' & e' & T' & Hd & Hm & H1 & H2 & Hsl & Hkw & H3 & _ & H5 & H4).
  - intros q tq Hq Htq. eapply Hsm; [rewrite Himm; by apply list_elem_of_further|done].
  - cbn. lia.
  - simpl in Hfuel. lia.
  - cbn [fmap list_fmap]. rewrite <- app_assoc in Hd, Hm. exists fs', e', T'. split_and!; try done.
    + intros w. eapply kept_trans; [|apply Hkw]. pose proof (md_next _ _ _ _ _ Hok).
      eapply (table_written_wal 0 (next_seq e) (mem_records t) fs e T); [apply Hok|lia..|done].
    + rewrite H3. cbn. rewrite len_cons. lia.
    + intros k. rewrite H5, reverse_cons, fmap_app, <- app_assoc, !first_some_app.
      change (mems (after_flush e ps (new_handle 0 (next_seq e) (mem_records t)))) with (mems e).
      destruct (first_some _ k); [done|]. rewrite (after_flush_tables _ _ _ _ _ _ ps _ k Hok Ht).
      cbn [fmap list_fmap first_some]. by destruct (mem_entry (mems e) (mem p) k).
    + intros k. rewrite H4. by eapply after_flush_view.
Qed.
End flush.
