(* ===== verification/EngineCommit.v ===== *)
(** * Committing: the manifest, and the public [flush] *)

From S2P Require Import Prelude Outcome External Fs MemTable Wal WalWriter WalReader.
From S2P Require Import StdVec SstRecord SstIndex Bloom Builder Reader Merge Manifest.
From S2P Require Import Names Engine EngineSpec EngineGet EnginePut EngineFlush.

Section commit.
Context {C : Crc32} {SM : SkipMap Entry} {FB : FastBloom} {AL : Allocator}.

(** ** The manifest of the live tables *)

Lemma handle_meta_ok fs l h rs : (l <= 1)%nat -> handle_ok fs l h rs -> meta_ok l (meta h).
Proof.
  intros Hl [H1 H2 H3 H4 H5 H6 (ino & _ & (blocks & f & Ht) & _)].
  pose proof (tb_capped _ _ _ _ Ht) as Hc. rewrite Forall_forall in Hc.
  assert (exists r0 r1, r0 ∈ rs /\ r1 ∈ rs /\ Manifest.min (meta h) = rkey r0 /\ Manifest.max (meta h) = rkey r1)
    as (r0 & r1 & Hr0 & Hr1 & Hmin & Hmax).
  { destruct (head rs) as [r0|] eqn:E0; [|done]. destruct (last rs) as [r1|] eqn:E1; [|done].
    cbn in H5, H6. injection H5 as H5. injection H6 as H6. exists r0, r1. split_and!; try done.
    - destruct rs; [done|]. cbn in E0. simplify_eq. apply list_elem_of_here.
    - apply last_Some in E1 as [l' ->]. apply elem_of_app; right. apply list_elem_of_here. }
  destruct (Hc _ Hr0) as [Hk0 _]. destruct (Hc _ Hr1) as [Hk1 _].
  unfold SstRecord.MAX_KEY_LEN in *. pose proof (sst_name_len l (Manifest.seq (meta h))).
  split; [done|]. rewrite H2, H1. split; [|apply sst_name_utf8; lia].
  unfold meta_fits. rewrite H2, H1, Hmin, Hmax. unfold u32_max. split_and!; (done || lia).
Qed.

Lemma meta_at_lookup hs i h : hs !! i = Some h -> meta_at hs i = meta h.
Proof. unfold meta_at. by intros ->. Qed.

Lemma live_metas_ok fs e T : tables_ok fs e T -> manifest_ok (mkManifest (live_metas e)).
Proof.
  intros Ht. apply manifest_ok_lookup. cbn. intros l metas. unfold live_metas.
  rewrite list_lookup_fmap. intros (ids & Hl & ->)%fmap_Some_1. pose proof (ta_levels _ _ _ Ht) as Hlen.
  pose proof (lookup_lt_Some _ _ _ Hl) as Hll. split.
  - apply Forall_fmap, Forall_forall. intros i Hi.
    destruct (ta_handles _ _ _ Ht l ids i Hl Hi) as (h & Hh & Hok & _). cbn.
    rewrite (meta_at_lookup _ _ _ Hh). eapply handle_meta_ok; [lia|done].
  - pose proof (ta_order _ _ _ Ht l ids Hl) as Hs. clear -Hs. unfold level_ordered.
    induction Hs as [|i ids Hs IH Hi]; [constructor|]. rewrite fmap_cons. constructor; [done|].
    apply Forall_fmap. eapply Forall_impl; [exact Hi|]. intros j Hj. cbn.
    unfold seq_of, meta_at in *. by destruct (handles e !! i), (handles e !! j).
Qed.

Lemma manifest_level_ok fs e dn cur ids :
  (length dn <= 1)%nat ->
  (forall i, i ∈ ids -> exists h, handles e !! i = Some h /\ Manifest.level (meta h) = Z.of_nat (length dn)) ->
  level_ordered (cur ++ (meta_at (handles e) <$> ids)) ->
  manifest_level (length dn) ids (mkManifest (trim (dn ++ [cur]))) (fs, e) =
    (Ok (mkManifest (trim (dn ++ [cur ++ (meta_at (handles e) <$> ids)]))), (fs, e)).
Proof.
  intros Hl. revert cur. induction ids as [|i ids IH]; intros cur Hids Hord.
  { by rewrite app_nil_r. }
  destruct (Hids i) as (h & Hh & Hlev); [apply list_elem_of_here|].
  cbn [manifest_level]. rewrite (M_bind_ok _ _ _ _ _ (handle_at_ok fs e i h Hh)).
  rewrite fmap_cons in Hord |- *. rewrite (meta_at_lookup _ _ _ Hh) in Hord |- *.
  replace (mkSstMeta _ _ _ _ _) with (meta h)
    by (rewrite Z.mod_small by lia; rewrite <- Hlev; by destruct (meta h)).
  pose proof Hord as (_ & _ & Hlt)%level_ordered_app.
  assert (Forall (fun y => Manifest.seq y < Manifest.seq (meta h)) cur) as Hcur.
  { apply Forall_forall. intros y Hy. apply Hlt; [done|apply list_elem_of_here]. }
  rewrite (lift_bind_ok _ _ _ _ (add_append dn cur (meta h) Hlev Hcur)).
  rewrite <- (trim_snoc dn (cur ++ [meta h])) by (by destruct cur).
  rewrite (IH (cur ++ [meta h])).
  - by rewrite <- app_assoc.
  - intros j Hj. apply Hids. by apply list_elem_of_further.
  - by rewrite <- app_assoc.
Qed.

Lemma manifest_levels_ok fs e dn ls :
  (length dn + length ls <= 2)%nat ->
  (forall l ids i, ls !! l = Some ids -> i ∈ ids ->
    exists h, handles e !! i = Some h /\ Manifest.level (meta h) = Z.of_nat (length dn + l)) ->
  Forall (fun ids : list nat => level_ordered (meta_at (handles e) <$> ids)) ls ->
  manifest_levels (length dn) ls (mkManifest (trim dn)) (fs, e) =
    (Ok (mkManifest (trim (dn ++ ((fun ids : list nat => meta_at (handles e) <$> ids) <$> ls)))), (fs, e)).
Proof.
  revert dn. induction ls as [|ids ls IH]; intros dn Hlen Hh Hord.
  { by rewrite app_nil_r. }
  inversion_clear Hord as [|? ? Ho Hord']. simpl in Hlen. cbn [manifest_levels].
  rewrite <- (trim_snoc_nil dn).
  rewrite (M_bind_ok _ _ _ _ _ (manifest_level_ok fs e dn [] ids ltac:(lia)
    ltac:(intros i Hi; rewrite <- (Nat.add_0_r (length dn)); by apply (Hh 0%nat ids)) Ho)).
  cbn [app]. pose (m := meta_at (handles e) <$> ids). fold m.
  assert (S (length dn) = length (dn ++ [m])) as -> by (rewrite length_app; simpl; lia).
  rewrite IH; rewrite ?length_app; cbn [length].
  - by rewrite <- app_assoc.
  - lia.
  - intros l ids' i Hl Hi. replace (length dn + 1 + l)%nat with (length dn + S l)%nat by lia.
    by apply (Hh (S l) ids').
  - done.
Qed.

(** Only the metadata of the handles matters. *)
Lemma manifest_levels_cached fs e e0 T :
  tables_ok fs e0 T -> cached e0 e ->
  manifest_levels 0 (levels (state e)) default_manifest (fs, e) = (Ok (mkManifest (trim (live_metas e))), (fs, e)).
Proof.
  intros Ht Hc. destruct (cached_state _ _ Hc) as (Est & _).
  apply (manifest_levels_ok fs e [] (levels (state e))).
  - rewrite Est. apply (ta_levels _ _ _ Ht).
  - rewrite Est. intros l ids i Hl Hi. destruct (ta_handles _ _ _ Ht l ids i Hl Hi) as (h0 & Hh0 & Hho & _).
    destruct (Forall2_lookup_l _ _ _ _ _ (proj2 Hc) Hh0) as (h & Hh & [Em _]).
    exists h. rewrite Em. split; [done|]. apply (ho_level _ _ _ _ Hho).
  - apply Forall_forall. intros ids [l Hl]%list_elem_of_lookup.
    apply (proj1 (manifest_ok_lookup _) (live_metas_ok fs e0 T Ht) l). cbn.
    rewrite <- (cached_live_metas _ _ Hc). unfold live_metas. by rewrite list_lookup_fmap, Hl.
Qed.

Lemma manifest_levels_run fs e T :
  tables_ok fs e T ->
  manifest_levels 0 (levels (state e)) default_manifest (fs, e) = (Ok (mkManifest (trim (live_metas e))), (fs, e)).
Proof. intros Ht. eapply manifest_levels_cached; [done|apply cached_refl]. Qed.

Lemma write_manifest_ok fs e T :
  faults fs = [] -> fs_wf fs -> poisoned e = [] -> tables_ok fs e T ->
  exists fs', write_manifest (fs, e) = (Ok tt, (fs', e)) /\ manifest_current fs' e /\
    keeps (fun n => n = MANIFEST_TMP_FILE_NAME \/ n = MANIFEST_FILE_NAME) fs fs' /\
    (forall n, is_Some (dirents fs' !! n) -> n = MANIFEST_FILE_NAME \/ is_Some (dirents fs !! n)).
Proof.
  intros Hf Hwf Hp Ht. pose proof (live_metas_ok fs e T Ht) as Hok.
  destruct (write_atomic_ok (mkManifest (trim (live_metas e))) fs Hf Hwf (trim_ok _ Hok))
    as (fs' & Hrun & Hf' & Hwf' & Hfile & Htmp & Hoth & Hino & Hnext & ino & Hlink & Hfrom).
  exists fs'. split_and!.
  - unfold write_manifest. rewrite (M_bind_ok _ _ _ _ _ (read_state_ok fs e Hp)).
    rewrite (M_bind_ok _ _ _ _ _ (manifest_levels_run fs e T Ht)). by apply on_fs_run.
  - unfold manifest_current. by rewrite Hfile.
  - split; try done.
    + intros n Hn. split; [apply Hoth; naive_solver|]. intros i Hi.
      destruct Hwf as [Hlt Hinj]. apply Hino; [by eapply Hlt|]. intros Heq.
      apply Hn. left. by eapply Hinj.
    + intros i [Hi Hu]. split; [split; [lia|]|by apply Hino]. intros n Hn.
      destruct (decide (n = MANIFEST_FILE_NAME)) as [->|H1].
      { rewrite Hlink in Hn. simplify_eq. destruct Hfrom as [Hfrom|Hfrom]; [by eapply Hu|lia]. }
      destruct (decide (n = MANIFEST_TMP_FILE_NAME)) as [->|H2]; [congruence|].
      rewrite Hoth in Hn by done. by eapply Hu.
  - intros n Hn. destruct (decide (n = MANIFEST_FILE_NAME)) as [->|H1]; [by left|right].
    destruct (decide (n = MANIFEST_TMP_FILE_NAME)) as [->|H2]; [rewrite Htmp in Hn; by destruct Hn|].
    by rewrite <- Hoth.
Qed.

(** ** Removing the logs of flushed memtables *)

Lemma ignore_remove_run {W} name fs (w : W) :
  faults fs = [] ->
  ignore (on_fs (fs_remove_file name)) (fs, w) =
    (Ok tt, (set_dirents (base.delete name (dirents fs)) fs, w)).
Proof.
  intros Hf. destruct (remove_run name fs Hf) as (o & H & [->| ->]).
  - by apply (ignore_ok _ _ tt), on_fs_run.
  - by apply (ignore_err _ _ (Io NotFound)), on_fs_run.
Qed.

Lemma remove_files_ok {A W} (name : A -> string) fs (w : W) (l : list A) :
  faults fs = [] -> fs_wf fs ->
  exists fs', for_each l (fun x => ignore (on_fs (fs_remove_file (name x)))) (fs, w) = (Ok tt, (fs', w)) /\
    keeps (fun n => n ∈ (name <$> l)) fs fs' /\
    (forall n, is_Some (dirents fs' !! n) -> (n ∉ (name <$> l)) /\ is_Some (dirents fs !! n)).
Proof.
  revert fs. induction l as [|x l IH]; intros fs Hf Hwf.
  { exists fs. split_and!; [done|by apply keeps_refl|]. intros n Hn. split; [apply not_elem_of_nil|done]. }
  cbn [for_each].
  rewrite (M_bind_ok _ _ _ _ _ (ignore_remove_run (name x) fs w Hf)).
  pose proof (keeps_remove (name x) fs Hf Hwf) as K1.
  destruct (IH _ (kp_faults _ _ _ K1) (kp_wf _ _ _ K1)) as (fs' & Hrun' & K2 & Hn2).
  exists fs'. split; [done|]. split.
  - eapply keeps_trans; [eapply keeps_mono; [|exact K1]; intros n <-; apply list_elem_of_here|].
    eapply keeps_mono; [|exact K2]. intros n. apply list_elem_of_further.
  - intros n Hn. destruct (Hn2 n Hn) as [H1 H2]. cbn in H2. rewrite lookup_delete in H2.
    case_decide as Heq; [by destruct H2|]. split; [|done].
    rewrite fmap_cons, not_elem_of_cons. split; [by apply not_eq_sym|done].
Qed.

(** ** [flush_all_pending] *)

(** Writing the manifest keeps the rest. *)
Lemma manifest_mid fs e T a fl fs' :
  mid_ok fs e T a fl -> keeps (fun n => n = MANIFEST_TMP_FILE_NAME \/ n = MANIFEST_FILE_NAME) fs fs' ->
  (forall n, is_Some (dirents fs' !! n) -> n = MANIFEST_FILE_NAME \/ is_Some (dirents fs !! n)) ->
  mid_ok fs' e T a fl.
Proof.
  intros Hok K N. assert (forall x b, initial x = Some b -> b <> x4d -> kept x fs fs') as Hk.
  { intros x b Hx Hb. apply (kp_kept _ _ _ K).
    intros [->| ->]; [rewrite initial_manifest_tmp in Hx|rewrite initial_manifest in Hx]; congruence. }
  apply (mid_fs _ _ _ _ fl _ _ Hok); try done; [apply K..| | | |].
  - intros x (l & s & -> & _)%(live_path_name _ _ _ _ (md_tables _ _ _ _ _ Hok)). by eapply Hk; [apply initial_sst|].
  - intros s _. by eapply Hk; [apply initial_wal|].
  - intros x [->|Hx]%N; [done|by apply (md_utf8 _ _ _ _ _ Hok)].
  - intros x s [->|Hx]%N Hp; done.
Qed.

(** Removing the logs [ws] of flushed generations. *)
Lemma clean_mid fs e T a fl ws fs' :
  mid_ok fs e T a fl -> ws `prefix_of` fl -> keeps (fun n => n ∈ (wal_name <$> ws)) fs fs' ->
  (forall n, is_Some (dirents fs' !! n) -> (n ∉ (wal_name <$> ws)) /\ is_Some (dirents fs !! n)) ->
  mid_ok fs' e T a (drop (length ws) fl).
Proof.
  intros Hok [fl' ->] K N. rewrite drop_app_length. pose proof (md_wals _ _ _ _ _ Hok) as [_ _ W3 W4 W5].
  apply (mid_fs _ _ _ _ _ _ _ Hok); [apply K..| | |by exists ws| |].
  - intros x (l & s & -> & _)%(live_path_name _ _ _ _ (md_tables _ _ _ _ _ Hok)). apply (kp_kept _ _ _ K).
    intros (w & Hx & _)%list_elem_of_fmap. by eapply (initial_ne _ _ _ _ (initial_wal w) (initial_sst l s)).
  - intros s Hs. apply (kp_kept _ _ _ K). intros (w & Hx & Hw)%list_elem_of_fmap.
    apply StronglySorted_app in W3 as (Hlt & _). specialize (Hlt w s ltac:(apply elem_of_app; by left) Hs).
    pose proof (md_next _ _ _ _ _ Hok). rewrite Forall_forall in W4.
    pose proof (W4 s ltac:(apply elem_of_app; by right)).
    pose proof (W4 w ltac:(apply elem_of_app; left; apply elem_of_app; by left)).
    apply wal_name_inj in Hx; lia.
  - intros x [_ Hx]%N. by apply (md_utf8 _ _ _ _ _ Hok).
  - intros x s [Hx Hx']%N Hp. split; [done|]. intros [Hs|Hs]%elem_of_app; [|done]. exfalso. apply Hx.
    destruct (W5 x s Hx' Hp) as [-> _]. by apply list_elem_of_fmap_2.
Qed.

(** A flush is complete once the manifest is written and the logs are gone. *)
Lemma finish_flush fs e T a flushed fs1 fs2 :
  mid_ok fs e T a flushed -> manifest_current fs1 e ->
  keeps (fun n => n = MANIFEST_TMP_FILE_NAME \/ n = MANIFEST_FILE_NAME) fs fs1 ->
  (forall n, is_Some (dirents fs1 !! n) -> n = MANIFEST_FILE_NAME \/ is_Some (dirents fs !! n)) ->
  keeps (fun n => n ∈ (wal_name <$> flushed)) fs1 fs2 ->
  (forall n, is_Some (dirents fs2 !! n) -> (n ∉ (wal_name <$> flushed)) /\ is_Some (dirents fs1 !! n)) ->
  engine_ok fs2 e T a.
Proof.
  intros Hok Hman K1 N1 K2 N2. apply ok_of_mid.
  - rewrite <- (drop_all flushed). apply (clean_mid fs1); try done. by eapply manifest_mid.
  - eapply manifest_current_kept; [|done]. apply (kp_kept _ _ _ K2).
    intros (w & Hn & _)%list_elem_of_fmap.
    by eapply (initial_ne _ _ _ _ (initial_wal w) initial_manifest).
Qed.

Lemma flush_all_pending_ok fs e T a :
  engine_ok fs e T a -> small_frozen e -> next_seq e + len (immutables (state e)) <= u64_max ->
  exists fs' e' T', flush_all_pending (fs, e) = (Ok tt, (fs', e')) /\ engine_ok fs' e' T' a /\
    immutables (state e') = [] /\ mems e' = mems e /\ same_log e e' /\
    next_seq e' = next_seq e + len (immutables (state e)) /\
    kept (wal_name (seq (wal e))) fs fs' /\
    (forall k, first_some (table_sources T' (levels (state e'))) k =
      first_some (((fun p => mem_entry (mems e) (mem p)) <$> reverse (immutables (state e))) ++
                  table_sources T (levels (state e))) k) /\
    forall k, view e' T' k = view e T k.
Proof.
  intros Hok Hsm Hroom. pose proof (eo_poison _ _ _ _ Hok) as Hp.
  destruct (drain_ok (S (length (immutables (state e)))) fs e T a [] (mid_of_ok _ _ _ _ Hok) Hsm Hroom)
    as (fs1 & e1 & T1 & Hd & Hm & Him & Hms & Hsl & Hkw & Hns & Hnil & Htab & Hview); [lia|]. cbn [app] in Hd, Hm.
  destruct (immutables (state e)) as [|p ps] eqn:Himm.
  - destruct (Hnil eq_refl) as (-> & -> & ->). exists fs, e, T. split_and!; try done.
    unfold flush_all_pending. apply with_lock_ok; [done| |done]. mstep. cbn [snd]. rewrite Himm.
    by rewrite (M_bind_ok _ _ _ _ _ Hd).
  - destruct (write_manifest_ok fs1 e1 T1 (md_faults _ _ _ _ _ Hm) (md_fs _ _ _ _ _ Hm)
      (md_poison _ _ _ _ _ Hm) (md_tables _ _ _ _ _ Hm)) as (fs2 & Hman & Hcur & K2 & N2).
    destruct (remove_files_ok wal_name fs2 e1 (wal_seq <$> p :: ps) (kp_faults _ _ _ K2) (kp_wf _ _ _ K2))
      as (fs3 & Hrem & K3 & N3).
    exists fs3, e1, T1. split_and!; try done; [|by eapply finish_flush|].
    2: { eapply kept_trans; [apply Hkw|]. eapply kept_trans; [apply (kp_kept _ _ _ K2)|apply (kp_kept _ _ _ K3)].
         - intros [Hx|Hx]; [by eapply (initial_ne _ _ _ _ (initial_wal _) initial_manifest_tmp)
             |by eapply (initial_ne _ _ _ _ (initial_wal _) initial_manifest)].
         - intros (w & Heq & (q & -> & Hq)%list_elem_of_fmap)%list_elem_of_fmap. rewrite <- Himm in Hq.
           destruct (frozen_wal_lt fs e T a [] q (mid_of_ok _ _ _ _ Hok) Hq). pose proof (eo_next _ _ _ _ Hok).
           apply wal_name_inj in Heq; lia. }
    unfold flush_all_pending. apply with_lock_ok; [done| |done]. mstep. cbn [snd]. rewrite Himm.
    rewrite (M_bind_ok _ _ _ _ _ Hd). cbn [is_nil fmap list_fmap].
    by rewrite (M_bind_ok _ _ _ _ _ Hman).
Qed.

(** ** The public [flush] *)

(** Syncing the log keeps the invariant. *)
Lemma sync_writer_ok fs e :
  faults fs = [] ->
  exists fs' w', on_writer sync (fs, e) = (Ok tt, (fs', set_wal (mkActiveWal w' (seq (wal e))) e)) /\
    bw_file (ww_file w') = bw_file (ww_file (writer (wal e))) /\
    touches (bw_file (ww_file (writer (wal e)))) fs fs' /\ bw_buf (ww_file w') = [] /\
    log_of fs' w' = log_of fs (writer (wal e)) /\
    data_of fs' (bw_file (ww_file (writer (wal e)))) = log_of fs (writer (wal e)).
Proof.
  intros Hf. destruct (sync_logs fs (writer (wal e)) Hf) as (fs' & w' & H & (HB & HT & HL) & Hbuf).
  rewrite app_nil_r in HL. exists fs', w'. split; [by apply on_writer_ok|]. split_and!; try done.
  unfold log_of in HL at 1. by rewrite HB, Hbuf, app_nil_r in HL.
Qed.

Lemma synced_mid fs e T a fl fs' w' :
  mid_ok fs e T a fl -> bw_file (ww_file w') = bw_file (ww_file (writer (wal e))) ->
  touches (bw_file (ww_file (writer (wal e)))) fs fs' -> log_of fs' w' = log_of fs (writer (wal e)) ->
  mid_ok fs' (set_wal (mkActiveWal w' (seq (wal e))) e) T a fl.
Proof.
  intros Hok HB HT HL. destruct (wm_active _ _ _ _ (md_wals _ _ _ _ _ Hok)) as (t & Hta & _ & Hh).
  apply (logged_mid fs e T a fl fs' w' t t); try done; [by rewrite list_insert_id|by rewrite HL].
Qed.

Lemma sync_engine_ok fs e T a :
  engine_ok fs e T a ->
  exists fs' w', on_writer sync (fs, e) = (Ok tt, (fs', set_wal (mkActiveWal w' (seq (wal e))) e)) /\
    engine_ok fs' (set_wal (mkActiveWal w' (seq (wal e))) e) T a /\
    touches (bw_file (ww_file (writer (wal e)))) fs fs' /\ bw_buf (ww_file w') = [] /\
    data_of fs' (bw_file (ww_file (writer (wal e)))) = log_of fs (writer (wal e)).
Proof.
  intros Hok. destruct (sync_writer_ok fs e (eo_faults _ _ _ _ Hok)) as (fs' & w' & H & HB & HT & Hbuf & HL & Hd).
  exists fs', w'. split; [done|]. split; [|done]. apply (ok_by_mid _ _ _ _ _ _ _ _ Hok).
  - intros Hm. by eapply synced_mid.
  - apply (logged_manifest _ _ T a [] _ (mems e)); [by apply mid_of_ok|done].
Qed.

(** All memtables fit the table format. *)
Definition small_mems (e : LsmEngineInner) : Prop :=
  forall i t, i ∈ (match active (state e) with Some a => [a] | None => [] end) ++ (mem <$> immutables (state e)) ->
    mems e !! i = Some t -> small t.

Lemma small_frozen_mems e : small_mems e -> small_frozen e.
Proof.
  intros H p t Hp Ht. eapply H; [|done]. apply elem_of_app; right. by apply list_elem_of_fmap_2.
Qed.

Lemma iter_new : iter MemTable.new = [].
Proof.
  apply is_empty_iter. unfold MemTable.is_empty. rewrite sm_is_empty_iter. apply bool_decide_true.
  destruct (sm_iter (map MemTable.new)) as [|[k0 v0] l] eqn:E; [done|]. exfalso.
  pose proof (sm_iter_get k0 (map MemTable.new)) as Hg. rewrite E in Hg. simpl in Hg.
  rewrite decide_True in Hg by done. cbn in Hg. by rewrite sm_get_new in Hg.
Qed.

Lemma small_frozen_at n e a w :
  mems_ok e a -> small_mems e -> small_frozen (frozen_at n e a w).
Proof.
  intros [Ha Hal _] Hsm p tp Hp Htp. cbn in Hp, Htp.
  assert (mem p ∈ live_mems (state e) a) as Hin.
  { apply elem_of_app in Hp as [Hp| ->%list_elem_of_singleton]; [|apply list_elem_of_here].
    apply list_elem_of_further. by apply list_elem_of_fmap_2. }
  rewrite Forall_forall in Hal. rewrite lookup_app_l in Htp by (by apply Hal). eapply Hsm; [|exact Htp]. by rewrite Ha.
Qed.

(** The first half of [flush]: a memtable with entries is frozen, so that the
    active one is empty. *)
Lemma seal_ok fs e T a t :
  engine_ok fs e T a -> small_mems e -> next_seq e + 2 <= u64_max -> mems e !! a = Some t ->
  exists fs2 e2 a2 t2, freeze_active (fs, e) = (Ok (negb (MemTable.is_empty t)), (fs2, e2)) /\
    engine_ok fs2 e2 T a2 /\ small_frozen e2 /\ mems e2 !! a2 = Some t2 /\ iter t2 = [] /\
    next_seq e2 + len (immutables (state e2)) <= next_seq e + len (immutables (state e)) + 2 /\
    options e2 = options e /\ (unbuffered e -> unbuffered e2) /\
    forall k, view e2 T k = view e T k.
Proof.
  intros Hok Hsm Hroom Ht. pose proof (mo_active _ _ (eo_mems _ _ _ _ Hok)) as Ha.
  destruct (MemTable.is_empty t) eqn:Hem.
  - exists fs, e, a, t. split_and!; try done.
    + unfold freeze_active. rewrite (M_bind_ok _ _ _ _ _ (snapshot_active_ok fs e a (eo_poison _ _ _ _ Hok) Ha)).
      rewrite (M_bind_ok _ _ _ _ _ (mem_at_ok fs e a t Ht)). by rewrite Hem.
    + by apply small_frozen_mems.
    + by apply is_empty_iter.
    + lia.
  - assert (iter t <> []) as Hne by (intros Hn; apply is_empty_iter in Hn; congruence).
    destruct (freeze_active_ok fs e T a t Hok ltac:(lia) Ht Hne) as (w & fs2 & Hrun & Hrot).
    exists fs2, (frozen e a w), (length (mems e)), MemTable.new. split_and!; try done.
    + eapply frozen_ok; (done || lia).
    + apply (small_frozen_at _ (drawn e)); [by apply drawn_mems, Hok|done].
    + cbn. by rewrite lookup_app_r, Nat.sub_diag.
    + apply iter_new.
    + cbn. rewrite len_app, len_cons, len_nil. lia.
    + intros _. by destruct Hrot as (ino & -> & _).
    + intros k. exact (frozen_view _ (drawn e) T a t w k (drawn_mems _ _ (eo_mems _ _ _ _ Hok)) Ht).
Qed.

Lemma flush_ok fs e T a :
  engine_ok fs e T a -> small_mems e -> next_seq e + len (immutables (state e)) + 2 <= u64_max ->
  exists fs' e' T' a' t, flush (fs, e) = (Ok tt, (fs', e')) /\ engine_ok fs' e' T' a' /\
    immutables (state e') = [] /\ mems e' !! a' = Some t /\ iter t = [] /\
    next_seq e' <= next_seq e + len (immutables (state e)) + 2 /\
    options e' = options e /\ unbuffered e' /\
    forall k, view e' T' k = view e T k.
Proof.
  intros Hok Hsm Hroom. destruct (sync_engine_ok fs e T a Hok) as (fs1 & w1 & Hs & Hok1 & _ & Hbuf1 & _).
  remember (set_wal (mkActiveWal w1 (seq (wal e))) e) as e1 eqn:He1.
  assert (state e1 = state e /\ mems e1 = mems e /\ next_seq e1 = next_seq e) as (Est & Ems & Enx)
    by (by rewrite He1).
  destruct (wo_active _ _ _ (eo_wals _ _ _ _ Hok1)) as (t & Ht & _).
  pose proof (len_nonneg (immutables (state e))).
  destruct (seal_ok fs1 e1 T a t Hok1 ltac:(by unfold small_mems; rewrite Est, Ems) ltac:(lia) Ht)
    as (fs2 & e2 & a2 & t2 & Hfr & Hok2 & Hsm2 & Ht2 & Hi2 & Hroom2 & Ho2 & Hu2 & Hv2).
  rewrite Est, Enx in Hroom2.
  destruct (flush_all_pending_ok fs2 e2 T a2 Hok2 Hsm2 ltac:(lia)) as (fs3 & e3 & T3 & Hrun & Hok3 & Him3 & Hms3 & Hsl3 & Hnx3 & _ & _ & Hv3).
  exists fs3, e3, T3, a2, t2. split_and!; try done.
  - unfold flush. rewrite (M_bind_ok _ _ _ (negb (MemTable.is_empty t)) (fs2, e2)); [done|].
    apply with_lock_ok; [apply (eo_poison _ _ _ _ Hok)| |done]. by rewrite (M_bind_ok _ _ _ _ _ Hs).
  - by rewrite Hms3.
  - rewrite Hnx3. lia.
  - rewrite (proj2 Hsl3), Ho2. by rewrite He1.
  - apply (same_log_unbuffered _ _ Hsl3), Hu2. by rewrite He1.
  - intros k. rewrite Hv3, Hv2. by rewrite He1.
Qed.
End commit.
