(* ===== verification/EngineCompact.v ===== *)
(** * Compaction *)

From S2P Require Import Prelude Outcome External Fs MemTable Wal WalWriter WalReader.
From S2P Require Import StdVec SstRecord SstIndex Bloom Builder Reader Merge Manifest.
From S2P Require Import Names Engine EngineSpec EngineGet EnginePut EngineFlush EngineCommit.

(** ** The newest entry, by position *)

Lemma newest_unique runs k x y :
  NoDup (Merge.seq <$> runs) -> newest runs k x -> newest runs k y -> x = y.
Proof.
  intros Hnd (r1 & H1 & A1 & B1) (r2 & H2 & A2 & B2).
  destruct (Z.lt_trichotomy (Merge.seq r1) (Merge.seq r2)) as [Hlt|[Heq|Hlt]].
  - rewrite (B1 r2 H2 Hlt) in A2. done.
  - apply list_elem_of_lookup in H1 as [i Hi], H2 as [j Hj].
    assert (i = j) as ->; [|congruence].
    eapply NoDup_lookup; [exact Hnd|by rewrite list_lookup_fmap, Hi|].
    by rewrite list_lookup_fmap, Hj; simpl; rewrite Heq.
  - rewrite (B2 r1 H1 Hlt) in A1. done.
Qed.

(** The total size of records does not depend on their order. *)
Lemma len_records_Permutation rs rs' : rs ≡ₚ rs' -> len (records_bytes rs) = len (records_bytes rs').
Proof.
  induction 1 as [|r rs rs' _ IH|r r' rs|rs1 rs2 rs3 _ IH1 _ IH2]; [done|..].
  - rewrite !records_bytes_cons, !len_app. lia.
  - rewrite !records_bytes_cons, !len_app. lia.
  - lia.
Qed.

Lemma rs_sorted_NoDup rs : rs_sorted rs -> NoDup rs.
Proof.
  unfold rs_sorted. induction rs as [|r rs IH]; [constructor|]. intros [Hs Hr]%StronglySorted_inv.
  constructor; [|by apply IH]. intros Hin. rewrite Forall_forall in Hr.
  apply (key_lt_irrefl (rkey r)). apply Hr. by apply list_elem_of_fmap_2.
Qed.

Lemma merged_small runs out :
  merged runs out -> len (records_bytes out) <= len (records_bytes (concat (records <$> runs))).
Proof.
  intros [Hs Hfrom _].
  assert (out ⊆+ concat (records <$> runs)) as Hsub.
  { apply NoDup_submseteq; [by apply rs_sorted_NoDup|]. intros r Hr.
    destruct (Hfrom r Hr) as (_ & run & Hrun & Hin). eapply elem_of_concat; [exact Hin|].
    by apply list_elem_of_fmap_2. }
  apply submseteq_Permutation in Hsub as (k & Hk). rewrite (len_records_Permutation _ _ Hk).
  rewrite records_bytes_app, len_app. pose proof (len_nonneg (records_bytes k)). lia.
Qed.

Section compact.
Context {C : Crc32} {SM : SkipMap Entry} {FB : FastBloom} {AL : Allocator}.

(** ** The runs *)

Definition run_of (hs : list SstHandle) (T : nat -> list record) (i : nat) : Run :=
  mkRun (seq_of hs i) (T i).

Lemma read_run_ok fs e T a l i :
  engine_ok fs e T a -> live e l i ->
  exists e', read_run i (fs, e) = (Ok (run_of (handles e) T i), (fs, e')) /\ cached e e' /\ engine_ok fs e' T a.
Proof.
  intros Hok Hlive. destruct (open_reader_ok fs e T a l i Hok Hlive) as (r & e1 & Hop & Hc & Hok1 & Hrd).
  unfold read_run. rewrite (M_bind_ok _ _ _ _ _ Hop).
  pose proof (Reader.records_ok r _ (T i) fs (eo_faults _ _ _ _ Hok1) eq_refl Hrd) as Hrec.
  rewrite (M_bind_ok _ _ _ _ _ (on_fs_run _ fs e1 _ _ Hrec)).
  destruct (live_handle _ _ _ _ _ _ Hok1 (live_cached _ _ _ _ Hc Hlive)) as (h & Hh & _).
  rewrite (M_bind_ok _ _ _ _ _ (handle_at_ok fs e1 i h Hh)). exists e1. split; [|done].
  unfold run_of. rewrite <- (cached_seq_of e e1 i Hc). unfold seq_of. by rewrite Hh.
Qed.

Lemma read_runs_ok fs e T a ids :
  engine_ok fs e T a -> (forall i, i ∈ ids -> exists l, live e l i) ->
  exists e', map_each ids read_run (fs, e) = (Ok (run_of (handles e) T <$> ids), (fs, e')) /\
    cached e e' /\ engine_ok fs e' T a.
Proof.
  revert e. induction ids as [|i ids IH]; intros e Hok Hlive.
  { exists e. split_and!; [done|apply cached_refl|done]. }
  destruct (Hlive i) as [l Hl]; [apply list_elem_of_here|].
  destruct (read_run_ok fs e T a l i Hok Hl) as (e1 & H1 & Hc1 & Hok1).
  destruct (IH e1 Hok1) as (e2 & H2 & Hc2 & Hok2).
  { intros j Hj. destruct (Hlive j) as [l' Hl']; [by apply list_elem_of_further|].
    exists l'. by eapply live_cached. }
  exists e2. cbn [map_each]. rewrite (M_bind_ok _ _ _ _ _ H1), (M_bind_ok _ _ _ _ _ H2).
  split_and!; [|by eapply cached_trans|done]. rewrite fmap_cons.
  replace (run_of (handles e1) T <$> ids) with (run_of (handles e) T <$> ids); [done|].
  apply list_fmap_ext. intros _ j _. unfold run_of. by rewrite (cached_seq_of e e1).
Qed.

(** ** What a compaction reads *)

Definition inputs (e : LsmEngineInner) : list nat :=
  default [] (head (levels (state e))) ++ default [] (levels (state e) !! 1%nat).

Lemma inputs_live e i : i ∈ inputs e -> exists l, live e l i.
Proof.
  unfold inputs, live. intros [Hi|Hi]%elem_of_app.
  - exists 0%nat. destruct (levels (state e)) as [|l0 ls]; [by apply not_elem_of_nil in Hi|].
    by exists l0.
  - exists 1%nat. destruct (levels (state e) !! 1%nat) as [l1|]; [|by apply not_elem_of_nil in Hi].
    by exists l1.
Qed.

(** Oldest first: level 1, then level 0. *)
Definition by_age (e : LsmEngineInner) : list nat :=
  default [] (levels (state e) !! 1%nat) ++ default [] (levels (state e) !! 0%nat).

Lemma by_age_sorted fs e T :
  tables_ok fs e T ->
  StronglySorted (fun i j => seq_of (handles e) i < seq_of (handles e) j) (by_age e).
Proof.
  intros [T1 T2 T3 T4]. unfold by_age. apply StronglySorted_app. split_and!.
  - intros j i Hj Hi. destruct (levels (state e) !! 1%nat) as [l1|] eqn:E1; [|by apply not_elem_of_nil in Hj].
    destruct (levels (state e) !! 0%nat) as [l0|] eqn:E0; [|by apply not_elem_of_nil in Hi].
    by eapply T4.
  - destruct (levels (state e) !! 1%nat) as [l1|] eqn:E1; [by eapply T3|constructor].
  - destruct (levels (state e) !! 0%nat) as [l0|] eqn:E0; [by eapply T3|constructor].
Qed.

Lemma by_age_inputs e : inputs e ≡ₚ by_age e.
Proof. unfold inputs, by_age. rewrite Permutation_app_comm. by destruct (levels (state e)). Qed.

Lemma table_sources_by_age e T :
  (length (levels (state e)) <= 2)%nat ->
  table_sources T (levels (state e)) = (fun i => record_entry (T i)) <$> reverse (by_age e).
Proof.
  intros Hl. unfold table_sources, by_age. rewrite reverse_app.
  destruct (levels (state e)) as [|l0 [|l1 [|l2 ls]]]; cbn; [done| | |simpl in Hl; lia].
  - by rewrite !app_nil_r.
  - by rewrite !app_nil_r.
Qed.

Lemma runs_mergeable fs e T :
  tables_ok fs e T -> mergeable (run_of (handles e) T <$> inputs e).
Proof.
  intros Ht. split.
  - apply Forall_fmap, Forall_forall. intros i (l & ids & Hl & Hi)%inputs_live.
    destruct (ta_handles _ _ _ Ht l ids i Hl Hi) as (h & _ & Hok & _).
    destruct (ho_file _ _ _ _ Hok) as (ino & _ & (blocks & f & Htab) & _).
    apply (tb_sorted _ _ _ _ Htab).
  - rewrite <- list_fmap_compose, by_age_inputs. pose proof (by_age_sorted fs e T Ht) as Hs.
    induction Hs as [|i ids _ IH Hi]; [constructor|]. rewrite fmap_cons. constructor; [|done].
    intros (j & Hj & Hin)%list_elem_of_fmap. rewrite Forall_forall in Hi. specialize (Hi j Hin).
    cbn in Hj. lia.
Qed.

(** The newest run that has a key is the first source that has it. *)
Lemma first_some_newest hs T ids k en :
  StronglySorted (fun i j => seq_of hs i < seq_of hs j) ids ->
  first_some ((fun i => record_entry (T i)) <$> reverse ids) k = Some en ->
  newest (run_of hs T <$> ids) k (MemTable.value en, deleted en).
Proof.
  induction ids as [|i ids IH] using rev_ind; [done|]. intros (Hlt & Hs & _)%StronglySorted_app.
  rewrite reverse_app. cbn [reverse rev_append app fmap list_fmap first_some].
  destruct (record_entry (T i) k) as [en'|] eqn:E.
  - intros [= ->]. exists (run_of hs T i). split_and!.
    + apply list_elem_of_fmap_2. apply elem_of_app; right. apply list_elem_of_here.
    + unfold record_entry in E. cbn [run_of records]. destruct (assoc k (as_assoc (T i))) as [[v d]|]; [|done].
      cbn in E. by injection E as <-.
    + intros run' Hin Hs'. exfalso. apply list_elem_of_fmap in Hin as (j & -> & Hj). cbn in Hs'.
      apply elem_of_app in Hj as [Hj| ->%list_elem_of_singleton]; [|lia].
      specialize (Hlt j i Hj ltac:(apply list_elem_of_here)). cbn in Hlt. lia.
  - intros H. destruct (IH Hs H) as (run & Hrun & Hat & Hnew). exists run. rewrite fmap_app.
    split_and!; [by apply elem_of_app; left|done|].
    intros run' [Hr| ->%list_elem_of_singleton]%elem_of_app Hs'; [by apply Hnew|].
    unfold record_entry in E. cbn [run_of records]. by destruct (assoc k (as_assoc (T i))) as [[v d]|].
Qed.

Lemma first_some_none hs T ids k :
  first_some ((fun i => record_entry (T i)) <$> reverse ids) k = None ->
  forall e, ~ newest (run_of hs T <$> ids) k e.
Proof.
  intros H e (run & Hrun & Hat & _). apply list_elem_of_fmap in Hrun as (i & -> & Hi). cbn [run_of records] in Hat.
  induction ids as [|j ids IH] using rev_ind; [by apply not_elem_of_nil in Hi|].
  rewrite reverse_app in H. cbn [reverse rev_append app fmap list_fmap first_some] in H.
  unfold record_entry at 1 in H.
  destruct (assoc k (as_assoc (T j))) as [[v d]|] eqn:E; [done|]. cbn in H.
  apply elem_of_app in Hi as [Hi| ->%list_elem_of_singleton]; [by apply IH|congruence].
Qed.

(** Merging preserves what the tables answer. *)
Lemma merged_view fs e T out k :
  tables_ok fs e T -> merged (run_of (handles e) T <$> inputs e) out ->
  record_entry out k ≫= entry_value =
    first_some (table_sources T (levels (state e))) k ≫= entry_value.
Proof.
  intros Ht Hm. pose proof (runs_mergeable fs e T Ht) as [_ Hnd].
  pose proof (by_age_sorted fs e T Ht) as Hs.
  rewrite (table_sources_by_age e T (ta_levels _ _ _ Ht)).
  assert (forall x, newest (run_of (handles e) T <$> inputs e) k x <->
    newest (run_of (handles e) T <$> by_age e) k x) as Hperm.
  { intros x. unfold newest. pose proof (by_age_inputs e) as Hp.
    split; intros (run & Hr & Hat & Hn); exists run; (split; [by rewrite <- Hp || rewrite Hp|split; [done|]]);
      intros run' Hr'; apply Hn; by rewrite <- Hp in Hr' || rewrite Hp in Hr'. }
  assert (forall v d, assoc k (as_assoc out) = Some (v, d) -> d = false) as Hlive.
  { intros v d H%assoc_record. by destruct (mg_from _ _ Hm _ H). }
  pose proof (mg_newest _ _ Hm k) as Hnew. unfold record_entry at 1.
  destruct (first_some _ k) as [en|] eqn:Hf.
  - pose proof (first_some_newest _ _ _ _ _ Hs Hf) as Hn. apply Hperm in Hn.
    cbn [mbind option_bind]. destruct (deleted en) eqn:Hd.
    + destruct (assoc k (as_assoc out)) as [[v d]|] eqn:Ho; [|unfold entry_value; by rewrite Hd].
      assert (d = false) as -> by (by eapply Hlive). pose proof (proj1 (Hnew v) eq_refl) as Hn'.
      pose proof (newest_unique _ _ _ _ Hnd Hn Hn'). congruence.
    + apply Hnew in Hn. rewrite Hn. cbn. unfold entry_value. by rewrite Hd.
  - destruct (assoc k (as_assoc out)) as [[v d]|] eqn:Ho; [|done].
    assert (d = false) as -> by (by eapply Hlive). pose proof (proj1 (Hnew v) eq_refl) as Hn'.
    apply Hperm in Hn'. by apply (first_some_none _ _ _ _ Hf) in Hn'.
Qed.

(** ** Writing the merged table *)

(** The engine with a merged table allocated, not yet part of its levels. *)
Definition allocated (e : LsmEngineInner) (h : SstHandle) : LsmEngineInner :=
  set_handles (handles e ++ [h]) (drawn e).

Lemma build_merged_ok fs e out n :
  faults fs = [] -> fs_wf fs -> rs_sorted out -> Forall capped out -> len (records_bytes out) <= 2 ^ 60 ->
  exists fs', build_merged out n (fs, e) =
      (Ok (length (handles e)), (fs', set_handles (handles e ++ [new_handle 1 n out]) e)) /\
    table_written (tmp_name (sst_name 1 n)) (sst_name 1 n) out fs fs'.
Proof.
  intros Hf Hwf Hs Hc Hsm. unfold build_merged.
  destruct (fill_builder_ok (len out) out Hc Hs) as (b & blocks & cur & Hfill & Hb & Hcat & Hmin & Hmax).
  rewrite (lift_bind_ok _ _ _ _ Hfill). cbn zeta.
  destruct (write_table_ok b blocks cur (tmp_name (sst_name 1 n)) (sst_name 1 n) fs e Hb)
    as (fs' & Hwrite & Htw); [by rewrite Hcat|done|done|apply tmp_ne_sst|].
  rewrite (M_bind_ok _ _ _ _ _ (try_ok _ _ _ _ Hwrite)). mstep. mstep.
  rewrite Hcat in Htw. exists fs'. split; [|done]. unfold alloc_handle. mstep. mstep. by rewrite Hmin, Hmax.
Qed.

Lemma write_merged_ok fs e out :
  faults fs = [] -> fs_wf fs -> 0 <= next_seq e < u64_max -> rs_sorted out -> Forall capped out ->
  len (records_bytes out) <= 2 ^ 60 -> out <> [] ->
  exists fs', write_merged out (fs, e) =
      (Ok (Some (length (handles e))), (fs', allocated e (new_handle 1 (next_seq e) out))) /\
    table_written (tmp_name (sst_name 1 (next_seq e))) (sst_name 1 (next_seq e)) out fs fs'.
Proof.
  intros Hf Hwf Hroom Hs Hc Hsm Hne. unfold write_merged.
  rewrite (proj2 (is_nil_false out)) by done.
  rewrite (M_bind_ok _ _ _ _ _ (fetch_add_seq_ok fs e Hroom)).
  destruct (build_merged_ok fs (drawn e) out (next_seq e) Hf Hwf Hs Hc Hsm) as (fs' & Hb & Htw).
  exists fs'. split; [|done]. by rewrite (M_bind_ok _ _ _ _ _ Hb).
Qed.

Lemma commit_compact_none fs e l0 ls :
  levels (state e) = l0 :: ls ->
  commit_compact None (fs, e) =
    (Ok tt, (fs, set_state (mkEngineState (active (state e)) (immutables (state e)) [[]]) e)).
Proof. intros Hl. unfold commit_compact. mstep. cbn [snd]. by rewrite Hl. Qed.

Lemma commit_compact_some fs e i l0 ls :
  levels (state e) = l0 :: ls -> (length ls <= 1)%nat ->
  commit_compact (Some i) (fs, e) =
    (Ok tt, (fs, set_state (mkEngineState (active (state e)) (immutables (state e)) [[]; [i]]) e)).
Proof.
  intros Hl Hlen. unfold commit_compact. mstep. cbn [snd]. rewrite Hl.
  destruct ls as [|l1 [|l2 ls]]; [done|done|simpl in Hlen; lia].
Qed.

(** ** Removing the inputs *)

Lemma remove_inputs_ok fs e ids :
  faults fs = [] -> fs_wf fs -> Forall (fun i => (i < length (handles e))%nat) ids ->
  exists fs', for_each ids (fun i => h ← handle_at i; ignore (on_fs (fs_remove_file (path h)))) (fs, e)
      = (Ok tt, (fs', e)) /\
    keeps (fun n => exists i h, i ∈ ids /\ handles e !! i = Some h /\ n = path h) fs fs' /\
    (forall n, is_Some (dirents fs' !! n) -> is_Some (dirents fs !! n)).
Proof.
  revert fs. induction ids as [|i ids IH]; intros fs Hf Hwf Hal.
  { exists fs. split_and!; [done|by apply keeps_refl|done]. }
  inversion_clear Hal as [|? ? Hi Hal']. destruct (lookup_lt_is_Some_2 _ _ Hi) as [h Hh].
  cbn [for_each]. rewrite M_bind_assoc, (M_bind_ok _ _ _ _ _ (handle_at_ok fs e i h Hh)).
  rewrite (M_bind_ok _ _ _ _ _ (ignore_remove_run (path h) fs e Hf)). pose proof (keeps_remove (path h) fs Hf Hwf) as K1.
  destruct (IH _ (kp_faults _ _ _ K1) (kp_wf _ _ _ K1) Hal') as (fs' & Hrun' & K2 & Hn2).
  exists fs'. split; [done|]. split.
  - eapply keeps_trans; (eapply keeps_mono; [|eassumption]).
    + intros n <-. exists i, h. split; [apply list_elem_of_here|done].
    + intros n (j & hj & Hj & ?). exists j, hj. split; [by apply list_elem_of_further|done].
  - intros n Hn. apply Hn2 in Hn. cbn in Hn. rewrite lookup_delete in Hn. by case_decide; [destruct Hn|].
Qed.

(** Removing table files that are not live. *)
Lemma removed_mid fs e T a fl fs' (N : string -> Prop) :
  mid_ok fs e T a fl -> keeps N fs fs' -> (forall n, is_Some (dirents fs' !! n) -> is_Some (dirents fs !! n)) ->
  (forall n, N n -> initial n = Some x4c /\ ~ live_path e n) -> mid_ok fs' e T a fl.
Proof.
  intros Hok K Hsub HN. apply (mid_fs _ _ _ _ fl _ _ Hok); [apply K..| | |done| |].
  - intros x Hx. apply (kp_kept _ _ _ K). by intros [_ Hn]%HN.
  - intros s _. apply (kp_kept _ _ _ K). intros [Hn _]%HN. by rewrite initial_wal in Hn.
  - intros x Hx%Hsub. by apply (md_utf8 _ _ _ _ _ Hok).
  - intros x s Hx%Hsub _. done.
Qed.

(** A compaction is complete once the manifest is written and the inputs are
    gone. *)
Lemma finish_compact fs e T a fs1 fs2 (N : string -> Prop) :
  mid_ok fs e T a [] -> manifest_current fs1 e ->
  keeps (fun n => n = MANIFEST_TMP_FILE_NAME \/ n = MANIFEST_FILE_NAME) fs fs1 ->
  (forall n, is_Some (dirents fs1 !! n) -> n = MANIFEST_FILE_NAME \/ is_Some (dirents fs !! n)) ->
  keeps N fs1 fs2 -> (forall n, is_Some (dirents fs2 !! n) -> is_Some (dirents fs1 !! n)) ->
  (forall n, N n -> initial n = Some x4c /\ ~ live_path e n) ->
  engine_ok fs2 e T a.
Proof.
  intros Hok Hman K1 N1 K2 N2 HN. pose proof (manifest_mid _ _ _ _ _ _ Hok K1 N1) as Hok1.
  apply ok_of_mid; [by eapply removed_mid|].
  eapply manifest_current_kept; [|done]. apply (kp_kept _ _ _ K2). by intros [Hn _]%HN.
Qed.

(** ** The commit *)

Definition compacted (e : LsmEngineInner) (ls : list (list nat)) : LsmEngineInner :=
  set_state (mkEngineState (active (state e)) (immutables (state e)) ls) e.

(** The parts of the invariant a compaction does not touch. *)
Lemma mid_compacted fs e T a fs' e' T' :
  engine_ok fs e T a -> faults fs' = [] -> fs_wf fs' ->
  (forall n, is_Some (dirents fs' !! n) -> valid_utf8 (as_bytes n) = true) ->
  (forall n w, is_Some (dirents fs' !! n) -> parse_wal_name n = Some w -> is_Some (dirents fs !! n)) ->
  (forall w, kept (wal_name w) fs fs') ->
  poisoned e' = [] -> next_seq e <= next_seq e' <= u64_max -> mems e' = mems e -> wal e' = wal e ->
  active (state e') = active (state e) -> immutables (state e') = immutables (state e) ->
  tables_ok fs' e' T' -> mid_ok fs' e' T' a [].
Proof.
  intros [F1 F2 F3 F4 F5 [M1 M2 M3] F7 [W1 W2 W3 W4 W5] F9] Hf Hwf Hutf Hnames Hkw Hp Hn Em Ew Ea Ei Ht.
  split; try done.
  - lia.
  - split; unfold live_mems in *; rewrite ?Ea, ?Ei, ?Em; done.
  - split; unfold live_wals in *; cbn [app]; rewrite ?Em, ?Ew, ?Ei; try done.
    + destruct W1 as (t & A1 & A2 & A3). exists t. split_and!; [done|by rewrite (proj1 (Hkw _))|].
      by rewrite (log_of_kept fs fs' e _ A2 (Hkw _)).
    + intros p Hp'. destruct (W2 p Hp') as (t & ino & B1 & B2 & B3 & B4). exists t, ino.
      by destruct (kept_data _ _ _ _ (Hkw (wal_seq p)) B3) as [-> ->].
    + eapply Forall_impl; [exact W4|]. cbn. lia.
    + intros n s Hs Hps. apply W5; [by eapply Hnames|done].
Qed.

Lemma tables_ok_none fs e T ls : ls = [[]] -> tables_ok fs (compacted e ls) T.
Proof.
  intros ->. split; cbn [compacted set_state state levels].
  - simpl. lia.
  - intros [|l] ids i Hl Hi; [|done]. cbn in Hl. simplify_eq. by apply not_elem_of_nil in Hi.
  - intros [|l] ids Hl; [|done]. cbn in Hl. simplify_eq. constructor.
  - done.
Qed.

Lemma tables_ok_one fs e h rs T :
  handle_ok fs 1 h rs -> Manifest.seq (meta h) < next_seq e + 1 ->
  tables_ok fs (compacted (allocated e h) [[]; [length (handles e)]]) (set_T T (length (handles e)) rs).
Proof.
  intros Hh Hs. split; cbn [compacted allocated set_state set_handles set_next_seq state levels handles next_seq].
  - simpl. lia.
  - intros [|[|l]] ids i Hl Hi; cbn in Hl; simplify_eq; [by apply not_elem_of_nil in Hi|].
    apply list_elem_of_singleton in Hi as ->. exists h. split; [by rewrite lookup_app_r, Nat.sub_diag|].
    unfold set_T. by rewrite decide_True.
  - intros [|[|l]] ids Hl; cbn in Hl; simplify_eq; by repeat constructor.
  - intros ids0 ids1 i j H0 _ Hi. cbn in H0. simplify_eq. by apply not_elem_of_nil in Hi.
Qed.

(** The view only sees the tables through what they answer. *)
Lemma view_tables e e' T T' k :
  mems e' = mems e -> active (state e') = active (state e) -> immutables (state e') = immutables (state e) ->
  first_some (table_sources T' (levels (state e'))) k ≫= entry_value =
    first_some (table_sources T (levels (state e))) k ≫= entry_value ->
  view e' T' k = view e T k.
Proof.
  intros Em Ea Ei H. unfold view, sources, mem_sources. rewrite Em, Ea, Ei, !first_some_app.
  by destruct (match first_some _ k with Some _ => _ | None => _ end).
Qed.

(** The state after the levels were swapped, before the manifest is written:
    what the commit step of a compaction leaves. *)
Lemma swap_ok fs e T a out l0 ls :
  engine_ok fs e T a -> levels (state e) = l0 :: ls -> next_seq e < u64_max ->
  merged (run_of (handles e) T <$> inputs e) out -> Forall capped out -> len (records_bytes out) <= 2 ^ 60 ->
  exists fs' e' T',
    (output ← write_merged out;
     with_lock StateLock "state lock poisoned" (write_state (commit_compact output))) (fs, e) = (Ok tt, (fs', e')) /\
    mid_ok fs' e' T' a [] /\ (forall n, live_path e n -> ~ live_path e' n) /\
    (forall i, i ∈ inputs e -> handles e' !! i = handles e !! i) /\
    mems e' = mems e /\ same_log e e' /\ immutables (state e') = immutables (state e) /\ next_seq e' <= next_seq e + 1 /\
    (levels (state e') = [[]] /\ out = [] \/
     exists i, levels (state e') = [[]; [i]] /\ T' i = out) /\
    (forall k, first_some (table_sources T' (levels (state e'))) k ≫= entry_value =
      first_some (table_sources T (levels (state e))) k ≫= entry_value).
Proof.
  intros Hok Hl Hroom Hm Hc Hsm. pose proof Hok as [F1 F2 F3 F4 F5 F6 F7 F8 F9].
  pose proof (ta_levels _ _ _ F7) as Hlen. rewrite Hl in Hlen. simpl in Hlen.
  pose proof (fun k => merged_view fs e T out k F7 Hm) as Hview.
  destruct (decide (out = [])) as [->|Hne].
  - exists fs, (compacted e [[]]), T. split_and!; try done.
    + unfold write_merged. cbn [is_nil]. mstep. apply with_lock_ok; [done| |done].
      apply write_state_ok; [done| |done]. by eapply commit_compact_none.
    + apply (mid_compacted fs e T a); try done; [cbn; lia|]. by apply tables_ok_none.
    + intros n _ ([|l] & i & h & (ids & Hl' & Hi) & _); cbn in Hl'; [|done]. simplify_eq.
      by apply not_elem_of_nil in Hi.
    + cbn. lia.
    + by left.
  - destruct (write_merged_ok fs e out F1 F2 ltac:(lia) (mg_sorted _ _ Hm) Hc Hsm Hne) as (fs' & Hrun & Htw).
    pose (h := new_handle 1 (next_seq e) out). pose (i := length (handles e)).
    destruct (written_names 1 (next_seq e) _ _ _ ltac:(lia) ltac:(lia) Htw F3) as [Hutf Hwn].
    destruct (tw_file _ _ _ _ _ Htw) as (ino & Hino & Htab).
    exists fs', (compacted (allocated e h) [[]; [i]]), (set_T T i out). split_and!.
    + rewrite (M_bind_ok _ _ _ _ _ Hrun). apply with_lock_ok; [done| |done].
      apply write_state_ok; [done| |done]. apply (commit_compact_some fs' (allocated e h) i l0 ls); [done|lia].
    + apply (mid_compacted fs e T a); try done; [apply Htw|apply Htw| |cbn; lia|].
      * intros w. apply (table_written_wal 1 (next_seq e) out fs e T); (done || lia).
      * apply tables_ok_one; [|cbn; lia]. eapply new_handle_ok; [lia|done..].
    + intros n Hn ([|[|l]] & j & hj & (ids & Hl' & Hj) & Hh & Hp); cbn in Hl'; simplify_eq;
        [by apply not_elem_of_nil in Hj|]. apply list_elem_of_singleton in Hj as ->.
      cbn in Hh. unfold i in Hh. rewrite lookup_app_r, Nat.sub_diag in Hh by done. cbn in Hh. simplify_eq.
      destruct (live_path_name _ _ _ _ F7 Hn) as (l & s & Heq & Hl1 & Hs & _). cbn in Heq.
      destruct l as [|[|]]; [symmetry in Heq; by apply sst_name_level in Heq| |lia].
      apply sst_name_inj in Heq; lia.
    + intros j (l & ids & Hl' & Hj)%inputs_live. cbn. rewrite lookup_app_l; [done|].
      by eapply live_alloc.
    + done.
    + done.
    + done.
    + cbn. lia.
    + right. exists i. split; [done|]. unfold set_T. by rewrite decide_True.
    + intros k. rewrite <- Hview. cbn. unfold set_T.
      rewrite decide_True by done. by destruct (record_entry out k).
Qed.

(** ** The whole operation *)

Definition tables_small (e : LsmEngineInner) (T : nat -> list record) : Prop :=
  len (records_bytes (concat (T <$> inputs e))) <= 2 ^ 60.

Lemma compact_noop fs e :
  poisoned e = [] -> default [] (head (levels (state e))) = [] -> compact (fs, e) = (Ok tt, (fs, e)).
Proof.
  intros Hp Hl. unfold compact, compact_all_pending. apply with_lock_ok; [done| |done].
  rewrite (M_bind_ok _ _ _ _ _ (read_state_ok fs e Hp)). destruct (head _) as [[|i l0]|]; done.
Qed.

(** What a merge of the live tables yields fits the table format. *)
Lemma merged_capped fs e T out :
  tables_ok fs e T -> merged (run_of (handles e) T <$> inputs e) out -> Forall capped out.
Proof.
  intros Hok Hm. apply Forall_forall. intros r Hr. destruct (mg_from _ _ Hm r Hr) as (_ & run & Hrun & Hin).
  apply list_elem_of_fmap in Hrun as (j & -> & (l & ids & Hl' & Hj)%inputs_live). cbn in Hin.
  destruct (ta_handles _ _ _ Hok l ids j Hl' Hj) as (h & _ & Hho & _).
  destruct (ho_file _ _ _ _ Hho) as (ino & _ & (bl & f & Htab) & _).
  pose proof (tb_capped _ _ _ _ Htab) as Hcap. rewrite Forall_forall in Hcap. by apply Hcap.
Qed.

Lemma merged_fits e T out :
  tables_small e T -> merged (run_of (handles e) T <$> inputs e) out -> len (records_bytes out) <= 2 ^ 60.
Proof.
  intros Hsm Hm. pose proof (merged_small _ _ Hm) as Hle. rewrite <- list_fmap_compose in Hle.
  unfold tables_small in Hsm. change (records ∘ run_of (handles e) T) with T in Hle. lia.
Qed.

Lemma compact_ok fs e T a :
  engine_ok fs e T a -> tables_small e T -> next_seq e < u64_max ->
  exists fs' e' T', compact (fs, e) = (Ok tt, (fs', e')) /\ engine_ok fs' e' T' a /\
    mems e' = mems e /\ same_log e e' /\ immutables (state e') = immutables (state e) /\ next_seq e' <= next_seq e + 1 /\
    (default [] (head (levels (state e))) <> [] ->
      levels (state e') = [[]] \/
      exists i, levels (state e') = [[]; [i]] /\ Forall (fun r => rdeleted r = false) (T' i)) /\
    (forall k, view e' T' k = view e T k).
Proof.
  intros Hok Hsm Hroom. pose proof (eo_poison _ _ _ _ Hok) as Hp.
  destruct (decide (default [] (head (levels (state e))) = [])) as [Hnil|Hne].
  { exists fs, e, T. split_and!; try done; [by apply compact_noop|lia]. }
  destruct (levels (state e)) as [|l0 ls] eqn:Hl; [done|]. cbn in Hne. destruct l0 as [|i0 l0]; [done|].
  destruct (read_runs_ok fs e T a (inputs e) Hok (inputs_live e)) as (e1 & Hruns & Hc & Hok1).
  destruct (cached_state _ _ Hc) as (Est & Ems & _ & Enx & _).
  pose proof (runs_mergeable fs e T (eo_tables _ _ _ _ Hok)) as Hmg.
  destruct (merge_runs_ok _ Hmg) as (out & Hmerge & Hm).
  assert (inputs e1 = inputs e) as Ein by (unfold inputs; by rewrite Est).
  assert (run_of (handles e1) T <$> inputs e1 = run_of (handles e) T <$> inputs e) as Erun.
  { rewrite Ein. apply list_fmap_ext. intros _ j _. unfold run_of. by rewrite (cached_seq_of e e1). }
  pose proof (merged_capped _ _ _ _ (eo_tables _ _ _ _ Hok) Hm) as Hcap. pose proof (merged_fits _ _ _ Hsm Hm) as Hsmall.
  destruct (swap_ok fs e1 T a out (i0 :: l0) ls Hok1 ltac:(by rewrite Est) ltac:(lia)
    ltac:(by rewrite Erun) Hcap Hsmall)
    as (fs2 & e2 & T2 & Hswap & Hmid & Hdead & Hhs & Em2 & Hsl2 & Ei2 & En2 & Hlev & Hview).
  destruct (write_manifest_ok fs2 e2 T2 (md_faults _ _ _ _ _ Hmid) (md_fs _ _ _ _ _ Hmid)
      (md_poison _ _ _ _ _ Hmid) (md_tables _ _ _ _ _ Hmid)) as (fs3 & Hman & Hcur & K3 & N3).
  assert (forall i, i ∈ inputs e -> exists h, handles e1 !! i = Some h /\ live_path e1 (path h)) as Hin.
  { intros i Hi. rewrite <- Ein in Hi. destruct (inputs_live e1 i Hi) as [l Hlv].
    destruct (live_handle _ _ _ _ _ _ Hok1 Hlv) as (h & Hh & _). exists h. split; [done|]. by exists l, i, h. }
  destruct (remove_inputs_ok fs3 e2 (inputs e) (kp_faults _ _ _ K3) (kp_wf _ _ _ K3)) as (fs4 & Hrem & K4 & N4).
  { apply Forall_forall. intros i Hi. destruct (Hin i Hi) as (h & Hh & _).
    eapply lookup_lt_Some. rewrite Hhs by (by rewrite Ein). exact Hh. }
  exists fs4, e2, T2. split_and!.
  - unfold compact, compact_all_pending. apply with_lock_ok; [done| |done].
    rewrite (M_bind_ok _ _ _ _ _ (read_state_ok fs e Hp)). rewrite Hl. cbn [head].
    assert ((i0 :: l0) ++ default [] (((i0 :: l0) :: ls) !! 1%nat) = inputs e) as ->
      by (unfold inputs; by rewrite Hl).
    rewrite (M_bind_ok _ _ _ _ _ Hruns), (lift_bind_ok _ _ _ _ Hmerge).
    rewrite <- M_bind_assoc, (M_bind_ok _ _ _ _ _ Hswap), (M_bind_ok _ _ _ _ _ Hman). exact Hrem.
  - eapply (finish_compact fs2 e2 T2 a fs3 fs4); [done..|].
    intros n (i & h & Hi & Hh & ->). destruct (Hin i Hi) as (h' & Hh' & Hlp).
    rewrite Hhs in Hh by (by rewrite Ein). simplify_eq. split; [|by apply Hdead].
    destruct (live_path_name _ _ _ _ (eo_tables _ _ _ _ Hok1) Hlp) as (l & s & -> & _). apply initial_sst.
  - congruence.
  - eapply same_log_trans; [|exact Hsl2]. by destruct (cached_state _ _ Hc) as (_ & _ & ? & _ & ? & _).
  - by rewrite Ei2, Est.
  - lia.
  - intros _. destruct Hlev as [[-> _]|(i & -> & HT)]; [by left|right]. exists i. split; [done|].
    rewrite HT. apply Forall_forall. intros r Hr. by destruct (mg_from _ _ Hm r Hr).
  - intros k. rewrite <- (cached_view _ _ T k Hc). apply view_tables; [done| |done|done].
    rewrite (mo_active _ _ (md_mems _ _ _ _ _ Hmid)). by rewrite (mo_active _ _ (eo_mems _ _ _ _ Hok1)).
Qed.
End compact.
