(* ===== verification/EngineOpen.v ===== *)
(** * Opening the engine: what a directory holds and what recovery makes of it
    ([open_with_options] of [src/src/engine.rs]) *)

From S2P Require Import Prelude Outcome External Fs MemTable Wal WalWriter WalReader.
From S2P Require Import StdVec SstRecord SstIndex Bloom Builder Reader Merge Manifest.
From S2P Require Import Names Engine EngineSpec EngineGet EnginePut EngineFlush EngineCommit.

Section open.
Context {C : Crc32} {SM : SkipMap Entry} {FB : FastBloom} {AL : Allocator}.

(** ** A directory an engine can be opened on *)

(** The log of generation [w.1] starts with the entries [w.2]; what follows
    is an entry that a crash cut short. *)
Definition log_file (fs : Fs) (w : Z * list WalEntry) : Prop :=
  exists ino tail, dirents fs !! wal_name w.1 = Some ino /\ data_of fs ino = frames w.2 ++ tail /\
    torn tail /\ Forall Wal.fits w.2 /\ len (data_of fs ino) <= isize_max.

(** A handle before its table has been opened. *)
Definition handle_of (m : SstMeta) : SstHandle := mkSstHandle m (Manifest.name m) None.

(** [ms]: the tables of the manifest by level; [R]: the records of a table's
    file; [ws]: the log generations, oldest first. *)
Record disk_ok (fs : Fs) (ms : list (list SstMeta)) (R : string -> list record)
    (ws : list (Z * list WalEntry)) : Prop := {
  dk_faults : faults fs = [];
  dk_fs : fs_wf fs;
  dk_utf8 : forall n, is_Some (dirents fs !! n) -> valid_utf8 (as_bytes n) = true;
  dk_manifest : match file_of fs MANIFEST_FILE_NAME with
                | None => ms = []
                | Some b => b = manifest_bytes (mkManifest ms) /\ len b <= isize_max
                end;
  dk_trim : trim ms = ms;
  dk_levels : (length ms <= 2)%nat;
  dk_tables : forall l metas m, ms !! l = Some metas -> m ∈ metas ->
    handle_ok fs l (handle_of m) (R (Manifest.name m));
  dk_order : forall l metas, ms !! l = Some metas -> level_ordered metas;
  dk_newer : forall ms0 ms1 m m', ms !! 0%nat = Some ms0 -> ms !! 1%nat = Some ms1 ->
    m ∈ ms0 -> m' ∈ ms1 -> Manifest.seq m' < Manifest.seq m;
  dk_logs : Forall (log_file fs) ws;
  dk_sorted : StronglySorted Z.lt (ws.*1);
  dk_range : Forall (fun s => 0 <= s <= u64_max) (ws.*1);
  dk_only : forall n s, is_Some (dirents fs !! n) -> parse_wal_name n = Some s ->
    n = wal_name s /\ s ∈ ws.*1;
}.

(** The writes of the logs, oldest first. *)
Definition logged (ws : list (Z * list WalEntry)) : list mutation :=
  entry_mutation <$> concat (ws.*2).

(** The tables, newest first. *)
Definition stored (ms : list (list SstMeta)) (R : string -> list record) : list (bytes -> option Entry) :=
  (fun m => record_entry (R (Manifest.name m))) <$> concat (reverse <$> ms).

(** What a client finds after recovery: the last logged write of a key, or the
    entry of the newest table that has one. *)
Definition disk_view (ms : list (list SstMeta)) (R : string -> list record)
    (ws : list (Z * list WalEntry)) (k : bytes) : option bytes :=
  match last_write (logged ws) k with
  | Some e => entry_value e
  | None => first_some (stored ms R) k ≫= entry_value
  end.

(** ** The manifest and the handles *)

Lemma disk_manifest_ok fs ms R ws : disk_ok fs ms R ws -> manifest_ok (mkManifest ms).
Proof.
  intros Hd. apply manifest_ok_lookup. cbn. intros l metas Hl. split; [|by eapply (dk_order _ _ _ _ Hd)].
  apply Forall_forall. intros m Hm. pose proof (lookup_lt_Some _ _ _ Hl). pose proof (dk_levels _ _ _ _ Hd).
  eapply (handle_meta_ok fs l (handle_of m)); [lia|]. by eapply (dk_tables _ _ _ _ Hd).
Qed.

Lemma load_ok fs ms R ws : disk_ok fs ms R ws -> load fs = (Ok (mkManifest ms), fs).
Proof.
  intros Hd. pose proof (dk_manifest _ _ _ _ Hd) as Hm. unfold load, file_of in *.
  destruct (dirents fs !! MANIFEST_FILE_NAME) as [ino|] eqn:E; cbn [fmap option_fmap option_map] in Hm.
  - destruct Hm as [Hb Hlen].
    assert (fs_read MANIFEST_FILE_NAME fs = (Ok (data_of fs ino), fs)) as Hr
      by (unfold fs_read; rewrite syscall_ok by apply Hd; by rewrite E).
    rewrite (M_bind_ok _ _ _ _ _ (try_ok _ _ _ _ Hr)). unfold lift. rewrite Hb. unfold manifest_bytes.
    rewrite decode_bytes.
    + cbn. by rewrite (dk_trim _ _ _ _ Hd).
    + by eapply disk_manifest_ok.
    + pose proof (dk_levels _ _ _ _ Hd). cbn. lia.
    + fold (manifest_bytes (mkManifest ms)). by rewrite <- Hb.
  - subst ms. assert (try_ (fs_read MANIFEST_FILE_NAME) fs = (Ok (inl (Io NotFound)), fs)) as Hr
      by (unfold try_, fs_read; rewrite syscall_ok by apply Hd; by rewrite E).
    by rewrite (M_bind_ok _ _ _ _ _ Hr).
Qed.

Lemma open_level_ok fs metas hs :
  faults fs = [] -> (forall m, m ∈ metas -> is_Some (dirents fs !! Manifest.name m)) ->
  open_level metas hs fs = (Ok (List.seq (length hs) (length metas), hs ++ (handle_of <$> metas)), fs).
Proof.
  intros Hf. revert hs. induction metas as [|m metas IH]; intros hs Hm.
  { by rewrite app_nil_r. }
  cbn [open_level]. rewrite (M_bind_ok _ _ _ _ _ (fs_exists_run _ fs Hf)). rewrite bool_decide_true by (apply Hm, list_elem_of_here). cbn [negb].
  erewrite M_bind_ok; [|apply IH; intros m' Hm'; apply Hm; by apply list_elem_of_further].
  cbn [fst snd]. rewrite length_app, Nat.add_1_r, <- app_assoc. done.
Qed.

(** Every level's handles stand for its tables, in order. *)
Lemma open_levels_ok fs ms hs :
  faults fs = [] -> (forall metas m, metas ∈ ms -> m ∈ metas -> is_Some (dirents fs !! Manifest.name m)) ->
  exists idss, open_levels ms hs fs = (Ok (idss, hs ++ (handle_of <$> concat ms)), fs) /\
    Forall2 (fun ids metas =>
      Forall2 (fun i m => (hs ++ (handle_of <$> concat ms)) !! i = Some (handle_of m)) ids metas) idss ms.
Proof.
  intros Hf. revert hs. induction ms as [|metas ms IH]; intros hs Hm.
  { exists []. split; [by rewrite app_nil_r|constructor]. }
  cbn [open_levels concat].
  erewrite M_bind_ok; [|apply open_level_ok; [done|]; intros m; apply Hm, list_elem_of_here]. cbn beta iota.
  destruct (IH (hs ++ (handle_of <$> metas))) as (idss & Hrun & Hall).
  { intros metas' m Hin. apply Hm. by apply list_elem_of_further. }
  erewrite M_bind_ok by exact Hrun. cbn beta iota. rewrite fmap_app, app_assoc.
  eexists. split; [reflexivity|]. constructor; [|done].
  apply Forall2_same_length_lookup_2; [apply length_seq|]. intros j i m Hi Hj.
  apply lookup_seq in Hi as [-> Hlt]. rewrite <- app_assoc, lookup_app_r by lia.
  rewrite Nat.add_comm, Nat.add_sub. apply lookup_app_l_Some. rewrite list_lookup_fmap. by rewrite Hj.
Qed.

(** ** The log generations in the directory *)

Definition wal_ref (w : Z * list WalEntry) : Z * string := (w.1, wal_name w.1).

Lemma wal_files_ok fs names :
  Forall (fun n => valid_utf8 (as_bytes n) = true) names ->
  wal_files names fs = (Ok (omap (fun n => (fun s => (s, n)) <$> parse_wal_name n) names), fs).
Proof.
  induction 1 as [|n names Hn _ IH]; [done|]. cbn [wal_files omap list_omap]. rewrite Hn. cbn [negb].
  rewrite (M_bind_ok _ _ _ _ _ IH). by destruct (parse_wal_name n).
Qed.

Lemma found_wals_NoDup names :
  NoDup names -> NoDup (omap (fun n => (fun s => (s, n)) <$> parse_wal_name n) names).
Proof.
  induction 1 as [|n names Hn _ IH]; cbn [omap list_omap]; [constructor|].
  destruct (parse_wal_name n) as [s|]; cbn; [|done]. constructor; [|done].
  intros (n' & Hn' & Heq)%list_elem_of_omap. destruct (parse_wal_name n'); [|done]. by simplify_eq/=.
Qed.

Lemma sorted_wals fs ms R ws :
  disk_ok fs ms R ws ->
  sort_by_key fst (omap (fun n => (fun s => (s, n)) <$> parse_wal_name n) (map_to_list (dirents fs)).*1)
    = wal_ref <$> ws.
Proof.
  intros Hd. pose proof (dk_range _ _ _ _ Hd) as Hr. pose proof (dk_sorted _ _ _ _ Hd) as Hs.
  assert (StronglySorted (fun a b : Z * string => a.1 < b.1) (wal_ref <$> ws)) as Hs'.
  { clear -Hs. induction ws as [|w ws IH]; [constructor|]. change ((w :: ws).*1) with (w.1 :: ws.*1) in Hs. rewrite fmap_cons.
    apply StronglySorted_inv in Hs as [H1 H2]. constructor; [by apply IH|].
    rewrite Forall_fmap in H2. by rewrite Forall_fmap. }
  apply (StronglySorted_unique_strong (fun a b => a.1 <= b.1)).
  - intros x1 x2 H1 H2 Hle1 Hle2. rewrite sort_by_key_Permutation in H1.
    apply list_elem_of_omap in H1 as (n & Hn & Hp). destruct (parse_wal_name n) as [s|] eqn:Ep; [|done].
    cbn in Hp. injection Hp as <-. apply list_elem_of_fmap in Hn as ([n' i] & -> & Hn%elem_of_map_to_list).
    destruct (dk_only _ _ _ _ Hd n' s) as [Hw _]; [by eexists|done|].
    apply list_elem_of_fmap in H2 as (w & -> & _). cbn in *. unfold wal_ref. rewrite Hw. f_equal; [|f_equal]; lia.
  - apply sort_by_key_sorted.
  - eapply StronglySorted_impl; [|exact Hs']. simpl. lia.
  - rewrite sort_by_key_Permutation. apply NoDup_Permutation.
    + apply found_wals_NoDup, NoDup_fst_map_to_list.
    + clear -Hs'. induction Hs' as [|x l _ IH Hx]; [constructor|]. constructor; [|done].
      intros Hin. rewrite Forall_forall in Hx. specialize (Hx x Hin). lia.
    + intros [s n]. rewrite list_elem_of_omap. split.
      * intros (n' & Hn & Hp). destruct (parse_wal_name n') as [s'|] eqn:Ep; [|done]. cbn in Hp. simplify_eq.
        apply list_elem_of_fmap in Hn as ([n' i] & -> & Hn%elem_of_map_to_list).
        destruct (dk_only _ _ _ _ Hd n' s) as [Hw Hin]; [by eexists|done|]. cbn in *.
        apply list_elem_of_fmap in Hin as (w & -> & Hw'). apply list_elem_of_fmap. exists w.
        by rewrite Hw.
      * intros (w & [= -> ->] & Hw)%list_elem_of_fmap. exists (wal_name w.1).
        pose proof (dk_logs _ _ _ _ Hd) as Hl. rewrite Forall_forall in Hl. rewrite Forall_forall in Hr.
        destruct (Hl w Hw) as (ino & tail & Hino & _). split.
        -- apply list_elem_of_fmap. exists (wal_name w.1, ino). split; [done|]. by apply elem_of_map_to_list.
        -- rewrite parse_wal_name_ok; [done|]. apply Hr. by apply list_elem_of_fmap_2.
Qed.

(** ** Replay *)

Lemma logged_cons w ws : logged (w :: ws) = (entry_mutation <$> w.2) ++ logged ws.
Proof. unfold logged. cbn [fmap list_fmap concat]. by rewrite fmap_app. Qed.

Lemma last_write_app h1 h2 k :
  last_write (h1 ++ h2) k = match last_write h2 k with Some e => Some e | None => last_write h1 k end.
Proof. unfold last_write. by rewrite rev_app_distr, assoc_app. Qed.

Lemma replay_files_ok fs ws t :
  faults fs = [] -> Forall (log_file fs) ws ->
  exists t', for_each (wal_ref <$> ws) replay_file (fs, t) = (Ok tt, (fs, t')) /\
    forall k, get_entry t' k =
      match last_write (logged ws) k with Some e => Some e | None => get_entry t k end.
Proof.
  intros Hf Hws. revert t. induction Hws as [|w ws Hw _ IH]; intros t; [by exists t|].
  destruct Hw as (ino & tail & Hino & Hdat & Htorn & Hfit & Hlen).
  destruct (replay_into_ok (mkWalReader ino (wal_name w.1)) fs t w.2 tail Hf Hdat Htorn Hfit) as (t1 & H1 & G1).
  { by rewrite <- Hdat. }
  destruct (IH t1) as (t' & H2 & G2). exists t'. split.
  - rewrite fmap_cons. cbn [for_each].
    assert (replay_file (wal_ref w) (fs, t) = (Ok tt, (fs, t1))) as Hone;
      [|by rewrite (M_bind_ok _ _ _ _ _ Hone)].
    unfold replay_file. erewrite (M_bind_ok _ _ _ (mkWalReader ino (wal_name w.1)) (fs, t)).
    + by rewrite (M_bind_ok _ _ _ _ _ H1).
    + apply on_fs_run. unfold wal_open. cbn [wal_ref snd].
      by rewrite (M_bind_ok _ _ _ _ _ (file_open_ok _ _ _ Hf Hino)).
  - intros k. rewrite G2, G1, logged_cons, last_write_app. by destruct (last_write (logged ws) k).
Qed.

(** ** The new log *)

(** The log entry of a recovered binding. *)
Definition entry_of (kv : bytes * Entry) : WalEntry :=
  mkWalEntry (if deleted kv.2 then Delete else Put) kv.1 (if deleted kv.2 then [] else MemTable.value kv.2).

(** Bindings that replay can produce. *)
Definition replayed (kv : bytes * Entry) : Prop := encodable (entry_of kv) /\ entry_mutation (entry_of kv) = kv.

Lemma mutation_replayed e : Wal.fits e -> replayed (entry_mutation e).
Proof.
  intros [Hk Hv]. unfold replayed, entry_of, entry_mutation, encodable, Wal.fits.
  destruct (Wal.op e); cbn; split_and!; try done.
Qed.

Lemma table_replayed fs ws t :
  Forall (log_file fs) ws -> (forall k, get_entry t k = last_write (logged ws) k) ->
  Forall replayed (iter t).
Proof.
  intros Hws Hget. apply Forall_forall. intros [k en] Hin.
  apply (elem_of_assoc _ _ _ (iter_sorted t)) in Hin. rewrite iter_get_entry, Hget in Hin.
  apply assoc_elem_of, list_elem_of_In, in_rev, list_elem_of_In, list_elem_of_fmap in Hin as (e & -> & Hin).
  apply elem_of_concat_inv in Hin as (es & Hes & Hin). apply list_elem_of_fmap in Hes as (w & -> & Hw).
  rewrite Forall_forall in Hws. destruct (Hws w Hw) as (ino & tail & _ & _ & _ & Hfit & _).
  rewrite Forall_forall in Hfit. by apply mutation_replayed, Hfit.
Qed.

Lemma append_entries_ok fs w kvs :
  faults fs = [] -> Forall replayed kvs ->
  exists fs' w', for_each kvs append_entry (fs, w) = (Ok tt, (fs', w')) /\
    logs (frames (entry_of <$> kvs)) fs w fs' w'.
Proof.
  intros Hf Hkvs. revert fs w Hf. induction Hkvs as [|kv kvs [Hkv _] _ IH]; intros fs w Hf.
  { exists fs, w. split; [done|]. split; [done|]. split; [by apply touches_refl|]. by rewrite app_nil_r. }
  destruct (append_ok fs w (entry_of kv) Hf Hkv) as (fs1 & w1 & H1 & B1 & _ & T1 & L1).
  destruct (IH fs1 w1 (touches_faults _ _ _ T1)) as (fs2 & w2 & H2 & HL2).
  exists fs2, w2. cbn [for_each]. split.
  - assert (append_entry kv (fs, w) = (Ok tt, (fs1, w1))) as Hone by done.
    by rewrite (M_bind_ok _ _ _ _ _ Hone).
  - rewrite fmap_cons, frames_cons. by eapply logs_trans.
Qed.

(** In a list with unique keys the first binding is the last one. *)
Lemma assoc_rev {A} (l : list (bytes * A)) k : keys_sorted l -> assoc k (rev l) = assoc k l.
Proof.
  induction l as [|[k' a] l IH]; [done|]. rewrite keys_sorted_cons. intros [Hs Hk]. cbn [rev].
  rewrite assoc_app, IH by done. simpl. case_decide as He; [|by destruct (assoc k l)].
  subst. by rewrite assoc_below.
Qed.

Lemma entries_hold t :
  Forall replayed (iter t) -> wal_holds (frames (entry_of <$> iter t)) t.
Proof.
  intros Hr. exists (entry_of <$> iter t). split; [done|]. split.
  - apply Forall_fmap. eapply Forall_impl; [exact Hr|]. by intros kv [? _].
  - intros k. rewrite <- list_fmap_compose.
    replace ((entry_mutation ∘ entry_of) <$> iter t) with (iter t).
    + unfold last_write. by rewrite assoc_rev, iter_get_entry by apply iter_sorted.
    + rewrite <- (list_fmap_id (iter t)) at 1. apply list_fmap_ext. intros i kv Hi. cbn.
      symmetry. by apply (Forall_lookup_1 _ _ _ _ Hr Hi).
Qed.

(** ** Sequence numbers *)

Lemma foldl_max_spec {A} (f : A -> Z) (l : list A) acc b :
  acc <= b -> Forall (fun x => f x <= b) l ->
  acc <= foldl (fun acc x => Z.max acc (f x)) acc l <= b /\
  Forall (fun x => f x <= foldl (fun acc x => Z.max acc (f x)) acc l) l.
Proof.
  intros Ha Hl. revert acc Ha. induction Hl as [|x l Hx _ IH]; intros acc Ha; simpl; [by split; [lia|]|].
  destruct (IH (Z.max acc (f x)) ltac:(lia)) as [H1 H2]. split; [lia|]. constructor; [lia|done].
Qed.

(** The largest sequence number of the directory. *)
Lemma max_seq_spec ms ws b :
  0 <= b -> Forall (fun m => Manifest.seq m <= b) (concat ms) -> Forall (fun s => s <= b) (ws.*1) ->
  let n := max_seq_of (mkManifest ms) (wal_ref <$> ws) in
  0 <= n <= b /\ Forall (fun m => Manifest.seq m <= n) (concat ms) /\ Forall (fun s => s <= n) (ws.*1).
Proof.
  intros Hb Hm Hw. unfold max_seq_of. cbn [Manifest.levels].
  destruct (foldl_max_spec Manifest.seq (concat ms) 0 b Hb Hm) as [H1 H2].
  rewrite Forall_fmap in Hw.
  destruct (foldl_max_spec fst (wal_ref <$> ws) _ b (proj2 H1)) as [H3 H4].
  { rewrite Forall_fmap. done. }
  cbn zeta. split_and!; [lia|lia| |].
  - eapply Forall_impl; [exact H2|]. simpl. lia.
  - rewrite Forall_fmap in H4. rewrite Forall_fmap. done.
Qed.

Lemma moved_ok {S W A} (w : W) (body : M (S * W) A) dtor s a s' w' :
  body (s, w) = (Ok a, (s', w')) -> moved w body dtor s = (Ok (a, w'), s').
Proof. unfold moved. by intros ->. Qed.

(** ** The recovered engine *)

Definition metas_of (hs : list SstHandle) (idss : list (list nat)) : list (list SstMeta) :=
  (fun ids : list nat => meta_at hs <$> ids) <$> idss.

(** The records behind a handle number. *)
Definition records_of (R : string -> list record) (hs : list SstHandle) (i : nat) : list record :=
  R (Manifest.name (meta_at hs i)).

(** Handle numbers stand for the manifest's tables. *)
Definition numbered (hs : list SstHandle) (idss : list (list nat)) (ms : list (list SstMeta)) : Prop :=
  Forall2 (fun ids metas => Forall2 (fun i m => hs !! i = Some (handle_of m)) ids metas) idss ms.

Lemma numbered_metas hs idss ms : numbered hs idss ms -> metas_of hs idss = ms.
Proof.
  induction 1 as [|ids metas idss ms H _ IH]; [done|]. unfold metas_of. rewrite fmap_cons. f_equal; [|exact IH].
  clear -H. induction H as [|i m ids metas Hi _ IH]; [done|]. rewrite fmap_cons. f_equal; [|exact IH].
  by rewrite (meta_at_lookup _ _ _ Hi).
Qed.

Lemma stored_numbered R hs idss :
  stored (metas_of hs idss) R = table_sources (records_of R hs) idss.
Proof.
  unfold stored, table_sources, metas_of. induction idss as [|ids idss IH]; [done|].
  rewrite !fmap_cons. cbn [concat]. rewrite !fmap_app, IH. f_equal.
  by rewrite <- fmap_reverse, <- list_fmap_compose.
Qed.

Lemma seq_of_meta_at hs i : seq_of hs i = Manifest.seq (meta_at hs i).
Proof. unfold seq_of, meta_at. by destruct (hs !! i). Qed.

Lemma ordered_ids hs (ids : list nat) :
  level_ordered (meta_at hs <$> ids) -> StronglySorted (fun i j => seq_of hs i < seq_of hs j) ids.
Proof.
  unfold level_ordered. induction ids as [|i ids IH]; [constructor|]. rewrite fmap_cons.
  intros [H1 H2]%StronglySorted_inv. constructor; [by apply IH|]. rewrite Forall_fmap in H2.
  eapply Forall_impl; [exact H2|]. intros j. cbn. by rewrite !seq_of_meta_at.
Qed.

Lemma numbered_lookup hs idss ms l ids i :
  numbered hs idss ms -> idss !! l = Some ids -> i ∈ ids ->
  exists metas m, ms !! l = Some metas /\ m ∈ metas /\ hs !! i = Some (handle_of m) /\
    metas = meta_at hs <$> ids /\ m = meta_at hs i.
Proof.
  intros Hn Hl Hi. pose proof (numbered_metas _ _ _ Hn) as Hm.
  destruct (Forall2_lookup_l _ _ _ _ _ Hn Hl) as (metas & Hml & Hall).
  apply list_elem_of_lookup in Hi as [j Hj].
  destruct (Forall2_lookup_l _ _ _ _ _ Hall Hj) as (m & Hmj & Hh). exists metas, m. split_and!; try done.
  - by eapply list_elem_of_lookup_2.
  - rewrite <- Hm in Hml. unfold metas_of in Hml. rewrite list_lookup_fmap, Hl in Hml. by injection Hml.
  - by rewrite (meta_at_lookup _ _ _ Hh).
Qed.

Lemma recovered_tables fs fs' ms R ws e :
  disk_ok fs ms R ws -> numbered (handles e) (levels (state e)) ms ->
  Forall (fun m => Manifest.seq m < next_seq e) (concat ms) ->
  (forall n b, initial n = Some b -> b <> x77 -> kept n fs fs') ->
  tables_ok fs' e (records_of R (handles e)).
Proof.
  intros Hd Hn Hlt Hk. rewrite Forall_forall in Hlt.
  assert (forall l ids, levels (state e) !! l = Some ids -> ms !! l = Some (meta_at (handles e) <$> ids)) as Hlev.
  { intros l ids Hl. rewrite <- (numbered_metas _ _ _ Hn). unfold metas_of. by rewrite list_lookup_fmap, Hl. }
  split.
  - rewrite (Forall2_length _ _ _ Hn). apply Hd.
  - intros l ids i Hl Hi.
    destruct (numbered_lookup _ _ _ _ _ _ Hn Hl Hi) as (metas & m & Hml & Hm & Hh & _ & ->).
    exists (handle_of (meta_at (handles e) i)). split_and!; [done| |].
    + eapply handle_ok_kept; [|by eapply (dk_tables _ _ _ _ Hd)].
      pose proof (ho_name _ _ _ _ (dk_tables _ _ _ _ Hd _ _ _ Hml Hm)) as ->.
      by eapply Hk; [apply initial_sst|].
    + apply Hlt. eapply elem_of_concat; [exact Hm|]. by eapply list_elem_of_lookup_2.
  - intros l ids Hl. apply ordered_ids. by eapply (dk_order _ _ _ _ Hd), Hlev.
  - intros ids0 ids1 i j H0 H1 Hi Hj. rewrite !seq_of_meta_at.
    eapply (dk_newer _ _ _ _ Hd); [by apply Hlev|by apply Hlev|by apply list_elem_of_fmap_2..].
Qed.

(** The steps of [open_with_options] after the replay leave only the new log. *)
Record relogged (fs : Fs) (ws : list (Z * list WalEntry)) (t : MemTable) (n : Z) (w : WalWriter)
    (fs' : Fs) : Prop := {
  rl_keeps : keeps (fun x => exists s, x = wal_name s) fs fs';
  rl_names : forall x, is_Some (dirents fs' !! x) -> x = wal_name n \/
    is_Some (dirents fs !! x) /\ (x ∉ (snd <$> (wal_ref <$> ws)));
  rl_writer : dirents fs' !! wal_name n = Some (bw_file (ww_file w));
  rl_log : wal_holds (log_of fs' w) t;
  rl_buf : bw_buf (ww_file w) = [];
}.

Lemma recovered_ok fs fs' ms R ws o t w n hs idss :
  disk_ok fs ms R ws -> numbered hs idss ms ->
  Forall (fun m => Manifest.seq m < n) (concat ms) -> 0 <= n < u64_max ->
  relogged fs ws t n w fs' ->
  engine_ok fs' (mkEngine o (mkEngineState (Some 0%nat) [] idss) (mkActiveWal w n) (n + 1) 0 [] [t] hs)
    (records_of R hs) 0.
Proof.
  intros Hd Hn Hlt Hrange [Hk Hnames Hw Hlog _].
  assert (forall x b, initial x = Some b -> b <> x77 -> kept x fs fs') as Hkept.
  { intros x b Hx Hb. apply (kp_kept _ _ _ Hk). intros [s ->]. rewrite initial_wal in Hx. congruence. }
  split.
  - apply Hk.
  - apply Hk.
  - intros x [->|[Hx _]]%Hnames; [apply wal_name_utf8; lia|by apply (dk_utf8 _ _ _ _ Hd)].
  - done.
  - cbn. lia.
  - split; [done|repeat constructor|]. apply NoDup_singleton.
  - eapply (recovered_tables fs fs' ms R ws); [done..| |done]. cbn. eapply Forall_impl; [exact Hlt|]. simpl. lia.
  - split; cbn.
    + by exists t.
    + by intros p Hp%not_elem_of_nil.
    + by repeat constructor.
    + repeat constructor; cbn; lia.
    + intros x s [->|[Hx Hnot]]%Hnames Hp.
      * rewrite parse_wal_name_ok in Hp by lia. injection Hp as <-. split; [done|apply list_elem_of_here].
      * destruct (dk_only _ _ _ _ Hd x s Hx Hp) as [-> Hin]. exfalso. apply Hnot.
        apply list_elem_of_fmap in Hin as (v & -> & Hv). apply (list_elem_of_fmap_2 snd (wal_ref <$> ws) (wal_ref v)).
        by apply list_elem_of_fmap_2.
  - unfold manifest_current. rewrite (kept_file_of _ _ _ (Hkept _ _ initial_manifest ltac:(done))).
    pose proof (dk_manifest _ _ _ _ Hd) as Hm. destruct (file_of fs MANIFEST_FILE_NAME).
    + destruct Hm as [-> _]. unfold live_metas. cbn [state levels handles].
      fold (metas_of hs idss). by rewrite (numbered_metas _ _ _ Hn), (dk_trim _ _ _ _ Hd).
    + subst ms. apply Forall2_nil_inv_r in Hn. cbn. by rewrite Hn.
Qed.

(** The table is logged again, and synced. *)
Lemma relog_ok fs w t :
  faults fs = [] -> log_of fs w = [] -> bw_buf (ww_file w) = [] -> Forall replayed (iter t) ->
  exists fs' w',
    (if MemTable.is_empty t then mret tt else _ ← for_each (iter t) append_entry; sync) (fs, w)
      = (Ok tt, (fs', w')) /\
    bw_file (ww_file w') = bw_file (ww_file w) /\ bw_buf (ww_file w') = [] /\
    touches (bw_file (ww_file w)) fs fs' /\ log_of fs' w' = frames (entry_of <$> iter t).
Proof.
  intros Hf Hlog Hbuf Hr.
  destruct (MemTable.is_empty t) eqn:He.
  { apply is_empty_iter in He. exists fs, w. split; [done|]. split; [done|]. split; [done|].
    split; [by apply touches_refl|]. by rewrite Hlog, He. }
  destruct (append_entries_ok fs w (iter t) Hf Hr) as (fs1 & w1 & H1 & B1 & T1 & L1).
  destruct (sync_ok fs1 w1 (touches_faults _ _ _ T1)) as (fs2 & w2 & H2 & B2 & E2 & _ & T2 & I2).
  exists fs2, w2. split; [by rewrite (M_bind_ok _ _ _ _ _ H1)|]. split; [congruence|]. split; [done|]. split.
  - rewrite B1 in T2. by eapply touches_trans.
  - unfold log_of. rewrite E2, B2, app_nil_r. unfold data_of. rewrite I2. cbn.
    by rewrite L1, Hlog.
Qed.

Lemma new_log_ok fs ms R ws t n :
  disk_ok fs ms R ws -> Forall (fun s => s < n) (ws.*1) -> 0 <= n <= u64_max -> Forall replayed (iter t) ->
  exists fs1 w1 fs' w,
    wal_create (wal_name n) fs = (Ok w1, fs1) /\
    moved w1
      (_ ← (if MemTable.is_empty t then mret tt else _ ← for_each (iter t) append_entry; sync);
       _ ← for_each (wal_ref <$> ws) (fun f => ignore (on_fs (fs_remove_file f.2)));
       on_fs runtime_build) wal_drop fs1 = (Ok (tt, w), fs') /\
    relogged fs ws t n w fs'.
Proof.
  intros Hd Hlt Hrange Hr. pose proof (dk_faults _ _ _ _ Hd) as Hf. pose proof (dk_fs _ _ _ _ Hd) as Hwf.
  destruct (file_create_ok (wal_name n) fs Hf Hwf) as (ino & fs1 & Hcr & Hwr).
  pose (w1 := mkWalWriter (bw_new ino) (wal_name n) []). pose proof (wr_faults _ _ _ _ _ Hwr) as Hf1.
  destruct (relog_ok fs1 w1 t Hf1) as (fs2 & w2 & Hre & B2 & E2 & T2 & L2); try done.
  { unfold log_of. cbn. by rewrite (wr_data _ _ _ _ _ Hwr). }
  cbn [ww_file w1 bw_file bw_new] in B2, T2. pose proof (wrote_wf _ _ _ _ _ Hwr Hwf) as Hwf1.
  assert (dirents fs1 !! wal_name n = Some ino) as Hn1
    by (rewrite (wr_dirents _ _ _ _ _ Hwr); by rewrite lookup_insert_eq).
  pose proof (keeps_wrote _ _ _ _ _ Hwf Hwr) as K1. pose proof (keeps_touches _ _ _ _ Hwf1 Hn1 T2) as K2.
  pose proof T2 as (D2 & _).
  destruct (remove_files_ok snd fs2 w2 (wal_ref <$> ws) (kp_faults _ _ _ K2) (kp_wf _ _ _ K2))
    as (fs3 & Hrm & K3 & N3).
  assert (wal_name n ∉ (snd <$> (wal_ref <$> ws))) as Hfresh.
  { rewrite <- list_fmap_compose. intros (v & Heq & Hv)%list_elem_of_fmap. cbn in Heq.
    pose proof (dk_range _ _ _ _ Hd) as Hrg. rewrite Forall_fmap in Hrg. rewrite Forall_fmap in Hlt.
    rewrite Forall_forall in Hrg. rewrite Forall_forall in Hlt.
    specialize (Hrg v Hv). specialize (Hlt v Hv). cbn in *. apply wal_name_inj in Heq; lia. }
  exists fs1, w1, fs3, w2. split_and!.
  - unfold wal_create. by rewrite (M_bind_ok _ _ _ _ _ Hcr).
  - apply moved_ok. rewrite (M_bind_ok _ _ _ _ _ Hre), (M_bind_ok _ _ _ _ _ Hrm).
    apply on_fs_run. unfold runtime_build. by rewrite syscall_ok by apply K3.
  - pose proof (kp_kept _ _ _ K3 _ Hfresh) as Hk3. split; [..|done].
    + eapply keeps_trans; [eapply keeps_mono; [|exact K1]; intros x <-; by eexists|].
      eapply keeps_trans; [eapply keeps_mono; [|exact K2]; intros x <-; by eexists|].
      eapply keeps_mono; [|exact K3]. intros x (f & -> & (v & -> & _)%list_elem_of_fmap)%list_elem_of_fmap.
      by eexists.
    + intros x [Hnot Hx]%N3. rewrite D2, (wr_dirents _ _ _ _ _ Hwr), lookup_insert in Hx.
      case_decide; [by left|by right].
    + by rewrite (proj1 Hk3), D2, B2, Hn1.
    + assert (log_of fs3 w2 = log_of fs2 w2) as ->; [|rewrite L2; by apply entries_hold]. unfold log_of. f_equal.
      rewrite B2. apply (kept_data (wal_name n)); [done|by rewrite D2].
Qed.

(** ** [open_with_options] *)

Lemma engine_open_ok fs ms R ws o :
  disk_ok fs ms R ws ->
  Forall (fun m => Manifest.seq m <= u64_max - 2) (concat ms) -> Forall (fun s => s <= u64_max - 2) (ws.*1) ->
  exists e fs' T, open_with_options o fs = (Ok e, fs') /\ engine_ok fs' e T 0 /\ options e = o /\
    unbuffered e /\ immutables (state e) = [] /\
    forall k, view e T k = disk_view ms R ws k.
Proof.
  intros Hd Hm Hw. pose proof (dk_faults _ _ _ _ Hd) as Hf.
  destruct (open_levels_ok fs ms [] Hf) as (idss & Hlev & Hnum).
  { intros metas m Hmetas Hin. apply list_elem_of_lookup in Hmetas as [l Hl].
    destruct (ho_file _ _ _ _ (dk_tables _ _ _ _ Hd l metas m Hl Hin)) as (ino & Hino & _). by eexists. }
  cbn [app] in Hlev, Hnum. set (hs := handle_of <$> concat ms) in *.
  destruct (replay_files_ok fs ws MemTable.new Hf (dk_logs _ _ _ _ Hd)) as (t & Hrep & Hget).
  assert (forall k, get_entry t k = last_write (logged ws) k) as Hget'.
  { intros k. rewrite Hget. destruct (last_write (logged ws) k); [done|]. apply sm_get_new. }
  destruct (max_seq_spec ms ws (u64_max - 2) ltac:(unfold u64_max; lia) Hm Hw) as (Hn & Hmn & Hwn).
  set (n := max_seq_of (mkManifest ms) (wal_ref <$> ws)) in *. unfold u64_max in Hn.
  destruct (new_log_ok fs ms R ws t (n + 1) Hd) as (fs1 & w1 & fs' & w & Hcr & Hmv & Hre).
  { eapply Forall_impl; [exact Hwn|]. simpl. lia. }
  { unfold u64_max. lia. }
  { by eapply table_replayed; [apply (dk_logs _ _ _ _ Hd)|]. }
  eexists _, fs', (records_of R hs). split.
  - assert (fs_create_dir_all fs = (Ok tt, fs)) as Hdir by (unfold fs_create_dir_all; by rewrite syscall_ok).
    assert (fs_read_dir fs = (Ok (map_to_list (dirents fs)).*1, fs)) as Hrd
      by (unfold fs_read_dir; by rewrite syscall_ok).
    unfold open_with_options. rewrite (M_bind_ok _ _ _ _ _ Hdir).
    rewrite (M_bind_ok _ _ _ _ _ (load_ok _ _ _ _ Hd)). cbn [Manifest.levels].
    rewrite (M_bind_ok _ _ _ _ _ Hlev). cbn beta iota.
    rewrite (M_bind_ok _ _ _ _ _ Hrd).
    rewrite (M_bind_ok _ _ _ _ _ (wal_files_ok fs (map_to_list (dirents fs)).*1
      ltac:(apply Forall_forall; intros x ([x' i] & -> & Hx%elem_of_map_to_list)%list_elem_of_fmap;
            apply (dk_utf8 _ _ _ _ Hd); by eexists))).
    rewrite (sorted_wals _ _ _ _ Hd). cbn zeta.
    rewrite (M_bind_ok _ _ _ _ _ (moved_ok _ _ _ _ _ _ _ Hrep)). cbn beta iota. fold n.
    rewrite (lift_bind_ok _ _ _ _ (uadd_ok n 1 ltac:(unfold usize_max; lia))).
    rewrite (M_bind_ok _ _ _ _ _ Hcr), (M_bind_ok _ _ _ _ _ Hmv).
    rewrite Z.mod_small by lia. reflexivity.
  - split; [|split; [done|split; [apply Hre|split; [done|]]]].
    + eapply recovered_ok; [exact Hd|exact Hnum| |unfold u64_max; lia|exact Hre].
      eapply Forall_impl; [exact Hmn|]. simpl. lia.
    + intros k. unfold view, sources, mem_sources, disk_view. cbn [state active immutables mems levels].
      rewrite <- stored_numbered, (numbered_metas _ _ _ Hnum). cbn [reverse rev_append fmap list_fmap app first_some].
      change (mem_entry [t] 0 k) with (get_entry t k). rewrite Hget'.
      by destruct (last_write (logged ws) k).
Qed.
End open.
