(* ===== verification/EngineRecover.v ===== *)
(** * Closing and reopening: what the directory of a running engine stands for *)

From S2P Require Import Prelude Outcome External Fs MemTable Wal WalWriter WalReader.
From S2P Require Import StdVec SstRecord SstIndex Bloom Builder Reader Merge Manifest.
From S2P Require Import Names Engine EngineSpec EngineGet EnginePut EngineFlush EngineCommit.
From S2P Require Import EngineOpen.

Section recover.
Context {C : Crc32} {SM : SkipMap Entry} {FB : FastBloom} {AL : Allocator}.

(** ** The contents of a directory *)

(** The records of a table file. *)
Definition file_records (fs : Fs) (n : string) : list record :=
  match (r ← Reader.open n; Reader.records r) fs with (Ok rs, _) => rs | _ => [] end.

(** The whole entries of a log file. *)
Definition log_entries (fs : Fs) (s : Z) : list WalEntry :=
  match scan_bytes (default [] (file_of fs (wal_name s))) with Ok es => es | _ => [] end.

(** Files are no larger than a Rust allocation. *)
Definition files_fit (fs : Fs) : Prop := forall n d, file_of fs n = Some d -> len d <= isize_max.

Definition disk_metas (e : LsmEngineInner) : list (list SstMeta) := trim (live_metas e).
Definition disk_logs (fs : Fs) (e : LsmEngineInner) : list (Z * list WalEntry) :=
  (fun s => (s, log_entries fs s)) <$> live_wals e.

Lemma file_records_ok fs n ino rs :
  faults fs = [] -> dirents fs !! n = Some ino -> table_of (data_of fs ino) rs -> file_records fs n = rs.
Proof.
  intros Hf Hn Ht. destruct (Reader.open_ok n ino _ rs fs Hf Hn eq_refl Ht) as (r & Ho & Hr & Hi & _).
  unfold file_records. rewrite (M_bind_ok _ _ _ _ _ Ho).
  subst ino. by rewrite (records_ok r _ rs fs Hf eq_refl Hr).
Qed.

Lemma log_entries_ok fs s ino es tail :
  files_fit fs -> dirents fs !! wal_name s = Some ino -> data_of fs ino = frames es ++ tail -> torn tail ->
  Forall Wal.fits es -> log_entries fs s = es /\ log_file fs (s, log_entries fs s).
Proof.
  intros Hfit Hs Hd Ht Hes.
  assert (file_of fs (wal_name s) = Some (frames es ++ tail)) as Hfile
    by (unfold file_of; rewrite Hs; cbn; by rewrite Hd).
  pose proof (Hfit _ _ Hfile) as Hlen.
  assert (log_entries fs s = es) as He.
  { unfold log_entries. rewrite Hfile. cbn [default from_option id]. by rewrite scan_bytes_frames. }
  split; [done|]. rewrite He. exists ino, tail. split_and!; [done..|]. by rewrite Hd.
Qed.

(** ** From a running engine to its directory *)

(** A complete log. *)
Lemma holds_log_file fs s ino t :
  files_fit fs -> dirents fs !! wal_name s = Some ino -> wal_holds (data_of fs ino) t ->
  log_file fs (s, log_entries fs s) /\
  forall k, last_write (entry_mutation <$> log_entries fs s) k = get_entry t k.
Proof.
  intros Hfit Hs (es & Hd & Hes & Hget).
  destruct (log_entries_ok fs s ino es []) as [-> ?]; try done.
  - by rewrite app_nil_r.
  - apply torn_nil.
  - eapply Forall_impl; [exact Hes|]. by intros e [? _].
Qed.

(** The active log: its buffered end is not in the file. *)
Lemma active_log_file fs e T a :
  engine_ok fs e T a -> files_fit fs ->
  exists t es m, mems e !! a = Some t /\ (forall k, get_entry t k = last_write (entry_mutation <$> es) k) /\
    log_of fs (writer (wal e)) = frames es /\
    log_entries fs (seq (wal e)) = take m es /\ log_file fs (seq (wal e), log_entries fs (seq (wal e))) /\
    (unbuffered e -> take m es = es).
Proof.
  intros Hok Hfit. destruct (wo_active _ _ _ (eo_wals _ _ _ _ Hok)) as (t & Ht & Hd & es & Hlog & Hes & Hget).
  assert (Forall Wal.fits es) as Hfits by (eapply Forall_impl; [exact Hes|]; by intros x [? _]).
  set (ino := bw_file (ww_file (writer (wal e)))) in *.
  assert (data_of fs ino = take (length (data_of fs ino)) (frames es)) as Hdat.
  { rewrite <- Hlog. unfold log_of. by rewrite take_app_length. }
  destruct (take_frames es (length (data_of fs ino)) Hfits) as (m & tail & Htake & Htorn & Hm & _).
  rewrite Htake in Hdat. exists t, es, m.
  destruct (log_entries_ok fs (seq (wal e)) ino (take m es) tail Hfit Hd Hdat Htorn) as [He Hf].
  { by apply Forall_take. }
  split_and!; try done. intros Hub. unfold unbuffered in Hub.
  destruct Hm as [->|[Hlt Hlen]]; [apply firstn_all|]. exfalso.
  unfold log_of in Hlog. rewrite Hub, app_nil_r in Hlog. fold ino in Hlog. rewrite Hlog in Hlen.
  rewrite <- (take_drop (S m) es), frames_app, length_app in Hlen at 1. lia.
Qed.

(** The file of a live table. *)
Lemma live_records fs e T a l ids i :
  engine_ok fs e T a -> levels (state e) !! l = Some ids -> i ∈ ids ->
  file_records fs (Manifest.name (meta_at (handles e) i)) = T i /\
  handle_ok fs l (handle_of (meta_at (handles e) i)) (T i).
Proof.
  intros Hok Hl Hi.
  destruct (ta_handles _ _ _ (eo_tables _ _ _ _ Hok) l ids i Hl Hi) as (h & Hh & [H1 H2 H3 H4 H5 H6 H7] & _).
  rewrite (meta_at_lookup _ _ _ Hh). destruct H7 as (ino & Hd & Ht & _). split.
  - rewrite H2. by eapply file_records_ok; [apply (eo_faults _ _ _ _ Hok)|..].
  - split; cbn; try done; [congruence|]. exists ino. rewrite H2. done.
Qed.

Lemma disk_metas_lookup e l metas :
  disk_metas e !! l = Some metas ->
  exists ids, levels (state e) !! l = Some ids /\ metas = meta_at (handles e) <$> ids.
Proof.
  intros H%trim_prefix. unfold live_metas in H. rewrite list_lookup_fmap in H.
  apply fmap_Some_1 in H as (ids & Hl & ->). by exists ids.
Qed.

Lemma disk_logs_seqs fs e : (disk_logs fs e).*1 = live_wals e.
Proof. unfold disk_logs. rewrite <- list_fmap_compose. apply list_fmap_id. Qed.

Lemma disk_logs_ok fs e T a :
  engine_ok fs e T a -> files_fit fs -> Forall (log_file fs) (disk_logs fs e).
Proof.
  intros Hok Hfit. apply Forall_fmap, Forall_forall. intros s Hs. cbn.
  apply elem_of_app in Hs as [(p & -> & Hp)%list_elem_of_fmap| ->%list_elem_of_singleton].
  - destruct (wo_frozen _ _ _ (eo_wals _ _ _ _ Hok) p Hp) as (t & ino & _ & _ & Hd & Hh).
    by eapply holds_log_file.
  - by destruct (active_log_file fs e T a Hok Hfit) as (t & es & m & _ & _ & _ & _ & ? & _).
Qed.

Lemma concat_nil_trim {A} (f : A -> SstMeta) (ls : list (list A)) :
  concat ls = [] -> trim ((fun l : list A => f <$> l) <$> ls) = [].
Proof.
  induction ls as [|l ls IH]; [done|]. cbn [concat]. intros [-> H]%app_nil. rewrite fmap_cons. cbn.
  by rewrite (IH H).
Qed.

Lemma engine_disk fs e T a :
  engine_ok fs e T a -> files_fit fs -> disk_ok fs (disk_metas e) (file_records fs) (disk_logs fs e).
Proof.
  intros Hok Hfit. pose proof Hok as [F1 F2 F3 F4 F5 F6 F7 F8 F9].
  split; try done; rewrite ?disk_logs_seqs.
  - unfold manifest_current in F9. destruct (file_of fs MANIFEST_FILE_NAME) as [b|] eqn:E.
    + split; [done|]. by eapply Hfit.
    + by apply concat_nil_trim.
  - apply trim_idem.
  - etrans; [apply length_trim|]. unfold live_metas. rewrite length_fmap. apply F7.
  - intros l metas m (ids & Hl & ->)%disk_metas_lookup (i & -> & Hi)%list_elem_of_fmap.
    destruct (live_records fs e T a l ids i Hok Hl Hi) as [-> ?]. done.
  - intros l metas Hl. apply trim_prefix in Hl. pose proof (live_metas_ok _ _ _ F7) as Hm.
    rewrite manifest_ok_lookup in Hm. by apply (Hm l metas).
  - intros ms0 ms1 m m' (ids0 & H0 & ->)%disk_metas_lookup (ids1 & H1 & ->)%disk_metas_lookup.
    intros (i & -> & Hi)%list_elem_of_fmap (j & -> & Hj)%list_elem_of_fmap.
    rewrite <- !seq_of_meta_at. by eapply (ta_newer _ _ _ F7).
  - by eapply disk_logs_ok.
  - apply F8.
  - eapply Forall_impl; [apply (wo_range _ _ _ F8)|]. simpl. lia.
  - apply F8.
Qed.

(** ** The view of the directory *)

(** The last write of several generations is that of the newest that has one. *)
Lemma last_write_concat (ess : list (list WalEntry)) k :
  last_write (entry_mutation <$> concat ess) k =
    first_some ((fun es => last_write (entry_mutation <$> es)) <$> reverse ess) k.
Proof.
  induction ess as [|es ess IH]; [done|]. cbn [concat]. rewrite fmap_app, last_write_app, IH.
  rewrite reverse_cons, fmap_app, first_some_app. destruct (first_some _ k); [done|].
  rewrite list_fmap_singleton. cbn [first_some]. by destruct (last_write (entry_mutation <$> es) k).
Qed.

Lemma stored_trim ms R : stored (trim ms) R = stored ms R.
Proof.
  rewrite <- (trim_pad ms) at 2. unfold stored. rewrite fmap_app, concat_app.
  replace (concat (reverse <$> replicate (length ms - length (trim ms)) [])) with (@nil SstMeta);
    [by rewrite app_nil_r|].
  induction (length ms - length (trim ms))%nat; [done|]. by rewrite replicate_S, fmap_cons.
Qed.

Lemma stored_live fs e T a :
  engine_ok fs e T a -> stored (disk_metas e) (file_records fs) = table_sources T (levels (state e)).
Proof.
  intros Hok. unfold disk_metas. rewrite stored_trim.
  change (live_metas e) with (metas_of (handles e) (levels (state e))). rewrite stored_numbered.
  unfold table_sources. apply list_fmap_ext. intros n i Hi. apply list_elem_of_lookup_2 in Hi.
  apply elem_of_concat_inv in Hi as (l & Hl & Hj). apply list_elem_of_fmap in Hl as (ids & -> & Hl).
  rewrite elem_of_reverse in Hj. apply list_elem_of_lookup in Hl as [d Hd].
  unfold records_of. by destruct (live_records fs e T a d ids i Hok Hd Hj) as [-> _].
Qed.

(** What a reader would see if the active memtable had the history [h]. *)
Definition view_from (e : LsmEngineInner) (T : nat -> list record) (h : list mutation) (k : bytes) : option bytes :=
  first_some (last_write h :: ((fun p => mem_entry (mems e) (mem p)) <$> reverse (immutables (state e))) ++
              table_sources T (levels (state e))) k ≫= entry_value.

Lemma frozen_logs fs e T a k :
  engine_ok fs e T a -> files_fit fs ->
  first_some ((fun es => last_write (entry_mutation <$> es)) <$>
      reverse ((fun p => log_entries fs (wal_seq p)) <$> immutables (state e))) k =
    first_some ((fun p => mem_entry (mems e) (mem p)) <$> reverse (immutables (state e))) k.
Proof.
  intros Hok Hfit. rewrite <- fmap_reverse, <- list_fmap_compose. apply first_some_ext, Forall2_fmap.
  apply Forall_Forall2_diag, Forall_forall. intros p Hp. rewrite elem_of_reverse in Hp.
  destruct (wo_frozen _ _ _ (eo_wals _ _ _ _ Hok) p Hp) as (t & ino & Ht & _ & Hd & Hh).
  destruct (holds_log_file fs (wal_seq p) ino t Hfit Hd Hh) as [_ Hlast]. unfold compose. rewrite Hlast.
  unfold mem_entry. by rewrite Ht.
Qed.

Lemma disk_view_of fs e T a k :
  engine_ok fs e T a -> files_fit fs ->
  disk_view (disk_metas e) (file_records fs) (disk_logs fs e) k =
    view_from e T (entry_mutation <$> log_entries fs (seq (wal e))) k.
Proof.
  intros Hok Hfit. unfold disk_view, view_from, logged. rewrite (stored_live _ _ _ _ Hok).
  assert ((disk_logs fs e).*2 = ((fun p => log_entries fs (wal_seq p)) <$> immutables (state e)) ++
    [log_entries fs (seq (wal e))]) as ->.
  { unfold disk_logs, live_wals. by rewrite !fmap_app, <- !list_fmap_compose. }
  rewrite last_write_concat, reverse_app, fmap_app. rewrite reverse_singleton, list_fmap_singleton. cbn [app first_some].
  destruct (last_write (entry_mutation <$> log_entries fs (seq (wal e))) k) as [en|]; [done|].
  rewrite first_some_app. rewrite <- (frozen_logs fs e T a k Hok Hfit).
  by destruct (first_some _ k).
Qed.

Lemma view_from_active fs e T a t h k :
  engine_ok fs e T a -> mems e !! a = Some t -> (forall k, get_entry t k = last_write h k) ->
  view_from e T h k = view e T k.
Proof.
  intros Hok Ht Hget. unfold view, view_from, sources, mem_sources.
  rewrite (mo_active _ _ (eo_mems _ _ _ _ Hok)). cbn [app first_some].
  unfold mem_entry at 2. rewrite Ht. cbn [mbind option_bind]. by rewrite Hget.
Qed.

(** ** Reopening *)

Lemma disk_seqs fs e T a :
  engine_ok fs e T a -> next_seq e < u64_max ->
  Forall (fun m => Manifest.seq m <= u64_max - 2) (concat (disk_metas e)) /\
  Forall (fun s => s <= u64_max - 2) ((disk_logs fs e).*1).
Proof.
  intros Hok Hroom. split.
  - apply Forall_forall. intros m (metas & Hm & Hin)%elem_of_concat_inv.
    apply list_elem_of_lookup in Hm as [l Hl]. apply disk_metas_lookup in Hl as (ids & Hl & ->).
    apply list_elem_of_fmap in Hin as (i & -> & Hi).
    destruct (ta_handles _ _ _ (eo_tables _ _ _ _ Hok) l ids i Hl Hi) as (h & Hh & _ & Hlt).
    rewrite (meta_at_lookup _ _ _ Hh). lia.
  - rewrite disk_logs_seqs.
    eapply Forall_impl; [apply (wo_range _ _ _ (eo_wals _ _ _ _ Hok))|]. simpl. lia.
Qed.

(** The process dies: the entries still in the writer's buffer are lost, and
    nothing else. *)
Lemma kill_reopen fs e T a o :
  engine_ok fs e T a -> files_fit fs -> next_seq e < u64_max ->
  exists es m e' fs' T',
    log_of fs (writer (wal e)) = frames es /\
    (forall k, view e T k = view_from e T (entry_mutation <$> es) k) /\
    open_with_options o (killed fs) = (Ok e', fs') /\ engine_ok fs' e' T' 0 /\
    (forall k, view e' T' k = view_from e T (entry_mutation <$> take m es) k) /\
    (unbuffered e -> forall k, view e' T' k = view e T k).
Proof.
  intros Hok Hfit Hroom.
  destruct (active_log_file fs e T a Hok Hfit) as (t & es & m & Ht & Hget & Hlog & Hle & _ & Hub).
  destruct (disk_seqs fs e T a Hok Hroom) as [H1 H2].
  destruct (engine_open_ok fs _ _ _ o (engine_disk fs e T a Hok Hfit) H1 H2)
    as (e' & fs' & T' & Hopen & Hok' & _ & _ & _ & Hview).
  assert (forall k, view e T k = view_from e T (entry_mutation <$> es) k) as Hes
    by (intros k; symmetry; by eapply view_from_active).
  assert (forall k, view e' T' k = view_from e T (entry_mutation <$> take m es) k) as Hv
    by (intros k; by rewrite Hview, (disk_view_of _ _ _ _ _ Hok Hfit), Hle).
  exists es, m, e', fs', T'. split_and!; try done.
  - unfold killed. rewrite <- (eo_faults _ _ _ _ Hok). by destruct fs.
  - intros Hu k. by rewrite Hv, (Hub Hu), Hes.
Qed.

(** ** Dropping the engine *)

Lemma wal_drop_empty fs w : bw_buf (ww_file w) = [] -> wal_drop (fs, w) = (Ok tt, (fs, w)).
Proof.
  destruct w as [[ino buf] p b]. cbn. intros ->.
  unfold wal_drop, on_file, zoom, bw_drop, ignore, try_, mbind, M_bind, bw_flush_buf. cbn. done.
Qed.

Lemma touches_fit fs fs' ino n :
  files_fit fs -> fs_wf fs -> dirents fs !! n = Some ino -> touches ino fs fs' ->
  len (data_of fs' ino) <= isize_max -> files_fit fs'.
Proof.
  intros Hfit Hwf Hn Ht Hlen x d Hx. pose proof (keeps_touches _ _ _ _ Hwf Hn Ht) as K.
  destruct (decide (n = x)) as [->|Hne].
  - unfold file_of in Hx. destruct Ht as (Hd & _). rewrite Hd, Hn in Hx. cbn in Hx. by injection Hx as <-.
  - apply (Hfit x). rewrite <- Hx. symmetry. by apply kept_file_of, (kp_kept _ _ _ K).
Qed.

Lemma drop_engine_ok fs e T a :
  engine_ok fs e T a -> files_fit fs -> len (log_of fs (writer (wal e))) <= isize_max ->
  exists fs' e', drop_engine (fs, e) = (Ok tt, (fs', e')) /\ engine_ok fs' e' T a /\ files_fit fs' /\
    unbuffered e' /\ next_seq e' = next_seq e /\ options e' = options e /\
    forall k, view e' T k = view e T k.
Proof.
  intros Hok Hfit Hlen. destruct (sync_engine_ok fs e T a Hok) as (fs' & w' & Hs & Hok' & Ht & Hbuf & Hdat).
  eexists fs', _. split; [|split; [exact Hok'|]].
  - unfold drop_engine. mstep. cbn [snd]. unfold is_poisoned.
    rewrite (eo_poison _ _ _ _ Hok), bool_decide_false by apply not_elem_of_nil.
    rewrite (M_bind_ok _ _ _ _ _ (ignore_ok _ _ _ _ Hs)).
    by rewrite (on_writer_ok _ fs' (set_wal (mkActiveWal w' (seq (wal e))) e) tt fs' w' (wal_drop_empty fs' w' Hbuf)).
  - split_and!; try done. destruct (wo_active _ _ _ (eo_wals _ _ _ _ Hok)) as (t & _ & Hd & _).
    eapply touches_fit; [done|apply (eo_fs _ _ _ _ Hok)|done..|]. by rewrite Hdat.
Qed.

(** A clean shutdown loses nothing. *)
Lemma close_reopen fs e T a o :
  engine_ok fs e T a -> files_fit fs -> len (log_of fs (writer (wal e))) <= isize_max ->
  next_seq e < u64_max ->
  exists fs1 e1 e' fs' T',
    drop_engine (fs, e) = (Ok tt, (fs1, e1)) /\
    open_with_options o fs1 = (Ok e', fs') /\ engine_ok fs' e' T' 0 /\
    forall k, view e' T' k = view e T k.
Proof.
  intros Hok Hfit Hlen Hroom.
  destruct (drop_engine_ok fs e T a Hok Hfit Hlen) as (fs1 & e1 & Hdrop & Hok1 & Hfit1 & Hub & Hns & _ & Hv1).
  destruct (kill_reopen fs1 e1 T a o Hok1 Hfit1) as (es & m & e' & fs' & T' & _ & _ & Hopen & Hok' & _ & Hv).
  { lia. }
  exists fs1, e1, e', fs', T'. split_and!; try done.
  - unfold killed in Hopen. rewrite <- (eo_faults _ _ _ _ Hok1) in Hopen. by destruct fs1.
  - intros k. by rewrite (Hv Hub), Hv1.
Qed.

(** A fresh directory. *)
Lemma empty_disk : disk_ok empty_fs [] (fun _ => []) [].
Proof.
  assert (forall n, dirents empty_fs !! n = None) as Hno by apply lookup_empty.
  split; try done; try exact (SSorted_nil _); try exact (Forall_nil_2 _).
  - intros n [i Hi]. by rewrite Hno in Hi.
  - simpl. lia.
  - intros n s [i Hi]. by rewrite Hno in Hi.
Qed.
End recover.
