(* ===== verification/EngineRefine.v ===== *)
(** * The engine implements the key-value contract *)

From S2P Require Import Prelude Outcome External Fs MemTable Wal WalWriter WalReader.
From S2P Require Import StdVec SstRecord SstIndex Bloom Builder Reader Merge Manifest.
From S2P Require Import Names KvSpec Engine EngineSpec EngineGet EnginePut EngineFlush EngineCommit.
From S2P Require Import EngineCompact EngineOpen EngineRecover.

Section refine.
Context {C : Crc32} {SM : SkipMap Entry} {FB : FastBloom} {AL : Allocator}.

Abbreviation Sys := (Fs * LsmEngineInner)%type.

(** ** The background worker *)

(** The tables a compaction would read fit the table format. *)
Definition inputs_fit (s : Sys) : Prop :=
  len (records_bytes (concat ((fun i => file_records s.1 (Manifest.name (meta_at (handles s.2) i))) <$>
    inputs s.2))) <= 2 ^ 60.

Lemma inputs_fit_small fs e T a : engine_ok fs e T a -> inputs_fit (fs, e) -> tables_small e T.
Proof.
  intros Hok. unfold inputs_fit, tables_small. cbn [fst snd].
  replace ((fun i => file_records fs (Manifest.name (meta_at (handles e) i))) <$> inputs e)
    with (T <$> inputs e); [done|].
  apply list_fmap_ext. intros n i Hi%list_elem_of_lookup_2. destruct (inputs_live e i Hi) as (l & ids & Hl & Hin).
  by destruct (live_records fs e T a l ids i Hok Hl Hin) as [-> _].
Qed.

(** Resources for one notification: the flush and then the compaction it may
    start. *)
Definition background_room (s : Sys) : Prop :=
  small_frozen s.2 /\ next_seq s.2 + len (immutables (state s.2)) < u64_max /\
  inputs_fit (flush_all_pending (s.1, set_flush_tx (pred (flush_tx s.2)) s.2)).2.

Lemma compact_needed_ok fs e :
  poisoned e = [] -> exists b, compact_needed (fs, e) = (Ok b, (fs, e)).
Proof.
  intros Hp. unfold compact_needed. mstep. cbn [snd].
  destruct (_ =? 0); [by eexists|]. rewrite (M_bind_ok _ _ _ _ _ (read_state_ok fs e Hp)). by eexists.
Qed.

Lemma worker_tick_ok fs e T a :
  engine_ok fs e T a -> background_room (fs, e) ->
  exists fs' e' T', worker_tick (fs, e) = (Ok tt, (fs', e')) /\ engine_ok fs' e' T' a /\ same_log e e' /\
    forall k, view e' T' k = view e T k.
Proof.
  intros Hok (Hsm & Hroom & Hin). cbn [fst snd] in *. unfold worker_tick. mstep. cbn [snd].
  destruct (flush_tx e) as [|n] eqn:Etx; [by exists fs, e, T|]. mstep. cbn [fst snd].
  cbn [pred] in Hin. pose proof (engine_ok_tx fs e T a n Hok) as Hok1.
  destruct (flush_all_pending_ok fs (set_flush_tx n e) T a Hok1 Hsm ltac:(cbn; lia))
    as (fs1 & e1 & T1 & Hf & Hok2 & _ & _ & Hsl1 & Hns & _ & _ & Hv1). cbn [set_flush_tx next_seq state] in Hns.
  rewrite Hf in Hin. cbn [snd] in Hin. unfold catch_unwind.
  rewrite (M_bind_ok _ _ _ _ _ (try_ok _ _ _ _ Hf)).
  destruct (compact_needed_ok fs1 e1 (eo_poison _ _ _ _ Hok2)) as (b & Hb). rewrite (M_bind_ok _ _ _ _ _ Hb).
  destruct b; [|exists fs1, e1, T1; split_and!; [done..|]; intros k; by rewrite Hv1].
  destruct (compact_ok fs1 e1 T1 a Hok2 (inputs_fit_small _ _ _ _ Hok2 Hin) ltac:(lia))
    as (fs2 & e2 & T2 & Hc & Hok3 & _ & Hsl2 & _ & _ & _ & Hv2).
  unfold compact in Hc. exists fs2, e2, T2. split_and!; [by rewrite (ignore_ok _ _ _ _ Hc)|done|by eapply same_log_trans|]. intros k. by rewrite Hv2, Hv1.
Qed.

(** ** Serving requests *)

(** Dropping the last handle and opening the directory again. *)
Definition reopen : M Sys (option bytes) :=
  _ ← drop_engine;
  o ← eng options;
  e ← on_fs (open_with_options o);
  _ ← upd (fun _ => e);
  mret None.

Definition unit_reply (m : M Sys unit) : M Sys (option bytes) := _ ← m; mret None.

Definition serve (r : request) : Sys -> reply * Sys :=
  match r with
  | ReqPut k v => unit_reply (put k v)
  | ReqDelete k => unit_reply (delete k)
  | ReqGet k => get k
  | ReqFlush => unit_reply flush
  | ReqCompact => unit_reply compact
  | ReqBackground => unit_reply worker_tick
  | ReqReopen => reopen
  end.

(** The engine represents a map. *)
Definition rep (m : kvmap) (s : Sys) : Prop :=
  exists T a, engine_ok s.1 s.2 T a /\ forall k, view s.2 T k = m !! k.

(** Sequence numbers are 64-bit counters, tables have 60-bit sizes, files are
    read into one allocation. *)
Definition room (r : request) (s : Sys) : Prop :=
  match r with
  | ReqPut _ _ | ReqDelete _ => next_seq s.2 < u64_max
  | ReqGet _ => True
  | ReqFlush => small_mems s.2 /\ next_seq s.2 + len (immutables (state s.2)) + 2 <= u64_max
  | ReqCompact => inputs_fit s /\ next_seq s.2 < u64_max
  | ReqBackground => background_room s
  | ReqReopen => files_fit s.1 /\ len (log_of s.1 (writer (wal s.2))) <= isize_max /\ next_seq s.2 < u64_max
  end.

Lemma unit_reply_ok m s s' : m s = (Ok tt, s') -> unit_reply m s = (Ok None, s').
Proof. intros H. unfold unit_reply. by rewrite (M_bind_ok _ _ _ _ _ H). Qed.

Lemma unit_reply_err m s err s' : m s = (Err err, s') -> unit_reply m s = (Err err, s').
Proof. intros H. unfold unit_reply. by rewrite (M_bind_err _ _ _ _ _ H). Qed.

Lemma serve_put m k v s :
  rep m s -> room (ReqPut k v) s ->
  exists s', serve (ReqPut k v) s = (spec_reply (ReqPut k v) m, s') /\ rep (spec_next (ReqPut k v) m) s'.
Proof.
  destruct s as [fs e]. intros (T & a & Hok & Hv) Hroom. cbn [fst snd room serve spec_reply spec_next] in *.
  destruct (oversize k v) as [err|] eqn:Hsize.
  - destruct (put_refused fs e T a k v err Hok Hsize) as (e' & Hrun & Hok' & _ & _ & Hv').
    exists (fs, e'). split; [by apply unit_reply_err|]. exists T, a. split; [done|]. intros k'. by rewrite Hv'.
  - apply oversize_None in Hsize as [Hk Hval].
    destruct (put_ok fs e T a k v Hok Hroom Hk Hval) as (fs' & e' & a' & Hrun & Hok' & _ & _ & _ & Hv').
    exists (fs', e'). split; [by apply unit_reply_ok|]. exists T, a'. split; [done|].
    intros k'. by rewrite Hv', lookup_insert, Hv.
Qed.

Lemma serve_delete m k s :
  rep m s -> room (ReqDelete k) s ->
  exists s', serve (ReqDelete k) s = (spec_reply (ReqDelete k) m, s') /\ rep (spec_next (ReqDelete k) m) s'.
Proof.
  destruct s as [fs e]. intros (T & a & Hok & Hv) Hroom. cbn [fst snd room serve spec_reply spec_next] in *.
  destruct (oversize k []) as [err|] eqn:Hsize.
  - destruct (delete_refused fs e T a k err Hok Hsize) as (e' & Hrun & Hok' & _ & _ & Hv').
    exists (fs, e'). split; [by apply unit_reply_err|]. exists T, a. split; [done|]. intros k'. by rewrite Hv'.
  - apply oversize_None in Hsize as [Hk _].
    destruct (delete_ok fs e T a k Hok Hroom Hk) as (fs' & e' & a' & Hrun & Hok' & _ & _ & _ & Hv').
    exists (fs', e'). split; [by apply unit_reply_ok|]. exists T, a'. split; [done|].
    intros k'. by rewrite Hv', lookup_delete, Hv.
Qed.

Lemma serve_reopen m s :
  rep m s -> room ReqReopen s -> exists s', reopen s = (Ok None, s') /\ rep m s'.
Proof.
  destruct s as [fs e]. intros (T & a & Hok & Hv) (Hfit & Hlen & Hroom). cbn [fst snd] in *.
  destruct (drop_engine_ok fs e T a Hok Hfit Hlen) as (fs1 & e1 & Hdrop & _).
  destruct (close_reopen fs e T a (options e1) Hok Hfit Hlen Hroom)
    as (fs2 & e2 & e' & fs' & T' & Hdrop' & Hopen & Hok' & Hv').
  rewrite Hdrop in Hdrop'. injection Hdrop' as <- <-.
  exists (fs', e'). split.
  { unfold reopen. rewrite (M_bind_ok _ _ _ _ _ Hdrop). mstep. by rewrite (M_bind_ok _ _ _ _ _ (on_fs_run _ _ e1 _ _ Hopen)). }
  exists T', 0%nat. split; [done|]. intros k. cbn [snd]. by rewrite Hv'.
Qed.

Lemma serve_ok r m s :
  rep m s -> room r s -> exists s', serve r s = (spec_reply r m, s') /\ rep (spec_next r m) s'.
Proof.
  destruct r as [k v|k|k| | | |]; [by apply serve_put|by apply serve_delete|..|by apply serve_reopen];
    destruct s as [fs e]; intros (T & a & Hok & Hv) Hroom; cbn [fst snd room serve spec_reply spec_next] in *.
  - destruct (engine_get_ok fs e T a k Hok) as (e' & Hrun & Hc & Hok'). exists (fs, e').
    split; [by rewrite Hrun, Hv|]. exists T, a. split; [done|].
    intros k'. cbn [snd]. by rewrite (cached_view _ _ _ _ Hc).
  - destruct Hroom as [Hsm Hroom].
    destruct (flush_ok fs e T a Hok Hsm Hroom) as (fs' & e' & T' & a' & t & Hrun & Hok' & _ & _ & _ & _ & _ & _ & Hv').
    exists (fs', e'). split; [by apply unit_reply_ok|]. exists T', a'. split; [done|]. intros k. by rewrite Hv'.
  - destruct Hroom as [Hin Hroom].
    destruct (compact_ok fs e T a Hok (inputs_fit_small _ _ _ _ Hok Hin) Hroom)
      as (fs' & e' & T' & Hrun & Hok' & _ & _ & _ & _ & _ & Hv').
    exists (fs', e'). split; [by apply unit_reply_ok|]. exists T', a. split; [done|]. intros k. by rewrite Hv'.
  - destruct (worker_tick_ok fs e T a Hok Hroom) as (fs' & e' & T' & Hrun & Hok' & _ & Hv').
    exists (fs', e'). split; [by apply unit_reply_ok|]. exists T', a. split; [done|]. intros k. by rewrite Hv'.
Qed.

(** The engine is a store. *)
#[export] Instance engine_store : KvStore Sys := {|
  kv_rep := rep;
  kv_room := room;
  kv_serve := serve;
  kv_serve_ok := serve_ok;
|}.

(** A new directory opens to the empty map. *)
Lemma open_fresh o :
  exists fs e, open_with_options o empty_fs = (Ok e, fs) /\ rep ∅ (fs, e).
Proof.
  destruct (engine_open_ok empty_fs [] (fun _ => []) [] o empty_disk) as (e & fs & T & Hrun & Hok & _ & _ & _ & Hv).
  { constructor. }
  { exact (Forall_nil_2 _). }
  exists fs, e. split; [done|]. exists T, 0%nat. split; [done|]. intros k. cbn [snd]. by rewrite Hv, lookup_empty.
Qed.
End refine.
