(* ===== verification/EngineDisk.v ===== *)
(** * What a process that dies leaves in the directory

    The changes of the directory that recovery does not see, new files under
    names nobody refers to, and those it does see: the end of the active log, a
    log that is gone. [recovers fs v]: an engine opened on [fs] has the
    contents [v]. *)

From S2P Require Import Prelude Outcome External Fs Crash MemTable Wal WalWriter WalReader.
From S2P Require Import StdVec SstRecord SstIndex Bloom Builder Reader Merge Manifest.
From S2P Require Import Names Engine EngineSpec EngineGet EnginePut EngineFlush EngineCommit.
From S2P Require Import EngineOpen EngineRecover.

(** ** Changes confined to some names *)

Record within (N : string -> Prop) (fs fs' : Fs) : Prop := {
  wi_keeps : keeps N fs fs';
  wi_names : forall x, is_Some (dirents fs' !! x) -> is_Some (dirents fs !! x) \/ N x;
}.

Lemma within_refl N fs : calm fs -> fs_wf fs -> within N fs fs.
Proof. intros Hf Hw. split; [by apply keeps_refl|]. intros x Hx. by left. Qed.

Lemma within_trans N fs1 fs2 fs3 : within N fs1 fs2 -> within N fs2 fs3 -> within N fs1 fs3.
Proof.
  intros [K1 N1] [K2 N2]. split; [by eapply keeps_trans|].
  intros x [Hx|Hx]%N2; [by apply N1|by right].
Qed.

Lemma within_mono (N N' : string -> Prop) fs fs' :
  (forall x, N x -> N' x) -> within N fs fs' -> within N' fs fs'.
Proof.
  intros HN [K1 N1]. split; [by eapply keeps_mono|]. intros x [Hx|Hx]%N1; [by left|right; by apply HN].
Qed.

Lemma within_wrote name ino d fs fs' : fs_wf fs -> wrote name ino d fs fs' -> within (eq name) fs fs'.
Proof.
  intros Hwf Hw. split; [by eapply keeps_wrote|]. intros x. rewrite (wr_dirents _ _ _ _ _ Hw), lookup_insert.
  case_decide; [by right|by left].
Qed.

Lemma within_frames name ino fs fs' :
  calm fs -> fs_wf fs -> dirents fs !! name = Some ino -> Fs.frames ino fs fs' -> within (eq name) fs (killed fs').
Proof.
  intros Hf Hwf Hn (D & X & I). split.
  - apply (keeps_touches name ino); [done|done|]. split; [done|]. split; [done|]. split; [done|]. exact I.
  - intros x. change (dirents (killed fs')) with (dirents fs'). rewrite D. by left.
Qed.

Lemma within_rename from to ino fs :
  calm fs -> fs_wf fs -> dirents fs !! from = Some ino ->
  within (fun x => x = from \/ x = to) fs (set_dirents (<[to := ino]> (base.delete from (dirents fs))) fs).
Proof.
  intros Hf Hwf Hd. split; [by apply keeps_rename|]. intros x. cbn. rewrite lookup_insert, lookup_delete.
  case_decide; [by right; right|]. case_decide; [by intros []|by left].
Qed.

Lemma within_kept N fs fs' x : within N fs fs' -> ~ N x -> kept x fs fs'.
Proof. intros H. by apply (kp_kept _ _ _ (wi_keeps _ _ _ H)). Qed.

(** ** New files *)

(** Computations on a buffered writer that touch its file only. *)
Definition framed {A} (m : M (Fs * BufWriter) A) : Prop := forall fs w o fs' w',
  m (fs, w) = (o, (fs', w')) -> bw_file w' = bw_file w /\ Fs.frames (bw_file w) fs fs'.

Lemma framed_bind {A B} (m : M (Fs * BufWriter) A) (f : A -> M (Fs * BufWriter) B) :
  framed m -> (forall a, framed (f a)) -> framed (m ≫= f).
Proof.
  intros Hm Hf fs w o fs' w'. unfold mbind, M_bind. destruct (m (fs, w)) as [o1 [fs1 w1]] eqn:E.
  destruct (Hm _ _ _ _ _ E) as [W1 F1].
  destruct o1 as [a|e| |]; try (intros [= <- <- <-]; done).
  intros [W2 F2]%Hf. rewrite W1 in *. split; [done|]. by eapply frames_trans.
Qed.

Lemma framed_lift {A} (o : outcome A) : framed (lift o).
Proof. intros fs w o' fs' w' [= <- <- <-]. split; [done|apply frames_refl]. Qed.

Lemma framed_write_all d : framed (bw_write_all d).
Proof.
  intros fs w o fs' w' H. destruct (bw_write_all_any fs w d) as (o1 & fs1 & w1 & E & W & F & _).
  rewrite E in H. by injection H as <- <- <-.
Qed.

Lemma framed_flush : framed bw_flush.
Proof.
  intros fs w o fs' w' H. destruct (bw_flush_buf_any fs w) as (o1 & fs1 & w1 & E & W & F & _).
  unfold bw_flush in H. rewrite E in H. by injection H as <- <- <-.
Qed.

Lemma framed_sync : framed bw_sync_all.
Proof.
  intros fs w o fs' w' H. destruct (bw_sync_all_any fs w) as (o1 & fs1 & E & F & _).
  rewrite E in H. by injection H as <- <- <-.
Qed.

Lemma scoped_frames {A} ino (body : M (Fs * BufWriter) A) fs o fs' :
  framed body -> scoped (bw_new ino) body bw_drop fs = (o, fs') -> Fs.frames ino fs fs'.
Proof.
  intros Hb. unfold scoped. destruct (body (fs, bw_new ino)) as [o1 [fs1 w1]] eqn:E.
  destruct (Hb _ _ _ _ _ E) as [W1 F1]. cbn [bw_new bw_file] in W1, F1.
  destruct (bw_drop_any fs1 w1) as (o2 & fs2 & w2 & E2 & F2 & _). rewrite W1 in F2.
  assert (Fs.frames ino fs fs2) as F by (by eapply frames_trans).
  destruct o1; rewrite ?E2; destruct o2; intros [= <- <-]; done.
Qed.

(** A file that is created and then filled: the rest of the directory never
    changes. *)
Lemma crashes_new_file {A} name (body : nat -> M (Fs * BufWriter) A) fs (P : Fs -> Prop) :
  calm fs -> fs_wf fs -> (forall ino, framed (body ino)) ->
  (forall fs', within (eq name) fs fs' -> P fs') ->
  crashes (file ← file_create name; scoped (bw_new file) (body file) bw_drop) fs P.
Proof.
  intros Hf Hwf Hb HP. destruct (file_create_ok name fs Hf Hwf) as (ino & fs1 & Hcr & Hw).
  pose proof (within_wrote _ _ _ _ _ Hwf Hw) as W1. pose proof (wrote_wf _ _ _ _ _ Hw Hwf) as Hwf1.
  eapply crashes_bind_ok; [done|exact Hcr|apply steady_file_create|..].
  - apply crashes_file_create; [done|]. by apply HP, within_refl.
  - apply crashes_any. intros l o fs' Hrun. apply scoped_frames in Hrun; [|done].
    apply HP. eapply within_trans; [exact W1|]. eapply within_frames; [apply Hw|done| |exact Hrun].
    by rewrite (wr_dirents _ _ _ _ _ Hw), lookup_insert_eq.
Qed.

(** ** Names nobody refers to *)

(** The temporary manifest, and tables with sequence numbers from [n] on. *)
Definition fresh_name (n : Z) (x : string) : Prop :=
  x = MANIFEST_TMP_FILE_NAME \/
  exists l s, (l <= 1)%nat /\ n <= s <= u64_max /\ (x = sst_name l s \/ x = tmp_name (sst_name l s)).

Lemma fresh_name_mono n m x : n <= m -> fresh_name m x -> fresh_name n x.
Proof. intros Hn [->|(l & s & Hl & Hs & Hx)]; [by left|right]. exists l, s. split_and!; (done || lia). Qed.

Lemma fresh_name_utf8 n x : 0 <= n -> fresh_name n x -> valid_utf8 (as_bytes x) = true.
Proof.
  intros Hn [->|(l & s & Hl & Hs & [->| ->])]; [done|apply sst_name_utf8; lia|apply sst_tmp_utf8; lia].
Qed.

Lemma fresh_name_initial n x : fresh_name n x -> initial x = Some x4c \/ x = MANIFEST_TMP_FILE_NAME.
Proof.
  intros [->|(l & s & _ & _ & [->| ->])]; [by right|left; apply initial_sst|left; apply initial_sst_tmp].
Qed.

Lemma fresh_not_wal n x s : fresh_name n x -> x <> wal_name s.
Proof.
  intros [Hx| ->]%fresh_name_initial Heq; subst; [by rewrite initial_wal in Hx|].
  by apply (initial_ne _ _ _ _ (initial_wal s) initial_manifest_tmp).
Qed.

Lemma fresh_no_parse n x s : fresh_name n x -> parse_wal_name x <> Some s.
Proof.
  intros [Hx| ->]%fresh_name_initial Hp; [|done]. apply parse_wal_name_initial in Hp. congruence.
Qed.

Lemma fresh_not_manifest n x : fresh_name n x -> x <> MANIFEST_FILE_NAME.
Proof. intros [Hx| ->]%fresh_name_initial Heq; subst; [by rewrite initial_manifest in Hx|done]. Qed.

Lemma fresh_not_table n x l s : fresh_name n x -> (l <= 1)%nat -> 0 <= s < n -> s <= u64_max -> x <> sst_name l s.
Proof.
  intros [->|(l' & s' & Hl' & Hs' & [->| ->])] Hl Hs Hm Heq.
  - by apply (initial_ne _ _ _ _ (initial_sst l s) initial_manifest_tmp).
  - destruct l as [|[|]], l' as [|[|]]; try lia.
    + apply sst_name_inj in Heq; lia.
    + symmetry in Heq. by apply sst_name_level in Heq.
    + by apply sst_name_level in Heq.
    + apply sst_name_inj in Heq; lia.
  - by apply tmp_ne_sst in Heq.
Qed.

Section disk.
Context {C : Crc32} {SM : SkipMap Entry} {FB : FastBloom} {AL : Allocator}.

(** ** Directories that stand for the same tables *)

(** The sequence numbers in use are at most [b]. *)
Definition seqs_upto (b : Z) (ms : list (list SstMeta)) (ws : list (Z * list WalEntry)) : Prop :=
  Forall (fun m => Manifest.seq m <= b) (concat ms) /\ Forall (fun s => s <= b) (ws.*1).

Lemma meta_name fs ms R ws l metas m :
  disk_ok fs ms R ws -> ms !! l = Some metas -> m ∈ metas ->
  Manifest.name m = sst_name l (Manifest.seq m) /\ (l <= 1)%nat /\ 0 <= Manifest.seq m <= u64_max.
Proof.
  intros Hd Hl Hm. pose proof (dk_tables _ _ _ _ Hd l metas m Hl Hm) as Hh.
  pose proof (dk_levels _ _ _ _ Hd). apply lookup_lt_Some in Hl. split; [apply (ho_name _ _ _ _ Hh)|].
  split; [lia|]. apply (ho_seq _ _ _ _ Hh).
Qed.

(** The logs may change as long as they are logs. *)
Lemma disk_ok_logs fs fs' ms R ws ws' :
  disk_ok fs ms R ws -> calm fs' -> fs_wf fs' -> kept MANIFEST_FILE_NAME fs fs' ->
  (forall l metas m, ms !! l = Some metas -> m ∈ metas -> kept (Manifest.name m) fs fs') ->
  Forall (log_file fs') ws' -> StronglySorted Z.lt (ws'.*1) -> Forall (fun s => 0 <= s <= u64_max) (ws'.*1) ->
  (forall n, is_Some (dirents fs' !! n) -> valid_utf8 (as_bytes n) = true /\
     forall s, parse_wal_name n = Some s -> n = wal_name s /\ s ∈ ws'.*1) ->
  disk_ok fs' ms R ws'.
Proof.
  intros [D1 D2 D3 D4 D5 D6 D7 D8 D9 D10 D11 D12 D13] Hf Hwf Hm Ht Hl Hs Hr Hn. split; try done.
  - intros n Hx. by apply Hn.
  - by rewrite (kept_file_of _ _ _ Hm).
  - intros l metas m Hlm Hin. eapply handle_ok_kept; [|by eapply D7]. by eapply Ht.
  - intros n s Hx Hp. by apply Hn.
Qed.

Lemma log_file_kept fs fs' w : kept (wal_name w.1) fs fs' -> log_file fs w -> log_file fs' w.
Proof.
  intros Hk (ino & tail & Hd & Hdat & ? & ? & ?). destruct (kept_data _ _ _ _ Hk Hd) as [Hd' Hdat'].
  exists ino, tail. by rewrite Hdat'.
Qed.

Lemma disk_ok_relog (N : string -> Prop) fs fs' ms R ws ws' :
  disk_ok fs ms R ws -> within N fs fs' -> (forall x, N x -> exists s, x = wal_name s /\ 0 <= s <= u64_max) ->
  Forall (log_file fs') ws' -> StronglySorted Z.lt (ws'.*1) -> Forall (fun s => 0 <= s <= u64_max) (ws'.*1) ->
  (forall s, 0 <= s <= u64_max -> is_Some (dirents fs' !! wal_name s) -> s ∈ ws'.*1) ->
  disk_ok fs' ms R ws'.
Proof.
  intros Hd Hw HN Hl Hs Hr Honly.
  assert (forall x b, initial x = Some b -> b <> x77 -> kept x fs fs') as Hkept.
  { intros x b Hx Hb. eapply within_kept; [exact Hw|]. intros (s & -> & _)%HN. rewrite initial_wal in Hx. congruence. }
  eapply disk_ok_logs; [exact Hd|apply Hw|apply Hw|..]; try done.
  - by eapply Hkept; [apply initial_manifest|].
  - intros l metas m Hl' Hm. destruct (meta_name _ _ _ _ _ _ _ Hd Hl' Hm) as (-> & _).
    by eapply Hkept; [apply initial_sst|].
  - intros x Hx. pose proof Hx as [Hin|(s & -> & Hs')%HN]%(wi_names _ _ _ Hw).
    + split; [by apply (dk_utf8 _ _ _ _ Hd)|]. intros s Hp.
      destruct (dk_only _ _ _ _ Hd x s Hin Hp) as [-> Hws]. split; [done|]. apply Honly; [|done].
      pose proof (dk_range _ _ _ _ Hd) as Hrg. rewrite Forall_forall in Hrg. by apply Hrg.
    + split; [apply wal_name_utf8; lia|]. intros s' Hp. rewrite parse_wal_name_ok in Hp by done.
      injection Hp as <-. split; [done|]. by apply Honly.
Qed.

(** New files do not matter. *)
Lemma disk_ok_fresh fs fs' ms R ws n :
  disk_ok fs ms R ws -> Forall (fun m => Manifest.seq m < n) (concat ms) -> 0 <= n ->
  within (fresh_name n) fs fs' -> disk_ok fs' ms R ws.
Proof.
  intros Hd Hn H0 Hw. eapply disk_ok_logs; [exact Hd|apply Hw|apply Hw|..].
  - eapply within_kept; [exact Hw|]. intros Hx%fresh_not_manifest. done.
  - intros l metas m Hl Hm. eapply within_kept; [exact Hw|].
    destruct (meta_name _ _ _ _ _ _ _ Hd Hl Hm) as (-> & Hl1 & Hs). intros Hx.
    eapply fresh_not_table; [exact Hx|exact Hl1| |apply Hs|done]. rewrite Forall_forall in Hn.
    split; [lia|]. apply Hn. eapply elem_of_concat; [exact Hm|]. by eapply list_elem_of_lookup_2.
  - eapply Forall_impl; [apply (dk_logs _ _ _ _ Hd)|]. intros w. apply log_file_kept.
    eapply within_kept; [exact Hw|]. intros Hx. by eapply (fresh_not_wal _ _ w.1 Hx).
  - apply Hd.
  - apply Hd.
  - intros x [Hx|Hx]%(wi_names _ _ _ Hw).
    + split; [by apply (dk_utf8 _ _ _ _ Hd)|]. intros s. by apply (dk_only _ _ _ _ Hd).
    + split; [by eapply fresh_name_utf8|]. intros s Hp. by apply (fresh_no_parse _ _ _ Hx) in Hp.
Qed.

(** ** The contents of a directory, source by source *)

Definition log_sources (ws : list (Z * list WalEntry)) : list (bytes -> option Entry) :=
  (fun es => last_write (entry_mutation <$> es)) <$> reverse (ws.*2).

Lemma disk_view_sources ms R ws k :
  disk_view ms R ws k = first_some (log_sources ws ++ stored ms R) k ≫= entry_value.
Proof.
  unfold disk_view, logged, log_sources. rewrite last_write_concat, first_some_app.
  by destruct (first_some _ k).
Qed.

(** A source repeated further down is not seen. *)
Lemma first_some_again {K A} (l1 l2 r : list (K -> option A)) k :
  first_some (l1 ++ l1 ++ l2 ++ r) k = first_some (l1 ++ l2 ++ r) k.
Proof. rewrite !first_some_app. by destruct (first_some l1 k). Qed.

(** ** Recovery *)

Definition recovers (b : Z) (fs : Fs) (v : bytes -> option bytes) : Prop :=
  files_fit fs -> exists ms R ws, disk_ok fs ms R ws /\ seqs_upto b ms ws /\
    forall k, disk_view ms R ws k = v k.

Lemma recovers_open b fs v o :
  recovers b fs v -> files_fit fs -> b <= u64_max - 2 ->
  exists e fs' T, open_with_options o fs = (Ok e, fs') /\ engine_ok fs' e T 0 /\ options e = o /\
    unbuffered e /\ forall k, view e T k = v k.
Proof.
  intros Hr Hfit Hb. destruct (Hr Hfit) as (ms & R & ws & Hd & [H1 H2] & Hv).
  destruct (engine_open_ok fs ms R ws o Hd) as (e & fs' & T & Hrun & Hok & Ho & Hu & _ & Hview).
  - eapply Forall_impl; [exact H1|]. simpl. lia.
  - eapply Forall_impl; [exact H2|]. simpl. lia.
  - exists e, fs', T. split_and!; try done. intros k. by rewrite Hview.
Qed.

Lemma recovers_ext b fs v v' :
  (files_fit fs -> forall k, v k = v' k) -> recovers b fs v -> recovers b fs v'.
Proof.
  intros Hv Hr Hfit. destruct (Hr Hfit) as (ms & R & ws & Hd & Hs & Hview). exists ms, R, ws.
  split; [done|]. split; [done|]. intros k. by rewrite Hview, Hv.
Qed.

(** New files do not matter. *)
Lemma recovers_fresh b n fs fs' v :
  recovers b fs v -> b < n -> 0 <= n -> within (fresh_name n) fs fs' ->
  files_fit fs -> recovers b fs' v.
Proof.
  intros Hr Hb Hn Hw Hfit0 _. destruct (Hr Hfit0) as (ms & R & ws & Hd & [H1 H2] & Hview).
  exists ms, R, ws. split; [|done]. eapply disk_ok_fresh; [exact Hd| |exact Hn|exact Hw].
  eapply Forall_impl; [exact H1|]. simpl. lia.
Qed.

Lemma recovers_mono b b' fs v : b <= b' -> recovers b fs v -> recovers b' fs v.
Proof.
  intros Hb Hr Hfit. destruct (Hr Hfit) as (ms & R & ws & Hd & [H1 H2] & Hview). exists ms, R, ws.
  split; [done|]. split; [|done]. split; (eapply Forall_impl; [eassumption|]; simpl; lia).
Qed.
End disk.
