(* ===== verification/CrashWrite.v ===== *)
(** * Stopping in the middle of a write

    For [put], [delete] and the rotation of the active memtable, what the
    directory stands for when the process dies at one of the operation's
    system calls: a prefix of the log with the new entry at its end, and the
    frozen logs and tables as they were. *)

From S2P Require Import Prelude Outcome External Fs Crash MemTable Wal WalWriter WalReader.
From S2P Require Import StdVec SstRecord SstIndex Bloom Builder Reader Merge Manifest.
From S2P Require Import Names Engine Steady EngineSpec EngineGet EnginePut EngineFlush EngineCommit.
From S2P Require Import EngineCompact EngineOpen EngineRecover EngineDisk.

Section crash.
Context {C : Crc32} {SM : SkipMap Entry} {FB : FastBloom} {AL : Allocator}.

(** ** What the directory of a running engine stands for *)

(** What an engine opened after a stop would see: the entries of the active
    log that have reached its file, the frozen memtables, the tables. *)
Definition durable (fs : Fs) (e : LsmEngineInner) (T : nat -> list record) : bytes -> option bytes :=
  view_from e T (entry_mutation <$> log_entries fs (seq (wal e))).

Lemma engine_seqs fs e T a :
  engine_ok fs e T a -> seqs_upto (next_seq e - 1) (disk_metas e) (disk_logs fs e).
Proof.
  intros Hok. split.
  - apply Forall_forall. intros m (metas & Hm & Hin)%elem_of_concat_inv.
    apply list_elem_of_lookup in Hm as [l Hl]. apply disk_metas_lookup in Hl as (ids & Hl & ->).
    apply list_elem_of_fmap in Hin as (i & -> & Hi).
    destruct (ta_handles _ _ _ (eo_tables _ _ _ _ Hok) l ids i Hl Hi) as (h & Hh & _ & Hlt).
    rewrite (meta_at_lookup _ _ _ Hh). lia.
  - rewrite disk_logs_seqs.
    eapply Forall_impl; [apply (wo_range _ _ _ (eo_wals _ _ _ _ Hok))|]. simpl. lia.
Qed.

Lemma engine_recovers fs e T a b :
  engine_ok fs e T a -> next_seq e - 1 <= b -> recovers b fs (durable fs e T).
Proof.
  intros Hok Hb. apply (recovers_mono (next_seq e - 1)); [done|]. intros Hfit.
  exists (disk_metas e), (file_records fs), (disk_logs fs e).
  split; [by eapply engine_disk|]. split; [by eapply engine_seqs|]. intros k. by eapply disk_view_of.
Qed.

Lemma durable_unbuffered fs e T a k :
  engine_ok fs e T a -> files_fit fs -> unbuffered e -> durable fs e T k = view e T k.
Proof.
  intros Hok Hfit Hub.
  destruct (active_log_file fs e T a Hok Hfit) as (t & es & m & Ht & Hget & Hlog & Hle & _ & Hm).
  unfold durable. rewrite Hle, (Hm Hub). by eapply view_from_active.
Qed.

(** ** The end of the active log *)

(** The directory [fs'] differs from that of the engine in its active log,
    which holds the first [c] bytes of the entries [es], and in the empty logs
    of the generations [ss]. *)
Record log_change (fs : Fs) (e : LsmEngineInner) (es : list WalEntry) (c : nat) (ss : list Z) (fs' : Fs) : Prop := {
  lc_within : within (fun x => x ∈ wal_name <$> seq (wal e) :: ss) fs fs';
  lc_log : file_of fs' (wal_name (seq (wal e))) = Some (take c (frames es));
  lc_new : Forall (fun s => file_of fs' (wal_name s) = Some []) ss;
}.

Lemma frames_take_mono es i j : (i <= j)%nat -> (length (frames (take i es)) <= length (frames (take j es)))%nat.
Proof.
  intros Hij. replace (take i es) with (take i (take j es)) by (rewrite take_take; f_equal; lia).
  rewrite <- (take_drop i (take j es)) at 2. rewrite frames_app, length_app. lia.
Qed.

Lemma logged_app ws1 ws2 : logged (ws1 ++ ws2) = logged ws1 ++ logged ws2.
Proof. unfold logged. by rewrite fmap_app, concat_app, fmap_app. Qed.

Lemma logged_empty (ss : list Z) : logged ((fun s => (s, [])) <$> ss) = [].
Proof. induction ss as [|s ss IH]; [done|]. rewrite fmap_cons, logged_cons. exact IH. Qed.

Definition frozen_logs_of (fs : Fs) (e : LsmEngineInner) : list (Z * list WalEntry) :=
  (fun p => (wal_seq p, log_entries fs (wal_seq p))) <$> immutables (state e).

Lemma disk_logs_split fs e :
  disk_logs fs e = frozen_logs_of fs e ++ [(seq (wal e), log_entries fs (seq (wal e)))].
Proof. unfold disk_logs, live_wals. by rewrite fmap_app, <- list_fmap_compose. Qed.

(** The contents of a directory with the frozen logs and another active log. *)
Lemma cut_view fs e T a es ss k :
  engine_ok fs e T a -> files_fit fs ->
  disk_view (disk_metas e) (file_records fs)
      (frozen_logs_of fs e ++ (seq (wal e), es) :: ((fun s => (s, [])) <$> ss)) k =
    view_from e T (entry_mutation <$> es) k.
Proof.
  intros Hok Hfit. unfold disk_view, view_from. rewrite (stored_live _ _ _ _ Hok).
  rewrite logged_app, logged_cons, logged_empty, app_nil_r, last_write_app. cbn [snd first_some].
  destruct (last_write (entry_mutation <$> es) k) as [en|]; [done|].
  rewrite first_some_app, <- (frozen_logs fs e T a k Hok Hfit).
  assert (logged (frozen_logs_of fs e) =
    entry_mutation <$> concat ((fun p => log_entries fs (wal_seq p)) <$> immutables (state e))) as ->
    by (unfold logged, frozen_logs_of; by rewrite <- list_fmap_compose).
  rewrite last_write_concat. by destruct (first_some _ k).
Qed.

Lemma log_cut fs e T a es c ss fs' b :
  engine_ok fs e T a -> files_fit fs -> Forall Wal.fits es -> log_change fs e es c ss fs' ->
  StronglySorted Z.lt (live_wals e ++ ss) -> Forall (fun s => s <= b) ss -> next_seq e - 1 <= b <= u64_max ->
  exists j, recovers b fs' (view_from e T (entry_mutation <$> take j es)) /\
    forall i, (i <= length es)%nat -> (length (frames (take i es)) <= c)%nat -> (i <= j)%nat.
Proof.
  intros Hok Hfit Hes [Hw Hlog Hnew] Hsort Hss Hb.
  destruct (take_frames es c Hes) as (j & tail & Htake & Htorn & Hj & _). exists j. split.
  2: { intros i Hi Hc. destruct Hj as [->|[_ Hj]]; [done|]. destruct (Nat.le_gt_cases i j); [done|].
       pose proof (frames_take_mono es (S j) i ltac:(lia)). lia. }
  intros Hfit'. pose proof (engine_seqs fs e T a Hok) as [Hq1 Hq2].
  pose proof (wo_range _ _ _ (eo_wals _ _ _ _ Hok)) as Hrange. rewrite Forall_forall in Hrange.
  assert (forall s, s ∈ ss -> seq (wal e) < s) as Habove.
  { intros s Hs. apply StronglySorted_app in Hsort as (Hlt & _). apply Hlt; [apply live_wal_active|done]. }
  assert (forall s, s ∈ live_wals e ++ ss -> 0 <= s <= b) as Hle.
  { intros s [Hs|Hs]%elem_of_app; [specialize (Hrange s Hs); lia|]. specialize (Habove s Hs).
    rewrite Forall_forall in Hss. specialize (Hrange _ (live_wal_active e)). specialize (Hss s Hs). lia. }
  pose (ws' := frozen_logs_of fs e ++ (seq (wal e), take j es) :: ((fun s => (s, [])) <$> ss)).
  assert (ws'.*1 = live_wals e ++ ss) as Hws.
  { unfold ws', frozen_logs_of, live_wals. rewrite fmap_app, fmap_cons, <- !list_fmap_compose, <- app_assoc.
    cbn. f_equal. f_equal. apply list_fmap_id. }
  exists (disk_metas e), (file_records fs), ws'. split; [|split].
  - eapply disk_ok_relog; [by eapply engine_disk|exact Hw|..]; rewrite ?Hws; try done.
    + intros x (s & -> & Hs)%list_elem_of_fmap. exists s. split; [done|].
      assert (s ∈ live_wals e ++ ss) as Hin; [|specialize (Hle s Hin); lia].
      apply elem_of_cons in Hs as [->|Hs]; apply elem_of_app; [left; apply live_wal_active|by right].
    + apply Forall_app. split; [|constructor].
      * apply Forall_fmap, Forall_forall. intros p Hp. cbn.
        destruct (frozen_wal_lt fs e T a [] p (mid_of_ok _ _ _ _ Hok) Hp) as [Hp1 Hp2].
        destruct (wo_frozen _ _ _ (eo_wals _ _ _ _ Hok) p Hp) as (t & ino & _ & _ & Hd & Hh).
        eapply log_file_kept; [|by eapply holds_log_file]. cbn. eapply within_kept; [exact Hw|].
        intros (s & Heq & Hs)%list_elem_of_fmap.
        assert (seq (wal e) <= s <= b) as Hsb.
        { apply elem_of_cons in Hs as [->|Hs]; [specialize (Hle _ (proj2 (elem_of_app _ _ _) (or_introl (live_wal_active e)))); lia|].
          specialize (Habove s Hs). specialize (Hle s (proj2 (elem_of_app _ _ _) (or_intror Hs))). lia. }
        apply wal_name_inj in Heq; lia.
      * unfold file_of in Hlog. destruct (dirents fs' !! wal_name (seq (wal e))) as [ino|] eqn:Hd; [|done].
        cbn in Hlog. injection Hlog as Hlog. exists ino, tail. cbn. split; [done|]. split; [by rewrite Hlog|].
        split; [done|]. split; [by apply Forall_take|]. apply (Hfit' (wal_name (seq (wal e)))).
        unfold file_of. by rewrite Hd.
      * apply Forall_fmap. eapply Forall_impl; [exact Hnew|]. intros s Hs. cbn.
        unfold file_of in Hs. destruct (dirents fs' !! wal_name s) as [ino|] eqn:Hd; [|done].
        cbn in Hs. injection Hs as Hs. exists ino, []. rewrite Hs. split_and!; [done|done|apply torn_nil|done|].
        by vm_compute.
    + apply Forall_forall. intros s Hs. specialize (Hle s Hs). lia.
    + intros s Hs [Hx|(s' & Heq & Hs')%list_elem_of_fmap]%(wi_names _ _ _ Hw).
      * apply elem_of_app; left. apply (wo_only _ _ _ (eo_wals _ _ _ _ Hok) _ s Hx). by apply parse_wal_name_ok.
      * assert (s' ∈ live_wals e ++ ss) as Hin.
        { apply elem_of_cons in Hs' as [->|Hs']; apply elem_of_app; [left; apply live_wal_active|by right]. }
        pose proof (Hle s' Hin). apply wal_name_inj in Heq; [by subst|lia..].
  - split; [eapply Forall_impl; [exact Hq1|]; simpl; lia|]. rewrite Hws. apply Forall_forall. apply Hle.
  - intros k. by eapply cut_view.
Qed.

(** ** Locks *)

Lemma crashes_with_lock {A} l msg (m : M (Fs * LsmEngineInner) A) fs e P :
  poisoned e = [] -> crashes m (fs, e) P -> crashes (with_lock l msg m) (fs, e) P.
Proof.
  intros Hp Hc. unfold with_lock. eapply crashes_bind_inert; [apply inert_eng|done|]. unfold is_poisoned.
  cbn [snd]. rewrite Hp, bool_decide_false by apply not_elem_of_nil. by apply crashes_guarded.
Qed.

Lemma crashes_on_writer {A} (m : M (Fs * WalWriter) A) fs e P :
  crashes m (fs, writer (wal e)) P -> crashes (on_writer m) (fs, e) P.
Proof. intros Hc. by apply (crashes_zoom _ _ m (fs, e)). Qed.

Lemma crashes_on_file {A} (m : M (Fs * BufWriter) A) fs w P :
  crashes m (fs, ww_file w) P -> crashes (on_file m) (fs, w) P.
Proof. intros Hc. by apply (crashes_zoom _ _ m (fs, w)). Qed.

(** ** The log writer *)

(** A file that grew: [d] is all it may ever hold. *)
Record extends (ino : nat) (d : bytes) (fs fs' : Fs) : Prop := {
  ex_frames : Fs.frames ino fs fs';
  ex_prefix : data_of fs ino `prefix_of` data_of fs' ino;
  ex_bound : data_of fs' ino `prefix_of` d;
}.

Lemma extends_refl ino d fs : data_of fs ino `prefix_of` d -> extends ino d fs fs.
Proof. by split. Qed.

Lemma extends_trans ino d d' fs1 fs2 fs3 :
  extends ino d' fs1 fs2 -> extends ino d fs2 fs3 -> extends ino d fs1 fs3.
Proof. intros [F1 P1 _] [F2 P2 B2]. split; [by eapply frames_trans|by etrans|done]. Qed.

Lemma grows_extends fs w d fs' :
  grows (bw_file (ww_file w)) (bw_buf (ww_file w) ++ d) fs fs' ->
  extends (bw_file (ww_file w)) (log_of fs w ++ d) fs fs'.
Proof.
  intros [Hf [j Hj]]. split; [done|by eexists|]. rewrite Hj. unfold log_of. rewrite <- app_assoc.
  apply prefix_app. eexists. symmetry. apply take_drop.
Qed.

Lemma crashes_append en fs w P :
  encodable en -> calm fs ->
  (forall fs', extends (bw_file (ww_file w)) (log_of fs w ++ frame en) fs fs' -> P (killed fs')) ->
  crashes (append (Wal.op en) (Wal.key en) (Wal.value en)) (fs, w) P.
Proof.
  intros Hen Hf HP. unfold append.
  eapply crashes_bind_inert; [by intros ? []|done|].
  eapply crashes_bind_inert; [by apply inert_lift|by rewrite encode_entry_frame, app_nil_l by (by destruct en)|].
  eapply crashes_bind_inert; [by intros ? []|done|].
  apply crashes_on_file, crashes_bw_write_all. intros fs' Hg. by apply HP, grows_extends.
Qed.

Lemma crashes_sync fs w P :
  calm fs -> (forall fs', extends (bw_file (ww_file w)) (log_of fs w) fs fs' -> P (killed fs')) ->
  crashes sync (fs, w) P.
Proof.
  intros Hf HP. unfold sync. apply crashes_bind; [done|apply steady_on_file, steady_bw_flush|..].
  - apply crashes_on_file, crashes_bw_flush. intros fs' Hg. apply HP. rewrite <- (app_nil_r (log_of fs w)).
    apply grows_extends. by rewrite app_nil_r.
  - intros [] [fs1 w1] Hrun Hf1. unfold on_file, zoom in Hrun.
    destruct (bw_flush (fs, ww_file w)) as [o [fs2 b2]] eqn:E. injection Hrun as -> <- <-.
    pose proof (bw_flush_buf_any fs (ww_file w)) as (o' & fs' & b' & E' & B & F & K).
    unfold bw_flush in E. rewrite E' in E. injection E as -> -> ->. destruct (K eq_refl) as [Hb Hd].
    apply crashes_on_file, crashes_bw_sync_all; [done|]. rewrite <- (killed_calm fs2) by done. apply HP.
    split; [done|..]; rewrite Hd; [by eexists|done].
Qed.

Lemma crashes_wal_drop fs w P :
  calm fs -> (forall fs', extends (bw_file (ww_file w)) (log_of fs w) fs fs' -> P (killed fs')) ->
  crashes wal_drop (fs, w) P.
Proof.
  intros Hf HP. apply crashes_on_file, crashes_bw_drop; [done|]. intros fs' Hg. apply HP.
  rewrite <- (app_nil_r (log_of fs w)). apply grows_extends. by rewrite app_nil_r.
Qed.

(** ** Writes

    The directory holds the frozen logs, the tables and, of the active log, a
    prefix of [es] that is not shorter than what it held before. *)

Definition cut_at (b : Z) (fs : Fs) (e : LsmEngineInner) (T : nat -> list record) (es : list WalEntry) (fs' : Fs) : Prop :=
  exists j, recovers b fs' (view_from e T (entry_mutation <$> take j es)) /\
    forall i, (i <= length es)%nat ->
      (length (frames (take i es)) <= length (data_of fs (bw_file (ww_file (writer (wal e))))))%nat -> (i <= j)%nat.

(** The bytes of the active log are some of [es]. *)
Lemma cut_log fs e T a es ss fs' b :
  engine_ok fs e T a -> files_fit fs -> Forall Wal.fits es ->
  within (fun x => x ∈ wal_name <$> seq (wal e) :: ss) fs fs' ->
  (exists d, file_of fs' (wal_name (seq (wal e))) = Some d /\ d `prefix_of` frames es /\
    data_of fs (bw_file (ww_file (writer (wal e)))) `prefix_of` d) ->
  Forall (fun s => file_of fs' (wal_name s) = Some []) ss ->
  StronglySorted Z.lt (live_wals e ++ ss) -> Forall (fun s => s <= b) ss -> next_seq e - 1 <= b <= u64_max ->
  cut_at b fs e T es fs'.
Proof.
  intros Hok Hfit Hes Hw (d & Hd & [tail Htail] & Hgrew) Hnew Hsort Hss Hb.
  destruct (log_cut fs e T a es (length d) ss fs' b) as (j & Hr & Hj); try done.
  - split; try done. by rewrite Hd, Htail, take_app_length.
  - exists j. split; [done|]. intros i Hi Hlen. apply Hj; [done|]. etrans; [exact Hlen|]. by apply prefix_length.
Qed.

Lemma active_dirent fs e T a :
  engine_ok fs e T a -> dirents fs !! wal_name (seq (wal e)) = Some (bw_file (ww_file (writer (wal e)))).
Proof. intros Hok. by destruct (wo_active _ _ _ (eo_wals _ _ _ _ Hok)) as (t & _ & ? & _). Qed.

Lemma live_before fs e T a : engine_ok fs e T a -> Forall (fun s => s < next_seq e) (live_wals e).
Proof. intros Hok. eapply Forall_impl; [apply (wo_range _ _ _ (eo_wals _ _ _ _ Hok))|]. simpl. lia. Qed.

(** The active log grew. *)
Lemma extends_cut fs e T a es fs' b :
  engine_ok fs e T a -> files_fit fs -> Forall Wal.fits es ->
  extends (bw_file (ww_file (writer (wal e)))) (frames es) fs fs' -> next_seq e - 1 <= b <= u64_max ->
  cut_at b fs e T es (killed fs').
Proof.
  intros Hok Hfit Hes [HF HP HB] Hb. pose proof (active_dirent _ _ _ _ Hok) as Hd.
  apply (cut_log fs e T a es [] _ _ Hok Hfit Hes).
  - eapply within_mono; [|apply (within_frames _ _ _ _ (eo_faults _ _ _ _ Hok) (eo_fs _ _ _ _ Hok) Hd HF)]. intros x <-.
    by apply list_elem_of_singleton.
  - exists (data_of fs' (bw_file (ww_file (writer (wal e))))). split; [|done]. destruct HF as (D & _).
    unfold file_of. change (dirents (killed fs')) with (dirents fs'). by rewrite D, Hd.
  - constructor.
  - rewrite app_nil_r. apply (wo_sorted _ _ _ (eo_wals _ _ _ _ Hok)).
  - constructor.
  - done.
Qed.

(** The new generation is there, the old one may have grown. *)
Record rotating (n : Z) (fs : Fs) (e : LsmEngineInner) (fs' : Fs) : Prop := {
  ro_within : within (fun x => x ∈ wal_name <$> [seq (wal e); n]) fs fs';
  ro_new : file_of fs' (wal_name n) = Some [];
  ro_old : exists d, file_of fs' (wal_name (seq (wal e))) = Some d /\
    d `prefix_of` log_of fs (writer (wal e)) /\ data_of fs (bw_file (ww_file (writer (wal e)))) `prefix_of` d;
}.

(** The old log under a new generation. *)
Lemma rotating_drop n fs e T a fl ino fs1 fs' :
  mid_ok fs e T a fl -> dirents fs !! wal_name n = None -> wrote (wal_name n) ino [] fs fs1 ->
  extends (bw_file (ww_file (writer (wal e)))) (log_of fs1 (writer (wal e))) fs1 fs' -> rotating n fs e (killed fs').
Proof.
  intros Hok Habs Hwr [HF HP HB]. pose proof (md_fs _ _ _ _ _ Hok) as Hwf.
  destruct (wm_active _ _ _ _ (md_wals _ _ _ _ _ Hok)) as (_ & _ & Hd & _). pose proof (wrote_wf _ _ _ _ _ Hwr Hwf) as Hwf1.
  assert (wal_name n <> wal_name (seq (wal e))) as Hne by congruence.
  assert (dirents fs1 !! wal_name (seq (wal e)) = Some (bw_file (ww_file (writer (wal e))))) as Hd1
    by (by rewrite (wr_dirents _ _ _ _ _ Hwr), lookup_insert_ne).
  assert (data_of fs1 (bw_file (ww_file (writer (wal e)))) = data_of fs (bw_file (ww_file (writer (wal e))))) as Hdat.
  { apply (wrote_data _ _ _ _ _ _ Hwr); [by eapply Hwf|congruence]. }
  pose proof (within_frames _ _ _ _ (wr_faults _ _ _ _ _ Hwr) Hwf1 Hd1 HF) as W1. split.
  - eapply within_trans.
    + eapply within_mono; [|exact (within_wrote _ _ _ _ _ Hwf Hwr)]. intros x <-.
      apply list_elem_of_fmap_2. set_solver.
    + eapply within_mono; [|exact W1]. intros x <-. apply list_elem_of_fmap_2. set_solver.
  - rewrite (kept_file_of _ fs1); [by rewrite (wrote_file_of _ _ _ _ _ _ Hwr Hwf), decide_True|].
    eapply within_kept; [exact W1|]. by apply not_eq_sym.
  - exists (data_of fs' (bw_file (ww_file (writer (wal e))))). destruct HF as (D & _). split.
    + unfold file_of. change (dirents (killed fs')) with (dirents fs'). by rewrite D, Hd1.
    + unfold log_of in *. by rewrite Hdat in *.
Qed.

Lemma inert_swap_active :
  inert (st ← eng state;
         match active st with
         | None => panic
         | Some cur =>
             fresh ← alloc_mem MemTable.new;
             old_seq ← eng (fun e => seq (wal e));
             upd (set_state (mkEngineState (Some fresh)
                    (immutables st ++ [mkPendingImm cur old_seq]) (levels st)))
         end).
Proof.
  apply inert_bind; [apply inert_eng|]. intros st. destruct (active st); [|apply inert_panic].
  apply inert_bind; [apply inert_alloc_mem|]. intros fresh. by apply inert_bind.
Qed.

(** A state change under the state lock. *)
Lemma crashes_commit {A} (m : M (Fs * LsmEngineInner) A) fs e (P : Fs -> Prop) :
  calm fs -> poisoned e = [] -> inert m -> P fs ->
  crashes (with_lock StateLock "state lock poisoned" (write_state m)) (fs, e) P.
Proof.
  intros Hf Hp Hi HP. apply crashes_with_lock; [done|]. unfold write_state.
  eapply crashes_bind_inert; [apply inert_eng|done|].
  unfold is_poisoned. cbn [snd]. rewrite Hp, bool_decide_false by apply not_elem_of_nil.
  apply crashes_guarded, inert_crashes; [done|]. cbn. by rewrite killed_calm.
Qed.

Lemma crashes_committed {A B} (m : M (Fs * LsmEngineInner) A) (f : A -> M (Fs * LsmEngineInner) B) fs e x e' P :
  calm fs -> poisoned e = [] -> inert m -> m (fs, e) = (Ok x, (fs, e')) -> P fs -> crashes (f x) (fs, e') P ->
  crashes (with_lock StateLock "state lock poisoned" (write_state m) ≫= f) (fs, e) P.
Proof.
  intros Hf Hp Hi Hrun HP Hc. eapply crashes_bind_ok; [exact Hf| |..|exact Hc].
  - apply with_lock_ok; [done| |done]. by apply write_state_ok.
  - by apply steady_with_lock, steady_write_state, inert_steady.
  - by apply crashes_commit.
Qed.

Lemma crashes_rotate n fs e T a fl (P : Fs -> Prop) :
  mid_ok fs e T a fl -> fresh_wal fs e n -> P fs -> (forall fs', rotating n fs e fs' -> P fs') ->
  crashes (rotate n) (fs, e) P.
Proof.
  intros Hok (_ & _ & Habs) HP HR. pose proof Hok as [F1 F2 F3 F4 F5 F6 F7 F8].
  pose proof (mo_active _ _ F6) as Ha. unfold rotate.
  destruct (file_create_ok (wal_name n) fs F1 F2) as (ino & fs1 & Hcr & Hwr).
  assert (wal_create (wal_name n) fs = (Ok (mkWalWriter (bw_new ino) (wal_name n) []), fs1))
    as Hcr' by (unfold wal_create; by rewrite (M_bind_ok _ _ _ _ _ Hcr)).
  eapply crashes_bind_ok; [done|exact (on_fs_run _ fs e _ _ Hcr')|apply steady_on_fs, steady_wal_create|..].
  { apply crashes_on_fs. unfold wal_create. apply crashes_bind; [done|apply steady_file_create|..].
    - by apply crashes_file_create.
    - intros. apply crashes_ret. }
  pose (e2 := set_state (mkEngineState (Some (length (mems e)))
      (immutables (state e) ++ [mkPendingImm a (seq (wal e))]) (levels (state e)))
      (set_mems (mems e ++ [MemTable.new]) e)).
  pose proof (wr_faults _ _ _ _ _ Hwr) as Hf1.
  eapply (crashes_committed _ _ _ _ tt e2); [exact Hf1|exact F4|apply inert_swap_active|..].
  - mstep. cbn [snd]. rewrite Ha. reflexivity.
  - rewrite <- (killed_calm fs1 Hf1). apply HR. eapply rotating_drop; [exact Hok|exact Habs|exact Hwr|].
    apply extends_refl. by eexists.
  - apply crashes_bind; [exact Hf1|apply steady_on_writer, steady_wal_drop|..].
    + apply crashes_on_writer, crashes_wal_drop; [exact Hf1|]. intros fs' Hex. apply HR. by eapply rotating_drop.
    + intros [] [fs2 e3] _ _. by eapply crashes_bind_inert; [apply inert_upd|reflexivity|apply crashes_ret].
Qed.

Lemma crashes_freeze fs e T a (P : Fs -> Prop) :
  engine_ok fs e T a -> next_seq e < u64_max -> P fs -> (forall fs', rotating (next_seq e) fs e fs' -> P fs') ->
  crashes freeze_active (fs, e) P.
Proof.
  intros Hok Hroom HP HR. pose proof Hok as [F1 F2 F3 F4 F5 F6 F7 F8 F9].
  pose proof (mo_active _ _ F6) as Ha. destruct (wo_active _ _ _ F8) as (t & Hta & Hdw & _).
  unfold freeze_active. eapply crashes_bind_inert; [apply inert_snapshot_active|by apply snapshot_active_ok|].
  eapply crashes_bind_inert; [apply inert_mem_at|by apply mem_at_ok|].
  destruct (MemTable.is_empty t); [apply crashes_ret|].
  eapply crashes_bind_inert; [apply inert_fetch_add_seq|apply fetch_add_seq_ok; lia|].
  pose proof (mid_of_ok _ _ _ _ Hok) as Hmid.
  apply (crashes_rotate _ fs (drawn e) T a []); [by apply drawn_mid|by eapply drawn_fresh|done|].
  intros fs' [H1 H2 H3]. by apply HR.
Qed.

(** ** [put] and [delete] *)

Lemma append_grows en fs w fs1 w1 :
  encodable en -> append (Wal.op en) (Wal.key en) (Wal.value en) (fs, w) = (Ok tt, (fs1, w1)) ->
  grows (bw_file (ww_file w)) (bw_buf (ww_file w) ++ frame en) fs fs1.
Proof.
  destruct en as [op k v]. intros Hen. unfold append, set_buf, modify, lift, mbind, M_bind.
  cbn [ww_file ww_path Wal.op Wal.key Wal.value]. rewrite encode_entry_frame, app_nil_l by done. unfold on_file, zoom. cbn [ww_file].
  destruct (bw_write_all (frame (mkWalEntry op k v)) (fs, ww_file w)) as [o [fs2 b2]] eqn:E. intros [= -> <- _].
  by apply bw_write_all_grows in E.
Qed.

(** The log writer took the bytes [d]; some of them are in the file. *)
Definition took (d : bytes) (fs : Fs) (w : WalWriter) (fs' : Fs) (w' : WalWriter) : Prop :=
  logs d fs w fs' w' /\ extends (bw_file (ww_file w)) (log_of fs w ++ d) fs fs'.

Lemma append_took en fs w :
  faults fs = [] -> encodable en ->
  exists fs1 w1, append (Wal.op en) (Wal.key en) (Wal.value en) (fs, w) = (Ok tt, (fs1, w1)) /\
    took (frame en) fs w fs1 w1.
Proof.
  intros Hf Hen. destruct (append_ok fs w en Hf Hen) as (fs1 & w1 & H1 & B1 & _ & T1 & L1).
  exists fs1, w1. split; [done|]. split; [done|]. apply grows_extends. by eapply append_grows.
Qed.

Lemma sync_took d fs w fs1 w1 :
  took d fs w fs1 w1 ->
  exists fs2 w2, sync (fs1, w1) = (Ok tt, (fs2, w2)) /\ took d fs w fs2 w2 /\ bw_buf (ww_file w2) = [].
Proof.
  intros [HL HE]. pose proof HL as (B1 & T1 & L1).
  destruct (sync_logs fs1 w1 (touches_faults _ _ _ T1)) as (fs2 & w2 & H2 & HL2 & Hb2).
  exists fs2, w2. split; [done|]. split; [|done]. split.
  - rewrite <- (app_nil_r d). by eapply logs_trans.
  - eapply extends_trans; [exact HE|]. destruct HL2 as (B2 & T2 & L2). rewrite app_nil_r in L2.
    unfold log_of in L2 at 1. rewrite B2, Hb2, app_nil_r, B1 in L2. rewrite B1 in T2.
    destruct T2 as (D2 & X2 & F2 & I2). split; [done|..]; rewrite L2; [unfold log_of; rewrite B1; by eexists|].
    by rewrite L1.
Qed.

(** Stopping while the writer takes more. *)
Lemma took_extends d fs w fs1 w1 fs' :
  took d fs w fs1 w1 -> extends (bw_file (ww_file w1)) (log_of fs1 w1) fs1 fs' ->
  extends (bw_file (ww_file w)) (log_of fs w ++ d) fs fs'.
Proof. intros [(B & _ & L) HE] HE'. rewrite B, L in HE'. by eapply extends_trans. Qed.

Lemma took_rotating s fs e T a d es fs1 w1 e1 fs' b :
  engine_ok fs e T a -> files_fit fs -> Forall (fun x => x < s) (live_wals e) -> s <= b -> Forall Wal.fits es ->
  log_of fs (writer (wal e)) ++ d = frames es -> next_seq e - 1 <= b <= u64_max ->
  took d fs (writer (wal e)) fs1 w1 -> wal e1 = mkActiveWal w1 (seq (wal e)) ->
  rotating s fs1 e1 fs' -> cut_at b fs e T es fs'.
Proof.
  intros Hok Hfit Hs Hsb Hes Hlog Hb [(B & HT & L) [HF HP HB]] Hwal [R1 R2 (d' & R3 & R4 & R5)].
  rewrite Hwal in R1, R3, R4, R5. cbn [seq writer] in R1, R3, R4, R5.
  pose proof (active_dirent _ _ _ _ Hok) as Hd. rewrite L in R4. rewrite B in R5.
  apply (cut_log fs e T a es [s] _ _ Hok Hfit Hes).
  - eapply within_trans; [|exact R1]. rewrite <- (killed_calm fs1) by apply HT.
    eapply within_mono; [|exact (within_frames _ _ _ _ (eo_faults _ _ _ _ Hok) (eo_fs _ _ _ _ Hok) Hd HF)].
    intros x <-. apply list_elem_of_fmap_2, list_elem_of_here.
  - exists d'. split; [done|]. split; [by rewrite <- Hlog|]. by etrans.
  - by constructor.
  - apply StronglySorted_app. split; [|split; [apply (wo_sorted _ _ _ (eo_wals _ _ _ _ Hok))|by repeat constructor]].
    intros x y Hx ->%list_elem_of_singleton. rewrite Forall_forall in Hs. by apply Hs.
  - by constructor.
  - lia.
Qed.

(** The log takes an entry, and is synced when the options say so. *)
Lemma crashes_log {A} en fs e (rest : M (Fs * LsmEngineInner) A) (P : Fs -> Prop) :
  let w := writer (wal e) in
  faults fs = [] -> encodable en ->
  (forall fs', extends (bw_file (ww_file w)) (log_of fs w ++ frame en) fs fs' -> P (killed fs')) ->
  (forall fs2 w2, took (frame en) fs w fs2 w2 -> crashes rest (fs2, set_wal (mkActiveWal w2 (seq (wal e))) e) P) ->
  crashes (_ ← on_writer (append (Wal.op en) (Wal.key en) (Wal.value en));
           o ← eng options;
           _ ← (if sync_per_write o then on_writer sync else mret tt);
           rest) (fs, e) P.
Proof.
  intros w Hf Hen HP Hrest. destruct (append_took en fs w Hf Hen) as (fs1 & w1 & H1 & HT1).
  eapply crashes_bind_ok; [exact Hf|exact (on_writer_ok _ fs e tt fs1 w1 H1)|apply steady_on_writer, steady_append|..].
  { by apply crashes_on_writer, crashes_append. }
  eapply crashes_bind_inert; [apply inert_eng|reflexivity|]. cbn [snd options set_wal].
  pose proof HT1 as [(_ & T1 & _) _].
  destruct (sync_per_write (options e)).
  2: { eapply crashes_bind_inert; [apply inert_ret|reflexivity|]. by apply Hrest. }
  destruct (sync_took _ _ _ _ _ HT1) as (fs2 & w2 & H2 & HT2 & _).
  eapply crashes_bind_ok; [apply T1| |apply steady_on_writer, steady_sync|..].
  - exact (on_writer_ok sync fs1 (set_wal (mkActiveWal w1 (seq (wal e))) e) tt fs2 w2 H2).
  - apply crashes_on_writer, crashes_sync; [apply T1|]. intros fs' Hex. apply HP. exact (took_extends _ _ _ _ _ _ HT1 Hex).
  - by apply Hrest.
Qed.

Lemma crashes_write fs e T a en key value d es b :
  engine_ok fs e T a -> files_fit fs -> next_seq e < u64_max -> encodable en ->
  mutate en = (if d : bool then MemTable.delete key else MemTable.put key value) ->
  log_of fs (writer (wal e)) = frames es -> Forall Wal.fits es -> next_seq e <= b <= u64_max ->
  crashes
    (with_lock WalLock "wal lock poisoned"
      (_ ← on_writer (append (Wal.op en) (Wal.key en) (Wal.value en));
       o ← eng options;
       _ ← (if sync_per_write o then on_writer sync else mret tt);
       apply_and_maybe_freeze key value d)) (fs, e) (cut_at b fs e T (es ++ [en])).
Proof.
  intros Hok Hfit Hroom Hen Hmut Hlog Hes Hb. pose proof (eo_faults _ _ _ _ Hok) as Hf.
  pose proof (eo_poison _ _ _ _ Hok) as Hp. set (w := writer (wal e)).
  assert (forall fs', extends (bw_file (ww_file w)) (log_of fs w ++ frame en) fs fs' ->
    cut_at b fs e T (es ++ [en]) (killed fs')) as Hcut.
  { intros fs' Hex. apply (extends_cut fs e T a); [done|done| | |lia].
    - apply Forall_app. split; [done|]. constructor; [apply Hen|constructor].
    - unfold w in Hex. by rewrite Hlog, <- frames_snoc in Hex. }
  apply crashes_with_lock; [done|]. apply crashes_log; [done|done|exact Hcut|]. intros fs2 w2 HT2.
  pose proof HT2 as [HL2 HE2]. pose proof HL2 as (B2 & T2 & L2).
  pose proof (eo_mems _ _ _ _ Hok) as [Ha Hal _].
  apply Forall_inv in Hal. destruct (lookup_lt_is_Some_2 _ _ Hal) as [t Hta].
  destruct (mutate_ok en t Hen) as (t' & Hm & Hget). rewrite Hmut in Hm.
  pose proof (applied_ok _ _ _ _ _ _ _ _ _ Hok Hta Hen HL2 Hget) as Hok2.
  set (e2 := set_wal (mkActiveWal w2 (seq (wal e))) e).
  assert (mems (applied e w2 a t') !! a = Some t') as Hta'
    by (cbn; by rewrite list_lookup_insert_eq by (by eapply lookup_lt_Some)).
  unfold apply_and_maybe_freeze.
  eapply crashes_bind_inert; [apply inert_snapshot_active|by apply (snapshot_active_ok fs2 e2 a)|].
  eapply crashes_bind_inert; [apply inert_on_mem|exact (on_mem_ok a _ fs2 e2 t t' tt Hta Hm)|].
  change (set_mems (<[a:=t']> (mems e2)) e2) with (applied e w2 a t').
  eapply crashes_bind_inert; [apply inert_mem_at|exact (mem_at_ok fs2 (applied e w2 a t') a t' Hta')|].
  eapply crashes_bind_inert; [apply inert_eng|reflexivity|]. destruct (_ && _); [|apply crashes_ret].
  apply crashes_bind; [apply T2|apply steady_freeze_active|..].
  - eapply crashes_freeze; [exact Hok2|exact Hroom|..].
    + rewrite <- (killed_calm fs2) by apply T2. by apply Hcut.
    + intros fs' Hrot. apply (took_rotating (next_seq e) fs e T a (frame en) (es ++ [en]) fs2 w2 (applied e w2 a t')); try done.
      * by eapply live_before.
      * lia.
      * apply Forall_app. split; [done|]. constructor; [apply Hen|constructor].
      * unfold w in *. by rewrite frames_snoc, Hlog.
      * lia.
  - intros [|] [fs3 e3] _ _; [|apply crashes_ret]. by eapply crashes_inert; [apply inert_upd|].
Qed.
End crash.
