(* ===== verification/CrashFlush.v ===== *)
(** * Stopping in the middle of a flush

    Until the manifest is renamed the directory only has files recovery does
    not know; from then on the new tables repeat what the logs hold, which are
    removed oldest first.  At every system call the directory stands for what it
    stood for when the flush began. *)

From S2P Require Import Prelude Outcome External Fs Crash MemTable Wal WalWriter WalReader.
From S2P Require Import StdVec SstRecord SstIndex Bloom Builder Reader Merge Manifest.
From S2P Require Import Names Engine Steady EngineSpec EngineGet EnginePut EngineFlush EngineCommit.
From S2P Require Import EngineCompact EngineOpen EngineRecover EngineDisk CrashWrite.

(** ** Files that are written and renamed *)

Lemma new_file_within {A} name (body : nat -> M (Fs * BufWriter) A) fs o fs' :
  calm fs -> fs_wf fs -> (forall ino, framed (body ino)) -> calm fs' ->
  (file ← file_create name; scoped (bw_new file) (body file) bw_drop) fs = (o, fs') -> within (eq name) fs fs'.
Proof.
  intros Hf Hwf Hb Hf' Hrun. destruct (file_create_ok name fs Hf Hwf) as (ino & fs1 & Hcr & Hw).
  rewrite (M_bind_ok _ _ _ _ _ Hcr) in Hrun. apply scoped_frames in Hrun; [|done].
  eapply within_trans; [by eapply within_wrote|]. rewrite <- (killed_calm fs' Hf').
  eapply within_frames; [apply Hw|by eapply wrote_wf| |exact Hrun].
  by rewrite (wr_dirents _ _ _ _ _ Hw), lookup_insert_eq.
Qed.

Lemma crashes_lift {S} `{Machine S} {A B} (o : outcome A) (f : A -> M S B) s P :
  (forall a, o = Ok a -> crashes (f a) s P) -> P (killed (disk s)) -> crashes (lift o ≫= f) s P.
Proof.
  intros Hc HP. destruct o as [a|e| |]; [|by intros n k s'..|].
  - eapply crashes_bind_inert; [apply inert_lift|reflexivity|by apply Hc].
  - intros n k s' [= <-]. unfold arm. by rewrite disk_set.
Qed.

Lemma crashes_assoc {S} `{Machine S} {A B D} (m : M S A) (f : A -> M S B) (g : B -> M S D) s P :
  crashes ((m ≫= f) ≫= g) s P -> crashes (m ≫= fun x => f x ≫= g) s P.
Proof. intros Hc n k s' Hrun. eapply Hc. rewrite M_bind_assoc. exact Hrun. Qed.

Lemma within_keeps N fs fs' :
  keeps N fs fs' -> (forall x, is_Some (dirents fs' !! x) -> N x \/ is_Some (dirents fs !! x)) -> within N fs fs'.
Proof. intros Hk Hn. split; [done|]. intros x [Hx|Hx]%Hn; [by right|by left]. Qed.

Section flush.
Context {C : Crc32} {SM : SkipMap Entry} {FB : FastBloom} {AL : Allocator}.

Lemma crashes_build tmp b fs (P : Fs -> Prop) :
  calm fs -> fs_wf fs -> (forall fs', within (eq tmp) fs fs' -> P fs') -> crashes (Builder.build tmp b) fs P.
Proof.
  intros Hf Hwf HP. assert (P (killed fs)) as HP0 by (rewrite killed_calm by done; by apply HP, within_refl).
  unfold Builder.build. cbn zeta. apply crashes_lift; [|exact HP0].
  intros ib _.
  match goal with |- crashes ((if ?c then _ else _) ≫= _) _ _ => destruct c end.
  - eapply crashes_bind_inert; [apply inert_ret|reflexivity|].
    apply crashes_new_file; [done|done| |done]. intros ino. repeat (apply framed_bind; [apply framed_write_all|intros _]).
    apply framed_flush.
  - apply crashes_lift; [|exact HP0]. intros off _.
    apply crashes_new_file; [done|done| |done]. intros ino. repeat (apply framed_bind; [apply framed_write_all|intros _]).
    apply framed_flush.
Qed.

Lemma crashes_write_table b blocks cur tmp final fs e (P : Fs -> Prop) :
  builds b blocks cur -> len (records_bytes (concat blocks ++ cur)) <= 2 ^ 60 -> calm fs -> fs_wf fs ->
  (forall fs', within (fun x => x = tmp \/ x = final) fs fs' -> P fs') ->
  crashes (write_table b tmp final) (fs, e) P.
Proof.
  intros Hb Hs Hf Hwf HP.
  assert (forall fs', within (eq tmp) fs fs' -> P fs') as HP1.
  { intros fs' Hw. apply HP. eapply within_mono; [|exact Hw]. intros x <-. by left. }
  destruct (build_ok tmp b blocks cur fs Hb Hs Hf Hwf) as (ino & d & fs1 & H1 & W1 & _).
  pose proof (within_wrote _ _ _ _ _ Hwf W1) as Hw1. pose proof (wr_faults _ _ _ _ _ W1) as F1.
  assert (dirents fs1 !! tmp = Some ino) as Htmp by (by rewrite (wr_dirents _ _ _ _ _ W1), lookup_insert_eq).
  destruct (file_sync_ok ino fs1 F1) as (fs2 & H2 & T2 & _). pose proof T2 as (D2 & X2 & F2 & I2).
  unfold write_table. eapply crashes_bind_ok; [exact Hf|exact (on_fs_run _ fs e _ _ H1)|apply steady_on_fs, steady_build|..].
  { by apply crashes_on_fs, crashes_build. }
  eapply crashes_bind_ok; [exact F1|exact (on_fs_run _ fs1 e _ _ (file_open_ok tmp ino fs1 F1 Htmp))|..].
  { apply steady_on_fs, steady_file_open. }
  { apply quiet_crashes; [apply quiet_on_fs, quiet_file_open|]. cbn. rewrite killed_calm by done. by apply HP1. }
  eapply crashes_bind_ok; [exact F1|exact (on_fs_run _ fs1 e _ _ H2)|apply steady_on_fs, steady_file_sync|..].
  { apply crashes_on_fs, crashes_file_sync; [exact F1|by apply HP1]. }
  apply crashes_on_fs, crashes_fs_rename; [exact F2|]. apply HP1. eapply within_trans; [exact Hw1|].
  rewrite <- (killed_calm fs2 F2). eapply within_frames; [exact F1|by eapply wrote_wf|exact Htmp|].
  by split.
Qed.

(** ** Writing the tables of the frozen memtables *)

Lemma fresh_table n l s x :
  (l <= 1)%nat -> n <= s <= u64_max -> x = tmp_name (sst_name l s) \/ x = sst_name l s -> fresh_name n x.
Proof. intros Hl Hs Hx. right. exists l, s. split; [done|]. split; [done|]. tauto. Qed.

(** A written table is a new file. *)
Lemma table_within n l s rs fs fs' :
  (l <= 1)%nat -> n <= s <= u64_max ->
  table_written (tmp_name (sst_name l s)) (sst_name l s) rs fs fs' -> within (fresh_name n) fs fs'.
Proof.
  intros Hl Hs Htw. eapply within_mono; [|apply (within_keeps _ _ _ (tw_keeps _ _ _ _ _ Htw))].
  - intros x. by apply fresh_table.
  - intros x [->|Hx]%(tw_names _ _ _ _ _ Htw); [by left; right|by right].
Qed.

Lemma crashes_build_pending n fs e T a flushed p t (P : Fs -> Prop) :
  mid_ok fs e T a flushed -> p ∈ immutables (state e) -> mems e !! mem p = Some t -> small t -> n <= u64_max ->
  (forall fs', within (fresh_name n) fs fs' -> P fs') -> crashes (build_pending p n) (fs, e) P.
Proof.
  intros Hok Hin Ht Hsmall Hroom HP. pose proof Hok as [F1 F2 F3 F4 F5 F6 F7 F8].
  destruct (wm_frozen _ _ _ _ F8 p Hin) as (t0 & ino & Ht0 & Hne & _ & Hholds). rewrite Ht in Ht0. injection Ht0 as <-.
  unfold build_pending. eapply crashes_bind_inert; [apply inert_mem_at|by apply mem_at_ok|].
  destruct (fill_builder_ok (mem_len t) (mem_records t) (wal_holds_capped _ _ Hholds) (mem_records_sorted t))
    as (b & blocks & cur & Hfill & Hb & Hcat & Hmin & Hmax).
  eapply crashes_bind_inert; [apply inert_lift|unfold lift; fold (mem_records t); by rewrite Hfill|].
  cbn zeta. set (name := sst_name 0 n).
  destruct (write_table_ok b blocks cur (tmp_name name) name fs e Hb)
    as (fs2 & Hwrite & _); [by rewrite Hcat|done|done|apply tmp_ne_sst|].
  eapply crashes_bind_ok; [exact F1|exact Hwrite|apply steady_write_table|..]; [|apply crashes_ret].
  eapply crashes_write_table; [exact Hb|by rewrite Hcat|exact F1|exact F2|]. intros fs1 Hw. apply HP.
  eapply within_mono; [|exact Hw]. intros x. apply fresh_table; lia.
Qed.

Lemma crashes_flush_pending fs e T a flushed p ps t (P : Fs -> Prop) :
  mid_ok fs e T a flushed -> immutables (state e) = p :: ps -> mems e !! mem p = Some t ->
  small t -> next_seq e < u64_max -> (forall fs', within (fresh_name (next_seq e)) fs fs' -> P fs') ->
  crashes (flush_pending p) (fs, e) P.
Proof.
  intros Hok Himm Ht Hsmall Hroom HP.
  assert (p ∈ immutables (state e)) as Hin by (rewrite Himm; apply list_elem_of_here).
  unfold flush_pending. pose proof (md_next _ _ _ _ _ Hok).
  eapply crashes_bind_inert; [apply inert_fetch_add_seq|apply fetch_add_seq_ok; lia|].
  pose proof (drawn_mid _ _ _ _ _ Hok Hroom) as Hok1.
  destruct (build_pending_ok fs (drawn e) T a flushed p t (next_seq e) Hok1 Hin Ht Hsmall) as (fs' & Hbuild & Htw).
  eapply crashes_bind_ok; [apply Hok|exact Hbuild|apply steady_build_pending|..].
  - by eapply (crashes_build_pending _ fs (drawn e)); [exact Hok1|exact Hin|exact Ht|exact Hsmall|lia|].
  - apply crashes_commit; [apply Htw|apply (md_poison _ _ _ _ _ Hok)| |].
    + apply inert_bind; [apply inert_alloc_handle|]. intros i. apply inert_commit_flush.
    + apply HP. by eapply (table_within (next_seq e) 0 (next_seq e)); [lia..|].
Qed.

Lemma crashes_drain fuel fs e T a flushed (P : Fs -> Prop) :
  mid_ok fs e T a flushed -> small_frozen e ->
  next_seq e + len (immutables (state e)) <= u64_max -> (length (immutables (state e)) < fuel)%nat ->
  (forall fs', within (fresh_name (next_seq e)) fs fs' -> P fs') ->
  crashes (drain fuel flushed) (fs, e) P /\ P (drain fuel flushed (fs, e)).2.1.
Proof.
  intros Hok Hsm Hroom Hfuel HP. remember (immutables (state e)) as ps eqn:Eps. symmetry in Eps.
  revert fuel fs e T flushed Eps Hok Hsm Hroom Hfuel HP.
  induction ps as [|p ps IH]; intros fuel fs e T flushed Himm Hok Hsm Hroom Hfuel HP;
    (destruct fuel as [|fuel]; [simpl in Hfuel; lia|]); cbn [drain];
    pose proof (read_state_ok fs e (md_poison _ _ _ _ _ Hok)) as Hread; rewrite (M_bind_ok _ _ _ _ _ Hread), Himm; cbn [head].
  { split; [|by apply HP, within_refl; apply Hok].
    eapply crashes_bind_inert; [apply inert_read_state|exact Hread|]. rewrite Himm. apply crashes_ret. }
  rewrite len_cons in Hroom. pose proof (len_nonneg ps).
  destruct (wm_frozen _ _ _ _ (md_wals _ _ _ _ _ Hok) p) as (t & ino & Ht & Hne & _);
    [rewrite Himm; apply list_elem_of_here|].
  assert (small t) as Hst by (eapply Hsm; [rewrite Himm; apply list_elem_of_here|done]).
  destruct (flush_pending_ok fs e T a flushed p ps t Hok Himm Ht Hst ltac:(lia)) as (fs1 & Hrun & Htw).
  pose proof (after_flush_mid _ _ _ _ _ _ _ _ _ Hok Himm Ht Hne ltac:(lia) Htw) as Hok1.
  pose proof (md_next _ _ _ _ _ Hok) as Hnext.
  rewrite (M_bind_ok _ _ _ _ _ Hrun).
  destruct (IH fuel fs1 (after_flush e ps (new_handle 0 (next_seq e) (mem_records t)))
    (set_T T (length (handles e)) (mem_records t)) (flushed ++ [wal_seq p]) eq_refl Hok1) as [Hc HP1].
  - intros q tq Hq Htq. eapply Hsm; [rewrite Himm; by apply list_elem_of_further|done].
  - cbn. lia.
  - simpl in Hfuel. lia.
  - cbn. intros fs' Hw. apply HP. eapply within_trans.
    + by eapply (table_within (next_seq e) 0 (next_seq e)); [lia..|].
    + eapply within_mono; [|exact Hw]. intros x. apply fresh_name_mono. lia.
  - split; [|exact HP1]. eapply crashes_bind_inert; [apply inert_read_state|exact Hread|]. rewrite Himm. cbn [head].
    eapply crashes_bind_ok; [apply Hok|exact Hrun|apply steady_flush_pending| |exact Hc].
    eapply crashes_flush_pending; (done || lia).
Qed.

(** ** Writing the manifest *)

Lemma crashes_write_atomic m fs (P : Fs -> Prop) :
  calm fs -> fs_wf fs -> manifest_ok m -> (forall fs', within (eq MANIFEST_TMP_FILE_NAME) fs fs' -> P fs') ->
  crashes (write_atomic m) fs P.
Proof.
  intros Hf Hwf Hm HP. destruct (write_atomic_ok m fs Hf Hwf Hm) as (fs' & Hrun & _). revert Hrun.
  unfold write_atomic. set (body := fun _ : nat => (buf ← lift (encode m);
    _ ← bw_write_all buf; _ ← bw_flush; bw_sync_all) : M (Fs * BufWriter) unit).
  assert (forall ino, framed (body ino)) as Hb.
  { intros ino. apply framed_bind; [apply framed_lift|]. intros buf.
    apply framed_bind; [apply framed_write_all|intros _]. apply framed_bind; [apply framed_flush|intros _].
    apply framed_sync. }
  assert (steady (file ← file_create MANIFEST_TMP_FILE_NAME; scoped (bw_new file) (body file) bw_drop)) as Hs
    by (unfold body; steady_tac).
  intros Hrun. apply crashes_bind; [exact Hf|apply steady_try; unfold body; steady_tac|..].
  - apply crashes_try, crashes_assoc. apply crashes_bind; [exact Hf|exact Hs|by apply crashes_new_file|].
    intros [] fs1 Hrun1 Hf1. apply crashes_fs_rename; [exact Hf1|]. apply HP. by eapply new_file_within.
  - intros [err|[]] fs1 Hrun1 _.
    + rewrite (M_bind_ok _ _ _ _ _ Hrun1) in Hrun. unfold mbind, M_bind in Hrun.
      by destruct (ignore _ fs1) as [[] fs2].
    + by eapply crashes_bind_inert; [apply inert_ret|reflexivity|].
Qed.

Lemma crashes_write_manifest fs e T (P : Fs -> Prop) :
  calm fs -> fs_wf fs -> poisoned e = [] -> tables_ok fs e T ->
  (forall fs', within (eq MANIFEST_TMP_FILE_NAME) fs fs' -> P fs') -> crashes write_manifest (fs, e) P.
Proof.
  intros Hf Hwf Hp Ht HP. unfold write_manifest.
  eapply crashes_bind_inert; [apply inert_read_state|by apply read_state_ok|].
  eapply crashes_bind_inert; [apply inert_manifest_levels|by eapply manifest_levels_run|].
  apply crashes_on_fs, crashes_write_atomic; [done|done| |done]. by eapply trim_ok, live_metas_ok.
Qed.

(** ** Removing the logs

    While logs of flushed generations are left, the directory is that of an
    engine in which their memtables are still frozen. *)

Definition thaw (ps : list PendingImm) (e : LsmEngineInner) : LsmEngineInner :=
  set_state (mkEngineState (active (state e)) ps (levels (state e))) e.

Lemma thaw_ok fs e T a fs1 e1 T1 fs2 :
  engine_ok fs e T a -> mid_ok fs1 e1 T1 a (wal_seq <$> immutables (state e)) ->
  immutables (state e1) = [] -> mems e1 = mems e -> wal e1 = wal e ->
  (forall w, kept (wal_name w) fs fs1) -> manifest_current fs2 e1 ->
  keeps (fun n => n = MANIFEST_TMP_FILE_NAME \/ n = MANIFEST_FILE_NAME) fs1 fs2 ->
  (forall n, is_Some (dirents fs2 !! n) -> n = MANIFEST_FILE_NAME \/ is_Some (dirents fs1 !! n)) ->
  engine_ok fs2 (thaw (immutables (state e)) e1) T1 a.
Proof.
  intros Hok [F1 F2 F3 F4 F5 F6 F7 F8] Him Hms Hwal Hkw Hman K N. pose proof F8 as [W1 W2 W3 W4 W5].
  assert (forall w, kept (wal_name w) fs1 fs2) as Hkw2.
  { intros w. apply (kp_kept _ _ _ K). intros [Hn|Hn];
      [by eapply (initial_ne _ _ _ _ (initial_wal w) initial_manifest_tmp)
      |by eapply (initial_ne _ _ _ _ (initial_wal w) initial_manifest)]. }
  assert ((wal_seq <$> immutables (state e)) ++ live_wals e1 = live_wals (thaw (immutables (state e)) e1)) as Hlive
    by (unfold live_wals; by rewrite Him).
  rewrite Hlive in W3, W4, W5. split; try done.
  - apply K.
  - apply K.
  - intros n [->|Hn]%N; [done|by apply F3].
  - destruct (eo_mems _ _ _ _ Hok) as [_ M2 M3]. split; [apply F6| |done]. cbn. by rewrite Hms.
  - apply (tables_ok_same _ e1); [done|done|cbn; lia|]. eapply tables_ok_kept; [|done]. intros n Hn. apply (kp_kept _ _ _ K).
    destruct (live_path_name _ _ _ _ F7 Hn) as (l & s & -> & _).
    intros [Hx|Hx]; [by eapply (initial_ne _ _ _ _ (initial_sst l s) initial_manifest_tmp)
      |by eapply (initial_ne _ _ _ _ (initial_sst l s) initial_manifest)].
  - split; try done.
    + destruct W1 as (t & A1 & A2 & A3). exists t. cbn. split_and!; [done|by rewrite (proj1 (Hkw2 _))|].
      by rewrite (log_of_kept fs1 fs2 e1 _ A2 (Hkw2 _)).
    + intros p Hp. destruct (wo_frozen _ _ _ (eo_wals _ _ _ _ Hok) p Hp) as (t & ino & B1 & B2 & B3 & B4).
      exists t, ino. cbn. rewrite Hms.
      destruct (kept_data _ _ _ _ (kept_trans _ _ _ _ (Hkw (wal_seq p)) (Hkw2 (wal_seq p))) B3) as [-> ->]. done.
    + intros n s [->|Hn]%N Hp; [done|by apply W5].
Qed.

Lemma thaw_drop fs e T a p ps :
  engine_ok fs e T a -> immutables (state e) = p :: ps ->
  engine_ok (set_dirents (base.delete (wal_name (wal_seq p)) (dirents fs)) fs) (thaw ps e) T a.
Proof.
  intros [F1 F2 F3 F4 F5 [M1 M2 M3] F7 [W1 W2 W3 W4 W5] F9] Him.
  set (fs' := set_dirents _ fs). pose proof (keeps_remove (wal_name (wal_seq p)) fs F1 F2) as K. fold fs' in K.
  assert (live_wals e = wal_seq p :: live_wals (thaw ps e)) as Hlive by (unfold live_wals; by rewrite Him).
  rewrite Hlive in W3, W4, W5. apply StronglySorted_inv in W3 as [W3 W3']. apply Forall_cons in W4 as [W4' W4].
  assert (forall s, s ∈ live_wals (thaw ps e) -> kept (wal_name s) fs fs') as Hkw.
  { intros s Hs. apply (kp_kept _ _ _ K). intros Heq. rewrite Forall_forall in W3', W4.
    specialize (W3' s Hs). specialize (W4 s Hs). apply wal_name_inj in Heq; lia. }
  assert (forall n b, initial n = Some b -> b <> x77 -> kept n fs fs') as Hk.
  { intros n b Hn Hb. apply (kp_kept _ _ _ K). intros <-. rewrite initial_wal in Hn. congruence. }
  assert (forall n, is_Some (dirents fs' !! n) -> n <> wal_name (wal_seq p) /\ is_Some (dirents fs !! n)) as Hn.
  { intros n. cbn. rewrite lookup_delete. case_decide; [by intros []|]. by split. }
  unfold live_mems in M2, M3. rewrite Him in M2, M3. split; try done.
  - apply K.
  - intros n [_ Hx]%Hn. by apply F3.
  - apply Forall_cons in M2 as [A1 [_ A2]%Forall_cons]. apply NoDup_cons in M3 as [B1 [_ B2]%NoDup_cons].
    split; [done|by constructor|]. apply NoDup_cons. split; [|done]. intros Hin. apply B1.
    by apply list_elem_of_further.
  - apply (tables_ok_same _ e); [done|done|cbn; lia|]. eapply tables_ok_kept; [|exact F7]. intros n Hlp.
    destruct (live_path_name _ _ _ _ F7 Hlp) as (l & s & -> & _). by eapply Hk; [apply initial_sst|].
  - split; try done.
    + destruct W1 as (t & A1 & A2 & A3). pose proof (Hkw _ (live_wal_active (thaw ps e))) as Hka. exists t.
      change (wal (thaw ps e)) with (wal e) in *. split_and!; [done|by rewrite (proj1 Hka)|]. by rewrite (log_of_kept fs fs' e _ A2 Hka).
    + intros q Hq. destruct (W2 q) as (t & ino & B1 & B2 & B3 & B4);
        [rewrite Him; by apply list_elem_of_further|]. exists t, ino.
      by destruct (kept_data _ _ _ _ (Hkw _ (live_wal_frozen (thaw ps e) q Hq)) B3) as [-> ->].
    + intros n s [Hne Hx]%Hn Hp. destruct (W5 n s Hx Hp) as [-> [->|Hin]%elem_of_cons]; done.
  - eapply manifest_current_kept; [|exact F9]. by eapply Hk; [apply initial_manifest|].
Qed.

(** The tables repeat what the logs that are left hold. *)
Lemma thaw_view e T e1 T1 ps1 ps2 h k :
  immutables (state e) = ps1 ++ ps2 -> mems e1 = mems e ->
  first_some (table_sources T1 (levels (state e1))) k =
    first_some (((fun p => mem_entry (mems e) (mem p)) <$> reverse (immutables (state e))) ++
                table_sources T (levels (state e))) k ->
  view_from (thaw ps2 e1) T1 h k = view_from e T h k.
Proof.
  intros Him Hms Htab. unfold view_from. cbn [thaw set_state mems state immutables levels first_some].
  rewrite Hms. destruct (last_write h k); [done|]. f_equal. rewrite first_some_app, Htab, Him.
  rewrite reverse_app, fmap_app, <- first_some_app, <- app_assoc. apply first_some_again.
Qed.

Lemma log_entries_kept fs fs' s : kept (wal_name s) fs fs' -> log_entries fs' s = log_entries fs s.
Proof. intros Hk. unfold log_entries. by rewrite (kept_file_of _ _ _ Hk). Qed.

(** What a killed process leaves after the manifest was written. *)
Lemma crashes_remove_logs fs e T a e1 T1 fs1 b :
  engine_ok fs e T a -> engine_ok fs1 (thaw (immutables (state e)) e1) T1 a ->
  mems e1 = mems e -> wal e1 = wal e -> kept (wal_name (seq (wal e))) fs fs1 ->
  (forall k, first_some (table_sources T1 (levels (state e1))) k =
    first_some (((fun p => mem_entry (mems e) (mem p)) <$> reverse (immutables (state e))) ++
                table_sources T (levels (state e))) k) ->
  next_seq e1 - 1 <= b ->
  crashes (for_each (wal_seq <$> immutables (state e)) (fun w => ignore (on_fs (fs_remove_file (wal_name w)))))
    (fs1, e1) (fun fs' => recovers b fs' (durable fs e T)).
Proof.
  intros Hok Hok1 Hms Hwal Hka Htab Hb.
  apply (crashes_for_each _ (fun l s => exists ps1 ps2, immutables (state e) = ps1 ++ ps2 /\ l = wal_seq <$> ps2 /\
    s.2 = e1 /\ engine_ok s.1 (thaw ps2 e1) T1 a /\ kept (wal_name (seq (wal e))) fs s.1)).
  - intros w. apply steady_ignore, steady_on_fs, steady_fs_remove_file.
  - apply (eo_faults _ _ _ _ Hok1).
  - exists [], (immutables (state e)). by split_and!.
  - intros w l [fs2 e2] Hf (ps1 & [|p ps2] & Him & Hl & He & Hok2 & Hk); [done|]. cbn [fst snd] in He, Hok2, Hk. subst e2.
    rewrite fmap_cons in Hl. injection Hl as -> ->. split.
    + apply crashes_ignore; [exact Hf|apply steady_on_fs, steady_fs_remove_file|].
      apply crashes_on_fs, crashes_fs_remove_file; [exact Hf|].
      eapply recovers_ext; [|apply (engine_recovers _ _ _ _ b Hok2); exact Hb]. intros _ k.
      unfold durable. change (wal (thaw (p :: ps2) e1)) with (wal e1). rewrite Hwal, (log_entries_kept _ _ _ Hk).
      by apply (thaw_view e T e1 T1 ps1 (p :: ps2)).
    + intros [fs3 e3] Hrun.
      rewrite (ignore_remove_run (wal_name (wal_seq p)) fs2 e1 Hf) in Hrun. injection Hrun as <- <-. exists (ps1 ++ [p]), ps2. rewrite <- app_assoc.
      split_and!; [done..| |].
      * exact (thaw_drop _ _ _ _ p ps2 Hok2 eq_refl).
      * eapply kept_trans; [exact Hk|]. cbn.
        apply (kp_kept _ _ _ (keeps_remove (wal_name (wal_seq p)) fs2 Hf (eo_fs _ _ _ _ Hok2))).
        destruct (frozen_wal_lt fs e T a [] p (mid_of_ok _ _ _ _ Hok)) as [H1 H2]; [rewrite Him; set_solver|].
        pose proof (eo_next _ _ _ _ Hok). intros Heq%wal_name_inj; lia.
Qed.

(** ** [flush_all_pending] *)

Lemma crashes_flush_all_pending fs e T a b :
  engine_ok fs e T a -> files_fit fs -> small_frozen e -> next_seq e + len (immutables (state e)) <= u64_max ->
  next_seq e + len (immutables (state e)) - 1 <= b ->
  crashes flush_all_pending (fs, e) (fun fs' => recovers b fs' (durable fs e T)).
Proof.
  intros Hok Hfit Hsm Hroom Hb. pose proof (eo_poison _ _ _ _ Hok) as Hp. pose proof (eo_next _ _ _ _ Hok) as Hnx.
  pose proof (len_nonneg (immutables (state e))) as Hn.
  assert (forall fs', within (fresh_name (next_seq e)) fs fs' -> recovers b fs' (durable fs e T)) as Hfresh.
  { intros fs' Hw. apply (recovers_mono (next_seq e - 1)); [lia|].
    eapply (recovers_fresh _ (next_seq e)); [by eapply engine_recovers|lia|lia|exact Hw|done]. }
  destruct (drain_ok (S (length (immutables (state e)))) fs e T a [] (mid_of_ok _ _ _ _ Hok) Hsm Hroom)
    as (fs1 & e1 & T1 & Hd & Hm & Him & Hms & Hsl & Hkw & Hns & Hnil & Htab & _); [lia|]. cbn [app] in Hd, Hm.
  assert (forall P : Fs -> Prop, (forall fs', within (fresh_name (next_seq e)) fs fs' -> P fs') ->
    crashes (drain (S (length (immutables (state e)))) []) (fs, e) P /\ P fs1) as Hdrain.
  { intros P HP. pose proof (crashes_drain (S (length (immutables (state e)))) fs e T a [] P
      (mid_of_ok _ _ _ _ Hok) Hsm Hroom ltac:(lia) HP) as H'. by rewrite Hd in H'. }
  destruct (Hdrain _ (fun fs' Hw => Hw)) as [_ Hw1].
  unfold flush_all_pending. apply crashes_with_lock; [done|].
  eapply crashes_bind_inert; [apply inert_eng|reflexivity|]. cbn [snd].
  eapply crashes_bind_ok; [apply Hok|exact Hd|apply steady_drain|apply (Hdrain _ Hfresh)|].
  destruct (is_nil (wal_seq <$> immutables (state e))) eqn:Hempty; [apply crashes_ret|].
  destruct (write_manifest_ok fs1 e1 T1 (md_faults _ _ _ _ _ Hm) (md_fs _ _ _ _ _ Hm)
    (md_poison _ _ _ _ _ Hm) (md_tables _ _ _ _ _ Hm)) as (fs2 & Hman & Hcur & K2 & N2).
  eapply crashes_bind_ok; [apply Hm|exact Hman|apply steady_write_manifest|..].
  - eapply crashes_write_manifest; [apply Hm..|]. intros fs' Hw. apply Hfresh. eapply within_trans; [exact Hw1|].
    eapply within_mono; [|exact Hw]. intros x <-. by left.
  - eapply crashes_remove_logs; [exact Hok|apply (thaw_ok fs e T a fs1 e1 T1 fs2 Hok Hm Him Hms); [apply Hsl|done..]|done|apply Hsl| |done|lia].
    eapply kept_trans; [apply Hkw|]. apply (kp_kept _ _ _ K2). intros [Hx|Hx];
      [by eapply (initial_ne _ _ _ _ (initial_wal _) initial_manifest_tmp)
      |by eapply (initial_ne _ _ _ _ (initial_wal _) initial_manifest)].
Qed.
End flush.
