(* ===== verification/CrashCompact.v ===== *)
(** * Stopping in the middle of a compaction

    The merged table is a new file until the manifest names it; from then on the
    inputs are files nobody refers to.  At every system call the directory stands
    for what it stood for when the compaction began. *)

From S2P Require Import Prelude Outcome External Fs Crash MemTable Wal WalWriter WalReader.
From S2P Require Import StdVec SstRecord SstIndex Bloom Builder Reader Merge Manifest.
From S2P Require Import Names Engine Steady EngineSpec EngineGet EnginePut EngineFlush EngineCommit.
From S2P Require Import EngineCompact EngineOpen EngineRecover EngineDisk CrashWrite CrashFlush.

Section compact.
Context {C : Crc32} {SM : SkipMap Entry} {FB : FastBloom} {AL : Allocator}.

(** ** The merged table *)

Lemma crashes_build_merged n fs e rs (P : Fs -> Prop) :
  calm fs -> fs_wf fs -> rs_sorted rs -> Forall capped rs -> len (records_bytes rs) <= 2 ^ 60 -> n <= u64_max ->
  (forall fs', within (fresh_name n) fs fs' -> P fs') -> crashes (build_merged rs n) (fs, e) P.
Proof.
  intros F1 F2 Hsort Hc Hsm Hroom HP. unfold build_merged. cbn zeta.
  destruct (fill_builder_ok (len rs) rs Hc Hsort) as (b & blocks & cur & Hfill & Hb & Hcat & _ & _).
  eapply crashes_bind_inert; [apply inert_lift|unfold lift; by rewrite Hfill|]. set (name := sst_name 1 n).
  destruct (write_table_ok b blocks cur (tmp_name name) name fs e Hb)
    as (fs1 & Hwrite & Htw1); [by rewrite Hcat|done|done|apply tmp_ne_sst|].
  eapply crashes_bind_ok; [exact F1|exact (try_ok _ _ _ _ Hwrite)|apply steady_try, steady_write_table|..].
  - apply crashes_try. eapply crashes_write_table; [exact Hb|by rewrite Hcat|exact F1|exact F2|]. intros fs3 Hw.
    apply HP. eapply within_mono; [|exact Hw]. intros x. apply fresh_table; lia.
  - eapply crashes_bind_inert; [apply inert_ret|reflexivity|].
    eapply crashes_bind_inert; [by intros ? []|reflexivity|].
    eapply crashes_inert; [|reflexivity]. apply inert_alloc_handle.
Qed.

Lemma crashes_swap fs e T a out l0 ls (P : Fs -> Prop) :
  engine_ok fs e T a -> levels (state e) = l0 :: ls -> next_seq e < u64_max ->
  merged (run_of (handles e) T <$> inputs e) out -> Forall capped out -> len (records_bytes out) <= 2 ^ 60 ->
  (forall fs', within (fresh_name (next_seq e)) fs fs' -> P fs') ->
  let swap := output ← write_merged out;
    with_lock StateLock "state lock poisoned" (write_state (commit_compact output)) in
  crashes swap (fs, e) P /\ P (killed (swap (fs, e)).2.1).
Proof.
  intros Hok Hl Hroom Hm Hc Hsm HP. pose proof Hok as [F1 F2 F3 F4 F5 F6 F7 F8 F9].
  assert (P fs) as HP0 by (by apply HP, within_refl).
  destruct (decide (out = [])) as [->|Hne].
  { cbn zeta. split.
    2: { pose proof (quiet_locked StateLock "state lock poisoned" (commit_compact None)
          (inert_quiet _ (inert_commit_compact None)) (fs, e)) as Hq. cbn [disk machine_pair machine_fs id fst] in Hq.
         unfold write_merged. cbn [is_nil]. rewrite (M_bind_ok _ _ _ None (fs, e)) by done. rewrite Hq.
         by rewrite killed_calm. }
    unfold write_merged. cbn [is_nil].
    eapply crashes_bind_inert; [apply inert_ret|reflexivity|]. apply crashes_commit; [done|done|apply inert_commit_compact|done]. }
  destruct (write_merged_ok fs e out F1 F2 ltac:(lia) (mg_sorted _ _ Hm) Hc Hsm Hne) as (fs' & Hrun & Htw).
  assert (P fs') as HP1 by (apply HP; by eapply (table_within (next_seq e) 1 (next_seq e)); [lia..|]).
  cbn zeta. split.
  2: { set (e1 := allocated e _) in Hrun.
       pose proof (quiet_locked StateLock "state lock poisoned" (commit_compact (Some (length (handles e))))
         (inert_quiet _ (inert_commit_compact _)) (fs', e1)) as Hq. cbn [disk machine_pair machine_fs id fst] in Hq.
       rewrite (M_bind_ok _ _ _ _ _ Hrun). rewrite Hq. rewrite killed_calm; [done|apply Htw]. }
  eapply crashes_bind_ok; [exact F1|exact Hrun|apply steady_write_merged|..].
  2: { apply crashes_commit; [apply Htw|done|apply inert_commit_compact|done]. }
  revert Hrun. unfold write_merged. rewrite (proj2 (is_nil_false out)) by done. intros Hrun.
  eapply crashes_bind_inert; [apply inert_fetch_add_seq|apply fetch_add_seq_ok; lia|]. clear Hrun.
  destruct (build_merged_ok fs (drawn e) out (next_seq e) F1 F2 (mg_sorted _ _ Hm) Hc Hsm) as (fs2 & Hbuild & _).
  eapply crashes_bind_ok; [exact F1|exact Hbuild|apply steady_build_merged|..]; [|apply crashes_ret].
  apply crashes_build_merged; [exact F1|exact F2|apply Hm|done..|lia|done].
Qed.

(** ** The inputs *)

Lemma remove_dead fs e T a n :
  engine_ok fs e T a -> initial n = Some x4c -> ~ live_path e n ->
  engine_ok (set_dirents (base.delete n (dirents fs)) fs) e T a.
Proof.
  intros Hok Hn Hdead. pose proof (eo_faults _ _ _ _ Hok) as Hf. pose proof (eo_fs _ _ _ _ Hok) as Hwf.
  eapply (finish_compact fs e T a fs _ (eq n)); [by apply mid_of_ok|apply Hok|by apply keeps_refl|by right|by apply keeps_remove|..].
  - intros x. cbn. rewrite lookup_delete. case_decide; [by intros []|done].
  - by intros x <-.
Qed.

Lemma crashes_remove_inputs fs e T a (ids : list nat) (P : Fs -> Prop) :
  engine_ok fs e T a ->
  (forall i, i ∈ ids -> exists h, handles e !! i = Some h /\ initial (path h) = Some x4c /\ ~ live_path e (path h)) ->
  (forall fs', engine_ok fs' e T a -> kept (wal_name (seq (wal e))) fs fs' -> P fs') ->
  crashes (for_each ids (fun i => h ← handle_at i; ignore (on_fs (fs_remove_file (path h))))) (fs, e) P.
Proof.
  intros Hok Hids HP.
  apply (crashes_for_each _ (fun l s => (forall i, i ∈ l -> i ∈ ids) /\ s.2 = e /\ engine_ok s.1 e T a /\
    kept (wal_name (seq (wal e))) fs s.1)).
  - intros i. apply steady_bind; [apply inert_steady, inert_handle_at|]. intros h.
    apply steady_ignore, steady_on_fs, steady_fs_remove_file.
  - apply (eo_faults _ _ _ _ Hok).
  - by split_and!.
  - intros i l [fs1 e1] Hf (Hin & He & Hok1 & Hk). cbn [fst snd] in He, Hok1, Hk. subst e1.
    destruct (Hids i) as (h & Hh & Hini & Hdead); [apply Hin, list_elem_of_here|].
    pose proof (handle_at_ok fs1 e i h Hh) as Hat. split.
    + eapply crashes_bind_inert; [apply inert_handle_at|exact Hat|].
      apply crashes_ignore; [exact Hf|apply steady_on_fs, steady_fs_remove_file|].
      apply crashes_on_fs, crashes_fs_remove_file; [exact Hf|by apply HP].
    + intros [fs2 e2]. rewrite (M_bind_ok _ _ _ _ _ Hat).
      rewrite (ignore_remove_run (path h) fs1 e Hf). intros [= <- <-]. split_and!; [|done|by apply remove_dead|].
      * intros j Hj. apply Hin. by apply list_elem_of_further.
      * eapply kept_trans; [exact Hk|]. apply (kp_kept _ _ _ (keeps_remove (path h) fs1 Hf (eo_fs _ _ _ _ Hok1))).
        intros Heq. by rewrite Heq, initial_wal in Hini.
Qed.

(** ** [compact_all_pending] *)

Lemma view_from_tables e e' T T' h k :
  mems e' = mems e -> immutables (state e') = immutables (state e) ->
  first_some (table_sources T' (levels (state e'))) k ≫= entry_value =
    first_some (table_sources T (levels (state e))) k ≫= entry_value ->
  view_from e' T' h k = view_from e T h k.
Proof.
  intros Em Ei H. unfold view_from. cbn [first_some]. rewrite Em, Ei, !first_some_app.
  destruct (last_write h k); [done|].
  by destruct (first_some ((fun p => mem_entry (mems e) (mem p)) <$> _) k).
Qed.

Lemma crashes_compact fs e T a b :
  engine_ok fs e T a -> files_fit fs -> tables_small e T -> next_seq e < u64_max -> next_seq e <= b ->
  crashes compact (fs, e) (fun fs' => recovers b fs' (durable fs e T)).
Proof.
  intros Hok Hfit Hsm Hroom Hb. pose proof (eo_poison _ _ _ _ Hok) as Hp. pose proof (eo_faults _ _ _ _ Hok) as Hf.
  pose proof (eo_next _ _ _ _ Hok) as Hnx.
  assert (forall fs', within (fresh_name (next_seq e)) fs fs' -> recovers b fs' (durable fs e T)) as Hfresh.
  { intros fs' Hw. apply (recovers_mono (next_seq e - 1)); [lia|].
    eapply (recovers_fresh _ (next_seq e)); [by eapply engine_recovers|lia|lia|exact Hw|done]. }
  assert (recovers b (killed fs) (durable fs e T)) as Hhere.
  { rewrite killed_calm by done. apply Hfresh, within_refl; [done|apply Hok]. }
  unfold compact, compact_all_pending. apply crashes_with_lock; [done|].
  eapply crashes_bind_inert; [apply inert_read_state|by apply read_state_ok|].
  destruct (levels (state e)) as [|[|i0 l0] ls] eqn:Hl; [apply crashes_ret..|]. cbn [head].
  assert ((i0 :: l0) ++ default [] (((i0 :: l0) :: ls) !! 1%nat) = inputs e) as ->
    by (unfold inputs; by rewrite Hl).
  destruct (read_runs_ok fs e T a (inputs e) Hok (inputs_live e)) as (e1 & Hruns & Hc & Hok1).
  destruct (cached_state _ _ Hc) as (Est & Ems & Ewal & Enx & _).
  assert (forall k h, view_from e1 T h k = view_from e T h k) as Hvf
    by (intros k h; unfold view_from; by rewrite Est, Ems).
  destruct (merge_runs_ok _ (runs_mergeable fs e T (eo_tables _ _ _ _ Hok))) as (out & Hmerge & Hm).
  assert (inputs e1 = inputs e) as Ein by (unfold inputs; by rewrite Est).
  assert (run_of (handles e1) T <$> inputs e1 = run_of (handles e) T <$> inputs e) as Erun.
  { rewrite Ein. apply list_fmap_ext. intros _ j _. unfold run_of. by rewrite (cached_seq_of e e1). }
  pose proof (merged_capped _ _ _ _ (eo_tables _ _ _ _ Hok) Hm) as Hcap. pose proof (merged_fits _ _ _ Hsm Hm) as Hsmall.
  rewrite <- Erun in Hm. assert (levels (state e1) = (i0 :: l0) :: ls) as Hl1 by (by rewrite Est).
  destruct (swap_ok fs e1 T a out (i0 :: l0) ls Hok1 Hl1 ltac:(lia) Hm Hcap Hsmall)
    as (fs2 & e2 & T2 & Hswap & Hmid & Hdead & Hhs & Em2 & [Ew2 _] & Ei2 & En2 & _ & Hview).
  assert (forall P : Fs -> Prop, (forall fs', within (fresh_name (next_seq e)) fs fs' -> P fs') ->
    crashes (output ← write_merged out;
      with_lock StateLock "state lock poisoned" (write_state (commit_compact output))) (fs, e1) P /\ P fs2) as Hsw.
  { intros P HP. rewrite <- Enx in HP.
    destruct (crashes_swap fs e1 T a out (i0 :: l0) ls P Hok1 Hl1 ltac:(lia) Hm Hcap Hsmall HP) as [H1 H2].
    rewrite Hswap in H2. cbn in H2. rewrite killed_calm in H2 by apply Hmid. by split. }
  destruct (Hsw _ (fun fs' Hw => Hw)) as [_ Hw2].
  destruct (write_manifest_ok fs2 e2 T2 (md_faults _ _ _ _ _ Hmid) (md_fs _ _ _ _ _ Hmid)
      (md_poison _ _ _ _ _ Hmid) (md_tables _ _ _ _ _ Hmid)) as (fs3 & Hman & Hcur & K3 & N3).
  eapply crashes_bind_ok; [exact Hf|exact Hruns|apply steady_map_each, steady_read_run|..].
  { apply quiet_crashes; [apply quiet_map_each, quiet_read_run|done]. }
  eapply crashes_bind_inert; [apply inert_lift|unfold lift; by rewrite Hmerge|].
  apply crashes_assoc. eapply crashes_bind_ok; [exact Hf|exact Hswap| |by apply Hsw|].
  { apply steady_bind; [apply steady_write_merged|]. intros o.
    by apply steady_with_lock, steady_write_state, inert_steady, inert_commit_compact. }
  eapply crashes_bind_ok; [apply Hmid|exact Hman|apply steady_write_manifest|..].
  { eapply crashes_write_manifest; [apply Hmid..|]. intros fs' Hw. apply Hfresh.
    eapply within_trans; [exact Hw2|]. eapply within_mono; [|exact Hw]. intros x <-. by left. }
  assert (forall i, i ∈ inputs e -> exists h, handles e2 !! i = Some h /\ initial (path h) = Some x4c /\
    ~ live_path e2 (path h)) as Hin.
  { intros i Hi. rewrite <- Ein in Hi. destruct (inputs_live e1 i Hi) as [l Hlv].
    destruct (live_handle _ _ _ _ _ _ Hok1 Hlv) as (h & Hh & _). exists h. rewrite Hhs by done.
    assert (live_path e1 (path h)) as Hlp by (by exists l, i, h). split_and!; [done| |by apply Hdead].
    destruct (live_path_name _ _ _ _ (eo_tables _ _ _ _ Hok1) Hlp) as (l' & s & -> & _). apply initial_sst. }
  apply (crashes_remove_inputs fs3 e2 T2 a (inputs e)).
  - eapply (finish_compact fs2 e2 T2 a fs3 fs3 (fun _ => False)); try done. by apply keeps_refl; apply K3.
  - done.
  - intros fs' Hok' Hk'. eapply recovers_ext; [|apply (engine_recovers _ _ _ _ b Hok'); lia].
    intros _ k. unfold durable. rewrite Ew2, Ewal.
    assert (kept (wal_name (seq (wal e))) fs fs') as Hk.
    { eapply kept_trans; [eapply within_kept; [exact Hw2|by intros ?%(fresh_not_wal _ _ (seq (wal e)))]|].
      eapply kept_trans; [apply (kp_kept _ _ _ K3)|by rewrite <- Ewal, <- Ew2]. intros [Hx|Hx];
        [by eapply (initial_ne _ _ _ _ (initial_wal _) initial_manifest_tmp)
        |by eapply (initial_ne _ _ _ _ (initial_wal _) initial_manifest)]. }
    rewrite (log_entries_kept _ _ _ Hk), <- Hvf. by apply view_from_tables.
Qed.
End compact.
