(* ===== verification/CrashOpen.v ===== *)
(** * Stopping in the middle of opening

    Recovery logs the replayed table again before it removes the old logs, so
    that it can itself be stopped anywhere: the next recovery finds the same
    contents. *)

From S2P Require Import Prelude Outcome External Fs Crash MemTable Wal WalWriter WalReader.
From S2P Require Import StdVec SstRecord SstIndex Bloom Builder Reader Merge Manifest.
From S2P Require Import Names Engine Steady EngineSpec EngineGet EnginePut EngineFlush EngineCommit.
From S2P Require Import EngineCompact EngineOpen EngineRecover EngineDisk CrashWrite CrashFlush.

Section reopen.
Context {C : Crc32} {SM : SkipMap Entry} {FB : FastBloom} {AL : Allocator}.

(** ** The recovered entries are in the new log and in the old ones *)

Lemma replayed_mutations t :
  Forall replayed (iter t) -> entry_mutation <$> (entry_of <$> iter t) = iter t.
Proof.
  intros Hr. rewrite <- list_fmap_compose. rewrite <- (list_fmap_id (iter t)) at 2.
  apply list_fmap_ext. intros i kv Hi. cbn. by apply (Forall_lookup_1 _ _ _ _ Hr Hi).
Qed.

(** A part of a table holds nothing else than the table. *)
Lemma last_write_part t m k en : last_write (take m (iter t)) k = Some en -> get_entry t k = Some en.
Proof.
  intros H%assoc_elem_of. apply list_elem_of_In, in_rev, list_elem_of_In in H.
  rewrite <- iter_get_entry. apply elem_of_assoc; [apply iter_sorted|].
  apply list_elem_of_lookup in H as [i Hi]. apply lookup_take_Some in Hi as [Hi _]. by eapply list_elem_of_lookup_2.
Qed.

Lemma last_write_iter t k : last_write (iter t) k = get_entry t k.
Proof. unfold last_write. by rewrite assoc_rev, iter_get_entry by apply iter_sorted. Qed.

Lemma relog_view t ws1 ws2 n m k :
  Forall replayed (iter t) -> (forall k, get_entry t k = last_write (logged (ws1 ++ ws2)) k) ->
  ws1 = [] \/ (length (iter t) <= m)%nat ->
  last_write (logged (ws2 ++ [(n, take m (entry_of <$> iter t))])) k = last_write (logged (ws1 ++ ws2)) k.
Proof.
  intros Hr Hget Hm. rewrite logged_app, last_write_app. unfold logged at 1.
  change ([(n, take m (entry_of <$> iter t))].*2) with [take m (entry_of <$> iter t)]. cbn [concat].
  rewrite app_nil_r, <- fmap_take, fmap_take, fmap_take, replayed_mutations by done.
  destruct (last_write (take m (iter t)) k) as [en|] eqn:E.
  - by apply last_write_part in E as <-.
  - destruct Hm as [->|Hm]; [done|]. rewrite take_ge in E by done. rewrite last_write_iter, Hget in E.
    rewrite logged_app, last_write_app in E |- *. by destruct (last_write (logged ws2) k).
Qed.

(** ** The directory while the logs are rewritten *)

(** The new log [n] holds [d], the logs [ws1] are gone, the others are as
    before. *)
Record reopening (fs : Fs) (ws1 : list (Z * list WalEntry)) (n : Z) (d : bytes) (fs' : Fs) : Prop := {
  re_within : within (fun x => x ∈ wal_name <$> n :: ws1.*1) fs fs';
  re_new : file_of fs' (wal_name n) = Some d;
  re_gone : Forall (fun s => dirents fs' !! wal_name s = None) (ws1.*1);
}.

Lemma reopening_recovers fs ms R ws1 ws2 n t m tail b fs' :
  disk_ok fs ms R (ws1 ++ ws2) -> Forall (fun x => Manifest.seq x <= b) (concat ms) ->
  Forall (fun s => s < n) ((ws1 ++ ws2).*1) -> 0 <= n <= b -> b <= u64_max -> Forall replayed (iter t) ->
  (forall k, get_entry t k = last_write (logged (ws1 ++ ws2)) k) -> ws1 = [] \/ (length (iter t) <= m)%nat ->
  torn tail -> reopening fs ws1 n (frames (take m (entry_of <$> iter t)) ++ tail) fs' ->
  recovers b fs' (disk_view ms R (ws1 ++ ws2)).
Proof.
  intros Hd Hms Hlt Hn Hb Hr Hget Hm Htorn [Hw Hnew Hgone] Hfit.
  pose (es := take m (entry_of <$> iter t)). fold es in Hnew.
  pose proof (dk_range _ _ _ _ Hd) as Hrange. pose proof (dk_sorted _ _ _ _ Hd) as Hsort.
  rewrite fmap_app in Hlt, Hrange, Hsort. apply Forall_app in Hlt as [Hlt1 Hlt2], Hrange as [Hr1 Hr2].
  apply StronglySorted_app in Hsort as (Hs12 & Hs1 & Hs2).
  rewrite Forall_forall in Hlt1, Hlt2, Hr1, Hr2, Hgone.
  assert (forall s, s ∈ ws2.*1 -> kept (wal_name s) fs fs') as Hkw.
  { intros s Hs. eapply within_kept; [exact Hw|]. intros (s' & Heq & Hs')%list_elem_of_fmap.
    specialize (Hr2 s Hs). specialize (Hlt2 s Hs).
    apply elem_of_cons in Hs' as [->|Hs']; [apply wal_name_inj in Heq; lia|].
    specialize (Hr1 s' Hs'). specialize (Hs12 s' s Hs' Hs). apply wal_name_inj in Heq; lia. }
  exists ms, R, (ws2 ++ [(n, es)]). split; [|split].
  - eapply disk_ok_relog; [exact Hd|exact Hw|..]; rewrite ?fmap_app; change ([(n, es)].*1) with [n].
    + intros x (s & -> & [->|Hs]%elem_of_cons)%list_elem_of_fmap; [exists n; split; [done|lia]|].
      exists s. split; [done|by apply Hr1].
    + apply Forall_app. split.
      * pose proof (dk_logs _ _ _ _ Hd) as [_ Hl2]%Forall_app. rewrite Forall_forall in Hl2 |- *.
        intros w Hw2. eapply log_file_kept; [|by apply Hl2]. by apply Hkw, list_elem_of_fmap_2.
      * constructor; [|constructor]. unfold file_of in Hnew.
        destruct (dirents fs' !! wal_name n) as [ino|] eqn:Hdn; [|done]. cbn in Hnew. injection Hnew as Hnew.
        exists ino, tail. cbn [fst snd]. split; [done|]. split; [done|]. split; [done|]. split.
        -- apply Forall_take, Forall_fmap. eapply Forall_impl; [exact Hr|]. by intros kv [[? _] _].
        -- apply (Hfit (wal_name n)). unfold file_of. by rewrite Hdn.
    + apply StronglySorted_app. split; [|split; [done|by repeat constructor]].
      intros x y Hx ->%list_elem_of_singleton. by apply Hlt2.
    + apply Forall_app. split; [by apply Forall_forall|]. constructor; [lia|constructor].
    + intros s Hs Hx. pose proof Hx as [Hin|(s' & Heq & Hs')%list_elem_of_fmap]%(wi_names _ _ _ Hw).
      * destruct (dk_only _ _ _ _ Hd _ s Hin) as [_ Hs']; [by apply parse_wal_name_ok|].
        rewrite fmap_app in Hs'. apply elem_of_app in Hs' as [Hs'|Hs']; [|by apply elem_of_app; left].
        rewrite (Hgone s Hs') in Hx. by destruct Hx.
      * apply elem_of_cons in Hs' as [->|Hs'].
        -- apply wal_name_inj in Heq; [|lia..]. subst. apply elem_of_app; right. by apply list_elem_of_singleton.
        -- rewrite Heq, (Hgone s' Hs') in Hx. by destruct Hx.
  - split; [exact Hms|]. rewrite fmap_app. apply Forall_app. split; [|constructor; [cbn; lia|constructor]].
    apply Forall_forall. intros s Hs. specialize (Hlt2 s Hs). lia.
  - intros k. unfold disk_view, es. by rewrite (relog_view t ws1 ws2 n m k Hr Hget Hm).
Qed.

(** ** Logging the recovered table again *)

Lemma within_created n ino fs fs1 : fs_wf fs -> wrote (wal_name n) ino [] fs fs1 ->
  reopening fs [] n [] fs1.
Proof.
  intros Hwf Hw. split; [|by rewrite (wrote_file_of _ _ _ _ _ _ Hw Hwf), decide_True|constructor].
  eapply within_mono; [|exact (within_wrote _ _ _ _ _ Hwf Hw)]. intros x <-. by apply list_elem_of_singleton.
Qed.

(** The new log grew. *)
Lemma reopening_extends n ino d fs fs1 fs' :
  fs_wf fs -> wrote (wal_name n) ino [] fs fs1 -> extends ino d fs1 fs' ->
  data_of fs' ino `prefix_of` d /\ reopening fs [] n (data_of fs' ino) (killed fs').
Proof.
  intros Hwf Hw [HF _ HB]. split; [done|].
  assert (dirents fs1 !! wal_name n = Some ino) as Hn by (by rewrite (wr_dirents _ _ _ _ _ Hw), lookup_insert_eq).
  pose proof (within_frames _ _ _ _ (wr_faults _ _ _ _ _ Hw) (wrote_wf _ _ _ _ _ Hw Hwf) Hn HF) as W.
  split; [|destruct HF as (D & _); unfold file_of; change (dirents (killed fs')) with (dirents fs');
    by rewrite D, Hn|constructor].
  eapply within_trans; [eapply within_mono; [|exact (within_wrote _ _ _ _ _ Hwf Hw)]|eapply within_mono; [|exact W]];
    intros x <-; by apply list_elem_of_singleton.
Qed.

Lemma crashes_relog fs w t (P : Fs -> Prop) :
  calm fs -> log_of fs w = [] -> Forall replayed (iter t) ->
  (forall fs', extends (bw_file (ww_file w)) (frames (entry_of <$> iter t)) fs fs' -> P (killed fs')) ->
  crashes (if MemTable.is_empty t then mret tt else _ ← for_each (iter t) append_entry; sync) (fs, w) P.
Proof.
  intros Hf Hlog Hr HP. destruct (MemTable.is_empty t); [apply crashes_ret|].
  pose (I := fun (l : list (bytes * Entry)) (s : Fs * WalWriter) => exists dn, iter t = dn ++ l /\
    took (frames (entry_of <$> dn)) fs w s.1 s.2).
  assert (I (iter t) (fs, w)) as HI0.
  { exists []. split; [done|]. split; [split; [done|split; [by apply touches_refl|by rewrite app_nil_r]]|].
    apply extends_refl. unfold log_of. rewrite <- app_assoc. by eexists. }
  assert (forall kv l s, calm s -> I (kv :: l) s -> exists s1, append_entry kv s = (Ok tt, s1) /\ I l s1) as Hstep.
  { intros kv l [fs1 w1] Hf1 (dn & Hit & HT). cbn [fst snd] in HT. assert (encodable (entry_of kv)) as Hen.
    { rewrite Forall_forall in Hr. apply Hr. rewrite Hit. set_solver. }
    destruct (append_took (entry_of kv) fs1 w1 Hf1 Hen) as (fs2 & w2 & H2 & [HL2 HE2]).
    exists (fs2, w2). split; [done|]. exists (dn ++ [kv]). rewrite <- app_assoc. split; [done|].
    rewrite fmap_app, frames_app. cbn [fmap list_fmap]. rewrite frames_cons, app_nil_r.
    destruct HT as [HL HE]. split; [by eapply logs_trans|]. destruct HL as (B & _ & L).
    rewrite app_assoc, <- L. rewrite B in HE2. by eapply extends_trans. }
  assert (exists s1, for_each (iter t) append_entry (fs, w) = (Ok tt, s1) /\ I [] s1 /\ calm s1) as (s1 & Hrun & HI1 & Hf1).
  { assert (calm (fs, w)) as Hc by done. revert Hc HI0. generalize (fs, w) as s. generalize (iter t) as l.
    induction l as [|kv l IH]; intros s Hc HI; [by exists s|].
    destruct (Hstep kv l s Hc HI) as (s2 & H2 & HI2). cbn [for_each]. rewrite (M_bind_ok _ _ _ _ _ H2).
    apply IH; [|done]. destruct HI2 as (dn & _ & (_ & T2 & _) & _). apply (touches_faults _ _ _ T2). }
  assert (forall d, d `prefix_of` frames (entry_of <$> iter t) -> log_of fs w ++ d `prefix_of` frames (entry_of <$> iter t)) as Hpre
    by (intros d; by rewrite Hlog).
  eapply crashes_bind_ok; [exact Hf|exact Hrun|apply steady_for_each, steady_append_entry|..].
  - apply (crashes_for_each _ I); [apply steady_append_entry|exact Hf|exact HI0|].
    intros kv l s Hc HI. destruct (Hstep kv l s Hc HI) as (s2 & H2 & HI2). split.
    + destruct s as [fs3 w3], HI as (dn & Hit & HT). cbn [fst snd] in HT. assert (encodable (entry_of kv)) as Hen.
      { rewrite Forall_forall in Hr. apply Hr. rewrite Hit. set_solver. }
      apply (crashes_append (entry_of kv) fs3 w3 P Hen Hc). intros fs' Hex. apply HP.
      destruct HT as [(B & _ & L) HE]. rewrite B, L in Hex.
      destruct (extends_trans _ _ _ _ _ _ HE Hex) as [E1 E2 E3]. split; [done|done|]. etrans; [exact E3|].
      rewrite <- app_assoc. apply Hpre. rewrite Hit, fmap_app, frames_app. apply prefix_app.
      rewrite fmap_cons, frames_cons. by eexists.
    + intros s3 H3. rewrite H2 in H3. by injection H3 as <-.
  - destruct s1 as [fs1 w1], HI1 as (dn & Hit & HT). rewrite app_nil_r in Hit. subst dn. cbn [fst snd] in HT.
    apply crashes_sync; [exact Hf1|]. intros fs' Hex. apply HP.
    pose proof (took_extends _ _ _ _ _ _ HT Hex) as [E1 E2 E3]. split; [done|done|]. etrans; [exact E3|]. by apply Hpre.
Qed.

(** ** Removing the old logs *)

Lemma reopening_remove fs ws1 w n d fs1 :
  calm fs1 -> wal_name n <> wal_name w.1 -> reopening fs ws1 n d fs1 ->
  reopening fs (ws1 ++ [w]) n d (set_dirents (base.delete (wal_name w.1) (dirents fs1)) fs1).
Proof.
  intros Hf Hne [W N G]. split.
  - eapply within_trans; [eapply within_mono; [|exact W]|].
    + intros x (s & -> & Hs)%list_elem_of_fmap. apply list_elem_of_fmap_2. rewrite fmap_app. set_solver.
    + eapply (within_mono (eq (wal_name w.1))).
      * intros x <-. apply list_elem_of_fmap_2. rewrite fmap_app. set_solver.
      * apply within_keeps; [apply keeps_remove; [done|apply W]|]. intros x. cbn. rewrite lookup_delete.
        case_decide; [by left|by right].
  - by rewrite remove_file_of, decide_False by (by apply not_eq_sym).
  - rewrite fmap_app. apply Forall_app. split; [|constructor; [cbn; by rewrite lookup_delete_eq|constructor]].
    eapply Forall_impl; [exact G|]. intros s Hs. cbn. rewrite lookup_delete. by case_decide.
Qed.

(** The old logs go, the new one stays. *)
Lemma crashes_remove_old fs ms R ws n t b fs1 w1 :
  disk_ok fs ms R ws -> Forall (fun x => Manifest.seq x <= b) (concat ms) -> Forall (fun s => s < n) (ws.*1) ->
  0 <= n <= b -> b <= u64_max -> Forall replayed (iter t) -> (forall k, get_entry t k = last_write (logged ws) k) ->
  calm fs1 -> reopening fs [] n (frames (entry_of <$> iter t)) fs1 ->
  crashes (S := Fs * WalWriter)
    (_ ← for_each (wal_ref <$> ws) (fun f => ignore (on_fs (fs_remove_file f.2))); on_fs runtime_build)
    (fs1, w1) (fun fs' => recovers b fs' (disk_view ms R ws)).
Proof.
  intros Hd Hms Hlt Hn Hb Hr Hget Hf1 Hre. set (D := frames (entry_of <$> iter t)) in *.
  pose (I := fun (l : list (Z * string)) (s : Fs * WalWriter) => exists ws1 ws2, ws = ws1 ++ ws2 /\ l = wal_ref <$> ws2 /\
    reopening fs ws1 n D s.1).
  set (remove := fun f : Z * string => ignore (on_fs (W := WalWriter) (fs_remove_file f.2))).
  assert (forall ws1 ws2 fs2, ws = ws1 ++ ws2 -> reopening fs ws1 n D fs2 -> recovers b fs2 (disk_view ms R ws)) as Hrec.
  { intros ws1 ws2 fs2 -> Hre2.
    apply (reopening_recovers fs ms R ws1 ws2 n t (length (entry_of <$> iter t)) [] b fs2); try done.
    - right. by rewrite length_fmap.
    - apply torn_nil.
    - by rewrite app_nil_r, firstn_all. }
  assert (forall x l s s1, calm s -> I (x :: l) s -> remove x s = (Ok tt, s1) -> I l s1) as Hstep.
  { intros x l [fs2 w2] s1 Hf2 (ws1 & [|w ws2] & Hws & Hl & Hre2) Hrun; [done|]. rewrite fmap_cons in Hl.
    injection Hl as -> ->. unfold remove in Hrun. cbn [wal_ref snd] in Hrun. rewrite (ignore_remove_run (wal_name w.1) fs2 w2 Hf2) in Hrun.
    injection Hrun as <-. exists (ws1 ++ [w]), ws2. rewrite <- app_assoc. split_and!; [done..|].
    apply reopening_remove; [done| |done]. pose proof (dk_range _ _ _ _ Hd) as Hrg.
    rewrite Forall_forall in Hrg. rewrite Forall_forall in Hlt.
    assert (w.1 ∈ ws.*1) as Hin by (apply list_elem_of_fmap_2; rewrite Hws; set_solver).
    specialize (Hrg _ Hin). specialize (Hlt _ Hin). intros Heq%wal_name_inj; lia. }
  assert (forall f, steady (remove f)) as Hst
    by (intros f; apply steady_ignore, steady_on_fs, steady_fs_remove_file).
  assert (I (wal_ref <$> ws) (fs1, w1)) as HI by (by exists [], ws).
  apply crashes_bind; [exact Hf1|by apply steady_for_each|..].
  - apply (crashes_for_each _ I); [exact Hst|exact Hf1|exact HI|]. intros x l [fs2 w2] Hf2 HI2. split.
    + destruct HI2 as (ws1 & ws2 & Hws & _ & Hre2). apply crashes_ignore; [exact Hf2|apply steady_on_fs, steady_fs_remove_file|].
      apply crashes_on_fs, crashes_fs_remove_file; [exact Hf2|]. by eapply Hrec.
    + intros s1. by apply Hstep.
  - intros [] [fs2 w2] Hrun Hf2.
    pose proof (for_each_inv _ I _ (fs1, w1) _ Hst Hf1 HI Hstep Hrun) as (ws1 & ws2 & Hws & _ & Hre2).
    apply crashes_on_fs, crashes_syscall; [syscall_tac|exact Hf2| |done]. by eapply Hrec.
Qed.

(** ** [open_with_options] *)

Lemma moved_inv {S W A} (w : W) (body : M (S * W) A) dtor s a s' w' :
  moved w body dtor s = (Ok (a, w'), s') -> body (s, w) = (Ok a, (s', w')).
Proof.
  unfold moved. destruct (body (s, w)) as [[a1|e| |] [s1 w1]]; [by intros [= <- <- <-]|..];
    by repeat case_match.
Qed.

(** From the new log's creation to the end. *)
Lemma crashes_relogged {B} fs ms R ws n t b fs1 w1 fs' w (f : unit * WalWriter -> M Fs B) :
  disk_ok fs ms R ws -> Forall (fun x => Manifest.seq x <= b) (concat ms) -> Forall (fun s => s < n) (ws.*1) ->
  0 <= n <= b -> b <= u64_max -> Forall replayed (iter t) -> (forall k, get_entry t k = last_write (logged ws) k) ->
  wal_create (wal_name n) fs = (Ok w1, fs1) ->
  let body := (_ ← (if MemTable.is_empty t then mret tt else _ ← for_each (iter t) append_entry; sync);
    _ ← for_each (wal_ref <$> ws) (fun f => ignore (on_fs (fs_remove_file f.2)));
    on_fs runtime_build) in
  moved w1 body wal_drop fs1 = (Ok (tt, w), fs') -> (forall a s, inert (f a) /\ (f a s).1 <> Halt) ->
  crashes (moved w1 body wal_drop ≫= f) fs1 (fun fs' => recovers b fs' (disk_view ms R ws)).
Proof.
  intros Hd Hms Hlt Hn Hb Hr Hget Hcr body Hmv Hf'.
  pose proof (dk_faults _ _ _ _ Hd) as Hf. pose proof (dk_fs _ _ _ _ Hd) as Hwf.
  destruct (file_create_ok (wal_name n) fs Hf Hwf) as (ino & fs1' & Hcr' & Hwr).
  unfold wal_create in Hcr. rewrite (M_bind_ok _ _ _ _ _ Hcr') in Hcr. injection Hcr as <- <-.
  set (w1 := mkWalWriter (bw_new ino) (wal_name n) []) in *. pose proof (wr_faults _ _ _ _ _ Hwr) as Hf1.
  assert (log_of fs1' w1 = []) as Hlog by (unfold log_of; cbn; by rewrite (wr_data _ _ _ _ _ Hwr)).
  assert (forall d fs2, d `prefix_of` frames (entry_of <$> iter t) -> reopening fs [] n d fs2 ->
    recovers b fs2 (disk_view ms R ws)) as Hrec.
  { intros d fs2 [rest Hd2] Hre.
    destruct (take_frames (entry_of <$> iter t) (length d)) as (m & tail & Htake & Htorn & _ & _).
    { apply Forall_fmap. eapply Forall_impl; [exact Hr|]. by intros kv [[? _] _]. }
    rewrite Hd2, take_app_length in Htake. rewrite Htake in Hre.
    apply (reopening_recovers fs ms R [] ws n t m tail b fs2); try done. by left. }
  assert (steady body) as Hsb.
  { unfold body. pose proof steady_append_entry. pose proof steady_runtime_build.
    apply steady_bind; [destruct (MemTable.is_empty t); steady_tac; auto using steady_sync|intros _].
    apply steady_bind; [apply steady_for_each; intros f0; apply steady_ignore, steady_on_fs, steady_fs_remove_file|intros _].
    by apply steady_on_fs. }
  eapply crashes_bind_ok; [exact Hf1|exact Hmv|by apply steady_moved, steady_wal_drop|..].
  2: { intros k0 k1 s'. destruct (Hf' (tt, w) fs') as [Hi Hh]. destruct (f (tt, w) fs') as [o s2] eqn:E.
       rewrite (inert_arm _ _ _ _ _ _ Hi E). by intros [= -> _]. }
  eapply crashes_moved_ok; [exact Hf1|exact Hsb| |by eapply moved_inv].
  destruct (relog_ok fs1' w1 t Hf1 Hlog eq_refl Hr) as (fs2 & w2 & Hre & B2 & E2 & T2 & L2).
  assert (data_of fs2 ino = frames (entry_of <$> iter t)) as Hd2
    by (rewrite <- L2; unfold log_of; by rewrite E2, B2, app_nil_r).
  assert (forall fs3, extends ino (frames (entry_of <$> iter t)) fs1' fs3 ->
    reopening fs [] n (data_of fs3 ino) (killed fs3) /\ recovers b (killed fs3) (disk_view ms R ws)) as Hex.
  { intros fs3 He. destruct (reopening_extends n ino _ fs fs1' fs3 Hwf Hwr He) as [Hp Hre3].
    split; [exact Hre3|by eapply Hrec]. }
  unfold body. eapply crashes_bind_ok; [exact Hf1|exact Hre|..].
  - destruct (MemTable.is_empty t); [apply inert_steady, inert_ret|].
    apply steady_bind; [apply steady_for_each, steady_append_entry|]. intros _. apply steady_sync.
  - apply crashes_relog; [exact Hf1|exact Hlog|exact Hr|]. intros fs3 He. by apply Hex.
  - destruct (Hex fs2) as [Hre2 _].
    { destruct T2 as (D2 & X2 & F2 & I2). split; [done|..]; rewrite Hd2; [|done].
      rewrite (wr_data _ _ _ _ _ Hwr). apply prefix_nil. }
    rewrite killed_calm, Hd2 in Hre2 by apply T2.
    eapply crashes_remove_old; try done. apply T2.
Qed.

Lemma crashes_open fs ms R ws o b :
  disk_ok fs ms R ws -> seqs_upto (b - 1) ms ws -> 1 <= b <= u64_max - 1 ->
  crashes (open_with_options o) fs (fun fs' => recovers b fs' (disk_view ms R ws)).
Proof.
  intros Hd [Hms Hws] Hb. pose proof (dk_faults _ _ _ _ Hd) as Hf. pose proof (dk_fs _ _ _ _ Hd) as Hwf.
  assert (recovers b (killed fs) (disk_view ms R ws)) as Hhere.
  { rewrite killed_calm by done. intros _. exists ms, R, ws. split; [done|]. split; [|done].
    split; (eapply Forall_impl; [eassumption|]; simpl; lia). }
  assert (forall A (m : M Fs A), quiet m -> crashes m fs (fun fs' => recovers b fs' (disk_view ms R ws))) as Hquiet
    by (intros A m Hq; by apply quiet_crashes).
  destruct (open_levels_ok fs ms [] Hf) as (idss & Hlev & _).
  { intros metas m Hmetas Hin. apply list_elem_of_lookup in Hmetas as [l Hl].
    destruct (ho_file _ _ _ _ (dk_tables _ _ _ _ Hd l metas m Hl Hin)) as (ino & Hino & _). by eexists. }
  destruct (replay_files_ok fs ws MemTable.new Hf (dk_logs _ _ _ _ Hd)) as (t & Hrep & Hget).
  assert (forall k, get_entry t k = last_write (logged ws) k) as Hget'.
  { intros k. rewrite Hget. destruct (last_write (logged ws) k); [done|]. apply sm_get_new. }
  destruct (max_seq_spec ms ws (b - 1) ltac:(lia) Hms Hws) as (Hn & Hmn & Hwn).
  set (n := max_seq_of (mkManifest ms) (wal_ref <$> ws)) in *. unfold u64_max in *.
  assert (fs_create_dir_all fs = (Ok tt, fs)) as Hdir by (unfold fs_create_dir_all; by rewrite syscall_ok).
  assert (fs_read_dir fs = (Ok (map_to_list (dirents fs)).*1, fs)) as Hrd
    by (unfold fs_read_dir; by rewrite syscall_ok).
  pose proof (wal_files_ok fs (map_to_list (dirents fs)).*1
    ltac:(apply Forall_forall; intros x ([x' i] & -> & Hx%elem_of_map_to_list)%list_elem_of_fmap;
          apply (dk_utf8 _ _ _ _ Hd); by eexists)) as Hfiles.
  unfold open_with_options.
  eapply crashes_bind_ok; [exact Hf|exact Hdir|auto with steady|by apply Hquiet; auto with steady|].
  eapply crashes_bind_ok; [exact Hf|exact (load_ok _ _ _ _ Hd)|apply steady_load|by apply Hquiet, quiet_load|].
  eapply crashes_bind_ok; [exact Hf|exact Hlev|apply steady_open_levels|by apply Hquiet, steady_open_levels|].
  eapply crashes_bind_ok; [exact Hf|exact Hrd|auto with steady|by apply Hquiet; auto with steady|].
  eapply crashes_bind_inert; [apply inert_wal_files|exact Hfiles|]. cbn zeta. rewrite (sorted_wals _ _ _ _ Hd).
  eapply crashes_bind_ok; [exact Hf|exact (moved_ok _ _ _ _ _ _ _ Hrep)|..].
  { apply steady_moved; [apply steady_for_each, steady_replay_file|apply inert_steady, inert_ret]. }
  { eapply crashes_moved_ok; [exact Hf|apply steady_for_each, steady_replay_file| |exact Hrep].
    apply quiet_crashes; [apply quiet_for_each, quiet_replay_file|exact Hhere]. }
  cbn beta iota. fold n. eapply crashes_bind_inert; [apply inert_lift|unfold lift; by rewrite (uadd_ok n 1) by (unfold usize_max; lia)|].
  assert (Forall replayed (iter t)) as Hr by (by eapply table_replayed; [apply (dk_logs _ _ _ _ Hd)|]).
  assert (Forall (fun s => s < n + 1) (ws.*1)) as Hlt by (eapply Forall_impl; [exact Hwn|]; simpl; lia).
  destruct (new_log_ok fs ms R ws t (n + 1) Hd Hlt ltac:(unfold u64_max; lia) Hr) as (fs1 & w1 & fs' & w & Hcr & Hmv & _).
  eapply crashes_bind_ok; [exact Hf|exact Hcr|apply steady_wal_create|..].
  { unfold wal_create. apply crashes_bind; [exact Hf|apply steady_file_create| |intros; apply crashes_ret].
    apply crashes_file_create; [exact Hf|]. by rewrite killed_calm in Hhere. }
  eapply (crashes_relogged fs ms R ws (n + 1) t b fs1 w1 fs' w); try done.
  - eapply Forall_impl; [exact Hms|]. simpl. lia.
  - lia.
  - unfold u64_max. lia.
  - by intros [[] w2] s.
Qed.
End reopen.
