(* ===== verification/CrashOps.v ===== *)
(** * Stopping in the middle of a public operation

    What is left of [put], [delete], [flush], a notification of the background
    worker, and of closing and reopening. *)

From S2P Require Import Prelude Outcome External Fs Crash MemTable Wal WalWriter WalReader.
From S2P Require Import StdVec SstRecord SstIndex Bloom Builder Reader Merge Manifest.
From S2P Require Import Names KvSpec Engine Steady EngineSpec EngineGet EnginePut EngineFlush EngineCommit.
From S2P Require Import EngineCompact EngineOpen EngineRecover EngineRefine EngineDisk.
From S2P Require Import CrashWrite CrashFlush CrashCompact CrashOpen.

Section ops.
Context {C : Crc32} {SM : SkipMap Entry} {FB : FastBloom} {AL : Allocator}.

(** ** The entries of the active log *)

Definition log_is (fs : Fs) (e : LsmEngineInner) (a : nat) (es : list WalEntry) : Prop :=
  log_of fs (writer (wal e)) = frames es /\ Forall Wal.fits es /\
  exists t, mems e !! a = Some t /\ forall k, get_entry t k = last_write (entry_mutation <$> es) k.

Lemma log_is_any fs e T a : engine_ok fs e T a -> exists es, log_is fs e a es.
Proof.
  intros Hok. destruct (wo_active _ _ _ (eo_wals _ _ _ _ Hok)) as (t & Ht & _ & es & Hlog & Hes & Hget).
  exists es. split; [done|]. split; [|by exists t]. eapply Forall_impl; [exact Hes|]. by intros x [? _].
Qed.

Lemma log_is_view fs e T a es k :
  engine_ok fs e T a -> log_is fs e a es -> view_from e T (entry_mutation <$> es) k = view e T k.
Proof. intros Hok (_ & _ & t & Ht & Hget). by eapply view_from_active. Qed.

(** All of a log that is on disk survives. *)
Lemma cut_synced b fs e T es ext fs' :
  cut_at b fs e T (es ++ ext) fs' -> unbuffered e -> log_of fs (writer (wal e)) = frames es ->
  exists i, recovers b fs' (view_from e T (entry_mutation <$> (es ++ take i ext))).
Proof.
  intros (j & Hr & Hj) Hub Hlog. exists (j - length es)%nat. unfold log_of in Hlog.
  rewrite Hub, app_nil_r in Hlog. specialize (Hj (length es)). rewrite take_app_length, length_app in Hj.
  rewrite take_app_ge in Hr; [done|]. apply Hj; [lia|by rewrite Hlog].
Qed.

(** Nothing but the end of the active log is lost. *)
Lemma cut_whole b fs e T a es fs' v :
  engine_ok fs e T a -> log_is fs e a es -> (files_fit fs' -> forall k, v k = view e T k) ->
  recovers b fs' v -> cut_at b fs e T es fs'.
Proof.
  intros Hok Hlog Hv Hr. exists (length es). rewrite firstn_all. split; [|by intros].
  eapply recovers_ext; [|exact Hr]. intros Hfit k. rewrite (log_is_view fs e T a es k Hok Hlog). by apply Hv.
Qed.

(** ** Closing *)

Lemma took_refl fs w : faults fs = [] -> took [] fs w fs w.
Proof.
  intros Hf. split; [split; [done|split; [by apply touches_refl|by rewrite app_nil_r]]|].
  apply extends_refl. unfold log_of. rewrite app_nil_r. by eexists.
Qed.

Lemma crashes_sync_engine fs e T a es b :
  engine_ok fs e T a -> files_fit fs -> log_is fs e a es -> next_seq e - 1 <= b <= u64_max ->
  crashes (on_writer sync) (fs, e) (cut_at b fs e T es).
Proof.
  intros Hok Hfit (Hlog & Hes & _) Hb. apply crashes_on_writer, crashes_sync; [apply Hok|].
  intros fs' Hex. eapply extends_cut; try done. by rewrite <- Hlog.
Qed.

Lemma crashes_drop_engine fs e T a es b :
  engine_ok fs e T a -> files_fit fs -> log_is fs e a es -> next_seq e - 1 <= b <= u64_max ->
  crashes drop_engine (fs, e) (cut_at b fs e T es).
Proof.
  intros Hok Hfit Hlog Hb. unfold drop_engine. pose proof (eo_faults _ _ _ _ Hok) as Hf.
  eapply crashes_bind_inert; [apply inert_eng|reflexivity|]. unfold is_poisoned. cbn [snd].
  rewrite (eo_poison _ _ _ _ Hok), bool_decide_false by apply not_elem_of_nil.
  destruct (sync_took [] fs (writer (wal e)) fs (writer (wal e)) (took_refl _ _ Hf)) as (fs1 & w1 & Hs & HT & Hb1).
  pose proof (on_writer_ok sync fs e tt fs1 w1 Hs) as Hs'. pose proof HT as [(B1 & T1 & L1) HE1].
  eapply crashes_bind_ok; [exact Hf|exact (ignore_ok _ _ _ _ Hs')|apply steady_ignore, steady_on_writer, steady_sync|..].
  - apply crashes_ignore; [exact Hf|apply steady_on_writer, steady_sync|by eapply crashes_sync_engine].
  - apply crashes_on_writer, crashes_wal_drop; [apply T1|]. cbn [wal set_wal writer]. intros fs' Hex.
    destruct Hlog as (Hlog & Hes & _). eapply extends_cut; try done.
    rewrite <- Hlog, <- (app_nil_r (log_of fs (writer (wal e)))). by eapply took_extends.
Qed.

(** ** [flush] *)

Lemma rotated_fit fs e T a w fs2 :
  engine_ok fs e T a -> files_fit fs -> len (log_of fs (writer (wal e))) <= isize_max ->
  rotated fs e w fs2 -> files_fit fs2.
Proof.
  intros Hok Hfit Hlen (ino & _ & Hd & Hnew & Hold & K) n d Hn.
  destruct (decide (n = wal_name (next_seq e))) as [->|Hne1].
  { unfold file_of in Hn. rewrite Hd, lookup_insert_eq in Hn. cbn in Hn. injection Hn as <-. rewrite Hnew.
    by vm_compute. }
  destruct (decide (n = wal_name (seq (wal e)))) as [->|Hne2].
  - unfold file_of in Hn. rewrite Hd, lookup_insert_ne, (active_dirent _ _ _ _ Hok) in Hn by done.
    cbn in Hn. injection Hn as <-. by rewrite Hold.
  - apply (Hfit n). rewrite <- Hn. symmetry. apply kept_file_of, (kp_kept _ _ _ K). naive_solver.
Qed.

Lemma freeze_fit fs e T a x fs2 e2 :
  engine_ok fs e T a -> next_seq e < u64_max -> files_fit fs -> len (log_of fs (writer (wal e))) <= isize_max ->
  freeze_active (fs, e) = (Ok x, (fs2, e2)) -> files_fit fs2.
Proof.
  intros Hok Hroom Hfit Hlen Hrun. destruct (wo_active _ _ _ (eo_wals _ _ _ _ Hok)) as (t & Ht & _).
  destruct (MemTable.is_empty t) eqn:Hem.
  - unfold freeze_active in Hrun. pose proof (mo_active _ _ (eo_mems _ _ _ _ Hok)) as Ha.
    rewrite (M_bind_ok _ _ _ _ _ (snapshot_active_ok fs e a (eo_poison _ _ _ _ Hok) Ha)) in Hrun.
    rewrite (M_bind_ok _ _ _ _ _ (mem_at_ok fs e a t Ht)), Hem in Hrun. by injection Hrun as _ <- _.
  - assert (iter t <> []) as Hne by (intros Hn; apply is_empty_iter in Hn; congruence).
    destruct (freeze_active_ok fs e T a t Hok Hroom Ht Hne) as (w & fs3 & Hfr & Hrot).
    rewrite Hfr in Hrun. injection Hrun as _ <- _. by eapply rotated_fit.
Qed.

(** The log is synced and a memtable with entries frozen. *)
Lemma crashes_seal fs e T a es b :
  engine_ok fs e T a -> files_fit fs -> log_is fs e a es -> next_seq e < u64_max -> next_seq e <= b <= u64_max ->
  crashes (with_lock WalLock "wal lock poisoned" (_ ← on_writer sync; freeze_active)) (fs, e) (cut_at b fs e T es).
Proof.
  intros Hok Hfit Hlog Hroom Hb. pose proof (eo_faults _ _ _ _ Hok) as Hf.
  apply crashes_with_lock; [apply (eo_poison _ _ _ _ Hok)|].
  destruct (sync_took [] fs (writer (wal e)) fs (writer (wal e)) (took_refl _ _ Hf)) as (fs1 & w1 & Hs & HT & Hb1).
  pose proof (on_writer_ok sync fs e tt fs1 w1 Hs) as Hs'. pose proof HT as [(B1 & T1 & L1) HE1].
  destruct (sync_engine_ok fs e T a Hok) as (fs1' & w1' & Hs2 & Hok1 & _).
  rewrite Hs' in Hs2. injection Hs2 as <- <-. destruct Hlog as (Hlog & Hes & Ht).
  eapply crashes_bind_ok; [exact Hf|exact Hs'|apply steady_on_writer, steady_sync|..].
  - eapply crashes_sync_engine; try done; lia.
  - eapply crashes_freeze; [exact Hok1|done|..].
    + rewrite <- (killed_calm fs1) by apply T1. eapply extends_cut; try done; [|lia].
      by rewrite <- Hlog, <- (app_nil_r (log_of fs _)).
    + intros fs' Hrot. apply (took_rotating (next_seq e) fs e T a [] es fs1 w1 (set_wal (mkActiveWal w1 (seq (wal e))) e)); try done;
        [by eapply live_before|lia|by rewrite app_nil_r|lia].
Qed.

Lemma crashes_flush fs e T a es b :
  engine_ok fs e T a -> files_fit fs -> len (log_of fs (writer (wal e))) <= isize_max -> small_mems e ->
  next_seq e + len (immutables (state e)) + 2 <= u64_max -> log_is fs e a es ->
  next_seq e + len (immutables (state e)) + 1 <= b <= u64_max ->
  crashes flush (fs, e) (cut_at b fs e T es).
Proof.
  intros Hok Hfit Hlen Hsm Hroom Hlog Hb. pose proof (len_nonneg (immutables (state e))) as Hni.
  destruct (sync_engine_ok fs e T a Hok) as (fs1 & w1 & Hs & Hok1 & Ht1 & Hbuf1 & Hdat1).
  remember (set_wal (mkActiveWal w1 (seq (wal e))) e) as e1 eqn:He1.
  assert (state e1 = state e /\ mems e1 = mems e /\ next_seq e1 = next_seq e /\ unbuffered e1) as (Est & Ems & Enx & Hub1)
    by (by rewrite He1).
  assert (files_fit fs1) as Hfit1.
  { eapply touches_fit; [done|apply Hok|by eapply active_dirent|exact Ht1|by rewrite Hdat1]. }
  destruct (wo_active _ _ _ (eo_wals _ _ _ _ Hok1)) as (t & Ht & Hd1 & _).
  destruct (seal_ok fs1 e1 T a t Hok1 ltac:(by unfold small_mems; rewrite Est, Ems) ltac:(lia) Ht)
    as (fs2 & e2 & a2 & t2 & Hfr & Hok2 & Hsm2 & _ & _ & Hroom2 & _ & Hub2 & Hv2).
  rewrite Est, Enx in Hroom2.
  assert (files_fit fs2) as Hfit2.
  { eapply freeze_fit; [exact Hok1|lia|exact Hfit1| |exact Hfr]. unfold log_of. rewrite Hub1, app_nil_r.
    apply (Hfit1 (wal_name (seq (wal e1)))). unfold file_of. by rewrite Hd1. }
  assert (with_lock WalLock "wal lock poisoned" (_ ← on_writer sync; freeze_active) (fs, e) =
    (Ok (negb (MemTable.is_empty t)), (fs2, e2))) as Hseal.
  { apply with_lock_ok; [apply (eo_poison _ _ _ _ Hok)| |done]. by rewrite (M_bind_ok _ _ _ _ _ Hs). }
  unfold flush. eapply crashes_bind_ok; [apply Hok|exact Hseal|..].
  - apply steady_with_lock, steady_bind; [apply steady_on_writer, steady_sync|]. intros _. apply steady_freeze_active.
  - apply (crashes_seal fs e T a es b Hok Hfit Hlog); lia.
  - eapply crashes_mono; [apply (crashes_flush_all_pending fs2 e2 T a2 b Hok2 Hfit2 Hsm2); lia|].
    intros fs' Hr. eapply cut_whole; [exact Hok|exact Hlog| |exact Hr]. intros _ k.
    rewrite (durable_unbuffered _ _ _ _ _ Hok2 Hfit2 (Hub2 Hub1)), Hv2. by rewrite He1.
Qed.

(** ** The background worker *)

Lemma flushed_durable fs fs' e e' T T' k :
  same_log e e' -> kept (wal_name (seq (wal e))) fs fs' -> immutables (state e') = [] ->
  first_some (table_sources T' (levels (state e'))) k =
    first_some (((fun p => mem_entry (mems e) (mem p)) <$> reverse (immutables (state e))) ++
                table_sources T (levels (state e))) k ->
  durable fs' e' T' k = durable fs e T k.
Proof.
  intros [Hw _] Hk Him Htab. unfold durable, view_from. rewrite Hw, (log_entries_kept _ _ _ Hk), Him.
  cbn [reverse rev_append fmap list_fmap app first_some]. by rewrite Htab.
Qed.

(** The directory after the flush of a notification fits. *)
Definition background_fits (s : Fs * LsmEngineInner) : Prop :=
  files_fit (flush_all_pending (s.1, set_flush_tx (pred (flush_tx s.2)) s.2)).2.1.

Lemma crashes_worker_tick fs e T a b :
  engine_ok fs e T a -> files_fit fs -> background_room (fs, e) -> background_fits (fs, e) ->
  next_seq e + len (immutables (state e)) <= b ->
  crashes worker_tick (fs, e) (fun fs' => recovers b fs' (durable fs e T)).
Proof.
  intros Hok Hfit (Hsm & Hroom & Hin) Hbf Hb. unfold background_fits in Hbf. cbn [fst snd] in *. unfold worker_tick.
  eapply crashes_bind_inert; [apply inert_eng|reflexivity|]. cbn [snd].
  destruct (flush_tx e) as [|n] eqn:Etx; [apply crashes_ret|].
  eapply crashes_bind_inert; [apply inert_upd|reflexivity|]. cbn [fst snd].
  cbn [pred] in Hin, Hbf. pose proof (engine_ok_tx fs e T a n Hok) as Hok1. set (e0 := set_flush_tx n e) in *.
  destruct (flush_all_pending_ok fs e0 T a Hok1 Hsm ltac:(cbn; lia))
    as (fs1 & e1 & T1 & Hf & Hok2 & Him1 & _ & Hsl1 & Hns & Hk1 & Htab1 & _). cbn [set_flush_tx e0 next_seq state] in Hns.
  rewrite Hf in Hin, Hbf. cbn [fst snd] in Hin, Hbf. apply crashes_catch.
  eapply crashes_bind_ok; [apply Hok|exact (try_ok _ _ _ _ Hf)|apply steady_try, steady_flush_all_pending|..].
  - apply crashes_try. apply (crashes_flush_all_pending fs e0 T a b Hok1 Hfit Hsm); cbn; lia.
  - destruct (compact_needed_ok fs1 e1 (eo_poison _ _ _ _ Hok2)) as (need & Hneed).
    eapply crashes_bind_inert; [|exact Hneed|].
    { unfold compact_needed. apply inert_bind; [apply inert_eng|]. intros th. destruct (th =? 0); [done|].
      apply inert_bind; [apply inert_read_state|]. done. }
    destruct need; [|apply crashes_ret]. apply crashes_ignore; [apply Hok2|apply steady_compact_all_pending|].
    eapply crashes_mono; [apply (crashes_compact fs1 e1 T1 a b Hok2 Hbf); [by eapply inputs_fit_small|lia..]|].
    intros fs' Hr. eapply recovers_ext; [|exact Hr]. intros _ k.
    by apply (flushed_durable fs fs1 e0 e1 T T1 k Hsl1 Hk1 Him1).
Qed.

(** ** Closing and opening again *)

Lemma crashes_reopen fs e T a es :
  engine_ok fs e T a -> files_fit fs -> len (log_of fs (writer (wal e))) <= isize_max -> log_is fs e a es ->
  next_seq e <= u64_max - 1 -> crashes reopen (fs, e) (cut_at (next_seq e) fs e T es).
Proof.
  intros Hok Hfit Hlen Hlog Hroom. pose proof (eo_next _ _ _ _ Hok) as Hnx.
  destruct (drop_engine_ok fs e T a Hok Hfit Hlen) as (fs1 & e1 & Hdrop & Hok1 & Hfit1 & Hub1 & Hns1 & _ & Hv1).
  unfold reopen. eapply crashes_bind_ok; [apply Hok|exact Hdrop|apply steady_drop_engine|..].
  - apply (crashes_drop_engine fs e T a es); [exact Hok|exact Hfit|exact Hlog|lia].
  - eapply crashes_bind_inert; [apply inert_eng|reflexivity|]. cbn [snd].
    apply crashes_bind; [apply Hok1|apply steady_on_fs, steady_open_with_options|..].
    + apply crashes_on_fs. rewrite <- Hns1.
      eapply crashes_mono; [apply (crashes_open fs1 _ _ _ _ (next_seq e1) (engine_disk _ _ _ _ Hok1 Hfit1))|].
      * by eapply engine_seqs.
      * lia.
      * intros fs' Hr. eapply cut_whole; [exact Hok|exact Hlog| |exact Hr]. intros _ k.
        rewrite (disk_view_of _ _ _ _ _ Hok1 Hfit1).
        change (durable fs1 e1 T k = view e T k). by rewrite (durable_unbuffered _ _ _ _ _ Hok1 Hfit1 Hub1), Hv1.
    + intros e2 [fs2 e3] _ _. eapply crashes_bind_inert; [apply inert_upd|reflexivity|apply crashes_ret].
Qed.
End ops.
