(* ===== verification/CrashStore.v ===== *)
(** * The engine keeps what it has answered

    With [sync_per_write], the engine is a store whose directory stands for the
    answered requests at every system call ([CrashStore]). *)

From S2P Require Import Prelude Outcome External Fs Crash MemTable Wal WalWriter WalReader.
From S2P Require Import StdVec SstRecord SstIndex Bloom Builder Reader Merge Manifest.
From S2P Require Import Names KvSpec Engine Steady EngineSpec EngineGet EnginePut EngineFlush EngineCommit.
From S2P Require Import EngineCompact EngineOpen EngineRecover EngineRefine EngineDisk.
From S2P Require Import CrashWrite CrashFlush CrashCompact CrashOpen CrashOps.

Section store.
Context {C : Crc32} {SM : SkipMap Entry} {FB : FastBloom} {AL : Allocator}.

Abbreviation Sys := (Fs * LsmEngineInner)%type.

(** ** What the next opening finds *)

(** An engine opened on the directory represents the map. *)
Definition reopens (m : kvmap) (fs : Fs) : Prop :=
  files_fit fs -> forall o, exists e fs', open_with_options o fs = (Ok e, fs') /\ options e = o /\ rep m (fs', e).

Lemma recovers_reopens b fs v m :
  recovers b fs v -> b <= u64_max - 2 -> (files_fit fs -> forall k, v k = m !! k) -> reopens m fs.
Proof.
  intros Hr Hb Hv Hfit o. destruct (recovers_open b fs v o Hr Hfit Hb) as (e & fs' & T & Hrun & Hok & Ho & _ & Hview).
  exists e, fs'. split; [done|]. split; [done|]. exists T, 0%nat. split; [done|]. intros k. cbn. by rewrite Hview, Hv.
Qed.

Lemma view_from_snoc e T h k0 e0 k :
  view_from e T (h ++ [(k0, e0)]) k = if decide (k0 = k) then entry_value e0 else view_from e T h k.
Proof.
  unfold view_from. cbn [first_some]. rewrite last_write_app. unfold last_write at 1. cbn [rev app assoc].
  by case_decide.
Qed.

Lemma cut_reopens b fs e T a es fs' m :
  engine_ok fs e T a -> log_is fs e a es -> unbuffered e -> cut_at b fs e T es fs' -> b <= u64_max - 2 ->
  (forall k, view e T k = m !! k) -> reopens m fs'.
Proof.
  intros Hok Hlog Hub Hcut Hb Hv. rewrite <- (app_nil_r es) in Hcut.
  destruct (cut_synced _ _ _ _ _ _ _ Hcut Hub (proj1 Hlog)) as [i Hr]. rewrite take_nil, app_nil_r in Hr.
  eapply recovers_reopens; [exact Hr|done|]. intros _ k. by rewrite (log_is_view _ _ _ _ _ _ Hok Hlog).
Qed.

(** The entry of the write that was stopped is there or is not. *)
Lemma cut_reopens_write b fs e T a es en fs' m m' :
  engine_ok fs e T a -> log_is fs e a es -> unbuffered e -> cut_at b fs e T (es ++ [en]) fs' -> b <= u64_max - 2 ->
  (forall k, view e T k = m !! k) ->
  (forall k, (if decide ((entry_mutation en).1 = k) then entry_value (entry_mutation en).2 else m !! k) = m' !! k) ->
  reopens m fs' \/ reopens m' fs'.
Proof.
  intros Hok Hlog Hub Hcut Hb Hv Hv'. destruct (cut_synced _ _ _ _ _ _ _ Hcut Hub (proj1 Hlog)) as [i Hr].
  destruct i as [|i].
  - left. rewrite app_nil_r in Hr. eapply recovers_reopens; [exact Hr|done|]. intros _ k.
    by rewrite (log_is_view _ _ _ _ _ _ Hok Hlog).
  - right. eapply recovers_reopens; [exact Hr|done|]. intros _ k. cbn [take]. rewrite take_nil, fmap_app.
    cbn [fmap list_fmap]. rewrite <- Hv'. destruct (entry_mutation en) as [k0 e0]. rewrite view_from_snoc. cbn [fst snd].
    case_decide; [done|]. by rewrite (log_is_view _ _ _ _ _ _ Hok Hlog).
Qed.

(** ** Sizes *)

Definition durable_state (s : Sys) : Prop := sync_per_write (options s.2) = true /\ unbuffered s.2.

Definition limits (r : request) (s : Sys) : Prop :=
  files_fit s.1 /\ len (log_of s.1 (writer (wal s.2))) <= isize_max /\
  next_seq s.2 + len (immutables (state s.2)) + 1 <= u64_max - 2 /\
  match r with ReqBackground => background_fits s | _ => True end.

(** ** The requests, stopped *)

Lemma steady_unit_reply m : steady m -> steady (unit_reply m).
Proof. intros Hm. apply steady_bind; [done|]. intros _. apply inert_steady, inert_ret. Qed.

Lemma crashes_unit_reply m s P : calm s -> steady m -> crashes m s P -> crashes (unit_reply m) s P.
Proof. intros Hs Hm Hc. apply crashes_bind; [done..|]. intros. apply crashes_ret. Qed.

Lemma steady_reopen : steady reopen.
Proof.
  unfold reopen. apply steady_bind; [apply steady_drop_engine|intros _].
  apply steady_bind; [apply inert_steady, inert_eng|intros o].
  apply steady_bind; [apply steady_on_fs, steady_open_with_options|intros e].
  apply steady_bind; [apply inert_steady, inert_upd|intros _]. apply inert_steady, inert_ret.
Qed.

Lemma steady_serve r : steady (serve r).
Proof.
  destruct r as [k v|k|k| | | |]; cbn [serve].
  - exact (steady_unit_reply _ (steady_put k v)).
  - exact (steady_unit_reply _ (steady_delete k)).
  - exact (steady_get k).
  - exact (steady_unit_reply _ steady_flush).
  - exact (steady_unit_reply _ steady_compact).
  - exact (steady_unit_reply _ steady_worker_tick).
  - exact steady_reopen.
Qed.

(** A write that is refused does not reach the disk. *)
Lemma crashes_refused {A} op k v fs e (rest : M Sys A) err (P : Fs -> Prop) :
  faults fs = [] -> poisoned e = [] -> oversize k v = Some err -> P fs ->
  crashes (with_lock WalLock "wal lock poisoned" (_ ← on_writer (append op k v); rest)) (fs, e) P.
Proof.
  intros Hf Hp Hbig HP. apply crashes_with_lock; [done|].
  destruct (append_oversize fs (writer (wal e)) op k v err Hbig) as (w' & Hrun & _).
  pose proof (on_writer_err _ fs e err fs w' Hrun) as Hrun'.
  apply crashes_bind; [exact Hf|apply steady_on_writer, steady_append|..].
  - apply crashes_on_writer. unfold append. eapply crashes_bind_inert; [by intros ? []|reflexivity|].
    apply crashes_lift; [|cbn; by rewrite killed_calm]. intros buf Hbuf. exfalso.
    assert (~ encodable (mkWalEntry op k v)) as Hne.
    { intros [[Hk Hv] _]. assert (oversize k v = None); [by apply oversize_None|congruence]. }
    destruct (encode_entry_err op k v [] Hne) as (err2 & Henc & _). congruence.
  - intros [] s1 Hrun2. by rewrite Hrun' in Hrun2.
Qed.

Lemma reopens_here fs e T a m :
  engine_ok fs e T a -> files_fit fs -> unbuffered e -> next_seq e - 1 <= u64_max - 2 ->
  (forall k, view e T k = m !! k) -> reopens m fs.
Proof.
  intros Hok Hfit Hub Hroom Hv. eapply (recovers_reopens (next_seq e - 1)); [by eapply engine_recovers|done|].
  intros _ k. by rewrite (durable_unbuffered _ _ _ _ _ Hok Hfit Hub).
Qed.

(** What a stopped request leaves. *)
Definition atomic (r : request) (m : kvmap) (fs : Fs) : Prop := reopens m fs \/ reopens (spec_next r m) fs.

Lemma crash_put m k v s :
  rep m s -> durable_state s -> room (ReqPut k v) s -> limits (ReqPut k v) s ->
  crashes (serve (ReqPut k v)) s (atomic (ReqPut k v) m).
Proof.
  destruct s as [fs e]. intros (T & a & Hok & Hv) [_ Hub] Hroom (Hfit & _ & Hb & _). cbn [fst snd room] in *.
  pose proof (eo_faults _ _ _ _ Hok) as Hf. pose proof (len_nonneg (immutables (state e))).
  apply crashes_unit_reply; [exact Hf|apply steady_put|]. destruct (oversize k v) as [err|] eqn:Hsize.
  - eapply crashes_refused; [exact Hf|apply (eo_poison _ _ _ _ Hok)|exact Hsize|]. left.
    eapply reopens_here; [exact Hok|exact Hfit|exact Hub|lia|exact Hv].
  - destruct (log_is_any fs e T a Hok) as (es & Hlog). pose proof (proj1 (oversize_None _ _) Hsize) as [Hk Hl].
    eapply crashes_mono; [apply (crashes_write fs e T a (mkWalEntry Put k v) k v false es (next_seq e) Hok Hfit Hroom)|].
    + by split.
    + done.
    + apply Hlog.
    + apply Hlog.
    + lia.
    + intros fs' Hcut. eapply (cut_reopens_write (next_seq e)); [exact Hok|exact Hlog|exact Hub|exact Hcut|lia|exact Hv|].
      intros k'. cbn [spec_next]. rewrite Hsize, lookup_insert. cbn. by case_decide.
Qed.

Lemma crash_delete m k s :
  rep m s -> durable_state s -> room (ReqDelete k) s -> limits (ReqDelete k) s ->
  crashes (serve (ReqDelete k)) s (atomic (ReqDelete k) m).
Proof.
  destruct s as [fs e]. intros (T & a & Hok & Hv) [_ Hub] Hroom (Hfit & _ & Hb & _). cbn [fst snd room] in *.
  pose proof (eo_faults _ _ _ _ Hok) as Hf. pose proof (len_nonneg (immutables (state e))).
  apply crashes_unit_reply; [exact Hf|apply steady_delete|]. destruct (oversize k []) as [err|] eqn:Hsize.
  - eapply crashes_refused; [exact Hf|apply (eo_poison _ _ _ _ Hok)|exact Hsize|]. left.
    eapply reopens_here; [exact Hok|exact Hfit|exact Hub|lia|exact Hv].
  - destruct (log_is_any fs e T a Hok) as (es & Hlog). pose proof (proj1 (oversize_None _ _) Hsize) as [Hk Hl].
    eapply crashes_mono; [apply (crashes_write fs e T a (mkWalEntry Delete k []) k [] true es (next_seq e) Hok Hfit Hroom)|].
    + by split.
    + done.
    + apply Hlog.
    + apply Hlog.
    + lia.
    + intros fs' Hcut. eapply (cut_reopens_write (next_seq e)); [exact Hok|exact Hlog|exact Hub|exact Hcut|lia|exact Hv|].
      intros k'. cbn [spec_next]. rewrite Hsize, lookup_delete. cbn. by case_decide.
Qed.

(** The requests that change nothing. *)
Lemma crash_serve r m s :
  rep m s -> durable_state s -> room r s -> limits r s -> crashes (serve r) s (atomic r m).
Proof.
  destruct r as [k v|k|k| | | |]; [apply crash_put|apply crash_delete|..];
    destruct s as [fs e]; intros (T & a & Hok & Hv) [_ Hub] Hroom (Hfit & Hlen & Hb & Hbf); cbn [fst snd room serve] in *;
    pose proof (eo_faults _ _ _ _ Hok) as Hf; pose proof (len_nonneg (immutables (state e)));
    destruct (log_is_any fs e T a Hok) as (es & Hlog).
  - apply quiet_crashes; [apply quiet_get|]. cbn. rewrite killed_calm by done. left.
    eapply reopens_here; [exact Hok|exact Hfit|exact Hub|lia|exact Hv].
  - destruct Hroom as [Hsm Hroom]. apply crashes_unit_reply; [exact Hf|apply steady_flush|].
    eapply crashes_mono; [apply (crashes_flush fs e T a es (u64_max - 2) Hok Hfit Hlen Hsm Hroom Hlog); lia|].
    intros fs' Hcut. left. eapply cut_reopens; [exact Hok|exact Hlog|exact Hub|exact Hcut|lia|exact Hv].
  - destruct Hroom as [Hin Hroom]. apply crashes_unit_reply; [exact Hf|apply steady_compact|].
    eapply crashes_mono; [apply (crashes_compact fs e T a (u64_max - 2) Hok Hfit);
      [by eapply inputs_fit_small|exact Hroom|lia]|].
    intros fs' Hr. left. eapply recovers_reopens; [exact Hr|lia|]. intros _ k.
    by rewrite (durable_unbuffered _ _ _ _ _ Hok Hfit Hub).
  - apply crashes_unit_reply; [exact Hf|apply steady_worker_tick|].
    eapply crashes_mono; [apply (crashes_worker_tick fs e T a (u64_max - 2) Hok Hfit Hroom Hbf); lia|].
    intros fs' Hr. left. eapply recovers_reopens; [exact Hr|lia|]. intros _ k.
    by rewrite (durable_unbuffered _ _ _ _ _ Hok Hfit Hub).
  - eapply crashes_mono; [apply (crashes_reopen fs e T a es Hok Hfit Hlen Hlog); lia|].
    intros fs' Hcut. left. eapply cut_reopens; [exact Hok|exact Hlog|exact Hub|exact Hcut|lia|exact Hv].
Qed.

(** ** The writes of a durable state stay durable *)

Lemma durable_reopen fs e T a :
  engine_ok fs e T a -> room ReqReopen (fs, e) -> durable_state (fs, e) -> durable_state (reopen (fs, e)).2.
Proof.
  intros Hok (Hfit & Hlen & Hroom) [Hs _]. cbn [fst snd] in *.
  destruct (drop_engine_ok fs e T a Hok Hfit Hlen) as (fs1 & e1 & Hdrop & Hok1 & Hfit1 & _ & Hns & Ho & _).
  destruct (disk_seqs fs1 e1 T a Hok1 ltac:(lia)) as [H1 H2].
  destruct (engine_open_ok fs1 _ _ _ (options e1) (engine_disk _ _ _ _ Hok1 Hfit1) H1 H2)
    as (e2 & fs2 & T2 & Hopen & _ & Ho2 & Hub2 & _).
  unfold reopen. rewrite (M_bind_ok _ _ _ _ _ Hdrop). mstep. rewrite (M_bind_ok _ _ _ _ _ (on_fs_run _ _ e1 _ _ Hopen)).
  mstep. split; [|exact Hub2]. cbn. by rewrite Ho2, Ho.
Qed.

Lemma durable_serve r m s :
  rep m s -> durable_state s -> room r s -> limits r s -> durable_state (serve r s).2.
Proof.
  destruct s as [fs e]. intros (T & a & Hok & Hv) Hdur Hroom _. pose proof Hdur as [Hs Hub]. unfold durable_state in *.
  cbn [fst snd] in *. destruct r as [k v|k|k| | | |]; cbn [room serve fst snd] in *.
  - destruct (oversize k v) as [err|] eqn:Hsize.
    + destruct (put_refused fs e T a k v err Hok Hsize) as (e' & Hrun & _ & Ho & Hu & _).
      rewrite (unit_reply_err _ _ _ _ Hrun). cbn. rewrite Ho. by split; [|apply Hu].
    + apply oversize_None in Hsize as [Hk Hl].
      destruct (put_ok fs e T a k v Hok Hroom Hk Hl) as (fs' & e' & a' & Hrun & _ & _ & Ho & Hu & _).
      rewrite (unit_reply_ok _ _ _ Hrun). cbn. rewrite Ho. by split; [|apply Hu].
  - destruct (oversize k []) as [err|] eqn:Hsize.
    + destruct (delete_refused fs e T a k err Hok Hsize) as (e' & Hrun & _ & Ho & Hu & _).
      rewrite (unit_reply_err _ _ _ _ Hrun). cbn. rewrite Ho. by split; [|apply Hu].
    + apply oversize_None in Hsize as [Hk Hl].
      destruct (delete_ok fs e T a k Hok Hroom Hk) as (fs' & e' & a' & Hrun & _ & _ & Ho & Hu & _).
      rewrite (unit_reply_ok _ _ _ Hrun). cbn. rewrite Ho. by split; [|apply Hu].
  - destruct (engine_get_ok fs e T a k Hok) as (e' & Hrun & Hc & _). rewrite Hrun. cbn.
    destruct (cached_state _ _ Hc) as (_ & _ & Ew & _ & Eo & _). unfold unbuffered. by rewrite Eo, Ew.
  - destruct Hroom as [Hsm Hroom].
    destruct (flush_ok fs e T a Hok Hsm Hroom) as (fs' & e' & T' & a' & t & Hrun & _ & _ & _ & _ & _ & Ho & Hu & _).
    rewrite (unit_reply_ok _ _ _ Hrun). cbn. by rewrite Ho.
  - destruct Hroom as [Hin Hroom].
    destruct (compact_ok fs e T a Hok (inputs_fit_small _ _ _ _ Hok Hin) Hroom) as (fs' & e' & T' & Hrun & _ & _ & Hsl & _).
    rewrite (unit_reply_ok _ _ _ Hrun). cbn. rewrite (proj2 Hsl). split; [done|]. by eapply same_log_unbuffered.
  - destruct (worker_tick_ok fs e T a Hok Hroom) as (fs' & e' & T' & Hrun & _ & Hsl & _).
    rewrite (unit_reply_ok _ _ _ Hrun). cbn. rewrite (proj2 Hsl). split; [done|]. by eapply same_log_unbuffered.
  - by apply (durable_reopen fs e T a).
Qed.

Lemma rep_calm m s : rep m s -> calm s.
Proof. intros (T & a & Hok & _). apply (eo_faults _ _ _ _ Hok). Qed.

(** The engine keeps what it has answered. *)
#[export] Instance engine_crash_store : CrashStore Sys := {|
  kv_durable := durable_state;
  kv_limits := limits;
  kv_recovers := reopens;
  kv_calm := rep_calm;
  kv_steady := steady_serve;
  kv_durable_ok := durable_serve;
  kv_crash_ok := crash_serve;
|}.
End store.
