(* ===== verification/Outage.v ===== *)
(** * Power losses between requests

    With [sync_per_write], no request leaves a byte that is not synced: the log
    is synced before a write is answered, a table before it takes its name, the
    manifest before it replaces the old one, a recovered log before the old logs
    go.  [maintains] is the calculus of invariants that hold after every run,
    whatever its result; [dry] is the invariant of the engine; a directory that
    is dry loses no byte in a power loss ([dry_outage]). *)

From S2P Require Import Prelude Outcome External Fs Crash MemTable Wal WalWriter WalReader.
From S2P Require Import StdVec SstRecord SstIndex Bloom Builder Reader Merge Manifest.
From S2P Require Import Names KvSpec Engine Steady EngineSpec EngineGet EnginePut EngineFlush EngineCommit.
From S2P Require Import EngineCompact EngineOpen EngineRecover EngineRefine EngineDisk CrashWrite CrashOpen CrashStore.

Create HintDb dry.

(** ** Invariants of runs *)

Section maintains.
Context {S : Type} (I : S -> Prop).

Definition maintains {A} (m : M S A) : Prop := forall s, I s -> I (m s).2.

(** The same with what holds of the value. *)
Definition gives {A} (m : M S A) (Q : A -> Prop) : Prop :=
  forall s, I s -> I (m s).2 /\ forall a, (m s).1 = Ok a -> Q a.

Lemma maintains_same {A} (m : M S A) : (forall s, (m s).2 = s) -> maintains m.
Proof. intros Hm s. by rewrite Hm. Qed.

Lemma maintains_bind {A B} (m : M S A) (f : A -> M S B) : maintains m -> (forall a, maintains (f a)) -> maintains (m ≫= f).
Proof.
  intros Hm Hf s Hs. specialize (Hm s Hs). unfold mbind, M_bind. destruct (m s) as [[a|e| |] s1]; try done. by apply Hf.
Qed.

Lemma gives_bind {A B} (m : M S A) (f : A -> M S B) Q :
  gives m Q -> (forall a, Q a -> maintains (f a)) -> maintains (m ≫= f).
Proof.
  intros Hm Hf s Hs. destruct (Hm s Hs) as [H1 H2]. unfold mbind, M_bind.
  destruct (m s) as [[a|e| |] s1]; try done. by apply Hf; [apply H2|].
Qed.

Lemma maintains_try {A} (m : M S A) : maintains m -> maintains (try_ m).
Proof. intros Hm s Hs. specialize (Hm s Hs). unfold try_. by destruct (m s) as [[] s1]. Qed.

Lemma maintains_ignore {A} (m : M S A) : maintains m -> maintains (ignore m).
Proof. intros Hm. apply maintains_bind; [by apply maintains_try|by intros _ s]. Qed.

Lemma maintains_catch {A} (m : M S A) : maintains m -> maintains (catch_unwind m).
Proof. intros Hm s Hs. specialize (Hm s Hs). unfold catch_unwind. by destruct (m s) as [[] s1]. Qed.

Lemma maintains_guarded {A} (poison : S -> S) (m : M S A) :
  (forall s, I s -> I (poison s)) -> maintains m -> maintains (guarded poison m).
Proof. intros Hp Hm s Hs. specialize (Hm s Hs). unfold guarded. destruct (m s) as [[] s1]; try done. by apply Hp. Qed.

Lemma maintains_for_each {A} (l : list A) (f : A -> M S unit) : (forall x, maintains (f x)) -> maintains (for_each l f).
Proof. intros Hf. induction l as [|x l IH]; [by intros s|]. apply maintains_bind; [done|]. by intros _. Qed.

Lemma maintains_map_each {A B} (l : list A) (f : A -> M S B) : (forall x, maintains (f x)) -> maintains (map_each l f).
Proof.
  intros Hf. induction l as [|x l IH]; [by intros s|]. apply maintains_bind; [done|]. intros y.
  apply maintains_bind; [done|]. by intros ys s.
Qed.
End maintains.

(** ** Synced directories *)

(** No fault is pending and every byte of every file is synced. *)
Definition settled (fs : Fs) : Prop :=
  faults fs = [] /\ forall i, synced (inode_of fs i) = length (data_of fs i).

Lemma settled_empty : settled empty_fs.
Proof. by split. Qed.

(** One file was changed, and synced afterwards. *)
Lemma settled_synced ino fs fs' d :
  settled fs -> touches ino fs fs' -> inode_of fs' ino = mkInode d (length d) -> settled fs'.
Proof.
  intros [_ Hs] (_ & _ & Hf & Hi) Hd. split; [done|]. intros i. unfold data_of. destruct (decide (i = ino)) as [->|Hne].
  - by rewrite Hd.
  - rewrite (Hi i Hne). apply Hs.
Qed.

Lemma settled_inodes fs fs' : settled fs -> faults fs' = [] -> inodes fs' = inodes fs -> settled fs'.
Proof. intros [_ Hs] Hf Hi. split; [done|]. intros i. unfold data_of, inode_of in *. rewrite Hi. apply Hs. Qed.

Lemma quiet_settled {A} (m : M Fs A) : steady m -> quiet m -> maintains settled m.
Proof.
  intros Hst Hq fs Hs. destruct (Hst fs 0%nat 0%nat (proj1 Hs)) as [Hc _]. specialize (Hq fs). cbn in Hq.
  apply (settled_inodes fs); [done|exact Hc|]. by injection Hq.
Qed.

Lemma settled_syscall {A} (run : M Fs A) p : maintains settled run -> maintains settled (syscall run p).
Proof. intros Hr fs Hs. rewrite syscall_ok by apply Hs. by apply Hr. Qed.

Lemma settled_rename from to : maintains settled (fs_rename from to).
Proof. apply settled_syscall. intros fs Hs. by destruct (dirents fs !! from). Qed.

Lemma settled_remove name : maintains settled (fs_remove_file name).
Proof. apply settled_syscall. intros fs Hs. by destruct (dirents fs !! name). Qed.

(** A created or truncated file is empty. *)
Lemma settled_create name fs :
  settled fs -> exists ino fs', file_create name fs = (Ok ino, fs') /\ settled fs' /\ dirents fs' !! name = Some ino.
Proof.
  intros [Hf Hs]. unfold file_create. rewrite syscall_ok by done. destruct (dirents fs !! name) as [ino|] eqn:E.
  - eexists _, _. split; [done|]. split; [split; [done|]|done]. intros i. rewrite data_of_set, inode_of_set.
    case_decide; [done|apply Hs].
  - eexists _, _. split; [done|]. split; [split; [done|]|apply lookup_insert_eq]. intros i.
    unfold data_of, inode_of. cbn [inodes]. destruct (decide (i = next_ino fs)) as [->|Hne].
    + by rewrite lookup_insert_eq.
    + rewrite lookup_insert_ne by done. apply Hs.
Qed.

(** ** Writers *)

(** Without faults, it only appends to the file it owns, and succeeds. *)
Definition touching {A} (m : M (Fs * BufWriter) A) : Prop := forall fs w, faults fs = [] ->
  exists a fs' w', m (fs, w) = (Ok a, (fs', w')) /\ bw_file w' = bw_file w /\ touches (bw_file w) fs fs'.

Lemma touching_bind {A B} (m : M (Fs * BufWriter) A) (f : A -> M (Fs * BufWriter) B) :
  touching m -> (forall a, touching (f a)) -> touching (m ≫= f).
Proof.
  intros Hm Hf fs w Hs. destruct (Hm fs w Hs) as (a & fs1 & w1 & H1 & Hw1 & Ht1).
  destruct (Hf a fs1 w1 (touches_faults _ _ _ Ht1)) as (b & fs2 & w2 & H2 & Hw2 & Ht2).
  exists b, fs2, w2. rewrite (M_bind_ok _ _ _ _ _ H1). rewrite Hw1 in Ht2.
  split; [done|]. split; [congruence|by eapply touches_trans].
Qed.

Lemma touching_write d : touching (bw_write_all d).
Proof. intros fs w Hs. destruct (bw_write_all_ok fs w d Hs) as (fs' & w' & H1 & H2 & H3 & _). by exists tt, fs', w'. Qed.

Lemma touching_flush : touching bw_flush.
Proof. intros fs w Hs. destruct (bw_flush_buf_ok fs w Hs) as (fs' & H1 & H2 & _). by eexists tt, fs', _. Qed.

Lemma touching_drop : touching bw_drop.
Proof.
  intros fs w Hs. destruct (bw_flush_buf_ok fs w Hs) as (fs' & H1 & H2 & _).
  eexists tt, fs', _. split; [exact (ignore_ok _ _ _ _ H1)|done].
Qed.

Lemma scoped_touches {A} ino (body : M (Fs * BufWriter) A) fs :
  touching body -> faults fs = [] ->
  exists a fs', scoped (bw_new ino) body bw_drop fs = (Ok a, fs') /\ touches ino fs fs'.
Proof.
  intros Hb Hs. destruct (Hb fs (bw_new ino) Hs) as (a & fs1 & w1 & H1 & Hw1 & Ht1).
  destruct (touching_drop fs1 w1 (touches_faults _ _ _ Ht1)) as (u & fs2 & w2 & H2 & Hw2 & Ht2).
  exists a, fs2. unfold scoped. rewrite H1, H2. split; [done|]. rewrite Hw1 in Ht2. by eapply touches_trans.
Qed.

(** ** Tables and the manifest *)

Section outage.
Context {C : Crc32} {SM : SkipMap Entry} {FB : FastBloom} {AL : Allocator}.

(** [build] ends before it touches the disk, or leaves only its file unsynced. *)
Lemma build_unsynced path b fs :
  settled fs ->
  (exists o, Builder.build path b fs = (o, fs) /\ o <> Ok tt) \/
  exists ino fs1 fs2, Builder.build path b fs = (Ok tt, fs2) /\ settled fs1 /\ touches ino fs1 fs2 /\
    dirents fs1 !! path = Some ino.
Proof.
  intros Hs. unfold Builder.build. cbn zeta. set (b' := finalize_block b).
  destruct (encode_index [] (index b')) as [ib|err| |] eqn:Ei; [|left; by eexists..].
  rewrite (lift_bind_ok _ _ _ _ eq_refl).
  set (bb := match bloom b' with Some f => encode_bloom [] f | None => [] end).
  assert (exists o, (if is_nil bb then mret 0 else lift (uadd (len (data b')) (len ib))) fs = (o, fs)) as [o Ho].
  { destruct (is_nil bb); by eexists. }
  destruct o as [off|err| |].
  2: { left. rewrite (M_bind_err _ _ _ _ _ Ho). by eexists. }
  2: { left. rewrite (M_bind_panic _ _ _ _ Ho). by eexists. }
  2: { left. rewrite (M_bind_halt _ _ _ _ Ho). by eexists. }
  rewrite (M_bind_ok _ _ _ _ _ Ho). right.
  destruct (settled_create path fs Hs) as (ino & fs1 & Hc & Hs1 & Hd). rewrite (M_bind_ok _ _ _ _ _ Hc).
  destruct (scoped_touches ino
    (_ ← bw_write_all (data b'); _ ← bw_write_all ib; _ ← bw_write_all bb;
     _ ← bw_write_all (footer (len (data b')) off); bw_flush) fs1) as ([] & fs2 & H2 & Ht).
  { repeat (apply touching_bind; [apply touching_write|intros _]). apply touching_flush. }
  { apply Hs1. }
  by exists ino, fs1, fs2.
Qed.

Lemma on_fs_keeps {W A} (I : Fs -> Prop) (m : M Fs A) : maintains I m -> maintains (fun s : Fs * W => I s.1) (on_fs m).
Proof. intros Hm s Hs. specialize (Hm s.1 Hs). unfold on_fs, zoom. by destruct (m s.1). Qed.

(** A table file is synced before it takes its name. *)
Lemma write_table_settled b tmp final (e : LsmEngineInner) fs :
  settled fs -> exists o fs', write_table b tmp final (fs, e) = (o, (fs', e)) /\ settled fs'.
Proof.
  intros Hs. unfold write_table. destruct (build_unsynced tmp b fs Hs) as [(o & Hb & Ho)|(ino & fs1 & fs2 & Hb & Hs1 & Ht & Hd)].
  - pose proof (on_fs_run _ _ e _ _ Hb) as Hb'. exists (match o with Ok _ => Halt | Err x => Err x | Panic => Panic | Halt => Halt end), fs.
    split; [|done]. unfold mbind, M_bind. rewrite Hb'. destruct o as [[]| | |]; done.
  - rewrite (M_bind_ok _ _ _ _ _ (on_fs_run _ _ e _ _ Hb)). destruct Ht as (Hd2 & Hn2 & Hf2 & Hi2).
    rewrite (M_bind_ok _ _ _ _ _ (on_fs_run _ _ e _ _ (file_open_ok tmp ino fs2 Hf2 ltac:(by rewrite Hd2)))).
    destruct (file_sync_ok ino fs2 Hf2) as (fs3 & H3 & Ht3 & Hi3).
    rewrite (M_bind_ok _ _ _ _ _ (on_fs_run _ _ e _ _ H3)).
    assert (settled fs3) as Hs3.
    { eapply settled_synced; [exact Hs1|eapply touches_trans; [|exact Ht3]|exact Hi3]. by split. }
    pose proof (settled_rename tmp final fs3 Hs3) as Hs4. destruct (fs_rename tmp final fs3) as [o fs4] eqn:E.
    exists o, fs4. split; [exact (on_fs_run _ _ e _ _ E)|exact Hs4].
Qed.

(** The manifest is synced before it replaces the old one. *)
Lemma write_atomic_settled m : maintains settled (write_atomic m).
Proof.
  unfold write_atomic. apply maintains_bind.
  - apply maintains_try. intros fs Hs.
    destruct (settled_create MANIFEST_TMP_FILE_NAME fs Hs) as (ino & fs1 & Hc & Hs1 & _). rewrite (M_bind_ok _ _ _ _ _ Hc).
    match goal with |- settled ((?m ≫= _) _).2 => assert (maintains settled m) as Hk end.
    2: { exact (maintains_bind settled _ _ Hk (fun _ => settled_rename _ _) fs1 Hs1). }
    clear dependent fs fs1. intros fs1 Hs1. unfold scoped. destruct (encode m) as [buf|err| |] eqn:He; [|done..].
    rewrite (lift_bind_ok _ _ _ _ eq_refl).
    destruct (bw_write_all_ok fs1 (bw_new ino) buf (proj1 Hs1)) as (fs2 & w2 & H2 & Hw2 & Ht2 & _).
    rewrite (M_bind_ok _ _ _ _ _ H2).
    destruct (bw_flush_buf_ok fs2 w2 (touches_faults _ _ _ Ht2)) as (fs3 & H3 & Ht3 & _).
    unfold bw_flush. rewrite (M_bind_ok _ _ _ _ _ H3).
    destruct (bw_sync_all_ok fs3 (mkBufWriter (bw_file w2) []) (touches_faults _ _ _ Ht3)) as (fs4 & H4 & Ht4 & Hi4).
    rewrite H4. cbn [bw_file] in *. rewrite Hw2 in *.
    assert (settled fs4) as Hs4.
    { eapply settled_synced; [exact Hs1| |exact Hi4]. repeat (eapply touches_trans; [eassumption|]). by apply touches_refl, (touches_faults ino fs3). }
    unfold bw_drop. by erewrite ignore_ok by (unfold bw_flush_buf; by rewrite bool_decide_true).
  - intros [err|[]].
    + apply maintains_bind; [apply maintains_ignore, settled_remove|by intros _ fs].
    + by intros fs.
Qed.

(** ** Logs *)

(** An append only touches the log's file, or changes nothing. *)
Lemma append_touches op k v fs w :
  faults fs = [] ->
  exists o fs' w', append op k v (fs, w) = (o, (fs', w')) /\ bw_file (ww_file w') = bw_file (ww_file w) /\
    touches (bw_file (ww_file w)) fs fs' /\ (o <> Ok tt -> fs' = fs /\ ww_file w' = ww_file w).
Proof.
  intros Hf. unfold append, set_buf, modify, mbind, M_bind, lift. cbn [ww_file ww_path].
  destruct (encode_entry op k v []) as [buf|err| |].
  2, 3, 4: by eexists _, _, _; (split_and!; [done..|by apply touches_refl|]).
  unfold on_file, zoom. cbn [ww_file ww_path].
  destruct (bw_write_all_ok fs (ww_file w) buf Hf) as (fs' & f & -> & Hff & Ht & _).
  eexists _, _, _. by split_and!.
Qed.

Lemma sync_settles fs1 fs w :
  settled fs1 -> touches (bw_file (ww_file w)) fs1 fs ->
  exists fs' w', sync (fs, w) = (Ok tt, (fs', w')) /\ settled fs' /\ bw_buf (ww_file w') = [].
Proof.
  intros Hs Ht. destruct (sync_ok fs w (touches_faults _ _ _ Ht)) as (fs' & w' & H1 & _ & H2 & _ & H3 & H4).
  exists fs', w'. split; [done|]. split; [|done]. eapply settled_synced; [exact Hs|by eapply touches_trans|exact H4].
Qed.

Lemma drop_empty fs w : bw_buf (ww_file w) = [] -> wal_drop (fs, w) = (Ok tt, (fs, w)).
Proof.
  intros Hb. unfold wal_drop, on_file, zoom. assert (bw_flush_buf (fs, ww_file w) = (Ok tt, (fs, ww_file w))) as H.
  { unfold bw_flush_buf. by rewrite bool_decide_true. }
  unfold bw_drop. rewrite (ignore_ok _ _ _ _ H). by destruct w.
Qed.

Lemma wal_create_settled path : gives settled (wal_create path) (fun w => bw_buf (ww_file w) = []).
Proof.
  intros fs Hs. destruct (settled_create path fs Hs) as (ino & fs' & Hc & Hs' & _).
  unfold wal_create. rewrite (M_bind_ok _ _ _ _ _ Hc). split; [exact Hs'|]. by intros w [= <-].
Qed.

(** ** The running engine *)

Abbreviation Sys := (Fs * LsmEngineInner)%type.

(** Every byte that was answered for is synced. *)
Definition dry (s : Sys) : Prop :=
  settled s.1 /\ sync_per_write (options s.2) = true /\ unbuffered s.2.

Lemma dry_disk {A} (m : M Fs A) : maintains settled m -> maintains dry (on_fs m).
Proof.
  intros Hm [fs e] (Hs & Ho & Hu). specialize (Hm fs Hs). unfold on_fs, zoom. cbn [fst]. by destruct (m fs).
Qed.

Lemma dry_upd f : (forall e, same_log e (f e)) -> maintains dry (upd f).
Proof.
  intros Hf [fs e] (Hs & Ho & Hu). split; [done|]. cbn. destruct (Hf e) as [Hw He]. split; [by rewrite He|].
  by apply (same_log_unbuffered e).
Qed.

Lemma dry_quiet {A} (m : M Sys A) :
  (forall s, (m s).2.1 = s.1 /\ same_log s.2 (m s).2.2) -> maintains dry m.
Proof.
  intros Hm [fs e] (Hs & Ho & Hu). destruct (Hm (fs, e)) as [H1 H2]. destruct (m (fs, e)) as [o [fs' e']].
  cbn [fst snd] in *. subst fs'. split; [done|]. cbn. split; [by rewrite (proj2 H2)|by apply (same_log_unbuffered e)].
Qed.

Lemma dry_eng {A} (f : LsmEngineInner -> A) : maintains dry (eng f).
Proof. by apply maintains_same. Qed.

Lemma dry_lift {A} (o : outcome A) : maintains dry (lift o).
Proof. by apply maintains_same. Qed.

Lemma dry_poison l s : dry s -> dry (poison l s).
Proof. by destruct s. Qed.

Lemma dry_with_lock {A} l msg (m : M Sys A) : maintains dry m -> maintains dry (with_lock l msg m).
Proof.
  intros Hm. apply maintains_bind; [apply dry_eng|]. intros [|]; [by apply maintains_same|].
  apply maintains_guarded; [apply dry_poison|exact Hm].
Qed.

Lemma dry_write_state {A} (m : M Sys A) : maintains dry m -> maintains dry (write_state m).
Proof.
  intros Hm. apply maintains_bind; [apply dry_eng|]. intros [|]; [by apply maintains_same|].
  apply maintains_guarded; [apply dry_poison|exact Hm].
Qed.

Lemma dry_read_state : maintains dry read_state.
Proof. apply maintains_bind; [apply dry_eng|]. intros [|]; by apply maintains_same. Qed.

Lemma dry_mem_at i : maintains dry (mem_at i).
Proof. apply maintains_bind; [apply dry_eng|]. intros e. apply dry_lift. Qed.

Lemma dry_handle_at i : maintains dry (handle_at i).
Proof. apply maintains_bind; [apply dry_eng|]. intros e. apply dry_lift. Qed.

Lemma dry_alloc_mem t : maintains dry (alloc_mem t).
Proof. by apply dry_quiet. Qed.

Lemma dry_alloc_handle h : maintains dry (alloc_handle h).
Proof. by apply dry_quiet. Qed.

Lemma dry_fetch_add_seq : maintains dry fetch_add_seq.
Proof. by apply dry_quiet. Qed.

Lemma dry_snapshot_active : maintains dry snapshot_active.
Proof. apply maintains_bind; [apply dry_read_state|]. intros st. destruct (active st); by apply maintains_same. Qed.

Lemma dry_on_mem {A} i (m : M MemTable A) : maintains dry (on_mem i m).
Proof.
  apply maintains_bind; [apply dry_mem_at|]. intros t. cbn beta. destruct (m t) as [o t'].
  apply maintains_bind; [by apply dry_upd|intros _; apply dry_lift].
Qed.

End outage.

#[export] Hint Resolve settled_rename settled_remove write_atomic_settled : dry.
#[export] Hint Resolve steady_table_open quiet_table_open steady_table_get quiet_table_get steady_records quiet_records : steady.
#[export] Hint Resolve dry_eng dry_lift dry_read_state dry_mem_at dry_handle_at dry_alloc_mem dry_alloc_handle
  dry_fetch_add_seq dry_snapshot_active dry_on_mem dry_poison : dry.

(** One step of the derivation that a computation keeps an engine dry. *)
Ltac dry_step :=
  lazymatch goal with
  | |- forall _, _ => intros
  | |- let _ := _ in _ => intros
  | |- maintains dry (mbind _ _) => apply maintains_bind
  | |- maintains dry (try_ _) => apply maintains_try
  | |- maintains dry (ignore _) => apply maintains_ignore
  | |- maintains dry (catch_unwind _) => apply maintains_catch
  | |- maintains dry (for_each _ _) => apply maintains_for_each
  | |- maintains dry (map_each _ _) => apply maintains_map_each
  | |- maintains dry (with_lock _ _ _) => apply dry_with_lock
  | |- maintains dry (write_state _) => apply dry_write_state
  | |- maintains dry (on_fs _) => apply dry_disk; first [solve [eauto 2 with dry] | apply quiet_settled; solve [eauto 2 with steady]]
  | |- maintains dry (upd _) => apply dry_upd; solve [done]
  | |- maintains dry (match ?x with _ => _ end) => destruct x
  | |- maintains dry _ => first [solve [eauto 2 with dry] | by apply maintains_same]
  end.
Ltac dry_tac := repeat (dry_step; cbn zeta).

Section operations.
Context {C : Crc32} {SM : SkipMap Entry} {FB : FastBloom} {AL : Allocator}.

Abbreviation Sys := (Fs * LsmEngineInner)%type.

(** ** The engine's operations *)

Lemma dry_open_reader i : maintains dry (open_reader i).
Proof. unfold open_reader. dry_tac. Qed.

Lemma dry_write_table b tmp final : maintains dry (write_table b tmp final).
Proof.
  intros [fs e] (Hs & Ho & Hu). destruct (write_table_settled b tmp final e fs Hs) as (o & fs' & H1 & H2).
  by rewrite H1.
Qed.

Lemma dry_question {A} (r : LsmError + A) : maintains dry (question r).
Proof. apply maintains_same. by destruct r. Qed.
#[local] Hint Resolve dry_open_reader dry_write_table dry_question : dry.

Lemma dry_flush_pending p : maintains dry (flush_pending p).
Proof. unfold flush_pending, build_pending, join_table, commit_flush. dry_tac. Qed.

Lemma dry_manifest_levels ls : forall l m, maintains dry (manifest_levels l ls m).
Proof.
  induction ls as [|hs ls IH]; intros l m; [by apply maintains_same|]. cbn [manifest_levels].
  apply maintains_bind; [|intros; apply IH]. revert m. induction hs as [|i hs IHh]; intros m; [by apply maintains_same|].
  cbn [manifest_level]. dry_tac; apply IHh.
Qed.
#[local] Hint Resolve dry_flush_pending dry_manifest_levels : dry.

Lemma dry_write_manifest : maintains dry write_manifest.
Proof. unfold write_manifest. dry_tac. Qed.

Lemma dry_drain fuel : forall flushed, maintains dry (drain fuel flushed).
Proof.
  induction fuel as [|fuel IH]; intros flushed; [by apply maintains_same|]. cbn [drain]. dry_tac; apply IH.
Qed.
#[local] Hint Resolve dry_write_manifest dry_drain : dry.

Lemma dry_flush_all_pending : maintains dry flush_all_pending.
Proof. unfold flush_all_pending. dry_tac. Qed.

Lemma dry_compact_all_pending : maintains dry compact_all_pending.
Proof. unfold compact_all_pending, read_run, write_merged, build_merged, commit_compact. dry_tac. Qed.
#[local] Hint Resolve dry_flush_all_pending dry_compact_all_pending : dry.

Lemma dry_worker_tick : maintains dry worker_tick.
Proof. unfold worker_tick, compact_needed. dry_tac. Qed.

Lemma dry_drop_writer : maintains dry (on_writer wal_drop).
Proof.
  intros [fs e] (Hs & Ho & Hu). pose proof (drop_empty fs (writer (wal e)) Hu) as H.
  unfold on_writer, zoom. cbn [fst snd] in *. rewrite H. by split.
Qed.
#[local] Hint Resolve dry_drop_writer : dry.

(** The old log is dropped with an empty buffer, the new one starts with one. *)
Lemma dry_rotate n : maintains dry (rotate n).
Proof.
  unfold rotate. eapply (gives_bind dry _ _ (fun w => bw_buf (ww_file w) = [])).
  - intros [fs e] (Hs & Ho & Hu). destruct (wal_create_settled (wal_name n) fs Hs) as [H1 H2].
    unfold on_fs, zoom. cbn [fst snd] in *. by destruct (wal_create _ fs).
  - intros w Hw. apply maintains_bind; [dry_tac|intros _]. apply maintains_bind; [dry_tac|intros _].
    apply maintains_bind; [|by intros _ s]. intros [fs e] (Hs & Ho & Hu). by split.
Qed.
#[local] Hint Resolve dry_rotate : dry.

Lemma dry_freeze_active : maintains dry freeze_active.
Proof. unfold freeze_active. dry_tac. Qed.
#[local] Hint Resolve dry_freeze_active : dry.

Lemma dry_apply k v d : maintains dry (apply_and_maybe_freeze k v d).
Proof. unfold apply_and_maybe_freeze. dry_tac. Qed.

(** The log entry is synced before the memtable sees the write. *)
Lemma dry_log op k v {A} (rest : M Sys A) :
  maintains dry rest ->
  maintains dry (_ ← on_writer (append op k v);
             o ← eng options;
             _ ← (if sync_per_write o then on_writer sync else mret tt);
             rest).
Proof.
  intros Hr [fs e] (Hs & Ho & Hu).
  destruct (append_touches op k v fs (writer (wal e)) (proj1 Hs)) as (o & fs1 & w1 & H1 & Hw1 & Ht1 & Hn1).
  pose proof (zoom_eq (fun s : Sys => (s.1, writer (wal s.2))) (fun '(fs, w) s => (fs, set_wal (mkActiveWal w (Engine.seq (wal s.2))) s.2))
    (append op k v) (fs, e) _ _ H1) as Hz. cbn [fst snd] in Hz. change (zoom _ _ _) with (on_writer (append op k v)) in Hz.
  destruct o as [[]|err| |].
  2, 3, 4: (destruct (Hn1 ltac:(done)) as [-> Hb]; unfold mbind, M_bind; rewrite Hz; split_and!; [done..|];
    unfold unbuffered; cbn; by rewrite Hb).
  rewrite (M_bind_ok _ _ _ _ _ Hz). mstep. cbn [snd options set_wal]. cbn [fst snd] in Ho. rewrite Ho.
  assert (touches (bw_file (ww_file w1)) fs fs1) as Ht by (by rewrite Hw1).
  destruct (sync_settles fs fs1 w1 Hs Ht) as (fs2 & w2 & H2 & Hs2 & Hb2).
  pose proof (zoom_eq (fun s : Sys => (s.1, writer (wal s.2))) (fun '(fs, w) s => (fs, set_wal (mkActiveWal w (Engine.seq (wal s.2))) s.2))
    sync (fs1, set_wal (mkActiveWal w1 (Engine.seq (wal e))) e) _ _ H2) as Hz2. cbn [fst snd] in Hz2.
  change (zoom _ _ _) with (on_writer sync) in Hz2. rewrite (M_bind_ok _ _ _ _ _ Hz2). apply Hr. by split.
Qed.

Lemma dry_put k v : maintains dry (put k v).
Proof. apply dry_with_lock, dry_log, dry_apply. Qed.

Lemma dry_delete k : maintains dry (delete k).
Proof. apply dry_with_lock, dry_log, dry_apply. Qed.

Lemma dry_sync : maintains dry (on_writer sync).
Proof.
  intros [fs e] (Hs & Ho & Hu).
  destruct (sync_settles fs fs (writer (wal e)) Hs (touches_refl _ _ (proj1 Hs))) as (fs2 & w2 & H2 & Hs2 & Hb2).
  unfold on_writer, zoom. cbn [fst snd] in *. rewrite H2. by split.
Qed.
#[local] Hint Resolve dry_sync : dry.

Lemma dry_flush : maintains dry flush.
Proof. unfold flush. dry_tac. Qed.

Lemma dry_drop_engine : maintains dry drop_engine.
Proof. unfold drop_engine. dry_tac. Qed.

Lemma dry_get k : maintains dry (get k).
Proof.
  assert (forall hs, maintains dry (get_level hs k)) as Hl.
  { induction hs as [|i hs IH]; [by apply maintains_same|]. cbn [get_level]. dry_tac; apply IH. }
  assert (forall ls, maintains dry (get_levels ls k)) as Hls.
  { induction ls as [|hs ls IH]; [by apply maintains_same|]. cbn [get_levels]. apply maintains_bind; [apply Hl|]. dry_tac; apply IH. }
  assert (forall ps, maintains dry (get_immutables ps k)) as Hi.
  { induction ps as [|p ps IH]; [by apply maintains_same|]. cbn [get_immutables]. dry_tac; apply IH. }
  unfold get. dry_tac; auto.
Qed.

(** ** Opening *)

Lemma bind_ok_inv {S A B} (m : M S A) (f : A -> M S B) s b s' :
  (m ≫= f) s = (Ok b, s') -> exists a s1, m s = (Ok a, s1) /\ f a s1 = (Ok b, s').
Proof. unfold mbind, M_bind. destruct (m s) as [[a|e| |] s1]; try done. by exists a, s1. Qed.

Lemma maintains_ok {S A} (I : S -> Prop) (m : M S A) s a s' : maintains I m -> I s -> m s = (Ok a, s') -> I s'.
Proof. intros Hm Hs H. specialize (Hm s Hs). by rewrite H in Hm. Qed.

Lemma settled_open_levels ls hs : maintains settled (open_levels ls hs).
Proof. destruct (steady_open_levels ls hs) as [H1 H2]. by apply quiet_settled. Qed.

Lemma settled_replay wals t : maintains settled (moved t (for_each wals replay_file) (mret tt)).
Proof.
  assert (maintains (fun s : Fs * MemTable => settled s.1) (for_each wals replay_file)) as Hk.
  { apply maintains_for_each. intros f [fs t'] Hs. pose proof (quiet_replay_file f (fs, t')) as Hq.
    destruct (steady_replay_file f (fs, t') 0%nat 0%nat (proj1 Hs)) as [Hc _]. cbn in Hq.
    apply (settled_inodes fs); [done|exact Hc|]. by injection Hq. }
  intros fs Hs. specialize (Hk (fs, t) Hs). unfold moved. by destruct (for_each wals replay_file (fs, t)) as [[] [fs' t']].
Qed.

Lemma append_entries_touch kvs : forall fs w fs' w', faults fs = [] ->
  for_each kvs append_entry (fs, w) = (Ok tt, (fs', w')) ->
  bw_file (ww_file w') = bw_file (ww_file w) /\ touches (bw_file (ww_file w)) fs fs'.
Proof.
  induction kvs as [|kv kvs IH]; intros fs w fs' w' Hf H; cbn [for_each] in H.
  - injection H as <- <-. split; [done|by apply touches_refl].
  - apply bind_ok_inv in H as ([] & [fs1 w1] & H1 & H2). unfold append_entry in H1.
    destruct (append_touches (if MemTable.deleted kv.2 then Delete else Put) kv.1
      (if MemTable.deleted kv.2 then [] else MemTable.value kv.2) fs w Hf) as (o & fs2 & w2 & H3 & Hw & Ht & _).
    rewrite H1 in H3. injection H3 as _ <- <-. destruct (IH _ _ _ _ (touches_faults _ _ _ Ht) H2) as [Hw2 Ht2].
    rewrite Hw in *. split; [done|by eapply touches_trans].
Qed.

(** A recovered engine starts dry: what it re-appended is synced before the old
    logs go. *)
Lemma dry_open o fs e fs' :
  settled fs -> sync_per_write o = true -> open_with_options o fs = (Ok e, fs') -> dry (fs', e).
Proof.
  intros Hs Ho H. unfold open_with_options in H.
  apply bind_ok_inv in H as ([] & fs1 & H1 & H).
  apply (maintains_ok settled) in H1; [|apply quiet_settled; auto with steady|done].
  apply bind_ok_inv in H as (m & fs2 & H2 & H).
  apply (maintains_ok settled) in H2; [|apply quiet_settled; [apply steady_load|apply quiet_load]|done].
  apply bind_ok_inv in H as ([ls hs] & fs3 & H3 & H). apply (maintains_ok settled) in H3; [|apply settled_open_levels|done].
  apply bind_ok_inv in H as (names & fs4 & H4 & H).
  apply (maintains_ok settled) in H4; [|apply quiet_settled; auto with steady|done].
  apply bind_ok_inv in H as (wals & fs5 & H5 & H). apply (maintains_ok settled) in H5;
    [|apply quiet_settled; [apply inert_steady, inert_wal_files|apply inert_quiet, inert_wal_files]|done].
  cbn zeta in H. apply bind_ok_inv in H as ([[] t] & fs6 & H6 & H). apply (maintains_ok settled) in H6; [|apply settled_replay|done].
  apply bind_ok_inv in H as (n & fs7 & H7 & H). injection H7 as _ <-.
  apply bind_ok_inv in H as (w & fs8 & H8 & H).
  destruct (wal_create_settled (wal_name n) fs6 H6) as [Hs8 Hw]. rewrite H8 in Hs8, Hw. specialize (Hw w eq_refl). cbn [snd] in Hs8.
  apply bind_ok_inv in H as ([[] w'] & fs9 & H9 & H). injection H as <- <-.
  apply moved_inv, bind_ok_inv in H9 as ([] & [fsA wA] & HA & H9).
  assert (settled fsA /\ bw_buf (ww_file wA) = []) as HsA.
  { destruct (MemTable.is_empty t); [by injection HA as <- <-|].
    apply bind_ok_inv in HA as ([] & [fsB wB] & HB & HA).
    apply append_entries_touch in HB as [HwB HtB]; [|apply Hs8]. rewrite <- HwB in HtB.
    destruct (sync_settles _ _ _ Hs8 HtB) as (fsC & wC & HC & HsC & HbC). rewrite HC in HA. by injection HA as <- <-. }
  assert (settled fs9 /\ bw_buf (ww_file w') = []) as [Hs9 Hb9]; [|by split].
  refine (maintains_ok (fun s : Fs * WalWriter => settled s.1 /\ bw_buf (ww_file s.2) = []) _ (fsA, wA) tt (fs9, w') _ HsA H9).
  assert (forall A (c : M Fs A), maintains settled c ->
    maintains (fun s : Fs * WalWriter => settled s.1 /\ bw_buf (ww_file s.2) = []) (on_fs c)) as Hon.
  { intros A c Hc [fs0 w0] [Hs0 Hb0]. specialize (Hc fs0 Hs0). unfold on_fs, zoom. cbn [fst]. by destruct (c fs0). }
  apply maintains_bind.
  - apply maintains_for_each. intros f. apply maintains_ignore, Hon, settled_remove.
  - intros _. apply Hon, settled_syscall. by intros fs0.
Qed.
(** ** Sessions *)

Lemma dry_unit_reply m : maintains dry m -> maintains dry (unit_reply m).
Proof. intros Hm. apply maintains_bind; [done|by intros _ s]. Qed.

Lemma dry_reopen fs e T a :
  engine_ok fs e T a -> room ReqReopen (fs, e) -> dry (fs, e) -> dry (reopen (fs, e)).2.
Proof.
  intros Hok (Hfit & Hlen & Hroom) Hdry. cbn [fst snd] in *.
  destruct (drop_engine_ok fs e T a Hok Hfit Hlen) as (fs1 & e1 & Hdrop & Hok1 & Hfit1 & _ & Hns & Ho & _).
  destruct (disk_seqs fs1 e1 T a Hok1 ltac:(lia)) as [H1 H2].
  destruct (engine_open_ok fs1 _ _ _ (options e1) (engine_disk _ _ _ _ Hok1 Hfit1) H1 H2)
    as (e2 & fs2 & T2 & Hopen & _).
  pose proof (dry_drop_engine (fs, e) Hdry) as Hd1. rewrite Hdrop in Hd1. destruct Hd1 as (Hs1 & Ho1 & _).
  unfold reopen. rewrite (M_bind_ok _ _ _ _ _ Hdrop). mstep.
  rewrite (M_bind_ok _ _ _ _ _ (on_fs_run _ _ e1 _ _ Hopen)). mstep. exact (dry_open _ _ _ _ Hs1 Ho1 Hopen).
Qed.

Lemma dry_serve r m s : rep m s -> room r s -> dry s -> dry (serve r s).2.
Proof.
  destruct r as [k v|k|k| | | |]; intros Hrep Hroom Hdry; cbn [serve].
  - by apply dry_unit_reply; [apply dry_put|].
  - by apply dry_unit_reply; [apply dry_delete|].
  - by apply dry_get.
  - by apply dry_unit_reply; [apply dry_flush|].
  - by apply dry_unit_reply; [apply dry_compact_all_pending|].
  - by apply dry_unit_reply; [apply dry_worker_tick|].
  - destruct s as [fs e], Hrep as (T & a & Hok & _). by apply (dry_reopen fs e T a).
Qed.

Lemma dry_session rs : forall m s, rep m s -> session_room rs s -> dry s -> dry (session rs s).2.
Proof.
  induction rs as [|r rs IH]; intros m s Hrep Hroom Hdry; [done|]. destruct Hroom as [Hr Hroom].
  destruct (serve_ok r m s Hrep Hr) as (s1 & H1 & Hrep1). pose proof (dry_serve r m s Hrep Hr Hdry) as Hd1.
  change (kv_serve r s) with (serve r s) in Hroom. cbn [session]. change (kv_serve r s) with (serve r s).
  rewrite H1 in Hroom, Hd1 |- *. specialize (IH _ _ Hrep1 Hroom Hd1). cbn [snd] in IH. by destruct (session rs s1).
Qed.

(** ** Power losses *)

(** The power fails and no change of the directory is lost. *)
Definition outage (fs fs' : Fs) : Prop := power_loss fs fs' /\ dirents fs' = dirents fs.

(** A power loss that loses nothing is one. *)
Lemma power_loss_killed fs : power_loss fs (killed fs).
Proof.
  do 2 (split; [done|]). intros i. exists (Nat.max (synced (inode_of fs i)) (length (content (inode_of fs i)))).
  split; [lia|]. rewrite take_ge by lia. by destruct (inode_of fs i) eqn:E; unfold killed; rewrite inode_of_set_faults, E.
Qed.

Lemma killed_dirents fs : dirents (killed fs) = dirents fs.
Proof. done. Qed.

(** A settled directory loses nothing. *)
Lemma settled_outage fs fs' :
  settled fs -> outage fs fs' -> settled fs' /\ forall i, inode_of fs' i = inode_of fs i.
Proof.
  intros [_ Hs] [(_ & Hf & Hp) _].
  assert (forall i, inode_of fs' i = inode_of fs i) as Hi.
  { intros i. destruct (Hp i) as (n & Hn & ->). rewrite Hs in Hn. rewrite take_ge by exact Hn. by destruct (inode_of fs i). }
  split; [|done]. split; [done|]. intros i. unfold data_of. rewrite Hi. apply Hs.
Qed.

Lemma outage_within fs fs' : settled fs -> fs_wf fs -> outage fs fs' -> within (fun _ => False) fs fs'.
Proof.
  intros Hs [W1 W2] Ho. destruct (settled_outage fs fs' Hs Ho) as [Hs' Hi]. destruct Ho as [(Hn & _ & _) Hd].
  split; [split|].
  - apply Hs'.
  - split; rewrite Hd, ?Hn; done.
  - by rewrite Hn.
  - intros n _. split; [by rewrite Hd|]. intros i _. apply Hi.
  - intros i [H1 H2]. split; [|apply Hi]. split; [by rewrite Hn|]. intros n. rewrite Hd. apply H2.
  - intros x. rewrite Hd. by left.
Qed.

Lemma settled_fit fs fs' : settled fs -> outage fs fs' -> files_fit fs -> files_fit fs'.
Proof.
  intros Hs Ho Hfit n d Hd. apply (Hfit n). rewrite <- Hd. destruct (settled_outage fs fs' Hs Ho) as [_ Hi].
  unfold file_of, data_of. rewrite (proj2 Ho). destruct (dirents fs !! n) as [i|]; [|done]. cbn. by rewrite Hi.
Qed.

Lemma outage_reopens fs e T a m fs' :
  engine_ok fs e T a -> dry (fs, e) -> files_fit fs -> next_seq e < u64_max - 1 ->
  (forall k, view e T k = m !! k) -> outage fs fs' -> files_fit fs' /\ reopens m fs'.
Proof.
  intros Hok (Hs & _ & Hu) Hfit Hroom Hv Ho. cbn [fst snd] in *. split.
  - exact (settled_fit fs fs' Hs Ho Hfit).
  - pose proof (outage_within fs fs' Hs (eo_fs _ _ _ _ Hok) Ho) as Hw. pose proof (eo_next _ _ _ _ Hok).
    eapply (recovers_reopens (next_seq e - 1)); [|lia|].
    + eapply (recovers_fresh _ (next_seq e)); [apply (engine_recovers fs e T a); [done|lia]|lia|lia| |done].
      eapply within_mono; [|exact Hw]. done.
    + intros _ k. by rewrite (durable_unbuffered _ _ _ _ _ Hok Hfit Hu).
Qed.
End operations.

#[export] Hint Resolve dry_open_reader dry_write_table dry_question dry_write_manifest dry_flush_all_pending
  dry_compact_all_pending dry_drop_writer dry_rotate dry_freeze_active dry_sync : dry.
