(* ===== verification/Faults.v ===== *)
(** * Runs whose system calls may fail

    The calculus for code that goes on after an I/O error.  [copes m s E P]
    holds of a run with whatever faults pending: it does not panic, it ends
    early only where it reaches a pending stop, a value it returns satisfies [P] with the
    state it leaves, an error it reports satisfies [E].  [faithful] computations only read, and a value they return
    under faults is the one they return without; [leaves N] is a change of the
    directory that is confined to the files named in [N]. *)

From S2P Require Import Prelude Outcome External Fs Crash.
From S2P Require Import SstRecord SstIndex Bloom Builder Reader Manifest Steady EngineSpec EngineDisk.

(** ** Post-conditions for values and for errors *)

Section copes.
Context {S : Type} `{Machine S}.

(** What is pending after a run was pending before it; a run that ended early
    met a stop, the last fault it used up. *)
Definition later (s s' : S) : Prop := faults (disk s') `suffix_of` faults (disk s).
Definition died (s s' : S) : Prop := exists n, (Stop n :: faults (disk s')) `suffix_of` faults (disk s).

Lemma later_refl s s' : disk s' = disk s -> later s s'.
Proof. unfold later. by intros ->. Qed.

Lemma later_trans s1 s2 s3 : later s1 s2 -> later s2 s3 -> later s1 s3.
Proof. unfold later. intros H1 H2. by etrans. Qed.

Lemma died_later s1 s2 s3 : later s1 s2 -> died s2 s3 -> died s1 s3.
Proof. intros H1 [n H2]. exists n. by etrans. Qed.

Lemma later_stops s s' : later s s' -> stops s' -> stops s.
Proof. intros [l Hl] [n Hn]. exists n. rewrite Hl. apply elem_of_app. by right. Qed.

Lemma died_stops s s' : died s s' -> stops s.
Proof. intros [n [l Hl]]. exists n. rewrite Hl. apply elem_of_app. right. apply list_elem_of_here. Qed.

Definition copes {A} (m : M S A) (s : S) (E : LsmError -> S -> Prop) (P : A -> S -> Prop) : Prop :=
  later s (m s).2 /\
  match (m s).1 with
  | Ok a => P a (m s).2
  | Err err => E err (m s).2
  | Panic => False
  | Halt => died s (m s).2
  end.

Lemma copes_run {A} (m : M S A) s a s' E (P : A -> S -> Prop) :
  m s = (Ok a, s') -> disk s' = disk s -> P a s' -> copes m s E P.
Proof. unfold copes. intros -> Hd. split; [by apply later_refl|done]. Qed.

Lemma copes_err {A} (m : M S A) s err s' (E : LsmError -> S -> Prop) (P : A -> S -> Prop) :
  m s = (Err err, s') -> disk s' = disk s -> E err s' -> copes m s E P.
Proof. unfold copes. intros -> Hd. split; [by apply later_refl|done]. Qed.

Lemma copes_ret {A} (a : A) s E (P : A -> S -> Prop) : P a s -> copes (mret a) s E P.
Proof. by apply copes_run. Qed.

Lemma copes_fail {A} err s (E : LsmError -> S -> Prop) (P : A -> S -> Prop) : E err s -> copes (fail err) s E P.
Proof. by apply copes_err. Qed.

Lemma copes_mono {A} (m : M S A) s (E E' : LsmError -> S -> Prop) (P P' : A -> S -> Prop) :
  copes m s E P -> (forall err s', E err s' -> E' err s') -> (forall a s', P a s' -> P' a s') -> copes m s E' P'.
Proof. intros [H1 H2] HE HP. split; [done|]. destruct (m s) as [[a|err| |] s']; cbn in *; auto. Qed.

Lemma copes_bind {A B} (m : M S A) (f : A -> M S B) s E P (Q : B -> S -> Prop) :
  copes m s E P -> (forall a s', P a s' -> copes (f a) s' E Q) -> copes (m ≫= f) s E Q.
Proof.
  unfold copes, mbind, M_bind. intros [H1 H2] Hf. destruct (m s) as [[a|err| |] s']; cbn in *; try done.
  destruct (Hf a s' H2) as [H3 H4]. split; [by eapply later_trans|].
  destruct (f a s').1; try done. by eapply died_later.
Qed.

(** The same from post-conditions of the first action's own. *)
Lemma copes_seq {A B} (m : M S A) (f : A -> M S B) s E0 P E (Q : B -> S -> Prop) :
  copes m s E0 P -> (forall err s', E0 err s' -> E err s') ->
  (forall a s', P a s' -> copes (f a) s' E Q) -> copes (m ≫= f) s E Q.
Proof. intros Hm HE Hf. eapply copes_bind; [eapply copes_mono; [exact Hm|exact HE|]|exact Hf]. auto. Qed.

(** The value and the state are those of the run. *)
Lemma copes_eq {A} (m : M S A) s E (P : A -> S -> Prop) :
  copes m s E P -> copes m s E (fun a s' => P a s' /\ m s = (Ok a, s')).
Proof. intros [H1 H2]. split; [done|]. by destruct (m s) as [[] s']. Qed.

(** A first action that succeeds whatever is pending. *)
Lemma copes_bind_ok {A B} (m : M S A) (f : A -> M S B) s a s' E (Q : B -> S -> Prop) :
  m s = (Ok a, s') -> disk s' = disk s -> copes (f a) s' E Q -> copes (m ≫= f) s E Q.
Proof.
  intros Hm Hd Hf. eapply copes_bind; [by apply (copes_run _ _ _ _ _ (fun x y => x = a /\ y = s') Hm)|]. by intros ? ? [-> ->].
Qed.

Lemma copes_assoc {A B C} (m : M S A) (f : A -> M S B) (g : B -> M S C) s E (Q : C -> S -> Prop) :
  copes ((m ≫= f) ≫= g) s E Q <-> copes (m ≫= fun a => f a ≫= g) s E Q.
Proof. unfold copes. by rewrite M_bind_assoc. Qed.

Lemma copes_try {A} (m : M S A) s E E' (P : A -> S -> Prop) :
  copes m s E P -> copes (try_ m) s E' (fun r s' => match r with inl err => E err s' | inr a => P a s' end).
Proof. unfold copes, try_. by destruct (m s) as [[] s']. Qed.

Lemma copes_ignore {A} (m : M S A) s E' (P : S -> Prop) :
  copes m s (fun _ => P) (fun _ => P) -> copes (ignore m) s E' (fun _ => P).
Proof.
  intros Hm. eapply copes_bind; [by eapply copes_try|]. intros [err|a] s' Hs; by apply copes_ret.
Qed.

Lemma copes_catch {A} (m : M S A) s E' (P : S -> Prop) :
  copes m s (fun _ => P) (fun _ => P) -> copes (catch_unwind m) s E' (fun _ => P).
Proof. unfold copes, catch_unwind. intros [H1 H2]. by destruct (m s) as [[] s']; cbn in *. Qed.

Lemma copes_guarded {A} p (m : M S A) s E (P : A -> S -> Prop) : copes m s E P -> copes (guarded p m) s E P.
Proof. unfold copes, guarded. intros [H1 H2]. by destruct (m s) as [[] s']; cbn in *. Qed.

Lemma copes_for_each {A} (l : list A) (f : A -> M S unit) s E (P : S -> Prop) :
  P s -> (forall x s', x ∈ l -> P s' -> copes (f x) s' E (fun _ => P)) -> copes (for_each l f) s E (fun _ => P).
Proof.
  revert s. induction l as [|x l IH]; intros s Hs Hf; [by apply copes_ret|].
  eapply copes_bind; [by apply Hf; [apply list_elem_of_here|]|]. intros ? s' Hs'. apply IH; [done|].
  intros y s2 Hy. apply Hf. by apply list_elem_of_further.
Qed.
End copes.

Lemma copes_on_fs {W A} (m : M Fs A) fs (w : W) (E0 : LsmError -> Fs -> Prop) (P0 : A -> Fs -> Prop) E P :
  copes m fs E0 P0 -> (forall err fs', E0 err fs' -> E err (fs', w)) -> (forall a fs', P0 a fs' -> P a (fs', w)) ->
  copes (on_fs m) (fs, w) E P.
Proof.
  unfold copes, on_fs, zoom. cbn [fst]. intros [H1 H2] HE HP. split; [by destruct (m fs)|].
  destruct (m fs) as [[] fs']; cbn in *; auto.
Qed.

Lemma copes_on_fs_seq {W A B} (m : M Fs A) (f : A -> M (Fs * W) B) fs (w : W) E0 P E (Q : B -> Fs * W -> Prop) :
  copes m fs E0 P -> (forall err fs', E0 err fs' -> E err (fs', w)) ->
  (forall a fs', P a fs' -> copes (f a) (fs', w) E Q) -> copes (on_fs m ≫= f) (fs, w) E Q.
Proof.
  intros Hm HE Hf. eapply copes_bind with (P := fun a s => exists fs', P a fs' /\ s = (fs', w)).
  - eapply copes_on_fs; [exact Hm|exact HE|]. intros a fs' Ha. by exists fs'.
  - intros a s (fs' & Ha & ->). by apply Hf.
Qed.

(** ** Reading *)

(** The result is that of the run without faults, unless a system call failed
    or met a stop. *)
Definition honest {A} (m : M Fs A) : Prop := forall fs,
  later fs (m fs).2 /\
  match (m fs).1 with
  | Ok a => (m (killed fs)).1 = Ok a
  | Err _ => True
  | Panic => (m (killed fs)).1 = Panic
  | Halt => (m (killed fs)).1 = Halt \/ died fs (m fs).2
  end.

Record faithful {A} (m : M Fs A) : Prop := {
  fa_steady : steady m;
  fa_quiet : quiet m;
  fa_honest : honest m;
}.

Lemma quiet_killed {A} (m : M Fs A) fs : steady m -> quiet m -> (m (killed fs)).2 = killed fs.
Proof.
  intros Hs Hq. destruct (Hs (killed fs) 0%nat 0%nat eq_refl) as [Hc _]. specialize (Hq (killed fs)).
  cbn [disk machine_fs] in Hq, Hc. unfold id in Hq. rewrite (killed_calm _ Hc) in Hq. by rewrite Hq.
Qed.

Lemma honest_bind {A B} (m : M Fs A) (f : A -> M Fs B) :
  steady m -> quiet m -> honest m -> (forall a, honest (f a)) -> honest (m ≫= f).
Proof.
  intros Hs Hq Hm Hf fs. specialize (Hm fs). pose proof (Hq fs) as Hqf. pose proof (quiet_killed m fs Hs Hq) as Hk.
  unfold mbind, M_bind. destruct (m fs) as [o fs1]. destruct (m (killed fs)) as [o' fs2].
  cbn [fst snd disk machine_fs] in *. unfold id in Hqf. subst fs2. destruct Hm as [Hst Hm].
  destruct o as [a|err| |]; cbn [fst snd] in *.
  - subst o'. specialize (Hf a fs1). rewrite Hqf in Hf. destruct Hf as [Hst2 Hf]. split; [by eapply later_trans|].
    destruct (f a fs1) as [[] fs3]; cbn [fst snd] in *; try done. destruct Hf as [Hf|Hf]; [by left|right; by eapply died_later].
  - done.
  - by subst o'.
  - split; [done|]. destruct Hm as [->|Hm]; auto.
Qed.

Lemma faithful_bind {A B} (m : M Fs A) (f : A -> M Fs B) :
  faithful m -> (forall a, faithful (f a)) -> faithful (m ≫= f).
Proof.
  intros [S1 Q1 H1] Hf. split.
  - apply steady_bind; [done|]. intros a. apply Hf.
  - apply quiet_bind; [done|]. intros a. apply Hf.
  - apply honest_bind; try done. intros a. apply Hf.
Qed.

Lemma faithful_lift {A} (o : outcome A) : faithful (lift o).
Proof. split; [by apply inert_steady|by apply inert_quiet|]. intros fs. split; [by apply later_refl|]. destruct o; try done. by left. Qed.

Lemma faithful_ret {A} (a : A) : faithful (mret a).
Proof. exact (faithful_lift (Ok a)). Qed.

Lemma faithful_fail {A} err : faithful (A := A) (fail err).
Proof. exact (faithful_lift (Err err)). Qed.

(** A system call consumes one fault. *)
Lemma syscall_later {A} (run : M Fs A) p fs :
  (forall fs, faults (run fs).2 = faults fs) -> (forall n fs, faults (p n fs) = faults fs) ->
  later fs (syscall run p fs).2.
Proof.
  intros Hr Hp. unfold syscall, later. cbn [disk machine_fs]. unfold id.
  destruct (faults fs) as [|[|n|n] l] eqn:E; cbn [snd]; rewrite ?Hr, ?Hp, ?E; [done|..]; by apply suffix_cons_r.
Qed.

Lemma syscall_died {A} (run : M Fs A) p fs :
  (forall fs, (run fs).1 <> Halt) -> (forall n fs, faults (p n fs) = faults fs) ->
  (syscall run p fs).1 = Halt -> died fs (syscall run p fs).2.
Proof.
  intros Hr Hp. unfold syscall, died. cbn [disk machine_fs]. unfold id.
  destruct (faults fs) as [|[|n|n] l] eqn:E; cbn [fst snd]; try done.
  - by intros ?%Hr.
  - by intros ?%Hr.
  - intros _. exists n. by rewrite Hp.
Qed.

Lemma honest_syscall {A} (run : M Fs A) :
  (forall l fs, (run (set_faults l fs)).1 = (run fs).1) -> (forall fs, (run fs).2 = fs) -> honest (syscall run nothing).
Proof.
  intros Hr Hs fs. split; [apply syscall_later; [intros; by rewrite Hs|done]|]. unfold syscall.
  change (faults (killed fs)) with (@nil fault).
  assert (forall fs' s', (run fs').1 = (run (killed fs)).1 ->
    match (run fs').1 with Ok a => (run (killed fs)).1 = Ok a | Panic => (run (killed fs)).1 = Panic
      | Halt => (run (killed fs)).1 = Halt \/ died fs s' | _ => True end) as Hok.
  { intros fs' s' ->. destruct (run (killed fs)).1; try done. by left. }
  destruct (faults fs) as [|[|n|n] l] eqn:E; [| |done|].
  - apply Hok. unfold killed. by rewrite !Hr.
  - apply Hok. unfold killed. by rewrite !Hr.
  - right. exists n. cbn. unfold id. by rewrite E.
Qed.

Lemma faithful_file_open name : faithful (file_open name).
Proof.
  split; [apply steady_file_open|apply quiet_file_open|].
  apply honest_syscall; [intros l fs; cbn|intros fs]; by case_match.
Qed.
Lemma faithful_file_len ino : faithful (file_len ino).
Proof. split; [apply steady_file_len|apply quiet_file_len|by apply honest_syscall]. Qed.
Lemma faithful_file_read_exact_at ino off n : faithful (file_read_exact_at ino off n).
Proof.
  split; [apply steady_file_read_exact_at|apply quiet_file_read_exact_at|]. apply honest_syscall.
  - intros l fs. change (data_of (set_faults l fs) ino) with (data_of fs ino). cbn zeta. by case_match.
  - intros fs. cbn zeta. by case_match.
Qed.

Create HintDb faithful.
#[export] Hint Resolve faithful_lift faithful_ret faithful_fail faithful_file_open faithful_file_len
  faithful_file_read_exact_at : faithful.

Ltac faithful_step :=
  lazymatch goal with
  | |- forall _, _ => intros
  | |- faithful (mbind _ _) => apply faithful_bind
  | |- faithful (match ?x with _ => _ end) => destruct x
  | |- faithful _ => solve [eauto 2 with faithful]
  end.
Ltac faithful_tac := repeat (faithful_step; cbn zeta).

Lemma faithful_read_region f a n : faithful (read_region f a n).
Proof. unfold read_region. faithful_tac. Qed.
#[export] Hint Resolve faithful_read_region : faithful.

Lemma faithful_table_open {FB : FastBloom} path : faithful (Reader.open path).
Proof. unfold Reader.open. faithful_tac. Qed.

Lemma faithful_table_get {FB : FastBloom} r k : faithful (Reader.get r k).
Proof. unfold Reader.get, read_block_at. faithful_tac. Qed.

Lemma faithful_records {FB : FastBloom} r : faithful (Reader.records r).
Proof. unfold Reader.records, read_block_at. faithful_tac. Qed.

(** The directory is the same but for the pending faults. *)
Definition still (fs fs' : Fs) : Prop := killed fs' = killed fs.

(** A faithful computation that returns [a] without faults. *)
Lemma faithful_copes {A} (m : M Fs A) fs a fs0 :
  faithful m -> m (killed fs) = (Ok a, fs0) ->
  copes m fs (fun _ fs' => still fs fs') (fun a' fs' => a' = a /\ still fs fs').
Proof.
  intros [_ Hq Hh] Hrun. specialize (Hq fs). destruct (Hh fs) as [Hst Ho]. rewrite Hrun in Ho. split; [done|].
  destruct (m fs) as [[a'|err| |] fs']; cbn [fst snd disk machine_fs] in *; try done.
  - split; [congruence|exact Hq].
  - by destruct Ho.
Qed.

(** ** Computations that never panic *)

Section orderly.
Context {S : Type} `{Machine S}.

(** They end early only where they meet a stop. *)
Definition orderly {A} (m : M S A) : Prop := forall s,
  (m s).1 <> Panic /\ ((m s).1 = Halt -> died s (m s).2) /\ later s (m s).2.

Lemma orderly_bind {A B} (m : M S A) (f : A -> M S B) : orderly m -> (forall a, orderly (f a)) -> orderly (m ≫= f).
Proof.
  intros Hm Hf s. specialize (Hm s). unfold mbind, M_bind. destruct (m s) as [[a|err| |] s']; cbn [fst snd] in *; [|naive_solver..].
  destruct (Hf a s') as (H1 & H2 & H3). destruct Hm as (_ & _ & Hm).
  split_and!; [done|intros Hh; by eapply died_later, H2|by eapply later_trans].
Qed.

Lemma orderly_ret {A} (a : A) : orderly (mret a).
Proof. intros s. split_and!; [done..|by apply later_refl]. Qed.

Lemma orderly_lift_ok {A} (o : outcome A) a : o = Ok a -> orderly (lift o).
Proof. intros ->. apply orderly_ret. Qed.

Lemma orderly_gets {A} (f : S -> A) : orderly (gets f).
Proof. intros s. split_and!; [done..|by apply later_refl]. Qed.

Lemma orderly_inert {A} (m : M S A) :
  (forall s, exists a s', m s = (Ok a, s') /\ disk s' = disk s) -> orderly m.
Proof. intros Hm s. destruct (Hm s) as (a & s' & -> & Hd). split_and!; [done..|by apply later_refl]. Qed.

Lemma orderly_ignore {A} (m : M S A) : orderly m -> orderly (ignore m).
Proof.
  intros Hm s. specialize (Hm s). unfold ignore, mbind, M_bind, try_. destruct (m s) as [[] s']; cbn in *; naive_solver.
Qed.

Lemma orderly_scoped {W A} (w : W) (body : M (S * W) A) (dtor : M (S * W) unit) :
  (forall s, (body s).1 <> Panic /\ ((body s).1 = Halt -> died s.1 (body s).2.1) /\ later s.1 (body s).2.1) ->
  (forall s, (dtor s).1 <> Panic /\ ((dtor s).1 = Halt -> died s.1 (dtor s).2.1) /\ later s.1 (dtor s).2.1) ->
  orderly (scoped w body dtor).
Proof.
  intros Hb Hd s. specialize (Hb (s, w)). unfold scoped. destruct (body (s, w)) as [o sw]. cbn [fst snd] in Hb.
  specialize (Hd sw). destruct (dtor sw) as [o' [s2 w2]]. destruct sw as [s1 w1]. cbn [fst snd] in *.
  destruct Hb as (B1 & B2 & B3), Hd as (D1 & D2 & D3).
  assert (later s s2) as HL by by eapply later_trans.
  destruct o, o'; cbn [fst snd] in *; try done; split_and!; auto;
    intros _; exact (died_later _ _ _ B3 (D2 eq_refl)).
Qed.
End orderly.

Lemma orderly_on_fs {W A} (m : M Fs A) : orderly m -> orderly (on_fs (W := W) m).
Proof. intros Hm [fs w]. specialize (Hm fs). unfold on_fs, zoom. cbn [fst]. by destruct (m fs). Qed.

Lemma orderly_syscall {A} (run : M Fs A) p :
  (forall fs, (run fs).1 <> Panic /\ (run fs).1 <> Halt) -> (forall fs, faults (run fs).2 = faults fs) ->
  (forall n fs, faults (p n fs) = faults fs) -> orderly (syscall run p).
Proof.
  intros Hr Hf Hp fs. split_and!.
  - unfold syscall. destruct (faults fs) as [|[] l]; done || apply Hr.
  - apply syscall_died; [|done]. intros fs'. apply Hr.
  - by apply syscall_later.
Qed.

Ltac orderly_call := apply orderly_syscall; intros; cbn zeta; try case_match; done.

Lemma orderly_file_write ino d : orderly (file_write ino d).
Proof. orderly_call. Qed.
Lemma orderly_file_sync ino : orderly (file_sync ino).
Proof. orderly_call. Qed.
Lemma orderly_file_create name : orderly (file_create name).
Proof. orderly_call. Qed.
Lemma orderly_fs_rename from to : orderly (fs_rename from to).
Proof. orderly_call. Qed.
Lemma orderly_fs_remove_file name : orderly (fs_remove_file name).
Proof. orderly_call. Qed.

Lemma orderly_bw_flush_buf : orderly bw_flush_buf.
Proof.
  intros [fs w]. unfold bw_flush_buf. case_bool_decide; [split_and!; [done..|by apply later_refl]|].
  pose proof (orderly_file_write (bw_file w) (bw_buf w) fs) as Hw. by destruct (file_write _ _ fs).
Qed.

Create HintDb orderly.
#[export] Hint Resolve orderly_ret orderly_gets orderly_file_write orderly_file_sync orderly_file_create
  orderly_fs_rename orderly_fs_remove_file orderly_bw_flush_buf : orderly.

Ltac orderly_step :=
  lazymatch goal with
  | |- forall _, _ => intros
  | |- orderly (mbind _ _) => apply orderly_bind
  | |- orderly (ignore _) => apply orderly_ignore
  | |- orderly (on_fs _) => apply orderly_on_fs
  | |- orderly (match ?x with _ => _ end) => destruct x
  | |- orderly _ => first [solve [eauto 2 with orderly] | apply orderly_inert; intros []; by do 2 eexists]
  end.
Ltac orderly_tac := repeat (orderly_step; cbn zeta).

Lemma orderly_bw_write_all d : orderly (bw_write_all d).
Proof. unfold bw_write_all, bw_push. orderly_tac. Qed.
Lemma orderly_bw_flush : orderly bw_flush.
Proof. unfold bw_flush. orderly_tac. Qed.
Lemma orderly_bw_sync_all : orderly bw_sync_all.
Proof. unfold bw_sync_all. orderly_tac. Qed.
Lemma orderly_bw_drop : orderly bw_drop.
Proof. unfold bw_drop. orderly_tac. Qed.
#[export] Hint Resolve orderly_bw_write_all orderly_bw_flush orderly_bw_sync_all orderly_bw_drop : orderly.

Lemma orderly_copes {S A} `{Machine S} (m : M S A) s o s' (E : LsmError -> S -> Prop) (P : A -> S -> Prop) :
  orderly m -> m s = (o, s') -> (forall err, o = Err err -> E err s') -> (forall a, o = Ok a -> P a s') ->
  copes m s E P.
Proof.
  intros Hm Hrun HE HP. destruct (Hm s) as (H1 & H2 & H3). unfold copes. rewrite Hrun in *. cbn [fst snd] in *.
  split; [done|]. destruct o; [by apply HP|by apply HE|done|by apply H2].
Qed.

(** ** Changes confined to some names *)

Record leaves (N : string -> Prop) (fs fs' : Fs) : Prop := {
  lv_wf : fs_wf fs';
  lv_next : (next_ino fs <= next_ino fs')%nat;
  lv_dirents : forall n, ~ N n -> dirents fs' !! n = dirents fs !! n;
  lv_apart : forall i, (i < next_ino fs)%nat -> (forall n, N n -> dirents fs !! n <> Some i) ->
    inode_of fs' i = inode_of fs i /\ forall n, N n -> dirents fs' !! n <> Some i;
}.

Lemma leaves_refl N fs : fs_wf fs -> leaves N fs fs.
Proof. by split. Qed.

Lemma leaves_trans N fs1 fs2 fs3 : leaves N fs1 fs2 -> leaves N fs2 fs3 -> leaves N fs1 fs3.
Proof.
  intros [W1 X1 D1 A1] [W2 X2 D2 A2]. split; [done|lia|..].
  - intros n Hn. by rewrite D2, D1.
  - intros i Hi Hn. destruct (A1 i Hi Hn) as [E1 N1]. destruct (A2 i ltac:(lia) N1) as [E2 N2].
    split; [congruence|done].
Qed.

Lemma leaves_mono (N N' : string -> Prop) fs fs' : (forall n, N n -> N' n) -> leaves N fs fs' -> leaves N' fs fs'.
Proof.
  intros HN [W X D A]. split; [done|done|..].
  - intros n Hn. apply D. auto.
  - intros i Hi Hn. destruct (A i Hi (fun n Hx => Hn n (HN n Hx))) as [E Hap]. split; [done|].
    intros n Hn' Hd. assert (~ N n) as Hno by (intros Hx; by apply (Hap n)). apply (Hn n Hn'). by rewrite <- (D n Hno).
Qed.

Lemma leaves_kept N fs fs' n : fs_wf fs -> leaves N fs fs' -> ~ N n -> kept n fs fs'.
Proof.
  intros [Hlt Hinj] [W X D A] Hn. split; [by apply D|]. intros i Hi. apply A; [by eapply Hlt|].
  intros n' Hn' Hd. by rewrite (Hinj _ _ _ Hi Hd) in Hn.
Qed.

Lemma still_parts fs fs' : still fs fs' ->
  dirents fs' = dirents fs /\ inodes fs' = inodes fs /\ next_ino fs' = next_ino fs.
Proof. intros H. unfold still, killed, set_faults in H. by simplify_eq. Qed.

Lemma still_refl fs : still fs fs.
Proof. done. Qed.

Lemma still_trans fs1 fs2 fs3 : still fs1 fs2 -> still fs2 fs3 -> still fs1 fs3.
Proof. unfold still. congruence. Qed.

Lemma still_faults fs l : still fs (set_faults l fs).
Proof. done. Qed.

Lemma still_inode fs fs' i : still fs fs' -> inode_of fs' i = inode_of fs i.
Proof. intros (_ & Hi & _)%still_parts. unfold inode_of. by rewrite Hi. Qed.

Lemma still_leaves N fs fs' : fs_wf fs -> still fs fs' -> leaves N fs fs'.
Proof.
  intros [Hlt Hinj] Hs. destruct (still_parts _ _ Hs) as (Hd & _ & Hx).
  split; rewrite ?Hd, ?Hx; try done.
  - split; rewrite Hd, ?Hx; done.
  - intros i Hi Hn. split; [by apply still_inode|done].
Qed.

Lemma leaves_created name ino fs fs' : fs_wf fs -> created name ino fs fs' -> leaves (eq name) fs fs'.
Proof.
  intros Hwf Hc. pose proof (fun n i => created_inode name ino fs fs' n i Hc Hwf) as Hne.
  destruct Hc as (D & _ & Hi & X & I). destruct Hwf as [Hlt Hinj]. split; [split| |..]; rewrite ?D, ?X; try lia.
  - intros n i. rewrite lookup_insert. case_decide; [intros [= <-]; lia|]. intros Hd%Hlt. lia.
  - intros n1 n2 i. rewrite !lookup_insert. repeat case_decide; subst; try done.
    + intros [= <-] Hd. exfalso. by apply (Hne n2 ino).
    + intros Hd [= <-]. exfalso. by apply (Hne n1 ino).
    + apply Hinj.
  - intros n Hn. by rewrite lookup_insert_ne.
  - intros i Hlti Hn. assert (i <> ino) as Hio.
    { intros ->. destruct Hi as [Hi|[_ ->]]; [by apply (Hn name)|lia]. }
    split; [by apply I|]. intros n <-. rewrite lookup_insert_eq. congruence.
Qed.

Lemma leaves_frames name ino fs fs' :
  fs_wf fs -> dirents fs !! name = Some ino -> frames ino fs fs' -> leaves (eq name) fs fs'.
Proof.
  intros [Hlt Hinj] Hd (D & X & I). split; [split| |..]; rewrite ?D, ?X; try done.
  intros i Hi Hn. split; [|done]. apply I. intros ->. by apply (Hn name).
Qed.

Lemma leaves_rename from to ino fs :
  fs_wf fs -> dirents fs !! from = Some ino ->
  leaves (fun n => n = from \/ n = to) fs (set_dirents (<[to := ino]> (delete from (dirents fs))) fs).
Proof.
  intros Hwf Hd. split; [by apply rename_wf|done|..].
  - intros n Hn. cbn. by rewrite lookup_insert_ne, lookup_delete_ne by naive_solver.
  - intros i Hi Hn. split; [done|]. intros n Hx. cbn. rewrite lookup_insert, lookup_delete.
    pose proof (Hn from ltac:(by left)). repeat case_decide; [congruence|done|by apply Hn].
Qed.

Lemma leaves_remove name fs :
  fs_wf fs -> leaves (eq name) fs (set_dirents (delete name (dirents fs)) fs).
Proof.
  intros Hwf. split; [by apply remove_wf|done|..].
  - intros n Hn. cbn. by rewrite lookup_delete_ne.
  - intros i Hi Hn. split; [done|]. intros n <-. cbn. by rewrite lookup_delete_eq.
Qed.

(** ** Files that are written, renamed and removed *)

Lemma copes_file_create name fs :
  fs_wf fs -> copes (file_create name) fs (fun _ => leaves (eq name) fs)
    (fun ino fs' => leaves (eq name) fs fs' /\ dirents fs' !! name = Some ino /\ data_of fs' ino = []).
Proof.
  intros Hwf. destruct (file_create_any name fs Hwf) as (o & fs' & Hrun & Ho).
  apply (orderly_copes _ _ _ _ _ _ (orderly_file_create name) Hrun).
  - intros err ->. destruct Ho as [l ->]. by apply still_leaves.
  - intros ino ->. split; [by eapply leaves_created|]. destruct Ho as (-> & Hd & _). by rewrite lookup_insert_eq.
Qed.

Lemma copes_fs_rename from to fs :
  fs_wf fs -> copes (fs_rename from to) fs (fun _ => leaves (fun n => n = from \/ n = to) fs)
    (fun _ fs' => leaves (fun n => n = from \/ n = to) fs fs' /\
       exists ino, dirents fs !! from = Some ino /\ dirents fs' !! to = Some ino /\ inode_of fs' ino = inode_of fs ino).
Proof.
  intros Hwf. destruct (fs_rename_any from to fs) as (o & fs' & Hrun & Ho).
  apply (orderly_copes _ _ _ _ _ _ (orderly_fs_rename from to) Hrun).
  - intros err ->. destruct Ho as [l ->]. by apply still_leaves.
  - intros [] ->. destruct Ho as (ino & l & Hd & ->). split.
    + eapply leaves_trans; [by apply leaves_rename|]. apply still_leaves; [by apply rename_wf|apply still_faults].
    + exists ino. split_and!; [done| |done]. cbn. by rewrite lookup_insert_eq.
Qed.

Lemma copes_fs_remove_file name fs :
  fs_wf fs -> copes (fs_remove_file name) fs (fun _ => leaves (eq name) fs) (fun _ => leaves (eq name) fs).
Proof.
  intros Hwf. destruct (fs_remove_any name fs) as (o & fs' & Hrun & Hi & Hx & Hd).
  assert (leaves (eq name) fs fs') as HL.
  { destruct Hd as [Hd|Hd].
    - apply still_leaves; [done|]. unfold still, killed, set_faults. congruence.
    - eapply leaves_trans; [by apply leaves_remove|]. apply still_leaves; [by apply remove_wf|].
      unfold still, killed, set_faults, set_dirents. cbn. congruence. }
  by apply (orderly_copes _ _ _ _ _ _ (orderly_fs_remove_file name) Hrun).
Qed.

(** A file that is created and then filled. *)
Lemma copes_new_file {A} name (body : nat -> M (Fs * BufWriter) A) fs (D : bytes -> Prop) :
  fs_wf fs -> (forall ino, framed (body ino)) -> (forall ino, orderly (body ino)) ->
  (forall ino fs1 a fs2, data_of fs1 ino = [] -> scoped (bw_new ino) (body ino) bw_drop fs1 = (Ok a, fs2) ->
    D (data_of fs2 ino)) ->
  copes (file ← file_create name; scoped (bw_new file) (body file) bw_drop) fs (fun _ => leaves (eq name) fs)
    (fun _ fs' => leaves (eq name) fs fs' /\
       exists ino, dirents fs' !! name = Some ino /\ D (data_of fs' ino)).
Proof.
  intros Hwf Hfr Hor HD. eapply copes_bind; [eapply copes_mono; [by apply copes_file_create|auto|]|].
  { intros ino fs' H. exact H. }
  intros ino fs1 (HL & Hd & Hnil). destruct (scoped (bw_new ino) (body ino) bw_drop fs1) as [o fs2] eqn:Hrun.
  pose proof (scoped_frames ino (body ino) fs1 o fs2 (Hfr ino) Hrun) as F.
  assert (leaves (eq name) fs fs2) as HL2 by (eapply leaves_trans; [done|by eapply leaves_frames; [apply HL|..]]).
  refine (orderly_copes _ _ _ _ _ _ _ Hrun _ _); [apply orderly_scoped; [exact (Hor ino)|exact orderly_bw_drop]|done|].
  intros a ->. split; [done|]. exists ino. destruct F as (-> & _). split; [done|by eapply HD].
Qed.

Lemma copes_file_sync name ino fs :
  fs_wf fs -> dirents fs !! name = Some ino ->
  copes (file_sync ino) fs (fun _ => leaves (eq name) fs)
    (fun _ fs' => leaves (eq name) fs fs' /\ dirents fs' = dirents fs /\ data_of fs' ino = data_of fs ino).
Proof.
  intros Hwf Hd. destruct (file_sync_any ino fs) as (o & fs' & Hrun & F & Hdat & _).
  pose proof (leaves_frames _ _ _ _ Hwf Hd F) as HL. destruct F as (D & _).
  by apply (orderly_copes _ _ _ _ _ _ (orderly_file_sync ino) Hrun).
Qed.

(** ** Buffered writes that all succeed *)

Definition writes (d : bytes) (m : M (Fs * BufWriter) unit) : Prop := forall fs w x fs' w',
  m (fs, w) = (Ok x, (fs', w')) -> bw_file w' = bw_file w /\ bw_log fs' w' = bw_log fs w ++ d.

(** Nothing stays in the buffer. *)
Definition drains (m : M (Fs * BufWriter) unit) : Prop := forall fs w x fs' w',
  m (fs, w) = (Ok x, (fs', w')) -> bw_buf w' = [].

Lemma writes_all d : writes d (bw_write_all d).
Proof.
  intros fs w x fs' w' H. destruct (bw_write_all_any fs w d) as (o & fs1 & w1 & Hrun & Hw & _ & Hok).
  rewrite Hrun in H. injection H as -> -> ->. destruct x. by rewrite Hok.
Qed.

Lemma drains_flush : drains bw_flush.
Proof.
  intros fs w x fs' w' H. destruct (bw_flush_buf_any fs w) as (o & fs1 & w1 & Hrun & Hw & _ & Hok).
  unfold bw_flush in H. rewrite Hrun in H. injection H as -> -> ->. destruct x. by destruct Hok.
Qed.

Lemma writes_flush : writes [] bw_flush.
Proof.
  intros fs w x fs' w' H. pose proof (drains_flush _ _ _ _ _ H) as Hb.
  destruct (bw_flush_buf_any fs w) as (o & fs1 & w1 & Hrun & Hw & _ & Hok).
  unfold bw_flush in H. rewrite Hrun in H. injection H as -> -> ->. destruct x. destruct Hok as [_ Hd]; [done|].
  split; [done|]. unfold bw_log at 1. by rewrite Hb, Hw, Hd.
Qed.

Lemma writes_bind d1 d2 m k : writes d1 m -> writes d2 k -> writes (d1 ++ d2) (_ ← m; k).
Proof.
  intros Hm Hk fs w x fs' w'. unfold mbind, M_bind. destruct (m (fs, w)) as [o [fs1 w1]] eqn:E.
  destruct o as [y|err| |]; try done. destruct (Hm _ _ _ _ _ E) as [W1 L1]. intros H.
  destruct (Hk _ _ _ _ _ H) as [W2 L2]. split; [congruence|]. by rewrite L2, L1, app_assoc.
Qed.

Lemma drains_bind (m k : M (Fs * BufWriter) unit) : drains k -> drains (_ ← m; k).
Proof.
  intros Hk fs w x fs' w'. unfold mbind, M_bind. destruct (m (fs, w)) as [[y|err| |] [fs1 w1]]; try done. apply Hk.
Qed.

Lemma scoped_writes d ino body fs x fs' :
  writes d body -> drains body -> data_of fs ino = [] ->
  scoped (bw_new ino) body bw_drop fs = (Ok x, fs') -> data_of fs' ino = d.
Proof.
  intros Hw Hb Hnil. unfold scoped. destruct (body (fs, bw_new ino)) as [o [fs1 w1]] eqn:E.
  destruct (bw_drop_any fs1 w1) as (o2 & fs2 & w2 & E2 & _ & Hdrop).
  destruct o as [y|err| |]; rewrite ?E2; try by destruct o2.
  destruct (Hw _ _ _ _ _ E) as [W1 L1]. pose proof (Hb _ _ _ _ _ E) as Hb1. destruct (Hdrop Hb1) as [-> ->].
  intros [= _ <-]. unfold bw_log in L1. cbn [bw_new bw_file bw_buf] in W1, L1.
  by rewrite Hb1, W1, Hnil, !app_nil_r in L1.
Qed.
