(* ===== verification/FaultServe.v ===== *)
(** * Serving while system calls fail: tables, logs, reads and writes

    An error leaves the logs and the manifest in any state, a table half
    written, a reader cache with an error in it; [serves] is what survives:
    the part of the invariant that later requests of the same process rely on. *)

From S2P Require Import Prelude Outcome External Fs Crash MemTable Wal WalWriter WalReader.
From S2P Require Import StdVec SstRecord SstIndex Bloom Builder Reader Merge Manifest.
From S2P Require Import Names KvSpec Engine Steady EngineSpec EngineGet EnginePut EngineFlush EngineCommit.
From S2P Require Import EngineDisk Faults.

Section serve.
Context {C : Crc32} {SM : SkipMap Entry} {FB : FastBloom} {AL : Allocator}.

Abbreviation Sys := (Fs * LsmEngineInner)%type.

(** ** Files *)

Lemma copes_build path b blocks cur fs :
  builds b blocks cur -> len (records_bytes (concat blocks ++ cur)) <= 2 ^ 60 -> fs_wf fs ->
  copes (Builder.build path b) fs (fun _ => leaves (eq path) fs) (fun _ fs' => leaves (eq path) fs fs' /\
    exists ino, dirents fs' !! path = Some ino /\ table_of (data_of fs' ino) (concat blocks ++ cur)).
Proof.
  intros Hb Hs Hwf. destruct (build_plan path b blocks cur Hb Hs) as (d1 & d2 & d3 & d4 & Ht & Hrun).
  unfold copes. rewrite Hrun.
  apply (copes_new_file path (fun _ => _) fs (fun d => table_of d (concat blocks ++ cur))); [done|..].
  - intros _. repeat (apply framed_bind; [apply framed_write_all|intros _]). apply framed_flush.
  - intros _. orderly_tac.
  - intros ino fs1 [] fs2 Hnil Hsc.
    rewrite (scoped_writes (d1 ++ d2 ++ d3 ++ d4 ++ []) ino _ _ _ _ ltac:(
      repeat (apply writes_bind; [apply writes_all|]); apply writes_flush) ltac:(
      repeat apply drains_bind; apply drains_flush) Hnil Hsc).
    by rewrite app_nil_r.
Qed.

Lemma copes_write_table b blocks cur tmp final fs e :
  builds b blocks cur -> len (records_bytes (concat blocks ++ cur)) <= 2 ^ 60 -> fs_wf fs ->
  let N := fun n => n = tmp \/ n = final in
  copes (write_table b tmp final) (fs, e) (fun _ s => leaves N fs s.1 /\ s.2 = e)
    (fun _ s => leaves N fs s.1 /\ s.2 = e /\
      exists ino, dirents s.1 !! final = Some ino /\ table_of (data_of s.1 ino) (concat blocks ++ cur)).
Proof.
  intros Hb Hs Hwf N. unfold write_table.
  assert (forall fs1 fs2, leaves N fs fs1 -> leaves (eq tmp) fs1 fs2 -> leaves N fs fs2) as Htr.
  { intros fs1 fs2 H1 H2. eapply leaves_trans; [exact H1|]. eapply leaves_mono; [|exact H2]. intros n <-. by left. }
  pose proof (leaves_refl N fs Hwf) as H0.
  eapply copes_on_fs_seq; [apply (copes_build tmp b blocks cur fs Hb Hs Hwf)|..].
  { intros err fs1 H1. split; [by eapply Htr|done]. }
  intros [] fs1 (H1 & ino & Hd & Ht). apply (Htr fs fs1 H0) in H1.
  eapply copes_on_fs_seq; [apply (faithful_copes _ fs1 ino (killed fs1) (faithful_file_open tmp)); by apply file_open_ok|..].
  { intros err fs2 Hst. split; [|done]. eapply leaves_trans; [exact H1|apply still_leaves; [apply H1|exact Hst]]. }
  intros i fs2 [-> Hst].
  assert (leaves N fs fs2) as H2 by (eapply leaves_trans; [exact H1|apply still_leaves; [apply H1|exact Hst]]).
  destruct (still_parts _ _ Hst) as (Ed & _ & _). rewrite <- Ed in Hd.
  eapply copes_on_fs_seq; [apply (copes_file_sync tmp ino fs2 ltac:(apply H2) Hd)|..].
  { intros err fs3 H3. split; [by eapply Htr|done]. }
  intros [] fs3 (H3 & Ed3 & Hdat). apply (Htr fs2 fs3 H2) in H3.
  eapply copes_on_fs; [apply (copes_fs_rename tmp final fs3 ltac:(apply H3))|..].
  - intros err fs4 H4. split; [by eapply leaves_trans|done].
  - intros [] fs4 (H4 & i & Hi & Hf & Hino). split; [by eapply leaves_trans|]. split; [done|].
    exists i. split; [done|]. rewrite Ed3, Hd in Hi. injection Hi as <-. cbn [fst].
    assert (data_of fs4 ino = data_of fs1 ino) as ->; [|done]. unfold data_of in *.
    by rewrite Hino, Hdat, (still_inode _ _ _ Hst).
Qed.

Lemma copes_write_atomic m fs :
  manifest_ok m -> fs_wf fs ->
  let N := fun n => n = MANIFEST_TMP_FILE_NAME \/ n = MANIFEST_FILE_NAME in
  copes (write_atomic m) fs (fun _ => leaves N fs) (fun _ => leaves N fs).
Proof.
  intros Hm Hwf N. assert (forall fs1 fs2, leaves N fs fs1 -> leaves (eq MANIFEST_TMP_FILE_NAME) fs1 fs2 -> leaves N fs fs2) as Htr.
  { intros fs1 fs2 H1 H2. eapply leaves_trans; [exact H1|]. eapply leaves_mono; [|exact H2]. intros n <-. by left. }
  pose proof (leaves_refl N fs Hwf) as H0. unfold write_atomic.
  set (body := fun _ : nat => (buf ← lift (encode m); _ ← bw_write_all buf; _ ← bw_flush; bw_sync_all) : M (Fs * BufWriter) unit).
  eapply (copes_bind _ _ _ _ (fun _ => leaves N fs)).
  - eapply copes_mono; [apply (copes_try _ fs (fun _ => leaves N fs) (fun _ _ => False) (fun _ => leaves N fs))|done|by intros [] ?].
    apply (copes_assoc (file_create _) (fun file => scoped (bw_new file) (body file) bw_drop)).
    eapply copes_seq; [apply (copes_new_file MANIFEST_TMP_FILE_NAME body fs (fun _ => True)); [done|..|done]|..].
    + intros ino. apply framed_bind; [apply framed_lift|intros buf]. apply framed_bind; [apply framed_write_all|intros _].
      apply framed_bind; [apply framed_flush|intros _]. apply framed_sync.
    + intros ino. apply orderly_bind; [by eapply orderly_lift_ok, encode_ok|]. intros buf. orderly_tac.
    + intros err fs1 H1. by eapply Htr.
    + intros [] fs1 [H1%(Htr fs fs1 H0) _]. eapply copes_mono; [apply (copes_fs_rename _ _ fs1 ltac:(apply H1))|..].
      * intros err fs2 H2. by eapply leaves_trans.
      * intros [] fs2 [H2 _]. by eapply leaves_trans.
  - intros r fs1 H1. eapply (copes_bind _ _ _ _ (fun _ => leaves N fs)).
    + destruct r as [err|[]]; [|by apply copes_ret]. apply copes_ignore.
      eapply copes_mono; [apply (copes_fs_remove_file _ fs1 ltac:(apply H1))|..]; intros ? fs2 H2; by eapply Htr.
    + intros [] fs2 H2. destruct r; [by apply copes_fail|by apply copes_ret].
Qed.

(** ** Readers that could not be opened *)

(** The handle without a cached error. *)
Definition forgive (h : SstHandle) : SstHandle :=
  match Engine.reader h with
  | Some (inl _) => mkSstHandle (meta h) (path h) None
  | _ => h
  end.

Definition bare (e : LsmEngineInner) : LsmEngineInner := set_handles (forgive <$> handles e) e.

Lemma forgive_same h : same_handle h (forgive h).
Proof. destruct h as [m p [[]|]]; done. Qed.

Lemma cached_sym e e' : cached e e' -> cached e' e.
Proof.
  intros [E F]. split.
  - rewrite E. by destruct e.
  - apply Forall2_flip. eapply Forall2_impl; [exact F|]. intros h h' [H1 H2]. by split.
Qed.

Lemma cached_bare e : cached e (bare e).
Proof.
  split; [done|]. cbn. apply Forall2_fmap_r, Forall_Forall2_diag, Forall_forall. intros h _. apply forgive_same.
Qed.

Lemma bare_lookup e i h : handles e !! i = Some h -> handles (bare e) !! i = Some (forgive h).
Proof. intros H. cbn. by rewrite list_lookup_fmap, H. Qed.

(** An open handle of the engine, seen through its table. *)
Lemma bare_handle fs e T l i :
  tables_ok fs (bare e) T -> live e l i ->
  exists h, handles e !! i = Some h /\ handle_ok fs l (forgive h) (T i) /\ Manifest.seq (meta h) < next_seq e.
Proof.
  intros Ht (ids & Hl & Hi). destruct (ta_handles _ _ _ Ht l ids i Hl Hi) as (h' & Hh & Hok & Hlt).
  cbn in Hh. rewrite list_lookup_fmap in Hh. destruct (handles e !! i) as [h|]; [|done]. injection Hh as <-.
  exists h. split_and!; [done|done|]. by destruct (forgive_same h) as [<- _].
Qed.

Lemma tables_bare fs e T : tables_ok fs e T -> tables_ok fs (bare e) T.
Proof.
  intros [T1 T2 T3 T4]. pose proof (cached_bare e) as Hc. split; [done|..].
  - intros l ids i Hl Hi. destruct (T2 l ids i Hl Hi) as (h & Hh & Hok & Hlt). exists h. split; [|done].
    rewrite (bare_lookup _ _ _ Hh). destruct (ho_file _ _ _ _ Hok) as (ino & _ & _ & Hr).
    unfold forgive. by destruct (Engine.reader h) as [[]|].
  - intros l ids Hl. eapply StronglySorted_impl; [|by apply (T3 l)]. intros x y. cbn beta.
    by rewrite !(cached_seq_of _ _ _ Hc).
  - intros ids0 ids1 i j H0 H1 Hi Hj. rewrite !(cached_seq_of _ _ _ Hc). by eapply T4.
Qed.

(** ** What later requests rely on *)

(** The sizes of a table's keys and values are those of the format. *)
Definition capped_entries (t : MemTable) : Prop := forall k en, get_entry t k = Some en -> capped (k, MemTable.value en, deleted en).

Lemma capped_records t : capped_entries t <-> Forall capped (mem_records t).
Proof.
  unfold mem_records. rewrite Forall_fmap, Forall_forall. split.
  - intros Hc [k en] Hin. apply (elem_of_assoc _ _ _ (iter_sorted t)) in Hin. rewrite iter_get_entry in Hin. by apply Hc.
  - intros Hc k en Hget. rewrite <- iter_get_entry in Hget. apply assoc_elem_of in Hget. exact (Hc (k, en) Hget).
Qed.

Definition log_ino (e : LsmEngineInner) : nat := bw_file (ww_file (writer (wal e))).

(** No table, finished or not, shares its bytes with the current log. *)
Definition log_apart (fs : Fs) (ino : nat) : Prop :=
  (ino < next_ino fs)%nat /\ forall n, initial n = Some x4c -> dirents fs !! n <> Some ino.

Record serves (fs : Fs) (e : LsmEngineInner) (T : nat -> list record) (a : nat) : Prop := {
  sv_fs : fs_wf fs;
  sv_poison : poisoned e = [];
  sv_next : 0 < next_seq e <= u64_max;
  sv_mems : mems_ok e a;
  sv_capped : forall i t, i ∈ live_mems (state e) a -> mems e !! i = Some t -> capped_entries t;
  sv_frozen : forall p t, p ∈ immutables (state e) -> mems e !! mem p = Some t -> iter t <> [];
  sv_gens : NoDup (live_wals e) /\ Forall (fun s => s < next_seq e) (live_wals e);
  sv_tables : tables_ok fs (bare e) T;
  sv_log : log_apart fs (log_ino e);
}.

(** An engine without errors serves, whatever is going to fail. *)
Lemma serves_of_ok fs e T a l : engine_ok fs e T a -> serves (set_faults l fs) e T a.
Proof.
  intros [F1 F2 F3 F4 F5 F6 F7 [(t0 & Ht0 & Hd & Hh0) W2 W3 W4 W5] F9]. split; try done.
  - intros i t Hi Ht. apply capped_records. apply elem_of_cons in Hi as [->|Hi].
    + rewrite Ht0 in Ht. injection Ht as <-. by eapply wal_holds_capped.
    + apply list_elem_of_fmap in Hi as (p & -> & Hp). destruct (W2 p Hp) as (t' & ino & Ht' & _ & _ & Hh).
      rewrite Ht' in Ht. injection Ht as <-. by eapply wal_holds_capped.
  - intros p t Hp Ht. destruct (W2 p Hp) as (t' & ino & Ht' & Hne & _). congruence.
  - split; [|by eapply Forall_impl; [exact W4|]; cbn; lia].
    clear -W3. induction W3 as [|x l' _ IH Hx]; [constructor|]. constructor; [|done]. intros Hin.
    rewrite Forall_forall in Hx. specialize (Hx _ Hin). lia.
  - by apply (tables_ok_kept fs); [|apply tables_bare].
  - destruct F2 as [Hlt Hinj]. split; [by eapply Hlt|]. intros n Hn Hx. rewrite (Hinj _ _ _ Hx Hd) in Hn. done.
Qed.

(** A change of the directory away from the live tables. *)
Lemma serves_leaves N fs e T a fs' :
  serves fs e T a -> leaves N fs fs' -> (forall n, live_path (bare e) n -> ~ N n) ->
  (forall n, N n -> initial n = Some x4c) \/ (forall n, N n -> initial n <> Some x4c) -> serves fs' e T a.
Proof.
  intros [F1 F2 F3 F4 F5 F6 F7 F8 [Hlog Hap]] HL Hlive Hini. split; try done; [apply HL|..].
  - eapply tables_ok_kept; [|done]. intros n Hn. by eapply leaves_kept; [|exact HL|apply Hlive].
  - split; [pose proof (lv_next _ _ _ HL); lia|]. intros n Hn Hd. destruct Hini as [Hini|Hini].
    + destruct (lv_apart _ _ _ HL _ Hlog) as [_ Hout].
      { intros n' Hn'. apply Hap. by apply Hini. }
      assert (~ N n) as Hno by (intros Hx; by apply (Hout n)). apply (Hap n Hn).
      by rewrite <- (lv_dirents _ _ _ HL n Hno).
    + apply (Hap n Hn). by rewrite <- (lv_dirents _ _ _ HL n (fun Hx => Hini n Hx Hn)).
Qed.

Lemma serves_still fs e T a fs' : serves fs e T a -> still fs fs' -> serves fs' e T a.
Proof.
  intros Hs Hst. apply (serves_leaves (fun _ => False) fs); [done| |by intros ? ? []|left; by intros ? []].
  apply still_leaves; [apply Hs|done].
Qed.

(** Bytes that went to the current log. *)
Lemma serves_logged fs e T a fs' w :
  serves fs e T a -> Fs.frames (log_ino e) fs fs' -> bw_file (ww_file w) = log_ino e ->
  serves fs' (set_wal (mkActiveWal w (seq (wal e))) e) T a.
Proof.
  intros [F1 F2 F3 F4 F5 F6 F7 F8 [Hlog Hap]] (D & X & I) Hw. pose proof F1 as [Hlt Hinj]. split; try done.
  - split; rewrite D, ?X; done.
  - by destruct F4.
  - eapply (tables_ok_same _ (bare e)); [done|done|done|]. eapply tables_ok_kept; [|exact F8].
    intros n Hn. split; [by rewrite D|]. intros i Hi. apply I. intros ->. apply (Hap n); [|done].
    destruct (live_path_name _ _ _ _ F8 Hn) as (l & s & -> & _). apply initial_sst.
  - unfold log_ino. cbn. rewrite Hw. split; [by rewrite X|]. intros n. rewrite D. apply Hap.
Qed.

(** A change of the reader caches. *)
Lemma serves_cached fs e T a e' :
  serves fs e T a -> cached e e' -> tables_ok fs (bare e') T -> serves fs e' T a.
Proof.
  intros [F1 F2 F3 F4 F5 F6 F7 F8 F9] [-> _] Ht. destruct F4. by split.
Qed.

(** ** Reading *)

(** What a read leaves: the caches may have changed. *)
Definition caches (e : LsmEngineInner) (T : nat -> list record) (a : nat) (s : Sys) : Prop :=
  cached e s.2 /\ serves s.1 s.2 T a.

Lemma caches_refl fs e T a : serves fs e T a -> caches e T a (fs, e).
Proof. intros H. split; [apply cached_refl|done]. Qed.

Lemma caches_trans e1 e2 T a s : cached e1 e2 -> caches e2 T a s -> caches e1 T a s.
Proof. intros H [H1 H2]. split; [by eapply cached_trans|done]. Qed.

(** An error that stays in the cache changes nothing for the tables. *)
Lemma bare_failed e i h msg :
  handles e !! i = Some h -> Engine.reader h = None ->
  bare (set_handles (<[i := recache h (inl msg)]> (handles e)) e) = bare e.
Proof.
  intros Hh Hr. unfold bare. cbn. rewrite list_fmap_insert. unfold forgive at 1. cbn.
  rewrite list_insert_id; [done|]. rewrite list_lookup_fmap, Hh. cbn. f_equal. unfold forgive. rewrite Hr.
  by destruct h as [m p r]; cbn in *; subst.
Qed.

Lemma bare_opened e i h r :
  bare (set_handles (<[i := recache h (inr r)]> (handles e)) e) =
    set_handles (<[i := recache (forgive h) (inr r)]> (handles (bare e))) (bare e).
Proof.
  assert (recache (forgive h) (inr r) = forgive (recache h (inr r))) as ->.
  { unfold recache. by destruct (forgive_same h) as [-> ->]. }
  unfold bare. cbn. by rewrite list_fmap_insert.
Qed.

Lemma copes_open_reader fs e T a l i :
  serves fs e T a -> live e l i ->
  copes (open_reader i) (fs, e) (fun _ => caches e T a)
    (fun r s => caches e T a s /\ reads r (data_of s.1 (sr_file r)) (T i)).
Proof.
  intros Hs Hlive. destruct (bare_handle fs e T l i (sv_tables _ _ _ _ Hs) Hlive) as (h & Hh & Hok & _).
  destruct (ho_file _ _ _ _ Hok) as (ino & Hd & Ht & Hr). destruct (forgive_same h) as [_ Hp]. rewrite Hp in Hd.
  unfold open_reader. eapply copes_bind_ok; [by apply handle_at_ok|done|].
  unfold forgive in Hr. destruct (Engine.reader h) as [[msg|r]|] eqn:Er.
  - eapply copes_bind_ok; [done|done|]. apply copes_fail. by apply caches_refl.
  - rewrite Er in Hr. destruct Hr as [Hr <-]. eapply copes_bind_ok; [done|done|]. apply copes_ret.
    split; [by apply caches_refl|done].
  - clear Hr. destruct (Reader.open_ok (path h) ino (data_of fs ino) (T i) (killed fs) eq_refl Hd eq_refl Ht)
      as (r & Hopen & Hrd & Hf & _).
    eapply copes_assoc, copes_bind.
    + apply copes_try. eapply copes_on_fs; [apply (faithful_copes _ fs r _ (faithful_table_open _) Hopen)|..].
      * intros err fs' Hst. instantiate (1 := fun _ s => still fs s.1 /\ s.2 = e). by split.
      * intros r' fs' [-> Hst]. instantiate (1 := fun x s => x = r /\ still fs s.1 /\ s.2 = e). by split.
    + intros x [fs1 e1] Hx. cbn beta zeta.
      assert (still fs fs1 /\ e1 = e) as [Hst ->] by (destruct x; naive_solver).
      eapply copes_assoc, copes_bind_ok; [reflexivity|done|]. cbn [fst snd].
      pose proof (serves_still _ _ _ _ _ Hs Hst) as Hs1. destruct (still_parts _ _ Hst) as (Ed & _ & _).
      eapply copes_bind_ok; [reflexivity|done|].
      destruct x as [err|r'].
      * apply copes_fail. split; [by apply (recached e i h)|]. apply (serves_cached fs1 e); [done|by apply (recached e i h)|].
        pose proof (sv_tables _ _ _ _ Hs1) as Ht1. rewrite <- (bare_failed e i h (error_to_string err) Hh Er) in Ht1. exact Ht1.
      * destruct Hx as (-> & _ & _). apply copes_ret. cbn [fst snd].
        assert (data_of fs1 (sr_file r) = data_of fs (sr_file r)) as Edat by (unfold data_of; by rewrite (still_inode _ _ _ Hst)).
        split; [|by rewrite Edat, Hf]. split; [by apply (recached e i h)|].
        apply (serves_cached fs1 e); [done|by apply (recached e i h)|].
        pose proof (recached_tables fs1 (bare e) T i (forgive h) (inr r) (sv_tables _ _ _ _ Hs1) (bare_lookup _ _ _ Hh)) as Hrt.
        rewrite <- bare_opened in Hrt.
        apply Hrt. intros l'. apply recache_handle; [by rewrite Edat, Hf|]. rewrite Ed, Hp, Hf. exact Hd.
Qed.

Lemma copes_table_get fs (e : LsmEngineInner) r d rs k :
  d = data_of fs (sr_file r) -> reads r d rs ->
  copes (on_fs (Reader.get r k)) (fs, e) (fun _ s => still fs s.1 /\ s.2 = e)
    (fun v s => v = Reader.lookup rs k /\ still fs s.1 /\ s.2 = e).
Proof.
  intros -> Hr. pose proof (reader_get_ok r _ rs k (killed fs) eq_refl eq_refl Hr) as Hget.
  eapply copes_on_fs; [apply (faithful_copes _ fs _ _ (faithful_table_get r k) Hget)|done|].
  by intros v fs' [-> Hst].
Qed.

Lemma copes_get_level fs e T a l ids k :
  serves fs e T a -> (forall i, i ∈ ids -> live e l i) ->
  copes (get_level ids k) (fs, e) (fun _ => caches e T a)
    (fun v s => v = found ((fun i => record_entry (T i)) <$> ids) k /\ caches e T a s).
Proof.
  revert fs e. induction ids as [|i ids IH]; intros fs e Hs Hlive.
  { apply copes_ret. split; [done|by apply caches_refl]. }
  assert (live e l i) as Hi by (apply Hlive, list_elem_of_here).
  destruct (bare_handle fs e T l i (sv_tables _ _ _ _ Hs) Hi) as (h & Hh & Hok & _).
  cbn [get_level]. eapply copes_bind_ok; [by apply handle_at_ok|done|]. rewrite fmap_cons. unfold found. cbn [first_some].
  destruct (_ || _) eqn:Hrange.
  { destruct (forgive_same h) as [Em _]. rewrite <- Em in Hrange. rewrite (outside_range _ _ _ _ _ Hok Hrange).
    apply IH; [done|]. intros j Hj. apply Hlive. by apply list_elem_of_further. }
  eapply copes_bind; [by eapply copes_open_reader|]. intros r [fs1 e1] [[Hc1 Hs1] Hrd]. cbn [fst snd] in *.
  eapply copes_seq; [by apply (copes_table_get fs1 e1 r _ (T i) k eq_refl)|..].
  { intros err [fs2 e2] [Hst He]. cbn in *. subst e2. split; [done|by eapply serves_still]. }
  intros v [fs2 e2] (-> & Hst & He). cbn in *. subst e2. pose proof (serves_still _ _ _ _ _ Hs1 Hst) as Hs2.
  rewrite lookup_record_entry. destruct (record_entry (T i) k) as [en|]; cbn [fmap option_fmap option_map].
  { by apply copes_ret. }
  eapply copes_mono; [apply (IH fs2 e1 Hs2)|..].
  - intros j Hj. eapply live_cached; [done|]. apply Hlive. by apply list_elem_of_further.
  - intros err s. by apply caches_trans.
  - intros v s [-> Hca]. split; [done|by eapply caches_trans].
Qed.

Lemma copes_get_levels fs e T a ls d k :
  serves fs e T a -> (forall l ids i, ls !! l = Some ids -> i ∈ ids -> live e (d + l) i) ->
  copes (get_levels ls k) (fs, e) (fun _ => caches e T a)
    (fun v s => v = found (table_sources T ls) k /\ caches e T a s).
Proof.
  revert fs e d. induction ls as [|ids ls IH]; intros fs e d Hs Hlive.
  { apply copes_ret. split; [done|by apply caches_refl]. }
  cbn [get_levels]. unfold table_sources. rewrite fmap_cons. cbn [concat].
  unfold found. rewrite fmap_app, first_some_app.
  eapply copes_bind; [apply (copes_get_level fs e T a d (reverse ids) k Hs)|].
  { intros i Hi. rewrite elem_of_reverse in Hi. pose proof (Hlive 0%nat ids i eq_refl Hi) as Hl.
    by rewrite Nat.add_0_r in Hl. }
  intros v [fs1 e1] (-> & Hc1 & Hs1). unfold found. cbn [fst snd] in *.
  destruct (first_some ((fun i => record_entry (T i)) <$> reverse ids) k) as [en|];
    cbn [fmap option_fmap option_map]; [by apply copes_ret|].
  eapply copes_mono; [apply (IH fs1 e1 (S d) Hs1)|..].
  - intros l ids' i Hl Hi. eapply live_cached; [done|]. rewrite Nat.add_succ_comm. by apply (Hlive (S l) ids' i).
  - intros err s. by apply caches_trans.
  - intros v s [-> Hca]. split; [done|by eapply caches_trans].
Qed.

(** A lookup answers from the view, or reports an error. *)
Lemma copes_get fs e T a k :
  serves fs e T a ->
  copes (Engine.get k) (fs, e) (fun _ => caches e T a) (fun v s => v = view e T k /\ caches e T a s).
Proof.
  intros Hs. pose proof (sv_mems _ _ _ _ Hs) as [Ha Halloc Hnd]. pose proof (caches_refl _ _ _ _ Hs) as Hca.
  unfold Engine.get. eapply copes_bind_ok; [reflexivity|done|].
  unfold is_poisoned. cbn [snd]. rewrite (sv_poison _ _ _ _ Hs), bool_decide_false by apply not_elem_of_nil.
  eapply copes_bind_ok; [reflexivity|done|]. cbn [snd]. rewrite Ha. unfold live_mems in Halloc.
  inversion_clear Halloc as [|? ? Hlt Halloc'].
  destruct (lookup_lt_is_Some_2 _ _ Hlt) as [t Ht].
  eapply copes_bind_ok; [by apply mem_at_ok|done|]. unfold view, sources, mem_sources. rewrite Ha. cbn [app first_some].
  unfold mem_entry at 1. rewrite Ht. cbn [mbind option_bind].
  destruct (get_entry t k) as [en|]; [by apply copes_ret|]. rewrite first_some_app.
  eapply copes_bind_ok; [apply get_immutables_ok; apply Forall_reverse; by rewrite Forall_fmap in Halloc'|done|].
  destruct (first_some _ k) as [en|]; [by apply copes_ret|].
  eapply copes_bind; [apply (copes_get_levels fs e T a (levels (state e)) 0 k Hs)|].
  { intros l ids i Hl Hi. by exists ids. }
  intros v s [-> Hs2]. unfold found.
  destruct (first_some (table_sources T (levels (state e))) k) as [en|]; [|by apply copes_ret].
  cbn [fmap option_fmap option_map mbind option_bind]. unfold entry_lookup, entry_value.
  destruct (deleted en); by apply copes_ret.
Qed.
End serve.
