(* ===== verification/FaultWrite.v ===== *)
(** * Writing while system calls fail *)

From S2P Require Import Prelude Outcome External Fs Crash MemTable Wal WalWriter WalReader.
From S2P Require Import StdVec SstRecord SstIndex Bloom Builder Reader Merge Manifest.
From S2P Require Import Names KvSpec Engine Steady EngineSpec EngineGet EnginePut EngineFlush EngineCommit.
From S2P Require Import EngineDisk Faults FaultServe.

Section write.
Context {C : Crc32} {SM : SkipMap Entry} {FB : FastBloom} {AL : Allocator}.

Abbreviation Sys := (Fs * LsmEngineInner)%type.

(** A client sees the map [V]. *)
Definition shows (V : bytes -> option bytes) (s : Sys) : Prop :=
  exists T a, serves s.1 s.2 T a /\ forall k, view s.2 T k = V k.

Lemma shows_intro fs e T a : serves fs e T a -> shows (view e T) (fs, e).
Proof. by exists T, a. Qed.

Lemma shows_ext V V' s : (forall k, V k = V' k) -> shows V s -> shows V' s.
Proof. intros HV (T & a & Hs & Hv). exists T, a. split; [done|]. intros k. by rewrite Hv. Qed.

Lemma shows_cached e T a s : caches e T a s -> shows (view e T) s.
Proof. intros [Hc Hs]. exists T, a. split; [done|]. intros k. by apply cached_view. Qed.

(** ** The log *)

(** A step of the log writer only touches the current log. *)
Definition on_log (fs : Fs) (e : LsmEngineInner) (s : Fs * WalWriter) : Prop :=
  bw_file (ww_file s.2) = log_ino e /\ Fs.frames (log_ino e) fs s.1.

(** The same, with the writer back in the engine. *)
Definition logged (fs : Fs) (e : LsmEngineInner) (s : Sys) : Prop :=
  exists w, bw_file (ww_file w) = log_ino e /\ Fs.frames (log_ino e) fs s.1 /\
    s.2 = set_wal (mkActiveWal w (seq (wal e))) e.

Lemma copes_on_writer {A} (m : M (Fs * WalWriter) A) fs e :
  orderly m -> (forall o s, m (fs, writer (wal e)) = (o, s) -> on_log fs e s) ->
  copes (on_writer m) (fs, e) (fun _ => logged fs e) (fun _ => logged fs e).
Proof.
  intros Hm Hl. destruct (Hm (fs, writer (wal e))) as (H1 & H2 & H3).
  unfold copes, on_writer, zoom. cbn [fst snd]. destruct (m (fs, writer (wal e))) as [o [fs' w']].
  destruct (Hl _ _ eq_refl) as [Hw Hf]. cbn [fst snd] in *. split; [done|].
  assert (logged fs e (fs', set_wal (mkActiveWal w' (seq (wal e))) e)) by (by exists w').
  by destruct o; [| | |apply H2].
Qed.

Lemma orderly_on_file {A} (m : M (Fs * BufWriter) A) : orderly m -> orderly (on_file m).
Proof.
  intros Hm [fs w]. specialize (Hm (fs, ww_file w)). unfold on_file, zoom. by destruct (m _) as [o [fs' w']].
Qed.

Lemma on_file_log {A} (m : M (Fs * BufWriter) A) fs e o s fs1 w1 :
  framed m -> on_log fs e (fs1, w1) -> on_file m (fs1, w1) = (o, s) -> on_log fs e s.
Proof.
  intros Hm [Hw Hf]. unfold on_file, zoom. destruct (m (fs1, ww_file w1)) as [o' [fs2 w2]] eqn:E.
  destruct (Hm _ _ _ _ _ E) as [W2 F2]. intros [= <- <-]. cbn in *. rewrite Hw in *.
  split; [done|]. by eapply frames_trans.
Qed.

Lemma framed_drop : framed bw_drop.
Proof.
  intros fs w o fs' w' H. unfold bw_drop, ignore, mbind, M_bind, try_ in H.
  destruct (bw_flush_buf_any fs w) as (o1 & fs1 & w1 & E & W & F & _). rewrite E in H.
  destruct o1; cbn in H; injection H as <- <- <-; done.
Qed.

Lemma logged_start fs e : on_log fs e (fs, writer (wal e)).
Proof. split; [done|apply frames_refl]. Qed.

Lemma copes_append fs e o k v :
  encodable (mkWalEntry o k v) ->
  copes (on_writer (append o k v)) (fs, e) (fun _ => logged fs e) (fun _ => logged fs e).
Proof.
  intros Hen. pose proof (encode_entry_frame o k v [] Hen) as Henc. apply copes_on_writer.
  - unfold append. repeat (apply orderly_bind; [|intros ?]).
    + apply orderly_inert. intros []. by do 2 eexists.
    + by eapply orderly_lift_ok.
    + apply orderly_inert. intros []. by do 2 eexists.
    + apply orderly_on_file, orderly_bw_write_all.
  - intros r s. unfold append, set_buf, modify, lift, mbind, M_bind. rewrite Henc.
    intros Hrun. eapply on_file_log; [apply framed_write_all| |exact Hrun]. apply logged_start.
Qed.

Lemma copes_sync fs e : copes (on_writer sync) (fs, e) (fun _ => logged fs e) (fun _ => logged fs e).
Proof.
  apply copes_on_writer.
  - apply orderly_bind; [apply orderly_on_file, orderly_bw_flush|]. intros _. apply orderly_on_file, orderly_bw_sync_all.
  - intros r s. unfold sync, mbind, M_bind. destruct (on_file bw_flush (fs, writer (wal e))) as [o1 [fs1 w1]] eqn:E1.
    apply (on_file_log bw_flush fs e) in E1; [|apply framed_flush|apply logged_start].
    destruct o1; [|by intros [= <- <-]..]. intros Hrun.
    eapply on_file_log; [apply framed_sync|exact E1|exact Hrun].
Qed.

(** Dropping a writer never reports. *)
Lemma copes_wal_drop fs e : copes (on_writer wal_drop) (fs, e) (fun _ _ => False) (fun _ => logged fs e).
Proof.
  assert (copes (on_writer wal_drop) (fs, e) (fun _ => logged fs e) (fun _ => logged fs e)) as Hc.
  { apply copes_on_writer; [apply orderly_on_file, orderly_bw_drop|].
    intros r s Hrun. eapply on_file_log; [apply framed_drop|apply logged_start|exact Hrun]. }
  destruct Hc as [H1 H2]. split; [done|]. revert H2. unfold on_writer, zoom, wal_drop, on_file, zoom, bw_drop, ignore.
  cbn [fst snd]. unfold mbind, M_bind, try_. by destruct (bw_flush_buf _) as [[] [fs' w']].
Qed.

Lemma logged_serves fs e T a s : serves fs e T a -> logged fs e s -> serves s.1 s.2 T a.
Proof. intros Hs (w & Hw & Hf & ->). by apply serves_logged with (fs := fs). Qed.

(** ** Locks *)

Lemma copes_with_lock {A} l msg (m : M Sys A) fs e E P :
  poisoned e = [] -> copes m (fs, e) E P -> copes (with_lock l msg m) (fs, e) E P.
Proof.
  intros Hp Hm. unfold with_lock. eapply copes_bind_ok; [reflexivity|done|]. unfold is_poisoned. cbn [snd].
  rewrite Hp, bool_decide_false by apply not_elem_of_nil. by apply copes_guarded.
Qed.

Lemma copes_write_state {A} (m : M Sys A) fs e E P :
  poisoned e = [] -> copes m (fs, e) E P -> copes (write_state m) (fs, e) E P.
Proof.
  intros Hp Hm. unfold write_state. eapply copes_bind_ok; [reflexivity|done|]. unfold is_poisoned. cbn [snd].
  rewrite Hp, bool_decide_false by apply not_elem_of_nil. by apply copes_guarded.
Qed.

(** ** The rotation *)

Lemma serves_drawn fs e T a : serves fs e T a -> next_seq e < u64_max -> serves fs (drawn e) T a.
Proof.
  intros [F1 F2 F3 F4 F5 F6 [F7 F7'] F8 F9] Hroom. split; try done.
  - cbn. lia.
  - by apply drawn_mems.
  - split; [done|]. eapply Forall_impl; [exact F7'|]. cbn. lia.
  - eapply (tables_ok_same _ (bare e)); [done|done|cbn; lia|done].
Qed.

Lemma serves_frozen n ino fs e T a t w :
  serves fs e T a -> Forall (fun s => s < n) (live_wals e) -> n < next_seq e -> mems e !! a = Some t -> iter t <> [] ->
  bw_file (ww_file w) = ino -> dirents fs !! wal_name n = Some ino ->
  serves fs (frozen_at n e a w) T (length (mems e)).
Proof.
  intros [F1 F2 F3 F4 F5 F6 [F7 F7'] F8 F9] Hn Hlt Hta Hne <- Hd. pose proof F4 as [M1 M2 M3].
  rewrite Forall_forall in M2.
  assert (forall i t', i ∈ live_mems (state e) a -> (mems e ++ [MemTable.new]) !! i = Some t' -> mems e !! i = Some t') as Hold.
  { intros i t' Hi. rewrite lookup_app_l; [done|]. by apply M2. }
  split; try done.
  - by apply frozen_mems.
  - intros i t' Hi Ht'. cbn in Ht'. unfold live_mems in Hi. cbn in Hi. rewrite fmap_app in Hi.
    apply elem_of_cons in Hi as [->|[Hi|Hi]%elem_of_app].
    + rewrite lookup_app_r, Nat.sub_diag in Ht' by done. injection Ht' as <-.
      intros k en Hget. unfold get_entry in Hget. cbn in Hget. by rewrite sm_get_new in Hget.
    + eapply F5; [by apply list_elem_of_further|]. apply Hold; [by apply list_elem_of_further|done].
    + apply list_elem_of_singleton in Hi as ->. eapply F5; [apply list_elem_of_here|].
      apply Hold; [apply list_elem_of_here|done].
  - intros p t' [Hp| ->%list_elem_of_singleton]%elem_of_app Ht'; cbn in Ht'.
    + apply (F6 p t' Hp), Hold; [|done]. apply list_elem_of_further. by apply list_elem_of_fmap_2.
    + apply Hold in Ht'; [|apply list_elem_of_here]. congruence.
  - rewrite live_wals_frozen. split.
    + apply NoDup_app. split_and!; [done| |apply NoDup_singleton]. intros x Hx ->%list_elem_of_singleton.
      rewrite Forall_forall in Hn. specialize (Hn _ Hx). lia.
    + apply Forall_app. split; [exact F7'|]. by repeat constructor.
  - eapply (tables_ok_same _ (bare e)); [done|done|cbn; lia|done].
  - destruct F1 as [Hlo Hinj]. split; [by eapply Hlo|]. intros x Hx Hdx.
    rewrite (Hinj _ _ _ Hdx Hd) in Hx. by rewrite initial_wal in Hx.
Qed.

Lemma copes_rotate n fs e T a t :
  serves fs e T a -> Forall (fun s => s < n) (live_wals e) -> n < next_seq e -> mems e !! a = Some t -> iter t <> [] ->
  copes (rotate n) (fs, e) (fun _ s => serves s.1 s.2 T a /\ s.2 = e)
    (fun b s => b = true /\ exists w, s.2 = frozen_at n e a w /\ serves s.1 s.2 T (length (mems e))).
Proof.
  intros Hs Hn Hlt Hta Hne. pose proof (mo_active _ _ (sv_mems _ _ _ _ Hs)) as Ha. pose proof (sv_poison _ _ _ _ Hs) as Hp.
  assert (forall fs', leaves (eq (wal_name n)) fs fs' -> serves fs' e T a) as Hcre.
  { intros fs' HL. eapply serves_leaves; [exact Hs|exact HL|..].
    - intros x Hx <-. destruct (live_path_name _ _ _ _ (sv_tables _ _ _ _ Hs) Hx) as (l & s & Heq & _).
      by eapply (initial_ne _ _ _ _ (initial_wal n) (initial_sst l s)).
    - right. intros x <-. by rewrite initial_wal. }
  unfold rotate. eapply copes_on_fs_seq with
    (P := fun w fs' => serves fs' e T a /\ exists ino, bw_file (ww_file w) = ino /\ dirents fs' !! wal_name n = Some ino).
  { unfold wal_create. eapply copes_seq; [apply (copes_file_create (wal_name n) fs ltac:(apply Hs))|..].
    - intros err fs' HL. exact HL.
    - intros ino fs' (HL & Hd & _). apply copes_ret. split; [by apply Hcre|]. by exists ino. }
  { intros err fs' HL. split; [by apply Hcre|done]. }
  intros w fs1 (Hs1 & ino & Hw & Hd).
  pose (e2 := set_state (mkEngineState (Some (length (mems e)))
      (immutables (state e) ++ [mkPendingImm a (seq (wal e))]) (levels (state e)))
      (set_mems (mems e ++ [MemTable.new]) e)).
  apply (copes_bind_ok _ _ _ tt (fs1, e2)); [|done|].
  { apply with_lock_ok; [done| |done]. apply write_state_ok; [done| |done]. mstep. cbn [snd state]. rewrite Ha. reflexivity. }
  eapply copes_seq; [apply copes_wal_drop|done|]. intros _ [fs3 e3] (w2 & Hw2 & Hf & He3). cbn [fst snd] in *. subst e3.
  eapply copes_bind_ok; [reflexivity|done|]. apply copes_ret. split; [done|]. exists w. split; [done|]. cbn [fst snd].
  pose proof (serves_logged fs1 e T a fs3 w2 Hs1 Hf Hw2) as Hs3.
  exact (serves_frozen n ino fs3 _ T a t w Hs3 Hn Hlt Hta Hne Hw ltac:(by rewrite (proj1 Hf))).
Qed.

(** Freezing the active memtable leaves the map as it is, also when the new log
    cannot be created. *)
Lemma copes_freeze fs e T a :
  serves fs e T a -> next_seq e < u64_max ->
  copes freeze_active (fs, e) (fun _ => shows (view e T))
    (fun _ s => exists a', serves s.1 s.2 T a' /\ (forall k, view s.2 T k = view e T k) /\
      (small_mems e -> small_frozen s.2) /\
      next_seq s.2 + len (immutables (state s.2)) <= next_seq e + len (immutables (state e)) + 2).
Proof.
  intros Hs Hroom. pose proof (sv_mems _ _ _ _ Hs) as Hm. pose proof Hm as [Ha Hal _]. apply Forall_inv in Hal.
  destruct (lookup_lt_is_Some_2 _ _ Hal) as [t Hta]. pose proof (sv_next _ _ _ _ Hs).
  unfold freeze_active. eapply copes_bind_ok; [by apply snapshot_active_ok; [apply Hs|]|done|].
  eapply copes_bind_ok; [by apply mem_at_ok|done|]. destruct (MemTable.is_empty t) eqn:Hem.
  { apply copes_ret. exists a. split_and!; try done; [by apply small_frozen_mems|cbn; lia]. }
  assert (iter t <> []) as Hne by (intros Hn; apply is_empty_iter in Hn; congruence).
  eapply copes_bind_ok; [apply (fetch_add_seq_ok fs e ltac:(lia))|done|]. fold (drawn e).
  pose proof (serves_drawn _ _ _ _ Hs Hroom) as Hs1.
  eapply copes_mono; [apply (copes_rotate (next_seq e) fs (drawn e) T a t Hs1)|..]; try done.
  - apply (sv_gens _ _ _ _ Hs).
  - cbn. lia.
  - intros err [fs' e'] [Hs' He]. cbn in He. subst e'. exact (shows_intro _ _ _ _ Hs').
  - intros b [fs' e'] (_ & w & He & Hs'). cbn in He, Hs'. subst e'. exists (length (mems e)).
    split; [done|]. split; [|split].
    + intros k. exact (frozen_view _ (drawn e) T a t w k (drawn_mems _ _ Hm) Hta).
    + intros Hsm. by apply (small_frozen_at _ (drawn e)); [apply drawn_mems|].
    + cbn. rewrite len_app, len_cons, len_nil. lia.
Qed.

(** ** The operations *)

Lemma capped_mutated en t t' :
  encodable en -> capped_entries t ->
  (forall k, get_entry t' k =
     if decide ((entry_mutation en).1 = k) then Some (entry_mutation en).2 else get_entry t k) ->
  capped_entries t'.
Proof.
  intros [[Hk Hv] Hd] Hc Ht' k x. rewrite Ht'. case_decide as Heq; [|by apply Hc]. intros [= <-]. subst k.
  unfold capped, rkey, rvalue. unfold entry_mutation. unfold Wal.MAX_KEY_LEN, Wal.MAX_VALUE_LEN in *.
  unfold SstRecord.MAX_KEY_LEN, SstRecord.MAX_VALUE_LEN. by destruct (Wal.op en); cbn.
Qed.

Lemma serves_applied fs e T a t t' en :
  serves fs e T a -> mems e !! a = Some t -> encodable en ->
  (forall k, get_entry t' k =
     if decide ((entry_mutation en).1 = k) then Some (entry_mutation en).2 else get_entry t k) ->
  serves fs (set_mems (<[a := t']> (mems e)) e) T a.
Proof.
  intros [F1 F2 F3 F4 F5 F6 F7 F8 F9] Hta Hen Ht'. pose proof F4 as [M1 M2 M3].
  assert (a < length (mems e))%nat as Hal by (by eapply lookup_lt_Some).
  split; try done.
  - split; try done. cbn. by rewrite length_insert.
  - intros i x Hi Hx. cbn in Hx. destruct (decide (a = i)) as [<-|Hne].
    + rewrite list_lookup_insert_eq in Hx by done. injection Hx as <-.
      eapply capped_mutated; [done| |done]. eapply F5; [apply list_elem_of_here|done].
    + rewrite list_lookup_insert_ne in Hx by done. by eapply F5.
  - intros p x Hp Hx. cbn in Hx. rewrite list_lookup_insert_ne in Hx; [by eapply F6|].
    apply NoDup_cons in M3 as [M3 _]. intros ->. apply M3. by apply list_elem_of_fmap_2.
  - by eapply (tables_ok_same _ (bare e)).
Qed.

Lemma serves_tx fs e T a n : serves fs e T a -> serves fs (set_flush_tx n e) T a.
Proof.
  intros [F1 F2 F3 [M1 M2 M3] F5 F6 F7 F8 F9]. split; try done. by eapply (tables_ok_same _ (bare e)).
Qed.

(** The map after a mutation. *)
Definition mutated (en : WalEntry) (V : bytes -> option bytes) (k : bytes) : option bytes :=
  if decide ((entry_mutation en).1 = k) then entry_value (entry_mutation en).2 else V k.

Lemma copes_apply fs e T a en key value d :
  serves fs e T a -> next_seq e < u64_max -> encodable en ->
  mutate en = (if d : bool then MemTable.delete key else MemTable.put key value) ->
  copes (apply_and_maybe_freeze key value d) (fs, e) (fun _ => shows (mutated en (view e T)))
    (fun _ => shows (mutated en (view e T))).
Proof.
  intros Hs Hroom Hen Hmut. pose proof (sv_mems _ _ _ _ Hs) as Hm. pose proof Hm as [Ha Hal _]. apply Forall_inv in Hal.
  destruct (lookup_lt_is_Some_2 _ _ Hal) as [t Hta]. destruct (mutate_ok en t Hen) as (t' & Hrun & Hget).
  rewrite Hmut in Hrun. unfold apply_and_maybe_freeze.
  eapply copes_bind_ok; [by apply snapshot_active_ok; [apply Hs|]|done|].
  eapply copes_bind_ok; [by eapply on_mem_ok|done|].
  pose proof (serves_applied _ _ _ _ _ _ _ Hs Hta Hen Hget) as Hs1.
  assert (forall k, mutated en (view e T) k = view (set_mems (<[a := t']> (mems e)) e) T k) as Hv.
  { intros k. symmetry. exact (applied_view e T a t t' _ _ (writer (wal e)) k Hm Hta Hget). }
  set (e1 := set_mems (<[a := t']> (mems e)) e) in *.
  eapply copes_bind_ok; [apply (mem_at_ok fs e1 a t'); cbn; by apply list_lookup_insert_eq|done|].
  eapply copes_bind_ok; [reflexivity|done|].
  assert (forall s, shows (view e1 T) s -> shows (mutated en (view e T)) s) as Hsh
    by (intros s; by apply shows_ext).
  destruct (_ && _); [|by apply copes_ret, Hsh, (shows_intro _ _ _ a)].
  eapply copes_seq; [apply (copes_freeze fs e1 T a Hs1 Hroom)|by intros err s ?%Hsh|].
  intros froze [fs2 e2] (a' & Hs2 & Hv2 & _). cbn [fst snd] in *.
  assert (shows (mutated en (view e T)) (fs2, e2)) as Hres by (by apply Hsh; exists T, a').
  destruct froze; [|by apply copes_ret].
  apply (copes_run _ _ tt (fs2, set_flush_tx (S (flush_tx e2)) e2)); [done|done|].
  destruct Hres as (T2 & a2 & Hs3 & Hv3). exists T2, a2. split; [by apply serves_tx|done].
Qed.

Lemma shows_logged fs e T a s : serves fs e T a -> logged fs e s -> shows (view e T) s.
Proof. intros Hs Hl. exists T, a. split; [by eapply logged_serves|]. by destruct Hl as (w & _ & _ & ->). Qed.

(** The body of [put] and [delete]: an error leaves the map as it was, or the
    write has been applied. *)
Lemma copes_write fs e T a en key value d :
  serves fs e T a -> next_seq e < u64_max -> encodable en ->
  mutate en = (if d : bool then MemTable.delete key else MemTable.put key value) ->
  copes (with_lock WalLock "wal lock poisoned"
      (_ ← on_writer (append (Wal.op en) (Wal.key en) (Wal.value en));
       o ← eng options;
       _ ← (if sync_per_write o then on_writer sync else mret tt);
       apply_and_maybe_freeze key value d)) (fs, e)
    (fun _ s => shows (view e T) s \/ shows (mutated en (view e T)) s) (fun _ => shows (mutated en (view e T))).
Proof.
  intros Hs Hroom Hen Hmut. apply copes_with_lock; [apply Hs|].
  assert (encodable (mkWalEntry (Wal.op en) (Wal.key en) (Wal.value en))) as Hen' by (by destruct en).
  eapply copes_seq; [by apply copes_append|intros err s Hl; left; by eapply shows_logged|].
  intros _ [fs1 e1] (w1 & Hw1 & Hf1 & He1). cbn [fst snd] in *. subst e1.
  pose proof (serves_logged _ _ _ _ _ _ Hs Hf1 Hw1) as Hs1. set (e1 := set_wal _ e) in *.
  eapply copes_bind_ok; [reflexivity|done|].
  eapply (copes_bind _ _ _ _ (fun _ s => exists w, s.2 = set_wal w e1 /\ serves s.1 s.2 T a)).
  { destruct (sync_per_write _); [|apply copes_ret; by exists (wal e1)].
    eapply copes_mono; [apply (copes_sync fs1 e1)|..].
    - intros err s Hl. left. exact (shows_logged fs1 e1 T a s Hs1 Hl).
    - intros x s Hl. pose proof (logged_serves _ _ _ _ _ Hs1 Hl) as Hs2. destruct Hl as (w & _ & _ & Hw).
      eexists. split; [exact Hw|done]. }
  intros _ [fs2 e2] (w & He2 & Hs2). cbn [fst snd] in *. subst e2.
  eapply copes_mono; [apply (copes_apply fs2 (set_wal w e1) T a en key value d Hs2 Hroom Hen Hmut)|..].
  - intros err s Hsh. by right.
  - intros x s Hsh. exact Hsh.
Qed.

Lemma copes_put fs e T a k v :
  serves fs e T a -> next_seq e < u64_max -> len k <= SstRecord.MAX_KEY_LEN -> len v <= SstRecord.MAX_VALUE_LEN ->
  copes (Engine.put k v) (fs, e)
    (fun _ s => shows (view e T) s \/ shows (mutated (mkWalEntry Put k v) (view e T)) s)
    (fun _ => shows (mutated (mkWalEntry Put k v) (view e T))).
Proof.
  intros Hs Hroom Hk Hv. apply (copes_write fs e T a (mkWalEntry Put k v) k v false Hs Hroom); [|done]. by split; [split|].
Qed.

Lemma copes_delete fs e T a k :
  serves fs e T a -> next_seq e < u64_max -> len k <= SstRecord.MAX_KEY_LEN ->
  copes (Engine.delete k) (fs, e)
    (fun _ s => shows (view e T) s \/ shows (mutated (mkWalEntry Delete k []) (view e T)) s)
    (fun _ => shows (mutated (mkWalEntry Delete k []) (view e T))).
Proof.
  intros Hs Hroom Hk. apply (copes_write fs e T a (mkWalEntry Delete k []) k [] true Hs Hroom); [|done]. by split; [split|].
Qed.

(** A write that is too large is refused before any system call. *)
Lemma serves_scratch fs e T a w :
  serves fs e T a -> ww_file w = ww_file (writer (wal e)) ->
  serves fs (set_wal (mkActiveWal w (seq (wal e))) e) T a.
Proof. intros Hs Hw. eapply serves_logged; [exact Hs|apply frames_refl|]. unfold log_ino. by rewrite Hw. Qed.

Lemma refused_write {A} fs e T a o k v err (rest : M Sys A) :
  serves fs e T a -> oversize k v = Some err ->
  exists e', with_lock WalLock "wal lock poisoned" (_ ← on_writer (append o k v); rest) (fs, e) =
      (Err err, (fs, e')) /\ serves fs e' T a /\ forall k', view e' T k' = view e T k'.
Proof.
  intros Hs Hbig. destruct (append_oversize fs (writer (wal e)) o k v err Hbig) as (w' & H1 & Hf1).
  exists (set_wal (mkActiveWal w' (seq (wal e))) e). split; [|split; [by apply serves_scratch|done]].
  apply with_lock_ok; [apply Hs| |done]. by rewrite (M_bind_err _ _ _ _ _ (on_writer_err _ fs e err fs w' H1)).
Qed.
End write.
