(* ===== verification/FaultFlush.v ===== *)
(** * Flushing and compacting while system calls fail *)

From S2P Require Import Prelude Outcome External Fs Crash MemTable Wal WalWriter WalReader.
From S2P Require Import StdVec SstRecord SstIndex Bloom Builder Reader Merge Manifest.
From S2P Require Import Names KvSpec Engine Steady EngineSpec EngineGet EnginePut EngineFlush EngineCommit.
From S2P Require Import EngineCompact EngineDisk Faults FaultServe FaultWrite.

Section flush.
Context {C : Crc32} {SM : SkipMap Entry} {FB : FastBloom} {AL : Allocator}.

Abbreviation Sys := (Fs * LsmEngineInner)%type.

(** ** Tables *)

Lemma bare_joins e n : joins (bare e) n -> joins e n.
Proof.
  intros Hj l i Hi. destruct (Hj l i Hi) as [H1 H2]. cbn in H1. rewrite length_fmap in H1. split; [done|].
  by rewrite <- (cached_seq_of _ _ _ (cached_bare e)).
Qed.

(** A table under a number that is not in use may be written, or half written. *)
Lemma serves_table l n fs e T a fs' :
  serves fs e T a -> (l <= 1)%nat -> 0 <= n <= u64_max -> above (bare e) n ->
  leaves (fun x => x = tmp_name (sst_name l n) \/ x = sst_name l n) fs fs' -> serves fs' e T a.
Proof.
  intros Hs Hl Hn Hab HL. eapply serves_leaves; [exact Hs|exact HL|..].
  - intros x Hx. by eapply above_not_live; [apply (sv_tables _ _ _ _ Hs)|..].
  - left. intros x [->| ->]; [apply initial_sst_tmp|apply initial_sst].
Qed.

Lemma serves_above fs e T a : serves fs e T a -> above (bare e) (next_seq e).
Proof. intros Hs. exact (above_next _ _ _ (sv_tables _ _ _ _ Hs)). Qed.

(** The table of the frozen memtable [p]. *)
Lemma copes_build_pending fs e T a p t n :
  serves fs e T a -> p ∈ immutables (state e) -> mems e !! mem p = Some t -> small t ->
  0 <= n <= u64_max -> above (bare e) n ->
  copes (build_pending p n) (fs, e) (fun _ s => serves s.1 e T a /\ s.2 = e)
    (fun m s => m = meta (new_handle 0 n (mem_records t)) /\ serves s.1 e T a /\ s.2 = e /\
       exists ino, dirents s.1 !! sst_name 0 n = Some ino /\ table_of (data_of s.1 ino) (mem_records t)).
Proof.
  intros Hs Hp Ht Hsmall Hn Hab. unfold build_pending. eapply copes_bind_ok; [by apply mem_at_ok|done|].
  assert (Forall capped (mem_records t)) as Hcap.
  { apply capped_records, (sv_capped _ _ _ _ Hs (mem p)); [|done]. apply list_elem_of_further. by apply list_elem_of_fmap_2. }
  destruct (fill_builder_ok (mem_len t) (mem_records t) Hcap (mem_records_sorted t))
    as (b & blocks & cur & Hfill & Hb & Hcat & Hmin & Hmax).
  unfold mem_records in Hfill. eapply copes_bind_ok; [unfold lift; by rewrite Hfill|done|].
  eapply copes_seq; [apply (copes_write_table b blocks cur (tmp_name (sst_name 0 n)) (sst_name 0 n) fs e Hb)|..].
  - by rewrite Hcat.
  - apply Hs.
  - intros err s [HL He]. split; [by eapply (serves_table 0 n); [|lia|..]|done].
  - intros x s (HL & He & Hino). rewrite Hcat in Hino. apply copes_ret.
    split; [by rewrite Hmin, Hmax|]. split; [by eapply (serves_table 0 n); [|lia|..]|done].
Qed.

Lemma serves_joined fs e T a p ps n t ino :
  serves fs e T a -> immutables (state e) = p :: ps -> mems e !! mem p = Some t ->
  above (bare e) n -> 0 <= n < next_seq e ->
  dirents fs !! sst_name 0 n = Some ino -> table_of (data_of fs ino) (mem_records t) ->
  serves fs (joined e ps (new_handle 0 n (mem_records t))) (set_T T (length (handles e)) (mem_records t)) a.
Proof.
  intros [F1 F2 F3 F4 F5 F6 F7 F8 F9] Himm Ht Hab Hn Hino Htab. set (h := new_handle 0 n (mem_records t)).
  assert (iter t <> []) as Hne by (eapply F6; [rewrite Himm; apply list_elem_of_here|done]).
  assert (forall i, i ∈ live_mems (state (joined e ps h)) a -> i ∈ live_mems (state e) a) as Hsub.
  { intros i [->|Hi]%elem_of_cons; [apply list_elem_of_here|]. unfold live_mems. rewrite Himm.
    by do 2 apply list_elem_of_further. }
  split; try done.
  - destruct F4 as [M1 M2 M3]. unfold live_mems in M2, M3. rewrite Himm in M2, M3. split; [done| |]; unfold live_mems; cbn in *.
    + inversion_clear M2 as [|? ? Ha M2']. inversion_clear M2'. by constructor.
    + apply NoDup_cons in M3 as [N1 [_ N3]%NoDup_cons]. apply NoDup_cons. split; [|done].
      intros Hin. apply N1. by apply list_elem_of_further.
  - intros i x Hi%Hsub Hx. by eapply F5.
  - intros q x Hq Hx. apply (F6 q x); [|done]. rewrite Himm. by apply list_elem_of_further.
  - destruct F7 as [D1 D2]. unfold live_wals in *. rewrite Himm in D1, D2. cbn in D1, D2 |- *.
    apply NoDup_cons in D1 as [_ D1]. by inversion_clear D2.
  - pose proof (tables_ok_l0 fs (bare e) T h (mem_records t) (state (joined e ps h)) F8) as Hl0.
    assert (bare (joined e ps h) = set_state (state (joined e ps h)) (set_handles (handles (bare e) ++ [h]) (bare e))) as ->.
    { unfold bare. cbn. by rewrite fmap_app. }
    assert (length (handles (bare e)) = length (handles e)) as Hlen by (cbn; by rewrite length_fmap).
    rewrite Hlen in Hl0. apply Hl0; [|done|cbn; lia|done].
    eapply new_handle_ok; [lia| |done|done]. unfold mem_records. by destruct (iter t).
Qed.

Lemma serves_joined_view fs e T a p ps n t k :
  serves fs e T a -> immutables (state e) = p :: ps -> mems e !! mem p = Some t ->
  view (joined e ps (new_handle 0 n (mem_records t))) (set_T T (length (handles e)) (mem_records t)) k = view e T k.
Proof.
  intros Hs Himm Ht. pose proof (joined_view fs (bare e) T p ps n t k (sv_tables _ _ _ _ Hs) Himm Ht) as Hv.
  unfold joined in *. cbn in Hv. rewrite length_fmap in Hv. exact Hv.
Qed.

(** One turn of the draining loop. *)
Lemma copes_flush_pending fs e T a p ps t :
  serves fs e T a -> immutables (state e) = p :: ps -> mems e !! mem p = Some t -> small t -> next_seq e < u64_max ->
  copes (flush_pending p) (fs, e) (fun _ => shows (view e T))
    (fun _ s => exists T', serves s.1 s.2 T' a /\ (forall k, view s.2 T' k = view e T k) /\
       immutables (state s.2) = ps /\ mems s.2 = mems e /\ next_seq s.2 = next_seq e + 1).
Proof.
  intros Hs Himm Ht Hsm Hroom. pose proof (sv_next _ _ _ _ Hs). pose proof (serves_drawn _ _ _ _ Hs Hroom) as Hs1.
  unfold flush_pending. eapply copes_bind_ok; [apply (fetch_add_seq_ok fs e ltac:(lia))|done|]. fold (drawn e).
  assert (p ∈ immutables (state e)) as Hp by (rewrite Himm; apply list_elem_of_here).
  assert (above (bare (drawn e)) (next_seq e)) as Hab by exact (serves_above _ _ _ _ Hs).
  eapply copes_seq; [apply (copes_build_pending fs (drawn e) T a p t (next_seq e) Hs1 Hp Ht Hsm ltac:(lia) Hab)|..].
  - intros err [fs1 e1] [Hs2 He]. cbn in Hs2, He. subst e1. exact (shows_intro fs1 (drawn e) T a Hs2).
  - intros m [fs1 e1] (-> & Hs2 & He & ino & Hino & Htab). cbn [fst snd] in *. subst e1.
    eapply copes_run.
    + apply (join_table_run fs1 (drawn e) 0 (next_seq e) (mem_records t) p ps); [apply Hs| |done|].
      * apply bare_joins. eapply above_joins; [apply (sv_tables _ _ _ _ Hs2)|exact Hab].
      * rewrite <- Himm. destruct (sv_gens _ _ _ _ Hs) as [Hnd _]. by apply NoDup_app in Hnd as [? _].
    + done.
    + exists (set_T T (length (handles e)) (mem_records t)). split_and!; try done.
      * apply (serves_joined fs1 (drawn e) T a p ps (next_seq e) t ino); (done || cbn; lia).
      * intros k. exact (serves_joined_view fs1 (drawn e) T a p ps (next_seq e) t k Hs2 Himm Ht).
Qed.

Lemma copes_drain fuel fs e T a flushed :
  serves fs e T a -> small_frozen e -> next_seq e + len (immutables (state e)) <= u64_max ->
  (length (immutables (state e)) < fuel)%nat ->
  copes (drain fuel flushed) (fs, e) (fun _ => shows (view e T)) (fun _ => shows (view e T)).
Proof.
  intros Hs Hsm Hroom Hfuel. remember (immutables (state e)) as ps eqn:Eps. symmetry in Eps.
  revert fuel fs e T flushed Eps Hs Hsm Hroom Hfuel.
  induction ps as [|p ps IH]; intros fuel fs e T flushed Himm Hs Hsm Hroom Hfuel;
    (destruct fuel as [|fuel]; [simpl in Hfuel; lia|]); cbn [drain];
    (eapply copes_bind_ok; [by apply read_state_ok, Hs|done|]); rewrite Himm; cbn [head].
  { by apply copes_ret, (shows_intro _ _ _ a). }
  rewrite len_cons in Hroom. pose proof (len_nonneg ps). simpl in Hfuel.
  assert (mem p ∈ live_mems (state e) a) as Hin.
  { unfold live_mems. rewrite Himm. apply list_elem_of_further, list_elem_of_here. }
  pose proof (mo_alloc _ _ (sv_mems _ _ _ _ Hs)) as Hal. rewrite Forall_forall in Hal.
  destruct (lookup_lt_is_Some_2 _ _ (Hal _ Hin)) as [t Ht].
  assert (small t) as Hst by (eapply Hsm; [rewrite Himm; apply list_elem_of_here|done]).
  eapply copes_bind; [apply (copes_flush_pending fs e T a p ps t Hs Himm Ht Hst ltac:(lia))|].
  intros x [fs1 e1] (T1 & Hs1 & Hv1 & Hi1 & Hm1 & Hn1). cbn [fst snd] in *.
  eapply copes_mono; [apply (IH fuel fs1 e1 T1 _ Hi1 Hs1)|..].
  - intros q tq Hq Htq. rewrite Hi1 in Hq. rewrite Hm1 in Htq. eapply Hsm; [rewrite Himm; by apply list_elem_of_further|done].
  - lia.
  - lia.
  - intros err s. by apply shows_ext.
  - intros y s. by apply shows_ext.
Qed.

(** ** The manifest and the logs *)

Lemma copes_write_manifest fs e T a :
  serves fs e T a ->
  copes write_manifest (fs, e) (fun _ s => serves s.1 e T a /\ s.2 = e) (fun _ s => serves s.1 e T a /\ s.2 = e).
Proof.
  intros Hs. pose proof (sv_tables _ _ _ _ Hs) as Ht. pose proof (cached_sym _ _ (cached_bare e)) as Hc.
  unfold write_manifest. eapply copes_bind_ok; [by apply read_state_ok, Hs|done|].
  eapply copes_bind_ok; [by apply (manifest_levels_cached fs e (bare e) T)|done|].
  assert (manifest_ok (mkManifest (trim (live_metas e)))) as Hok.
  { apply trim_ok. rewrite (cached_live_metas _ _ Hc). by eapply live_metas_ok. }
  assert (forall fs', leaves (fun n => n = MANIFEST_TMP_FILE_NAME \/ n = MANIFEST_FILE_NAME) fs fs' -> serves fs' e T a) as Hl.
  { intros fs' HL. eapply serves_leaves; [exact Hs|exact HL|..].
    - intros n (l & s & -> & _)%(live_path_name _ _ _ _ Ht) [Heq|Heq].
      + by eapply (initial_ne _ _ _ _ (initial_sst l s) initial_manifest_tmp).
      + by eapply (initial_ne _ _ _ _ (initial_sst l s) initial_manifest).
    - right. by intros n [->| ->]. }
  eapply copes_on_fs; [apply (copes_write_atomic _ fs Hok ltac:(apply Hs))|..]; intros ? fs' HL; (split; [by apply Hl|done]).
Qed.

(** Removing a file no table depends on. *)
Lemma copes_remove fs e T a name E :
  serves fs e T a -> ~ live_path (bare e) name ->
  copes (ignore (on_fs (fs_remove_file name))) (fs, e) E (fun _ s => serves s.1 e T a /\ s.2 = e).
Proof.
  intros Hs Hdead. apply copes_ignore.
  assert (forall fs', leaves (eq name) fs fs' -> serves fs' e T a) as Hl.
  { intros fs' HL. eapply serves_leaves; [exact Hs|exact HL|..].
    - by intros n Hn <-.
    - destruct (decide (initial name = Some x4c)) as [Hi|Hi]; [left|right]; by intros n <-. }
  eapply copes_on_fs; [apply (copes_fs_remove_file name fs ltac:(apply Hs))|..]; intros ? fs' HL; (split; [by apply Hl|done]).
Qed.

Lemma wal_not_live fs e T w : tables_ok fs e T -> ~ live_path e (wal_name w).
Proof.
  intros Ht (l & s & Heq & _)%(live_path_name _ _ _ _ Ht).
  by eapply (initial_ne _ _ _ _ (initial_wal w) (initial_sst l s)).
Qed.

Lemma copes_flush_all fs e T a :
  serves fs e T a -> small_frozen e -> next_seq e + len (immutables (state e)) <= u64_max ->
  copes flush_all_pending (fs, e) (fun _ => shows (view e T)) (fun _ => shows (view e T)).
Proof.
  intros Hs Hsm Hroom. unfold flush_all_pending. apply copes_with_lock; [apply Hs|].
  eapply copes_bind_ok; [reflexivity|done|]. cbn [snd].
  eapply copes_bind; [apply (copes_drain _ fs e T a [] Hs Hsm Hroom); lia|].
  intros flushed [fs1 e1] (T1 & a1 & Hs1 & Hv1). cbn [fst snd] in *.
  assert (forall s, serves s.1 e1 T1 a1 /\ s.2 = e1 -> shows (view e T) s) as Hsh.
  { intros [fs2 e2] [Hs2 He]. cbn in *. subst e2. by exists T1, a1. }
  destruct (is_nil flushed); [by apply copes_ret, Hsh|].
  eapply copes_seq; [by apply (copes_write_manifest fs1 e1 T1 a1)|by intros err s ?%Hsh|].
  intros x s2 [Hs2 He2].
  eapply copes_mono; [apply (copes_for_each _ _ s2 (fun _ _ => False) (fun s => serves s.1 e1 T1 a1 /\ s.2 = e1))|..].
  - done.
  - intros w [fs3 e3] _ [Hs3 He3]. cbn in Hs3, He3. subst e3. apply copes_remove; [done|].
    by eapply wal_not_live, Hs3.
  - done.
  - intros y s. apply Hsh.
Qed.

Lemma copes_flush fs e T a :
  serves fs e T a -> small_mems e -> next_seq e + len (immutables (state e)) + 2 <= u64_max ->
  copes flush (fs, e) (fun _ => shows (view e T)) (fun _ => shows (view e T)).
Proof.
  intros Hs Hsm Hroom. pose proof (len_nonneg (immutables (state e))). unfold flush.
  eapply (copes_bind _ _ _ _ (fun _ s => exists a', serves s.1 s.2 T a' /\ (forall k, view s.2 T k = view e T k) /\
      small_frozen s.2 /\ next_seq s.2 + len (immutables (state s.2)) <= u64_max)).
  - apply copes_with_lock; [apply Hs|].
    eapply copes_seq; [apply (copes_sync fs e)|intros err s Hl; exact (shows_logged fs e T a s Hs Hl)|].
    intros x [fs1 e1] (w & Hw & Hf & He). cbn [fst snd] in *. subst e1.
    pose proof (serves_logged _ _ _ _ _ _ Hs Hf Hw) as Hs1.
    eapply copes_mono; [apply (copes_freeze fs1 _ T a Hs1); cbn; lia|..].
    + intros err s Hsh. exact Hsh.
    + intros b s (a' & Hs2 & Hv2 & Hsm2 & Hn2). exists a'. split_and!; [done|done|by apply Hsm2|cbn in Hn2; lia].
  - intros b [fs2 e2] (a' & Hs2 & Hv2 & Hsm2 & Hn2). cbn [fst snd] in *.
    eapply copes_mono; [by apply (copes_flush_all fs2 e2 T a')|..]; intros ? s; by apply shows_ext.
Qed.
End flush.
