(* ===== verification/FaultCompact.v ===== *)
(** * Compacting, and the background worker, while system calls fail *)

From S2P Require Import Prelude Outcome External Fs Crash MemTable Wal WalWriter WalReader.
From S2P Require Import StdVec SstRecord SstIndex Bloom Builder Reader Merge Manifest.
From S2P Require Import Names KvSpec Engine Steady EngineSpec EngineGet EnginePut EngineFlush EngineCommit.
From S2P Require Import EngineCompact EngineRecover EngineRefine EngineDisk Faults FaultServe FaultWrite FaultFlush.

Section compact.
Context {C : Crc32} {SM : SkipMap Entry} {FB : FastBloom} {AL : Allocator}.

Abbreviation Sys := (Fs * LsmEngineInner)%type.

(** ** The runs *)

Lemma copes_read_run fs e T a l i :
  serves fs e T a -> live e l i ->
  copes (read_run i) (fs, e) (fun _ => caches e T a) (fun r s => r = run_of (handles e) T i /\ caches e T a s).
Proof.
  intros Hs Hlive. unfold read_run. eapply copes_bind; [by eapply copes_open_reader|].
  intros r [fs1 e1] [[Hc Hs1] Hrd]. cbn [fst snd] in *.
  pose proof (Reader.records_ok r _ (T i) (killed fs1) eq_refl eq_refl Hrd) as Hrec.
  eapply copes_on_fs_seq; [apply (faithful_copes _ fs1 _ _ (faithful_records r) Hrec)|..].
  - intros err fs2 Hst. split; [done|by eapply serves_still].
  - intros rs fs2 [-> Hst]. pose proof (serves_still _ _ _ _ _ Hs1 Hst) as Hs2.
    destruct (bare_handle fs2 e1 T l i (sv_tables _ _ _ _ Hs2) (live_cached _ _ _ _ Hc Hlive)) as (h & Hh & _).
    eapply copes_bind_ok; [by apply handle_at_ok|done|]. apply copes_ret. split; [|done].
    unfold run_of. rewrite <- (cached_seq_of e e1 i Hc). unfold seq_of. by rewrite Hh.
Qed.

Lemma copes_read_runs fs e T a ids :
  serves fs e T a -> (forall i, i ∈ ids -> exists l, live e l i) ->
  copes (map_each ids read_run) (fs, e) (fun _ => caches e T a)
    (fun rs s => rs = run_of (handles e) T <$> ids /\ caches e T a s).
Proof.
  revert fs e. induction ids as [|i ids IH]; intros fs e Hs Hlive.
  { apply copes_ret. split; [done|by apply caches_refl]. }
  destruct (Hlive i) as [l Hl]; [apply list_elem_of_here|]. cbn [map_each].
  eapply copes_bind; [by apply (copes_read_run fs e T a l i)|]. intros r [fs1 e1] (-> & Hc1 & Hs1). cbn [fst snd] in *.
  eapply copes_seq; [apply (IH fs1 e1 Hs1)|..].
  - intros j Hj. destruct (Hlive j) as [l' Hl']; [by apply list_elem_of_further|]. exists l'. by eapply live_cached.
  - intros err s. by apply caches_trans.
  - intros rs s [-> Hca]. apply copes_ret. split; [|by eapply caches_trans]. rewrite fmap_cons. f_equal.
    apply list_fmap_ext. intros _ j _. unfold run_of. by rewrite (cached_seq_of e e1).
Qed.

(** ** The merged table *)

Definition merged_to (fs : Fs) (e : LsmEngineInner) (out : list record) (h : SstHandle) : Prop :=
  handle_ok fs 1 h out /\ Manifest.seq (meta h) = next_seq e /\ forgive h = h.

(** The table is written and allocated, or the engine has drawn a number. *)
Lemma copes_write_merged fs e T a out :
  serves fs e T a -> next_seq e < u64_max -> rs_sorted out -> Forall capped out ->
  len (records_bytes out) <= 2 ^ 60 ->
  copes (write_merged out) (fs, e) (fun _ s => serves s.1 (drawn e) T a /\ s.2 = drawn e)
    (fun o s => match o with
                | None => out = [] /\ s = (fs, e)
                | Some i => i = length (handles e) /\ exists h, merged_to s.1 e out h /\ serves s.1 (drawn e) T a /\
                    s.2 = allocated e h
                end).
Proof.
  intros Hs Hroom Hsort Hcap Hsm. unfold write_merged. destruct (is_nil out) eqn:Hnil.
  { apply copes_ret. split; [by apply is_nil_iff|done]. }
  apply is_nil_false in Hnil. pose proof (sv_next _ _ _ _ Hs). pose proof (serves_drawn _ _ _ _ Hs Hroom) as Hs1.
  eapply copes_bind_ok; [apply (fetch_add_seq_ok fs e ltac:(lia))|done|]. fold (drawn e).
  set (n := next_seq e). assert (above (bare (drawn e)) n) as Hab by exact (serves_above _ _ _ _ Hs).
  assert (forall s, leaves (fun x => x = tmp_name (sst_name 1 n) \/ x = sst_name 1 n) fs s.1 /\ s.2 = drawn e ->
    serves s.1 (drawn e) T a /\ s.2 = drawn e) as Hpost.
  { intros s [HL He]. split; [|done]. eapply (serves_table 1 n); (done || unfold n; lia). }
  unfold build_merged.
  destruct (fill_builder_ok (len out) out Hcap Hsort) as (b & blocks & cur & Hfill & Hb & Hcat & Hmin & Hmax).
  apply copes_assoc. eapply copes_bind_ok; [unfold lift; by rewrite Hfill|done|]. cbn zeta.
  eapply copes_assoc, copes_bind.
  { apply copes_try. apply (copes_write_table b blocks cur _ _ fs (drawn e) Hb); [by rewrite Hcat|apply Hs]. }
  intros r [fs1 e1] Hr. cbn [fst snd] in Hr.
  assert (serves fs1 (drawn e) T a /\ e1 = drawn e) as [Hs2 ->].
  { apply (Hpost (fs1, e1)). destruct r as [err|x]; [exact Hr|]. by destruct Hr as (HL & He & _). }
  destruct r as [err|x].
  - eapply copes_assoc, copes_bind.
    + apply (copes_remove fs1 (drawn e) T a (tmp_name (sst_name 1 n))); [done|].
      intros (l & s & Heq & _)%(live_path_name _ _ _ _ (sv_tables _ _ _ _ Hs2)). by apply tmp_ne_sst in Heq.
    + intros y [fs2 e2] [Hs3 He3]. cbn [fst snd] in *. subst e2.
      apply copes_assoc. eapply (copes_bind _ _ _ _ (fun _ _ => False)); [by apply copes_fail|done].
  - apply copes_assoc. eapply copes_bind_ok; [reflexivity|done|].
    apply copes_assoc. eapply copes_bind_ok; [reflexivity|done|].
    destruct Hr as (_ & _ & ino & Hino & Htab). rewrite Hcat in Htab. rewrite Hmin, Hmax.
    eapply copes_bind_ok; [reflexivity|done|]. apply copes_ret. split; [done|].
    exists (new_handle 1 n out). split; [split; [|done]|done].
    eapply new_handle_ok; [unfold n; lia|done..].
Qed.

(** ** The commit *)

(** A change of the tables alone. *)
Lemma serves_tables fs e T a e' T' :
  serves fs e T a -> poisoned e' = [] -> next_seq e <= next_seq e' <= u64_max -> mems e' = mems e -> wal e' = wal e ->
  active (state e') = active (state e) -> immutables (state e') = immutables (state e) ->
  tables_ok fs (bare e') T' -> serves fs e' T' a.
Proof.
  intros [F1 F2 F3 [M1 M2 M3] F5 F6 [F7 F7'] F8 F9] Hp Hn Em Ew Ea Ei Ht.
  split; unfold live_mems, live_wals, log_ino in *; rewrite ?Em, ?Ew, ?Ei; try done.
  - lia.
  - split; unfold live_mems; rewrite ?Ea, ?Em, ?Ei; done.
  - split; [done|]. eapply Forall_impl; [exact F7'|]. cbn. lia.
Qed.

Lemma serves_one fs e T a h out :
  serves fs (drawn e) T a -> merged_to fs e out h ->
  serves fs (compacted (allocated e h) [[]; [length (handles e)]]) (set_T T (length (handles e)) out) a.
Proof.
  intros Hs (Hh & Hseq & Hf). apply (serves_tables fs (drawn e) T a); try done; [apply Hs|split; [cbn; lia|apply Hs]|].
  pose proof (tables_ok_one fs (bare e) h out T Hh ltac:(cbn; lia)) as Ht.
  assert (length (handles (bare e)) = length (handles e)) as Hlen by (cbn; by rewrite length_fmap). rewrite Hlen in Ht.
  assert (bare (compacted (allocated e h) [[]; [length (handles e)]]) =
    compacted (allocated (bare e) h) [[]; [length (handles e)]]) as ->; [|done].
  unfold bare. cbn. by rewrite fmap_app; cbn; rewrite Hf.
Qed.

Lemma bare_live_path e n : live_path e n <-> live_path (bare e) n.
Proof.
  split; intros (l & i & h & Hl & Hh & Hp).
  - exists l, i, (forgive h). split; [done|]. split; [by apply bare_lookup|].
    destruct (forgive_same h) as [_ ->]. done.
  - cbn in Hh. rewrite list_lookup_fmap in Hh. destruct (handles e !! i) as [h0|] eqn:E; [|done]. injection Hh as <-.
    exists l, i, h0. split_and!; [done|done|]. destruct (forgive_same h0) as [_ Hp0]. congruence.
Qed.

(** The levels are swapped, or nothing has changed. *)
Lemma copes_swap fs e T a out l0 ls :
  serves fs e T a -> levels (state e) = l0 :: ls -> next_seq e < u64_max ->
  merged (run_of (handles e) T <$> inputs e) out -> Forall capped out -> len (records_bytes out) <= 2 ^ 60 ->
  copes (output ← write_merged out;
         with_lock StateLock "state lock poisoned" (write_state (commit_compact output))) (fs, e)
    (fun _ => shows (view e T))
    (fun _ s => exists T', serves s.1 s.2 T' a /\ (forall k, view s.2 T' k = view e T k) /\
       (forall n, live_path e n -> ~ live_path (bare s.2) n) /\
       (forall i, i ∈ inputs e -> handles s.2 !! i = handles e !! i)).
Proof.
  intros Hs Hl Hroom Hm Hcap Hsm. pose proof (sv_tables _ _ _ _ Hs) as Ht.
  pose proof (ta_levels _ _ _ Ht) as Hlen. cbn in Hlen. rewrite Hl in Hlen. simpl in Hlen.
  assert (forall k, record_entry out k ≫= entry_value = first_some (table_sources T (levels (state e))) k ≫= entry_value) as Hview.
  { intros k. apply (merged_view fs (bare e) T out k Ht).
    replace (run_of (handles (bare e)) T <$> inputs (bare e)) with (run_of (handles e) T <$> inputs e); [done|].
    apply list_fmap_ext. intros _ j _. unfold run_of. by rewrite (cached_seq_of _ _ _ (cached_bare e)). }
  eapply copes_seq; [apply (copes_write_merged fs e T a out Hs Hroom (mg_sorted _ _ Hm) Hcap Hsm)|..].
  { intros err [fs1 e1] [Hs1 He1]. cbn in Hs1, He1. subst e1. exact (shows_intro fs1 (drawn e) T a Hs1). }
  intros [i|] [fs1 e1]; cbn [fst snd].
  - intros (-> & h & Hh & Hs1 & He1). cbn in He1. subst e1. set (i := length (handles e)).
    apply copes_with_lock; [apply Hs|]. apply copes_write_state; [apply Hs|].
    eapply copes_run; [apply (commit_compact_some fs1 (allocated e h) i l0 ls); [done|lia]|done|].
    exists (set_T T i out). cbn [fst snd]. split; [|split; [|split]].
    + by apply serves_one.
    + intros k. apply view_tables; [done|done|done|]. rewrite <- Hview. cbn. unfold set_T.
      rewrite decide_True by done. by destruct (record_entry out k).
    + intros n Hn (l & j & hj & (ids & Hl' & Hj) & Hhj & Hp).
      destruct l as [|[|l]]; cbn in Hl'; simplify_eq; [by apply not_elem_of_nil in Hj|].
      apply list_elem_of_singleton in Hj as ->. cbn in Hhj. destruct Hh as (Hh & Hseq & Hf).
      rewrite list_lookup_fmap in Hhj. unfold i in Hhj. rewrite lookup_app_r, Nat.sub_diag in Hhj by done.
      cbn in Hhj. injection Hhj as <-. rewrite Hf in Hn. apply bare_live_path in Hn.
      rewrite (ho_name _ _ _ _ Hh), Hseq in Hn. pose proof (sv_next _ _ _ _ Hs).
      eapply (above_not_live 1 (next_seq e) fs (bare e)); [done|lia|lia|by eapply serves_above|exact Hn|by right].
    + intros j (l & ids & Hl' & Hj)%inputs_live. cbn. rewrite lookup_app_l; [done|].
      destruct (bare_handle fs e T l j Ht) as (hj & Hhj & _); [by exists ids|by eapply lookup_lt_Some].
  - intros [-> [= -> ->]]. apply copes_with_lock; [apply Hs|]. apply copes_write_state; [apply Hs|].
    eapply copes_run; [by eapply commit_compact_none|done|]. exists T. cbn [fst snd]. split; [|split; [|split]].
    + apply (serves_tables fs e T a); try done; [apply Hs|split; [cbn; lia|apply Hs]|].
      by apply (tables_ok_none fs (bare e) T).
    + intros k. apply view_tables; [done|done|done|]. rewrite <- Hview. done.
    + intros n _ (l & j & hj & (ids & Hl' & Hj) & _). destruct l as [|l]; cbn in Hl'; simplify_eq.
      by apply not_elem_of_nil in Hj.
    + done.
Qed.

(** ** The whole operation *)

Lemma copes_remove_inputs fs e T a ids E :
  serves fs e T a -> (forall i h, i ∈ ids -> handles e !! i = Some h -> ~ live_path (bare e) (path h)) ->
  (forall i, i ∈ ids -> is_Some (handles e !! i)) ->
  copes (for_each ids (fun i => h ← handle_at i; ignore (on_fs (fs_remove_file (path h))))) (fs, e) E
    (fun _ s => serves s.1 e T a /\ s.2 = e).
Proof.
  intros Hs Hdead Hal. apply (copes_for_each _ _ _ _ (fun s : Sys => serves s.1 e T a /\ s.2 = e)); [done|].
  intros i [fs1 e1] Hi [Hs1 He1]. cbn [fst snd] in *. subst e1. destruct (Hal i Hi) as [h Hh].
  eapply copes_bind_ok; [by apply handle_at_ok|done|]. apply copes_remove; [done|by eapply Hdead].
Qed.

Lemma copes_compact fs e T a :
  serves fs e T a -> tables_small e T -> next_seq e < u64_max ->
  copes compact (fs, e) (fun _ => shows (view e T)) (fun _ => shows (view e T)).
Proof.
  intros Hs Hsm Hroom. unfold compact, compact_all_pending. apply copes_with_lock; [apply Hs|].
  eapply copes_bind_ok; [by apply read_state_ok, Hs|done|].
  assert (shows (view e T) (fs, e)) as H0 by (by apply (shows_intro _ _ _ a)).
  destruct (levels (state e)) as [|l0 ls] eqn:Hl; cbn [head]; [by apply copes_ret|].
  destruct l0 as [|i0 l0]; [by apply copes_ret|]. cbn zeta.
  assert ((i0 :: l0) ++ default [] (((i0 :: l0) :: ls) !! 1%nat) = inputs e) as -> by (unfold inputs; by rewrite Hl).
  eapply copes_seq; [apply (copes_read_runs fs e T a (inputs e) Hs (inputs_live e))|intros err s; apply shows_cached|].
  intros runs [fs1 e1] (-> & Hc & Hs1). cbn [fst snd] in *.
  destruct (cached_state _ _ Hc) as (Est & Ems & _ & Enx & _).
  pose proof (sv_tables _ _ _ _ Hs) as Ht.
  assert (run_of (handles (bare e)) T <$> inputs (bare e) = run_of (handles e) T <$> inputs e) as Ebare.
  { apply list_fmap_ext. intros _ j _. unfold run_of. by rewrite (cached_seq_of _ _ _ (cached_bare e)). }
  pose proof (runs_mergeable fs (bare e) T Ht) as Hmg. rewrite Ebare in Hmg.
  destruct (merge_runs_ok _ Hmg) as (out & Hmerge & Hm).
  assert (inputs e1 = inputs e) as Ein by (unfold inputs; by rewrite Est).
  assert (run_of (handles e1) T <$> inputs e1 = run_of (handles e) T <$> inputs e) as Erun.
  { rewrite Ein. apply list_fmap_ext. intros _ j _. unfold run_of. by rewrite (cached_seq_of e e1). }
  pose proof (merged_fits _ _ _ Hsm Hm) as Hsmall.
  assert (Forall capped out) as Hcap by (apply (merged_capped fs (bare e) T out Ht); by rewrite Ebare).
  eapply copes_bind_ok; [unfold lift; by rewrite Hmerge|done|].
  apply (copes_assoc (write_merged out)
    (fun o => with_lock StateLock "state lock poisoned" (write_state (commit_compact o)))).
  eapply copes_seq; [apply (copes_swap fs1 e1 T a out (i0 :: l0) ls Hs1); [by rewrite Est|lia|by rewrite Erun|done|done]|..].
  { intros err s. apply shows_ext. intros k. by apply cached_view. }
  intros x [fs2 e2] (T2 & Hs2 & Hv2 & Hdead & Hhs). cbn [fst snd] in *.
  assert (forall s, serves s.1 e2 T2 a /\ s.2 = e2 -> shows (view e T) s) as Hsh.
  { intros [fs3 e3] [Hs3 He3]. cbn in *. subst e3. exists T2, a. split; [done|]. intros k. cbn [snd].
    rewrite Hv2. by apply cached_view. }
  eapply copes_seq; [by apply (copes_write_manifest fs2 e2 T2 a)|by intros err s ?%Hsh|].
  intros y [fs3 e3] [Hs3 He3]. cbn in Hs3, He3. subst e3.
  assert (forall i, i ∈ inputs e -> exists h, handles e2 !! i = Some h /\ live_path e1 (path h)) as Hin.
  { intros i Hi. rewrite <- Ein in Hi. destruct (inputs_live e1 i Hi) as [l Hlv].
    destruct (bare_handle fs1 e1 T l i (sv_tables _ _ _ _ Hs1) Hlv) as (h & Hh & _).
    exists h. split; [by rewrite Hhs|]. by exists l, i, h. }
  eapply copes_mono; [apply (copes_remove_inputs fs3 e2 T2 a (inputs e) (fun _ _ => False) Hs3)|done|by intros z s ?%Hsh].
  - intros i h Hi Hh. destruct (Hin i Hi) as (h' & Hh' & Hlp). simplify_eq. by apply Hdead.
  - intros i Hi. destruct (Hin i Hi) as (h & Hh & _). by exists h.
Qed.
End compact.
