(* ===== verification/FaultStore.v ===== *)
(** * The engine goes on after I/O errors: the contract [FaultyStore] *)

From S2P Require Import Prelude Outcome External Fs Crash MemTable Wal WalWriter WalReader.
From S2P Require Import StdVec SstRecord SstIndex Bloom Builder Reader Merge Manifest.
From S2P Require Import Names KvSpec Engine Steady EngineSpec EngineGet EnginePut EngineFlush EngineCommit.
From S2P Require Import EngineCompact EngineRecover EngineRefine EngineDisk.
From S2P Require Import Faults FaultServe FaultWrite FaultFlush FaultCompact.

Section store.
Context {C : Crc32} {SM : SkipMap Entry} {FB : FastBloom} {AL : Allocator}.

Abbreviation Sys := (Fs * LsmEngineInner)%type.

(** ** Resources *)

(** The tables a compaction would read, whatever faults are pending. *)
Definition tables_fit (s : Sys) : Prop := inputs_fit (killed s.1, s.2).

Lemma tables_fit_small fs e T a : serves fs e T a -> tables_fit (fs, e) -> tables_small e T.
Proof.
  intros Hs. unfold tables_fit, inputs_fit, tables_small. cbn [fst snd].
  replace ((fun i => file_records (killed fs) (Manifest.name (meta_at (handles e) i))) <$> inputs e)
    with (T <$> inputs e); [done|].
  apply list_fmap_ext. intros n i Hi%list_elem_of_lookup_2. destruct (inputs_live e i Hi) as (l & Hl).
  destruct (bare_handle fs e T l i (sv_tables _ _ _ _ Hs) Hl) as (h & Hh & Hok & _).
  destruct (ho_file _ _ _ _ Hok) as (ino & Hd & Ht & _). destruct (forgive_same h) as [Em Ep].
  pose proof (ho_meta _ _ _ _ Hok) as Hn. rewrite (meta_at_lookup _ _ _ Hh), <- Em, Hn.
  symmetry. exact (file_records_ok (killed fs) _ ino (T i) eq_refl Hd Ht).
Qed.

(** The notification's flush and the compaction it may start. *)
Definition after_flushing (s : Sys) : Sys :=
  (flush_all_pending (s.1, set_flush_tx (pred (flush_tx s.2)) s.2)).2.

Definition fault_room (r : request) (s : Sys) : Prop :=
  match r with
  | ReqPut _ _ | ReqDelete _ => next_seq s.2 < u64_max
  | ReqGet _ => True
  | ReqFlush => small_mems s.2 /\ next_seq s.2 + len (immutables (state s.2)) + 2 <= u64_max
  | ReqCompact => tables_fit s /\ next_seq s.2 < u64_max
  | ReqBackground => small_frozen s.2 /\ next_seq s.2 + len (immutables (state s.2)) <= u64_max /\
      tables_fit (after_flushing s) /\ next_seq (after_flushing s).2 < u64_max
  | ReqReopen => False
  end.

(** ** The background worker *)

Lemma copes_worker fs e T a :
  serves fs e T a -> fault_room ReqBackground (fs, e) ->
  copes worker_tick (fs, e) (fun _ _ => False) (fun _ => shows (view e T)).
Proof.
  intros Hs (Hsm & Hroom & Hfit & Hnext). cbn [fst snd] in *. unfold worker_tick, after_flushing in *. cbn [fst snd] in *.
  eapply copes_bind_ok; [reflexivity|done|]. cbn [snd].
  destruct (flush_tx e) as [|n]; [by apply copes_ret, (shows_intro _ _ _ a)|]. cbn [pred] in *.
  eapply copes_bind_ok; [reflexivity|done|]. cbn [fst snd].
  pose proof (serves_tx fs e T a n Hs) as Hs1. set (e1 := set_flush_tx n e) in *. apply copes_catch.
  eapply copes_bind; [apply copes_try, copes_eq, (copes_flush_all fs e1 T a Hs1 Hsm Hroom)|].
  intros [err|x] s2; [intros Hsh; by apply copes_ret|]. destruct s2 as [fs2 e2]. intros [(T2 & a2 & Hs2 & Hv2) Hrun].
  rewrite Hrun in Hfit, Hnext. cbn [fst snd] in *.
  assert (forall s, shows (view e2 T2) s -> shows (view e T) s) as Hsh by (intros s; by apply shows_ext).
  destruct (compact_needed_ok fs2 e2 (sv_poison _ _ _ _ Hs2)) as (b & Hb).
  eapply copes_bind_ok; [exact Hb|done|].
  destruct b; [|by apply copes_ret, Hsh, (shows_intro _ _ _ a2)].
  apply copes_ignore. eapply copes_mono; [apply (copes_compact fs2 e2 T2 a2 Hs2); [by eapply tables_fit_small|done]|..].
  - intros err s. apply Hsh.
  - intros y s. apply Hsh.
Qed.

(** ** Requests *)

Definition shows_map (m : kvmap) (s : Sys) : Prop := shows (fun k => m !! k) s.

(** What an error leaves: the request has been carried out or not. *)
Definition unsure (r : request) (m : kvmap) (s : Sys) : Prop := shows_map m s \/ shows_map (spec_next r m) s.

Definition answered (r : request) (m : kvmap) (v : option bytes) (s : Sys) : Prop :=
  Ok v = spec_reply r m /\ shows_map (spec_next r m) s.

Lemma copes_unit_reply (m : M Sys unit) s (E P : Sys -> Prop) :
  copes m s (fun _ => E) (fun _ => P) -> copes (unit_reply m) s (fun _ => E) (fun v s' => v = None /\ P s').
Proof. intros Hm. unfold unit_reply. eapply copes_bind; [exact Hm|]. intros x s' Hs. by apply copes_ret. Qed.

(** A request that leaves the map as it is. *)
Lemma copes_keeps r m (c : M Sys unit) fs e T :
  serve r = unit_reply c -> spec_reply r m = Ok None -> spec_next r m = m -> (forall k, view e T k = m !! k) ->
  copes c (fs, e) (fun _ => shows (view e T)) (fun _ => shows (view e T)) ->
  copes (serve r) (fs, e) (fun _ => unsure r m) (answered r m).
Proof.
  intros Hr Ho Hn Hv Hc. unfold unsure, answered. rewrite Hr, Ho, Hn.
  assert (forall s, shows (view e T) s -> shows_map m s) as Hsh by (intros s; by apply shows_ext).
  eapply copes_mono; [by apply copes_unit_reply|..].
  - intros err s Hs. left. by apply Hsh.
  - intros v s [-> Hs]. split; [done|by apply Hsh].
Qed.

(** A write changes the map as the specification does. *)
Lemma copes_mutates r m (c : M Sys unit) fs e T en :
  serve r = unit_reply c -> spec_reply r m = Ok None -> (forall k, view e T k = m !! k) ->
  (forall V : bytes -> option bytes, (forall k, V k = m !! k) -> forall k, mutated en V k = spec_next r m !! k) ->
  copes c (fs, e) (fun _ s => shows (view e T) s \/ shows (mutated en (view e T)) s)
    (fun _ => shows (mutated en (view e T))) ->
  copes (serve r) (fs, e) (fun _ => unsure r m) (answered r m).
Proof.
  intros Hr Ho Hv Hn Hc. unfold unsure, answered. rewrite Hr, Ho.
  assert (forall s, shows (mutated en (view e T)) s -> shows_map (spec_next r m) s) as Hsh
    by (intros s; apply shows_ext, Hn, Hv).
  eapply copes_mono; [by apply copes_unit_reply|..].
  - intros err s [Hs|Hs]; [left; by eapply shows_ext|right; by apply Hsh].
  - intros v s [-> Hs]. split; [done|by apply Hsh].
Qed.

Lemma copes_refused r m fs e err e' T a :
  serve r (fs, e) = (Err err, (fs, e')) -> serves fs e' T a -> (forall k, view e' T k = m !! k) ->
  copes (serve r) (fs, e) (fun _ => unsure r m) (answered r m).
Proof. intros Hrun Hs Hv. eapply copes_err; [exact Hrun|done|]. left. by exists T, a. Qed.

Lemma copes_serve_put m k v s :
  shows_map m s -> fault_room (ReqPut k v) s ->
  copes (serve (ReqPut k v)) s (fun _ => unsure (ReqPut k v) m) (answered (ReqPut k v) m).
Proof.
  destruct s as [fs e]. intros (T & a & Hs & Hv) Hroom. cbn [fst snd fault_room] in *.
  destruct (oversize k v) as [err|] eqn:Hsize.
  - destruct (refused_write fs e T a Put k v err (o ← eng options;
       _ ← (if sync_per_write o then on_writer sync else mret tt); apply_and_maybe_freeze k v false) Hs Hsize)
      as (e' & Hrun & Hs' & Hv').
    apply (copes_refused _ _ _ _ err e' T a); [by apply unit_reply_err|done|intros k'; by rewrite Hv'].
  - pose proof (proj1 (oversize_None _ _) Hsize) as [Hk Hval].
    eapply (copes_mutates _ _ (Engine.put k v) _ _ T); try done; [..|by eapply copes_put];
      cbn [spec_next spec_reply]; rewrite Hsize; [done|].
    intros V HV k'. unfold mutated. cbn. by rewrite lookup_insert, HV.
Qed.

Lemma copes_serve_delete m k s :
  shows_map m s -> fault_room (ReqDelete k) s ->
  copes (serve (ReqDelete k)) s (fun _ => unsure (ReqDelete k) m) (answered (ReqDelete k) m).
Proof.
  destruct s as [fs e]. intros (T & a & Hs & Hv) Hroom. cbn [fst snd fault_room] in *.
  destruct (oversize k []) as [err|] eqn:Hsize.
  - destruct (refused_write fs e T a Delete k [] err (o ← eng options;
       _ ← (if sync_per_write o then on_writer sync else mret tt); apply_and_maybe_freeze k [] true) Hs Hsize)
      as (e' & Hrun & Hs' & Hv').
    apply (copes_refused _ _ _ _ err e' T a); [by apply unit_reply_err|done|intros k'; by rewrite Hv'].
  - pose proof (proj1 (oversize_None _ _) Hsize) as [Hk _].
    eapply (copes_mutates _ _ (Engine.delete k) _ _ T); try done; [..|by eapply copes_delete];
      cbn [spec_next spec_reply]; rewrite Hsize; [done|].
    intros V HV k'. unfold mutated. cbn. by rewrite lookup_delete, HV.
Qed.

(** Every request, whatever faults are pending. *)
Lemma copes_serve r m s :
  shows_map m s -> fault_room r s -> copes (serve r) s (fun _ => unsure r m) (answered r m).
Proof.
  destruct r as [k v|k|k| | | |]; [apply copes_serve_put|apply copes_serve_delete|..|done];
    destruct s as [fs e]; intros (T & a & Hs & Hv) Hroom; cbn [fst snd fault_room] in *.
  - assert (forall s, caches e T a s -> shows_map m s) as Hsh
      by (intros s Hca; eapply shows_ext; [exact Hv|by eapply shows_cached]).
    eapply copes_mono; [apply (copes_get fs e T a k Hs)|..].
    + intros err s Hca. left. by apply Hsh.
    + intros v s [-> Hca]. split; [cbn; by rewrite Hv|by apply Hsh].
  - destruct Hroom as [Hsm Hroom]. apply (copes_keeps _ _ flush _ _ T); try done. by apply (copes_flush _ _ _ a).
  - destruct Hroom as [Hfit Hroom]. apply (copes_keeps _ _ compact _ _ T); try done.
    apply (copes_compact _ _ _ a); [done|by eapply tables_fit_small|done].
  - apply (copes_keeps _ _ worker_tick _ _ T); try done.
    eapply copes_mono; [by apply (copes_worker fs e T a)|done|done].
Qed.

Lemma serve_fault_ok r m s :
  shows_map m s -> fault_room r s -> ~ stops s ->
  ~ stops (serve r s).2 /\ exists m', explained r m (serve r s).1 m' /\ shows_map m' (serve r s).2.
Proof.
  intros Hs Hroom Hst. destruct (copes_serve r m s Hs Hroom) as [H1 H2].
  split; [by intros ?%(later_stops _ _ H1)|].
  destruct (serve r s) as [[v|err| |] s']; cbn [fst snd] in *;
    [| |done|by apply died_stops in H2].
  - destruct H2 as [Hv Hs']. by exists (spec_next r m).
  - destruct H2 as [Hs'|Hs']; [exists m|exists (spec_next r m)]; (split; [|done]); [by left|by right].
Qed.

Lemma shows_rep l m s : rep m s -> shows_map m (set_disk (set_faults l (disk s)) s).
Proof. destruct s as [fs e]. intros (T & a & Hok & Hv). exists T, a. split; [by apply serves_of_ok|exact Hv]. Qed.

#[export] Instance engine_faulty : FaultyStore Sys := {|
  kv_shows := shows_map;
  kv_fault_room := fault_room;
  kv_shows_rep := shows_rep;
  kv_fault_ok := serve_fault_ok;
|}.
End store.
