(* ===== verification/Threads.v ===== *)
(** * Threads ([src/src/engine.rs])

    The operations of the engine as concurrent threads run them.  A thread is at
    a program point with its local variables ([pc]); one step is the code up to
    the next point at which another thread can be noticed: a lock is taken or
    released, a shared counter drawn, a file other threads look up created,
    renamed or removed, a memtable or the table of contents read or changed.
    What a thread does under the log lock or the flush lock to data that only
    the holder of this lock touches is one step with what follows.  The sections
    under [state_lock] and under the [RwLock] of the state are single steps: no
    thread waits for another lock inside one, so they exclude each other
    whatever the scheduler does.

    [SkipMap::insert] is not one step where the key is in the map: the present
    entry is removed before the new one is linked, and a lookup in between finds
    nothing.  A [put] or [delete] of such a key is therefore at [Applied] until
    the new entry can be found.

    [LsmEngine] is cloned into threads; thread 0 is the background worker.  The
    definitions of [Engine] are reused: running a thread alone is the operation
    ([solo_serve]). *)

From S2P Require Import Prelude Outcome External Fs MemTable Wal WalWriter WalReader.
From S2P Require Import StdVec SstRecord SstIndex Bloom Builder Reader Merge Manifest.
From S2P Require Import Names KvSpec Engine EngineSpec EngineGet EnginePut EngineFlush EngineCommit.
From S2P Require Import EngineCompact EngineOpen EngineRecover EngineRefine.

(** ** Program points *)

(** Who flushes or compacts: a caller of the API or the worker. *)
Inductive runner := Caller | Worker.

(** Why a memtable is frozen: it is full, or the caller flushes. *)
Inductive purpose := Full | Sealing.

(** A memtable and the key that is missing from it: its old entry is unlinked,
    the new one, which the memtable of the state has already, is not linked. *)
Abbreviation gap := (option (nat * bytes)).

Section threads.
Context {C : Crc32} {SM : SkipMap Entry} {FB : FastBloom} {AL : Allocator}.

Abbreviation Sys := (Fs * LsmEngineInner)%type.

Inductive pc :=
  (* put, delete; the first half of flush *)
  | Write (key value : bytes) (deleted : bool)
  | Applied (mem : nat) (unlinked : option bytes)
  | SyncLog
  | Freeze (why : purpose)
  | Rotate (why : purpose) (new_seq : Z)
  (* flush_all_pending *)
  | LockFlush (r : runner)
  | Drain (r : runner) (flushed : list Z)
  | DrawTable (r : runner) (flushed : list Z) (pending : PendingImm)
  | BuildTable (r : runner) (flushed : list Z) (pending : PendingImm) (sst_seq : Z)
  | JoinTable (r : runner) (flushed : list Z) (pending : PendingImm) (m : SstMeta)
  | FlushManifest (r : runner) (flushed : list Z)
  | RemoveLogs (r : runner) (ws : list Z)
  (* flush_worker *)
  | Receive
  | NeedCompact
  (* compact_all_pending *)
  | LockCompact (r : runner)
  | Inputs (r : runner)
  | ReadRuns (r : runner) (inputs todo : list nat) (runs : list Run)
  | DrawMerged (r : runner) (inputs : list nat) (merged : list record)
  | BuildMerged (r : runner) (inputs : list nat) (merged : list record) (sst_seq : Z)
  | Swap (r : runner) (inputs : list nat) (output : option nat)
  | CompactManifest (r : runner) (inputs : list nat)
  | RemoveInputs (r : runner) (todo : list nat)
  (* get *)
  | Snapshot (key : bytes)
  | AskActive (key : bytes) (active : nat) (st : EngineState)
  | AskFrozen (key : bytes) (ps : list PendingImm) (hs : list nat)
  | AskTables (key : bytes) (hs : list nat)
  | AskReader (key : bytes) (i : nat) (r : SsTableReader) (hs : list nat)
  (* the operation has returned *)
  | Done (o : reply).

Definition busy (p : pc) : bool := match p with Done _ => false | _ => true end.

(** The lock a step waits for. *)
Definition takes (p : pc) : option lock :=
  match p with
  | Write _ _ _ | SyncLog => Some WalLock
  | LockFlush _ | LockCompact _ => Some FlushLock
  | _ => None
  end.

(** The lock held at a point. *)
Definition holds (p : pc) : option lock :=
  match p with
  | Applied _ _ | Freeze _ | Rotate _ _ => Some WalLock
  | Drain _ _ | DrawTable _ _ _ | BuildTable _ _ _ _ | JoinTable _ _ _ _ | FlushManifest _ _ | RemoveLogs _ _
  | Inputs _ | ReadRuns _ _ _ _ | DrawMerged _ _ _ | BuildMerged _ _ _ _ | Swap _ _ _
  | CompactManifest _ _ | RemoveInputs _ _ => Some FlushLock
  | _ => None
  end.

(** ** Steps *)

Definition as_reply (o : outcome unit) : reply :=
  match o with Ok _ => Ok None | Err e => Err e | Panic => Panic | Halt => Halt end.

Definition return_ (o : outcome unit) : pc := Done (as_reply o).

(** The end of [flush_all_pending] and of [compact_all_pending]; the worker
    drops an error, and a panic ends its blocking task only. *)
Definition flush_returns (r : runner) (o : outcome unit) : pc :=
  match r, o with
  | Caller, _ => return_ o
  | Worker, Ok _ => NeedCompact
  | Worker, Halt => Done Halt
  | Worker, _ => Done (Ok None)
  end.

Definition compact_returns (r : runner) (o : outcome unit) : pc :=
  match r, o with
  | Caller, _ => return_ o
  | Worker, Halt => Done Halt
  | Worker, _ => Done (Ok None)
  end.

(** Runs [m] and goes on at [k]; an error or a panic leaves the operation, and a
    panic poisons the lock [l] that is held. *)
Definition act {A} (l : option lock) (m : M Sys A) (k : A -> pc) (stop : outcome unit -> pc) : Sys -> pc * Sys :=
  fun s =>
  match m s with
  | (Ok x, s) => (k x, s)
  | (Err e, s) => (stop (Err e), s)
  | (Panic, s) => (stop Panic, match l with Some l => poison l s | None => s end)
  | (Halt, s) => (stop Halt, s)
  end.

(** The key of an entry that an insertion replaces. *)
Definition replaced (key : bytes) (t : MemTable) : option bytes :=
  match get_entry t key with Some _ => Some key | None => None end.

(** The body of [put] and [delete] up to the insertion: the active memtable, and
    the key if its entry is replaced. *)
Definition log_and_apply (key value : bytes) (deleted : bool) : M Sys (nat * option bytes) :=
  _ ← on_writer (append (if deleted then Delete else Put) key value);
  o ← eng options;
  _ ← (if sync_per_write o then on_writer sync else mret tt);
  i ← snapshot_active;
  t ← mem_at i;
  _ ← on_mem i (if deleted then MemTable.delete key else MemTable.put key value);
  mret (i, replaced key t).

(** The test of the threshold. *)
Definition is_full (i : nat) : M Sys bool :=
  t ← mem_at i;
  o ← eng options;
  mret ((0 <? flush_threshold_bytes o) && (flush_threshold_bytes o <=? approximate_size t)).

Definition gap_of (p : pc) : gap :=
  match p with Applied i (Some key) => Some (i, key) | _ => None end.

(** A lookup by another thread while the gap [g] is open. *)
Definition find_entry (g : gap) (i : nat) (t : MemTable) (key : bytes) : option Entry :=
  if bool_decide (g = Some (i, key)) then None else get_entry t key.

(** [freeze_active] up to its draw. *)
Definition draw_log : M Sys (option Z) :=
  i ← snapshot_active;
  t ← mem_at i;
  if MemTable.is_empty t then mret None
  else n ← fetch_add_seq; mret (Some n).

Definition notify : M Sys unit := upd (fun e => set_flush_tx (S (flush_tx e)) e).

Definition after_freeze (why : purpose) : pc :=
  match why with Full => Done (Ok None) | Sealing => LockFlush Caller end.

(** The snapshot of [get]. *)
Definition take_snapshot : M Sys (nat * EngineState) :=
  p ← eng (is_poisoned StateRw);
  if p : bool then fail (InvalidOp "state lock poisoned")
  else
    st ← eng state;
    match active st with None => panic | Some i => mret (i, st) end.

(** The tables of a snapshot in the order of the search. *)
Definition search (st : EngineState) : list nat := concat (reverse <$> levels st).

(** The reader of a table, unless the key is outside its range. *)
Definition reader_for (key : bytes) (i : nat) : M Sys (option SsTableReader) :=
  h ← handle_at i;
  if key_ltb key (Manifest.min (meta h)) || key_ltb (Manifest.max (meta h)) key then mret None
  else r ← open_reader i; mret (Some r).

Definition answer (v : option LookupValue) : option bytes :=
  match v with Some (Present v) => Some v | _ => None end.

(** [put], [delete] and the part of [flush] under the log lock. *)
Definition write_step (p : pc) : Sys -> pc * Sys :=
  match p with
  | Write k v d =>
      act None (with_lock WalLock "wal lock poisoned" (log_and_apply k v d))
        (fun x => Applied x.1 x.2) return_
  | Applied i _ =>
      act (Some WalLock) (is_full i) (fun full => if full : bool then Freeze Full else Done (Ok None)) return_
  | SyncLog =>
      act None (with_lock WalLock "wal lock poisoned" (on_writer sync)) (fun _ => Freeze Sealing) return_
  | Freeze why =>
      act (Some WalLock) draw_log
        (fun o => match o with Some n => Rotate why n | None => after_freeze why end) return_
  | Rotate why n =>
      act (Some WalLock) (_ ← rotate n; match why with Full => notify | Sealing => mret tt end)
        (fun _ => after_freeze why) return_
  | _ => fun s => (p, s)
  end.

(** [flush_all_pending] *)
Definition flush_step (p : pc) : Sys -> pc * Sys :=
  let fl := Some FlushLock in
  match p with
  | LockFlush r =>
      act None (with_lock FlushLock "flush lock poisoned" (mret tt)) (fun _ => Drain r []) (flush_returns r)
  | Drain r flushed =>
      act fl read_state
        (fun st => match head (immutables st) with
                   | Some pending => DrawTable r flushed pending
                   | None => if is_nil flushed then flush_returns r (Ok tt) else FlushManifest r flushed
                   end) (flush_returns r)
  | DrawTable r flushed pending =>
      act fl fetch_add_seq (fun n => BuildTable r flushed pending n) (flush_returns r)
  | BuildTable r flushed pending n =>
      act fl (build_pending pending n) (fun m => JoinTable r flushed pending m) (flush_returns r)
  | JoinTable r flushed pending m =>
      act fl (join_table m pending) (fun _ => Drain r (flushed ++ [wal_seq pending])) (flush_returns r)
  | FlushManifest r flushed =>
      act fl write_manifest (fun _ => RemoveLogs r flushed) (flush_returns r)
  | RemoveLogs r [] => act fl (mret tt) (fun _ => flush_returns r (Ok tt)) (flush_returns r)
  | RemoveLogs r (w :: ws) =>
      act fl (ignore (on_fs (fs_remove_file (wal_name w)))) (fun _ => RemoveLogs r ws) (flush_returns r)
  | _ => fun s => (p, s)
  end.

(** One turn of [flush_worker], and its test for a compaction. *)
Definition worker_step (p : pc) : Sys -> pc * Sys :=
  match p with
  | Receive =>
      act None (n ← eng flush_tx;
                match n with O => mret false | S n => _ ← upd (set_flush_tx n); mret true end)
        (fun b => if b : bool then LockFlush Worker else Done (Ok None)) return_
  | NeedCompact =>
      act None compact_needed (fun b => if b : bool then LockCompact Worker else Done (Ok None))
        (compact_returns Worker)
  | _ => fun s => (p, s)
  end.

(** [compact_all_pending] *)
Definition compact_step (p : pc) : Sys -> pc * Sys :=
  let fl := Some FlushLock in
  match p with
  | LockCompact r =>
      act None (with_lock FlushLock "flush lock poisoned" (mret tt)) (fun _ => Inputs r) (compact_returns r)
  | Inputs r =>
      act fl read_state
        (fun st => match head (levels st) with
                   | None | Some [] => compact_returns r (Ok tt)
                   | Some l0 => let inputs := l0 ++ default [] (levels st !! 1%nat) in ReadRuns r inputs inputs []
                   end) (compact_returns r)
  | ReadRuns r inputs (i :: todo) runs =>
      act fl (read_run i) (fun x => ReadRuns r inputs todo (runs ++ [x])) (compact_returns r)
  | ReadRuns r inputs [] runs =>
      act fl (lift (merge_runs runs)) (fun merged => DrawMerged r inputs merged) (compact_returns r)
  | DrawMerged r inputs merged =>
      if is_nil merged then act fl (mret tt) (fun _ => Swap r inputs None) (compact_returns r)
      else act fl fetch_add_seq (fun n => BuildMerged r inputs merged n) (compact_returns r)
  | BuildMerged r inputs merged n =>
      act fl (build_merged merged n) (fun i => Swap r inputs (Some i)) (compact_returns r)
  | Swap r inputs output =>
      act fl (with_lock StateLock "state lock poisoned" (write_state (commit_compact output)))
        (fun _ => CompactManifest r inputs) (compact_returns r)
  | CompactManifest r inputs =>
      act fl write_manifest (fun _ => RemoveInputs r inputs) (compact_returns r)
  | RemoveInputs r [] => act fl (mret tt) (fun _ => compact_returns r (Ok tt)) (compact_returns r)
  | RemoveInputs r (i :: todo) =>
      act fl (h ← handle_at i; ignore (on_fs (fs_remove_file (path h)))) (fun _ => RemoveInputs r todo)
        (compact_returns r)
  | _ => fun s => (p, s)
  end.

(** [get] *)
Definition get_step (g : gap) (p : pc) : Sys -> pc * Sys :=
  match p with
  | Snapshot k => act None take_snapshot (fun x => AskActive k x.1 x.2) return_
  | AskActive k i st =>
      act None (mem_at i)
        (fun t => match find_entry g i t k with
                  | Some e => Done (Ok (entry_value e))
                  | None => AskFrozen k (reverse (immutables st)) (search st)
                  end) return_
  | AskFrozen k [] hs => act None (mret tt) (fun _ => AskTables k hs) return_
  | AskFrozen k (p :: ps) hs =>
      act None (mem_at (mem p))
        (fun t => match find_entry g (mem p) t k with
                  | Some e => Done (Ok (entry_value e))
                  | None => AskFrozen k ps hs
                  end) return_
  | AskTables k [] => act None (mret tt) (fun _ => Done (Ok None)) return_
  | AskTables k (i :: hs) =>
      act None (reader_for k i)
        (fun r => match r with Some r => AskReader k i r hs | None => AskTables k hs end) return_
  | AskReader k i r hs =>
      act None (on_fs (Reader.get r k))
        (fun v => match v with Some _ => Done (Ok (answer v)) | None => AskTables k hs end) return_
  | _ => fun s => (p, s)
  end.

Definition next (g : gap) (p : pc) : Sys -> pc * Sys :=
  match p with
  | Write _ _ _ | Applied _ _ | SyncLog | Freeze _ | Rotate _ _ => write_step p
  | LockFlush _ | Drain _ _ | DrawTable _ _ _ | BuildTable _ _ _ _ | JoinTable _ _ _ _
  | FlushManifest _ _ | RemoveLogs _ _ => flush_step p
  | Receive | NeedCompact => worker_step p
  | LockCompact _ | Inputs _ | ReadRuns _ _ _ _ | DrawMerged _ _ _ | BuildMerged _ _ _ _ | Swap _ _ _
  | CompactManifest _ _ | RemoveInputs _ _ => compact_step p
  | Snapshot _ | AskActive _ _ _ | AskFrozen _ _ _ | AskTables _ _ | AskReader _ _ _ _ => get_step g p
  | Done _ => fun s => (p, s)
  end.

(** Where a request starts; a reopening is not a request of a running engine. *)
Definition start (r : request) : option pc :=
  match r with
  | ReqPut k v => Some (Write k v false)
  | ReqDelete k => Some (Write k [] true)
  | ReqGet k => Some (Snapshot k)
  | ReqFlush => Some SyncLog
  | ReqCompact => Some (LockCompact Caller)
  | ReqBackground => Some Receive
  | ReqReopen => None
  end.

(** ** Configurations *)

(** A thread with its last request, called when the history had [since] writes
    and, once it is done, answered when it had [upto].  [missed]: it is a [get]
    that looked for its key in the active memtable while another thread was
    replacing this key's entry there. *)
Record thread := mkThread { ctl : pc; job : request; since : nat; upto : nat; missed : bool }.

(** The history, which only the proofs look at, has the writes with their
    threads in the order in which they took effect. *)
Record config := mkConfig {
  sys : Sys;
  wal_owner : option nat;
  flush_owner : option nat;
  pool : list thread;
  history : list (nat * request);
}.

Definition owner (l : lock) (c : config) : option nat :=
  match l with WalLock => wal_owner c | FlushLock => flush_owner c | _ => None end.

#[local] Instance lock_eq_decision : EqDecision lock.
Proof. solve_decision. Defined.

(** The owner of [l] after thread [i] went from [p] to [p']. *)
Definition relock (l : lock) (i : nat) (p p' : pc) (o : option nat) : option nat :=
  if decide (holds p' = Some l) then Some i
  else if decide (holds p = Some l) then None
  else o.

(** The writes that take effect when thread [i] goes on at [p']. *)
Definition emits (i : nat) (t : thread) (p' : pc) : list (nat * request) :=
  match ctl t, p' with
  | Write _ _ _, Applied _ _ => [(i, job t)]
  | _, _ => []
  end.

(** The gap of the holder of the log lock. *)
Definition gap_at (c : config) : gap :=
  match wal_owner c with
  | Some i => match pool c !! i with Some t => gap_of (ctl t) | None => None end
  | None => None
  end.

Definition misses (g : gap) (p : pc) : bool :=
  match p with AskActive key i _ => bool_decide (g = Some (i, key)) | _ => false end.

Definition advance (i : nat) (t : thread) (c : config) : config :=
  let '(p, s) := next (gap_at c) (ctl t) (sys c) in
  let h := history c ++ emits i t p in
  mkConfig s (relock WalLock i (ctl t) p (wal_owner c)) (relock FlushLock i (ctl t) p (flush_owner c))
    (<[i := mkThread p (job t) (since t) (length h) (missed t || misses (gap_at c) (ctl t))]> (pool c)) h.

(** What the scheduler does next. *)
Inductive action :=
  | Call (i : nat) (r : request)
  | Run (i : nat).

(** Thread 0 is the worker; it wakes up on a notification. *)
Definition may_call (i : nat) (r : request) (s : Sys) : bool :=
  match r with
  | ReqBackground => Nat.eqb i 0 && Nat.ltb 0 (flush_tx s.2)
  | _ => negb (Nat.eqb i 0)
  end.

Definition free (p : pc) (c : config) : bool :=
  match takes p with
  | Some l => match owner l c with None => true | Some _ => false end
  | None => true
  end.

Definition perform (x : action) (c : config) : option config :=
  match x with
  | Call i r =>
      t ← pool c !! i;
      p ← start r;
      if negb (busy (ctl t)) && may_call i r (sys c) then
        let n := length (history c) in
        Some (mkConfig (sys c) (wal_owner c) (flush_owner c) (<[i := mkThread p r n n false]> (pool c)) (history c))
      else None
  | Run i =>
      t ← pool c !! i;
      if busy (ctl t) && free (ctl t) c then Some (advance i t c) else None
  end.

Definition step (c c' : config) : Prop := exists x, perform x c = Some c'.

(** [n] clients and the worker, none of which has called yet. *)
Definition launch (n : nat) (s : Sys) : config :=
  mkConfig s None None (replicate (S n) (mkThread (Done (Ok None)) ReqFlush 0 0 false)) [].
End threads.
