(* ===== verification/ThreadSolo.v ===== *)
(** * A thread that runs alone

    The steps of a thread, run without interruption, are the operation of
    [Engine]: the same reply and the same state, errors, panics and poisoned
    locks included. *)

From S2P Require Import Prelude Outcome External Fs MemTable Wal WalWriter WalReader.
From S2P Require Import StdVec SstRecord SstIndex Bloom Builder Reader Merge Manifest.
From S2P Require Import Names KvSpec Engine EngineSpec EngineGet EnginePut EngineFlush EngineCommit.
From S2P Require Import EngineCompact EngineOpen EngineRecover EngineRefine Threads.

Section solo.
Context {C : Crc32} {SM : SkipMap Entry} {FB : FastBloom} {AL : Allocator}.

Abbreviation Sys := (Fs * LsmEngineInner)%type.

Definition alone (x y : pc * Sys) : Prop := busy x.1 = true /\ y = next None x.1 x.2.

(** [runs_to l ret body p]: from the point [p], at which the lock [l] is held,
    a thread does what [body] does and is then at [ret] of its outcome; a panic
    has poisoned the lock. *)
Definition runs_to {A} (l : option lock) (ret : outcome A -> pc) (body : M Sys A) (p : pc) : Prop :=
  forall s, match body s with
  | (Halt, _) => True
  | (Panic, s') => rtc alone (p, s) (ret Panic, match l with Some l => poison l s' | None => s' end)
  | (o, s') => rtc alone (p, s) (ret o, s')
  end.

Lemma runs_to_ret {A} l (ret : outcome A -> pc) x : runs_to l ret (mret x) (ret (Ok x)).
Proof. intros s. apply rtc_refl. Qed.

Lemma runs_to_ext {A} l (ret : outcome A -> pc) body body' p :
  (forall s, body' s = body s) -> runs_to l ret body p -> runs_to l ret body' p.
Proof. intros H Hr s. rewrite H. apply Hr. Qed.

(** One step, then the rest. *)
Lemma runs_to_act {A B} l (ret : outcome B -> pc) (m : M Sys A) (f : A -> M Sys B) p k stop :
  busy p = true -> (forall s, next None p s = act l m k stop s) ->
  (forall e, stop (Err e) = ret (Err e)) -> stop Panic = ret Panic ->
  (forall x, runs_to l ret (f x) (k x)) -> runs_to l ret (m ≫= f) p.
Proof.
  intros Hb Hn He Hp Hf s. unfold mbind, M_bind. specialize (Hn s). unfold act in Hn.
  assert (forall y, next None p s = y -> alone (p, s) y) as Hstep by (intros y <-; by split).
  destruct (m s) as [[x|e| |] s1]; [|rewrite He in Hn|rewrite Hp in Hn|done]; apply Hstep in Hn;
    [|by apply rtc_once..].
  specialize (Hf x s1). destruct (f x s1) as [[y|e| |] s2]; [..|done]; by eapply rtc_l.
Qed.

(** A last step. *)
Lemma runs_to_last {A} l (ret : outcome A -> pc) (m : M Sys A) p k stop :
  busy p = true -> (forall s, next None p s = act l m k stop s) ->
  (forall e, stop (Err e) = ret (Err e)) -> stop Panic = ret Panic ->
  (forall x, k x = ret (Ok x)) -> runs_to l ret m p.
Proof.
  intros Hb Hn He Hp Hk. eapply (runs_to_ext _ _ (m ≫= mret)).
  - intros s. unfold mbind, M_bind. by destruct (m s) as [[] ?].
  - eapply runs_to_act; try done. intros x. rewrite Hk. apply runs_to_ret.
Qed.

(** A section under a lock, taken by the first step. *)
Lemma runs_to_locked {A B} l msg (ret : outcome B -> pc) (m : M Sys A) (f : A -> M Sys B) p k stop :
  busy p = true -> (forall s, next None p s = act None (with_lock l msg m) k stop s) ->
  (forall e, stop (Err e) = ret (Err e)) -> stop Panic = ret Panic ->
  (forall x, runs_to (Some l) ret (f x) (k x)) ->
  runs_to None ret (with_lock l msg (m ≫= f)) p.
Proof.
  intros Hb Hn He Hp Hf s. specialize (Hn s).
  assert (forall y, next None p s = y -> alone (p, s) y) as Hstep by (intros y <-; by split). revert Hn.
  unfold with_lock, guarded, mbind at 1, M_bind at 1, eng, gets, act. cbn [mbind].
  unfold mbind, M_bind.
  destruct (is_poisoned l s.2).
  - intros Hn. cbn in Hn. rewrite He in Hn. by apply rtc_once, Hstep.
  - destruct (m s) as [[x|e| |] s1]; intros Hn; [|rewrite He in Hn|rewrite Hp in Hn|done]; apply Hstep in Hn;
      [|by apply rtc_once..].
    specialize (Hf x s1). destruct (f x s1) as [[y|e| |] s2]; [..|done]; by eapply rtc_l.
Qed.

(** Two sections, without a lock between them. *)
Lemma runs_to_bind {A B} (ret1 : outcome A -> pc) (ret : outcome B -> pc) (m : M Sys A) (f : A -> M Sys B) p :
  runs_to None ret1 m p -> (forall e, ret1 (Err e) = ret (Err e)) -> ret1 Panic = ret Panic ->
  (forall x, runs_to None ret (f x) (ret1 (Ok x))) -> runs_to None ret (m ≫= f) p.
Proof.
  intros Hm He Hp Hf s. specialize (Hm s). unfold mbind, M_bind. destruct (m s) as [[x|e| |] s1]; [|by rewrite <- He|by rewrite <- Hp|done].
  specialize (Hf x s1). destruct (f x s1) as [[y|e| |] s2]; [..|done]; by etrans.
Qed.

Lemma bind_ext {A B} (m : M Sys A) (f g : A -> M Sys B) s :
  (forall x s, f x s = g x s) -> (m ≫= f) s = (m ≫= g) s.
Proof. intros H. unfold mbind, M_bind. by destruct (m s) as [[] ?]. Qed.

Lemma with_lock_ext {A} l msg (m m' : M Sys A) :
  (forall s, m' s = m s) -> forall s, with_lock l msg m' s = with_lock l msg m s.
Proof. intros H s. unfold with_lock. apply bind_ext. intros [] s'; [done|]. unfold guarded. by rewrite H. Qed.

(** Performs one step. *)
Ltac one_step :=
  eapply runs_to_act; [reflexivity|intros ?; reflexivity|reflexivity|reflexivity|];
  let x := fresh in intros x; cbn beta; revert x.

(** ** [get] *)

(** No other thread is replacing an entry. *)
Lemma find_all i t k : find_entry None i t k = get_entry t k.
Proof. unfold find_entry. by rewrite bool_decide_false. Qed.

Lemma tables_solo k hs :
  runs_to None Done (v ← get_level hs k; mret (answer v)) (AskTables k hs).
Proof.
  induction hs as [|i hs IH].
  - apply (runs_to_ext None Done ((_ ← mret tt; mret None) : M Sys (option bytes))); [done|].
    one_step. intros []. apply runs_to_ret.
  - apply (runs_to_ext None Done ((r ← reader_for k i;
      match r with
      | Some r => v ← on_fs (Reader.get r k);
                  match v with Some v => mret (answer (Some v)) | None => v ← get_level hs k; mret (answer v) end
      | None => v ← get_level hs k; mret (answer v)
      end) : M Sys (option bytes))).
    { intros s. cbn [get_level]. unfold reader_for. rewrite !M_bind_assoc. apply bind_ext. clear s. intros h s.
      destruct (_ || _); [done|]. rewrite !M_bind_assoc. apply bind_ext. clear s. intros r s.
      rewrite M_bind_assoc, (M_bind_ok (mret (Some r)) _ s (Some r) s eq_refl). apply bind_ext. by intros [v|]. }
    one_step.
    intros [r|]; [|exact IH].
    one_step.
    intros [v|]; [apply runs_to_ret|exact IH].
Qed.

Lemma get_level_app hs1 hs2 k s :
  get_level (hs1 ++ hs2) k s =
    (v ← get_level hs1 k; match v with Some v => mret (Some v) | None => get_level hs2 k end) s.
Proof.
  revert s. induction hs1 as [|i hs1 IH]; intros s; [done|]. cbn [app get_level]. rewrite M_bind_assoc.
  apply bind_ext. clear s. intros h s. destruct (_ || _); [apply IH|]. rewrite M_bind_assoc.
  apply bind_ext. clear s. intros r s. rewrite M_bind_assoc. apply bind_ext. clear s. intros [v|] s; [done|apply IH].
Qed.

Lemma get_levels_search ls k s : get_levels ls k s = get_level (concat (reverse <$> ls)) k s.
Proof.
  revert s. induction ls as [|hs ls IH]; intros s; [done|]. cbn [get_levels fmap list_fmap concat].
  rewrite get_level_app. apply bind_ext. clear s. by intros [v|] s.
Qed.

Lemma frozen_solo k ps hs :
  runs_to None Done
    (im ← get_immutables ps k;
     match im with
     | Some entry => mret (entry_value entry)
     | None => v ← get_level hs k; mret (answer v)
     end) (AskFrozen k ps hs).
Proof.
  induction ps as [|p ps IH].
  - apply (runs_to_ext None Done ((_ ← mret tt; v ← get_level hs k; mret (answer v)) : M Sys (option bytes))); [done|].
    one_step. intros []. apply tables_solo.
  - apply (runs_to_ext None Done ((t ← mem_at (mem p);
      match get_entry t k with
      | Some e => mret (entry_value e)
      | None => im ← get_immutables ps k;
                match im with
                | Some entry => mret (entry_value entry)
                | None => v ← get_level hs k; mret (answer v)
                end
      end) : M Sys (option bytes))).
    { intros s. cbn [get_immutables]. rewrite M_bind_assoc. apply bind_ext. clear s. intros t s. by destruct (get_entry t k). }
    one_step.
    intros t. rewrite find_all. destruct (get_entry t k); [apply runs_to_ret|exact IH].
Qed.

Lemma get_solo k : runs_to None Done (get k) (Snapshot k).
Proof.
  apply (runs_to_ext None Done ((x ← take_snapshot; t ← mem_at x.1;
    match get_entry t k with
    | Some e => mret (entry_value e)
    | None => im ← get_immutables (reverse (immutables x.2)) k;
              match im with
              | Some entry => mret (entry_value entry)
              | None => v ← get_level (search x.2) k; mret (answer v)
              end
    end) : M Sys (option bytes))).
  { intros s. unfold get, take_snapshot. rewrite M_bind_assoc. apply bind_ext. clear s. intros [] s; [done|].
    rewrite M_bind_assoc. apply bind_ext. clear s. intros st s. destruct (active st) as [i|]; [|done].
    rewrite (M_bind_ok (mret (i, st)) _ s (i, st) s eq_refl). apply bind_ext. clear s. intros t s.
    destruct (get_entry t k); [done|]. apply bind_ext. clear s. intros [en|] s; [done|].
    unfold mbind, M_bind. rewrite get_levels_search. by destruct (get_level _ k s) as [[[[]|]| | |] ?]. }
  one_step. intros [i st].
  one_step. intros t. cbn [fst]. rewrite find_all.
  destruct (get_entry t k); [apply runs_to_ret|apply frozen_solo].
Qed.
(** ** Writes and rotation *)

Definition seal_ret (why : purpose) (o : outcome unit) : pc :=
  match o with Ok _ => after_freeze why | o => return_ o end.

(** [freeze_active], and the notification of a rotation on the write path. *)
Definition freeze_then (why : purpose) : M Sys unit :=
  froze ← freeze_active;
  match why with Full => if froze : bool then notify else mret tt | Sealing => mret tt end.

Lemma rotate_true n s x s' : rotate n s = (Ok x, s') -> x = true.
Proof.
  unfold rotate. unfold mbind at 1, M_bind at 1. destruct (on_fs _ s) as [[w| | |] s1]; try done.
  unfold mbind at 1, M_bind at 1. destruct (with_lock _ _ _ s1) as [[[]| | |] s2]; try done.
  unfold mbind at 1, M_bind at 1. destruct (on_writer wal_drop s2) as [[[]| | |] s3]; try done.
  unfold mbind at 1, M_bind at 1. destruct (upd _ s3) as [[[]| | |] s4]; try done. by intros [= <- _].
Qed.

Lemma freeze_solo why : runs_to (Some WalLock) (seal_ret why) (freeze_then why) (Freeze why).
Proof.
  apply (runs_to_ext (Some WalLock) (seal_ret why) ((o ← draw_log;
    match o with
    | Some n => _ ← rotate n; match why with Full => notify | Sealing => mret tt end
    | None => mret tt
    end) : M Sys unit)).
  { intros s. unfold freeze_then, freeze_active, draw_log. rewrite !M_bind_assoc. apply bind_ext. clear s. intros i s.
    rewrite !M_bind_assoc. apply bind_ext. clear s. intros t s.
    destruct (MemTable.is_empty t); [by destruct why|]. rewrite !M_bind_assoc. apply bind_ext. clear s. intros n s.
    rewrite (M_bind_ok (mret (Some n)) _ s (Some n) s eq_refl). unfold mbind, M_bind.
    destruct (rotate n s) as [[x|e| |] s1] eqn:E; try done. apply rotate_true in E as ->. by destruct why. }
  one_step. intros [n|].
  - by eapply runs_to_last; [..|intros []].
  - apply (runs_to_ret (Some WalLock) (seal_ret why) tt).
Qed.

(** Who writes a memtable can look at it first. *)
Lemma look_first {A B} i (m : M MemTable A) (f : A -> M Sys B) s :
  (x ← on_mem i m; f x) s = (_ ← mem_at i; x ← on_mem i m; f x) s.
Proof.
  unfold on_mem, mem_at, eng, gets, lift. rewrite !M_bind_assoc. unfold mbind, M_bind.
  by destruct (vec_at (mems s.2) i).
Qed.

Lemma write_solo k v d :
  runs_to None return_ (with_lock WalLock "wal lock poisoned"
    (_ ← on_writer (append (if d then Delete else Put) k v);
     o ← eng options;
     _ ← (if sync_per_write o then on_writer sync else mret tt);
     apply_and_maybe_freeze k v d)) (Write k v d).
Proof.
  apply (runs_to_ext None return_ (with_lock WalLock "wal lock poisoned"
    (x ← log_and_apply k v d; full ← is_full x.1; if full : bool then freeze_then Full else mret tt))).
  { apply with_lock_ext. intros s. unfold log_and_apply, apply_and_maybe_freeze.
    rewrite M_bind_assoc. apply bind_ext. clear s. intros [] s.
    rewrite M_bind_assoc. apply bind_ext. clear s. intros o s.
    rewrite M_bind_assoc. apply bind_ext. clear s. intros [] s.
    rewrite M_bind_assoc. apply bind_ext. clear s. intros i s.
    rewrite look_first, M_bind_assoc. apply bind_ext. clear s. intros t0 s.
    rewrite M_bind_assoc. apply bind_ext. clear s. intros [] s. unfold is_full.
    rewrite (M_bind_ok (mret (i, replaced k t0)) _ s _ s eq_refl).
    rewrite M_bind_assoc. apply bind_ext. clear s. intros t s.
    rewrite M_bind_assoc. apply bind_ext. clear s. intros o' s. unfold mbind at 1, M_bind at 1. by destruct (_ && _). }
  eapply runs_to_locked; [reflexivity|intros s; reflexivity|reflexivity|reflexivity|]. intros x; cbn beta.
  one_step. intros []; cbn beta.
  - intros s. pose proof (freeze_solo Full s) as H. by destruct (freeze_then Full s) as [[[]| | |] ?].
  - apply (runs_to_ret (Some WalLock) return_ tt).
Qed.

(** ** [flush_all_pending] *)

Lemma remove_logs_solo r ws :
  runs_to (Some FlushLock) (flush_returns r) (for_each ws (fun w => ignore (on_fs (fs_remove_file (wal_name w)))))
    (RemoveLogs r ws).
Proof.
  induction ws as [|w ws IH].
  - by eapply runs_to_last; [..|intros []].
  - cbn [for_each]. one_step. intros []. exact IH.
Qed.

Lemma drain_solo r fuel flushed :
  runs_to (Some FlushLock) (flush_returns r)
    (flushed ← drain fuel flushed;
     if is_nil flushed then mret tt
     else
       _ ← write_manifest;
       for_each flushed (fun w => ignore (on_fs (fs_remove_file (wal_name w)))))
    (Drain r flushed).
Proof.
  revert flushed. induction fuel as [|fuel IH]; intros flushed; [by intros s|].
  eapply runs_to_ext.
  { intros s. cbn [drain]. rewrite M_bind_assoc. reflexivity. }
  one_step. intros st. destruct (head (immutables st)) as [p|].
  - eapply runs_to_ext.
    { intros s. rewrite M_bind_assoc. unfold flush_pending. rewrite M_bind_assoc. reflexivity. }
    one_step. intros n. eapply runs_to_ext; [intros s; rewrite M_bind_assoc; reflexivity|].
    one_step. intros m. one_step. intros []. apply IH.
  - destruct flushed as [|w ws].
    + apply (runs_to_ret (Some FlushLock) (flush_returns r) tt).
    + eapply runs_to_ext; [intros s; rewrite (M_bind_ok (mret (w :: ws)) _ s (w :: ws) s eq_refl); reflexivity|].
      cbn [is_nil]. one_step. intros []. apply remove_logs_solo.
Qed.

Lemma flush_all_solo r : runs_to None (flush_returns r) flush_all_pending (LockFlush r).
Proof.
  apply (runs_to_ext None _ (with_lock FlushLock "flush lock poisoned" (_ ← mret tt;
    n ← eng (fun e => length (immutables (state e)));
    flushed ← drain (S n) [];
    if is_nil flushed then mret tt
    else
      _ ← write_manifest;
      for_each flushed (fun w => ignore (on_fs (fs_remove_file (wal_name w))))))).
  { by apply with_lock_ext. }
  eapply runs_to_locked; [by destruct r|intros s; reflexivity|by destruct r..|]. intros [] s; cbn beta.
  unfold mbind at 1, M_bind at 1, eng, gets. apply drain_solo.
Qed.

(** ** [compact_all_pending] *)

Lemma remove_inputs_solo r todo :
  runs_to (Some FlushLock) (compact_returns r)
    (for_each todo (fun i => h ← handle_at i; ignore (on_fs (fs_remove_file (path h))))) (RemoveInputs r todo).
Proof.
  induction todo as [|i todo IH].
  - by eapply runs_to_last; [..|intros []].
  - cbn [for_each]. one_step. intros []. exact IH.
Qed.

(** From the commit on, and from the moment the merged records are known. *)
Definition finish_swap (inputs : list nat) (output : option nat) : M Sys unit :=
  _ ← with_lock StateLock "state lock poisoned" (write_state (commit_compact output));
  _ ← write_manifest;
  for_each inputs (fun i => h ← handle_at i; ignore (on_fs (fs_remove_file (path h)))).

Definition finish_merge (inputs : list nat) (merged : list record) : M Sys unit :=
  output ← write_merged merged; finish_swap inputs output.

Lemma finish_merge_solo r inputs merged :
  runs_to (Some FlushLock) (compact_returns r) (finish_merge inputs merged) (DrawMerged r inputs merged).
Proof.
  assert (forall output, runs_to (Some FlushLock) (compact_returns r) (finish_swap inputs output) (Swap r inputs output))
    as Hswap by (intros output; one_step; intros []; one_step; intros []; apply remove_inputs_solo).
  unfold finish_merge, write_merged. destruct (is_nil merged) eqn:Hn.
  - apply (runs_to_ext (Some FlushLock) (compact_returns r) (_ ← mret tt; finish_swap inputs None)); [done|].
    eapply (runs_to_act _ _ _ _ _ (fun _ => Swap r inputs None));
      [reflexivity|intros s; cbn [next compact_step]; rewrite Hn; reflexivity|reflexivity..|]. intros _. apply Hswap.
  - eapply runs_to_ext; [intros s; rewrite M_bind_assoc; reflexivity|].
    eapply (runs_to_act _ _ fetch_add_seq _ _ (fun n => BuildMerged r inputs merged n));
      [reflexivity|intros s; cbn [next compact_step]; rewrite Hn; reflexivity|reflexivity..|]. intros n.
    eapply runs_to_ext; [intros s; rewrite M_bind_assoc; reflexivity|].
    one_step. intros i. eapply runs_to_ext; [|apply (Hswap (Some i))].
    intros s. by rewrite (M_bind_ok (mret (Some i)) _ s (Some i) s eq_refl).
Qed.

Lemma read_runs_solo r inputs todo runs :
  runs_to (Some FlushLock) (compact_returns r)
    (xs ← map_each todo read_run; merged ← lift (merge_runs (runs ++ xs)); finish_merge inputs merged)
    (ReadRuns r inputs todo runs).
Proof.
  revert runs. induction todo as [|i todo IH]; intros runs.
  - eapply runs_to_ext; [intros s; rewrite (M_bind_ok (map_each [] read_run) _ s [] s eq_refl), app_nil_r; reflexivity|].
    one_step. intros merged. apply finish_merge_solo.
  - eapply runs_to_ext; [intros s; cbn [map_each]; rewrite M_bind_assoc; reflexivity|].
    one_step. intros x. eapply runs_to_ext; [|apply IH]. intros s. rewrite M_bind_assoc. apply bind_ext. clear s.
    intros xs s. rewrite (M_bind_ok (mret (x :: xs)) _ s (x :: xs) s eq_refl). by rewrite <- app_assoc.
Qed.

Lemma compact_all_solo r : runs_to None (compact_returns r) compact_all_pending (LockCompact r).
Proof.
  apply (runs_to_ext None _ (with_lock FlushLock "flush lock poisoned" (_ ← mret tt;
    st ← read_state;
    match head (levels st) with
    | None | Some [] => mret tt
    | Some l0 =>
        let inputs := l0 ++ default [] (levels st !! 1%nat) in
        xs ← map_each inputs read_run; merged ← lift (merge_runs ([] ++ xs)); finish_merge inputs merged
    end))).
  { by apply with_lock_ext. }
  eapply runs_to_locked; [by destruct r|intros s; reflexivity|by destruct r..|]. intros []; cbn beta.
  one_step. intros st. destruct (head (levels st)) as [[|i l0]|]; [apply (runs_to_ret _ (compact_returns r) tt)| |
    apply (runs_to_ret _ (compact_returns r) tt)].
  apply read_runs_solo.
Qed.

(** ** Whole requests *)

Lemma flush_solo : runs_to None return_ flush SyncLog.
Proof.
  apply (runs_to_ext None return_ (_ ← with_lock WalLock "wal lock poisoned" (_ ← on_writer sync; freeze_then Sealing);
    flush_all_pending)).
  { intros s. unfold flush.
    assert (with_lock WalLock "wal lock poisoned" (_ ← on_writer sync; freeze_then Sealing) s =
      (_ ← with_lock WalLock "wal lock poisoned" (_ ← on_writer sync; freeze_active); mret tt) s) as H.
    { unfold with_lock. rewrite M_bind_assoc. apply bind_ext. clear s. intros [] s; [done|].
      unfold guarded, freeze_then, mbind, M_bind.
      destruct (on_writer sync s) as [[[]| | |] s1]; try done. by destruct (freeze_active s1) as [[]]. }
    unfold mbind at 1, M_bind at 1. unfold mbind at 2, M_bind at 2. rewrite H.
    set (w := with_lock _ _ (_ ← on_writer sync; freeze_active)). unfold mbind, M_bind. by destruct (w s) as [[]]. }
  apply (runs_to_bind (seal_ret Sealing)); [|done..|intros []; apply flush_all_solo].
  eapply runs_to_locked; [done|intros s; reflexivity|done..|]. intros []; cbn beta. apply freeze_solo.
Qed.

(** The reply of an operation without a value. *)
Lemma unit_solo m p : runs_to None return_ m p -> runs_to None Done (unit_reply m) p.
Proof.
  intros H s. specialize (H s). unfold unit_reply, mbind, M_bind. by destruct (m s) as [[[]| | |] s'].
Qed.

Definition worker_ret (o : outcome unit) : pc := return_ match o with Halt => Halt | _ => Ok tt end.

Lemma worker_body_solo :
  runs_to None worker_ret
    (r ← try_ flush_all_pending;
     match r with
     | inl _ => mret tt
     | inr _ => need ← compact_needed; if need : bool then ignore compact_all_pending else mret tt
     end) (LockFlush Worker).
Proof.
  intros s. unfold mbind at 1, M_bind at 1, try_. pose proof (flush_all_solo Worker s) as H.
  destruct (flush_all_pending s) as [[[]|e| |] s1]; [|exact H..|done].
  assert (runs_to None worker_ret (need ← compact_needed; if need : bool then ignore compact_all_pending else mret tt)
    NeedCompact) as Hrest.
  { one_step. intros []; [|apply (runs_to_ret None worker_ret tt)]. intros s2.
    pose proof (compact_all_solo Worker s2) as Hc. unfold ignore, try_, mbind, M_bind.
    by destruct (compact_all_pending s2) as [[[]| | |] s3]. }
  specialize (Hrest s1). destruct ((need ← compact_needed; _) s1) as [[[]| | |] s2]; [..|done]; by etrans.
Qed.

Lemma worker_solo : runs_to None return_ worker_tick Receive.
Proof.
  apply (runs_to_ext None return_ (b ← (n ← eng flush_tx;
      match n with O => mret false | S n => _ ← upd (set_flush_tx n); mret true end);
    if b : bool then
      catch_unwind (r ← try_ flush_all_pending;
       match r with
       | inl _ => mret tt
       | inr _ => need ← compact_needed; if need : bool then ignore compact_all_pending else mret tt
       end)
    else mret tt)).
  { intros s. unfold worker_tick. rewrite M_bind_assoc. apply bind_ext. clear s. intros [|n] s; [done|].
    rewrite M_bind_assoc. by apply bind_ext. }
  one_step. intros [].
  - intros s. pose proof (worker_body_solo s) as H. unfold catch_unwind. by destruct ((r ← try_ flush_all_pending; _) s) as [[[]| | |] s'].
  - apply (runs_to_ret None return_ tt).
Qed.

(** A request that a thread runs without interruption is the operation. *)
Lemma solo_serve r p s o s' :
  start r = Some p -> serve r s = (o, s') -> o <> Halt -> rtc alone (p, s) (Done o, s').
Proof.
  assert (forall m : M Sys (option bytes), runs_to None Done m p -> m s = (o, s') -> o <> Halt ->
    rtc alone (p, s) (Done o, s')) as Hm.
  { intros m H Hs Ho. specialize (H s). rewrite Hs in H. by destruct o. }
  destruct r as [k v|k|k| | | |]; intros [= <-]; apply Hm.
  - apply unit_solo, write_solo.
  - apply unit_solo, write_solo.
  - apply get_solo.
  - apply unit_solo, flush_solo.
  - apply unit_solo, (compact_all_solo Caller).
  - apply unit_solo, worker_solo.
Qed.
End solo.
