(* ===== verification/ThreadHeap.v ===== *)
(** * The shared tables of concurrent threads

    A reader's snapshot keeps handles alive after a compaction took them out of
    the levels and removed their files.  [heap_ok] says what every handle holds
    that a thread may still use: a file, or, once the file is gone, an open
    reader.  A compaction opens the readers of its inputs before it removes
    them, so that no thread ever looks for a file that is gone. *)

From S2P Require Import Prelude Outcome External Fs MemTable Wal WalWriter WalReader.
From S2P Require Import StdVec SstRecord SstIndex Bloom Builder Reader Merge Manifest.
From S2P Require Import Names KvSpec Engine EngineSpec EngineGet EnginePut EngineFlush EngineCommit.
From S2P Require Import EngineCompact Threads.

Section heap.
Context {C : Crc32} {SM : SkipMap Entry} {FB : FastBloom} {AL : Allocator}.

(** [K i]: the handle [i] may be used by a thread. *)
Context (K : nat -> Prop).

(** ** Handles *)

Definition named (h : SstHandle) : Prop :=
  exists l, (l <= 1)%nat /\ path h = sst_name l (Manifest.seq (meta h)) /\ 0 <= Manifest.seq (meta h) <= u64_max.

(** The file of [h], which held [rs], was removed. *)
Record gone (fs : Fs) (h : SstHandle) (rs : list record) : Prop := {
  go_path : dirents fs !! path h = None;
  go_sorted : rs_sorted rs;
  go_min : Some (Manifest.min (meta h)) = rkey <$> head rs;
  go_max : Some (Manifest.max (meta h)) = rkey <$> last rs;
  go_reader : exists r, reader h = Some (inr r) /\ reads r (data_of fs (sr_file r)) rs /\ orphan fs (sr_file r);
}.

Definition usable (fs : Fs) (h : SstHandle) (rs : list record) : Prop :=
  named h /\ ((exists l, handle_ok fs l h rs) \/ gone fs h rs).

Record heap_ok (fs : Fs) (e : LsmEngineInner) (T : nat -> list record) : Prop := {
  hp_usable : forall i h, K i -> handles e !! i = Some h -> usable fs h (T i);
  hp_next : forall i h, K i -> handles e !! i = Some h -> Manifest.seq (meta h) < next_seq e;
  hp_path : forall i j hi hj, K i -> K j -> handles e !! i = Some hi -> handles e !! j = Some hj ->
    path hi = path hj -> i = j;
  hp_live : forall l i, live e l i -> K i;
  hp_new : forall i, (length (handles e) <= i)%nat -> K i;
}.

(** The reader of a table is open. *)
Definition opened (h : SstHandle) : Prop := exists r, reader h = Some (inr r).

Lemma named_initial h : named h -> initial (path h) = Some x4c.
Proof. intros (l & _ & -> & _). apply initial_sst. Qed.

Lemma handle_outside fs h rs k :
  usable fs h rs -> key_ltb k (Manifest.min (meta h)) || key_ltb (Manifest.max (meta h)) k = true ->
  record_entry rs k = None.
Proof.
  intros [_ [[l Hok]|[_ Hs Hmin Hmax _]]]; [by eapply outside_range|by apply (outside_keys h)].
Qed.

Lemma usable_reader fs h rs r :
  usable fs h rs -> reader h = Some (inr r) -> reads r (data_of fs (sr_file r)) rs.
Proof.
  intros [_ [[l [_ _ _ _ _ _ (ino & _ & _ & Hr)]]|[_ _ _ _ (r' & Hr & Hrd & _)]]] E; rewrite E in Hr; [|by simplify_eq].
  by destruct Hr as [Hr ->].
Qed.

(** ** Changes of the directory *)

Lemma usable_keeps N fs fs' h rs :
  keeps N fs fs' -> ~ N (path h) -> usable fs h rs -> usable fs' h rs.
Proof.
  intros HK HN [Hn Hst]. split; [done|]. pose proof (kp_kept _ _ _ HK _ HN) as Hkept.
  destruct Hst as [[l Hok]|[G1 G2 G3 G4 G5]]; [left; exists l; by eapply handle_ok_kept|right].
  split; try done; [by rewrite (proj1 Hkept)|]. destruct G5 as (r & Er & Hr & Ho). exists r. split; [done|].
  destruct (kp_orphans _ _ _ HK _ Ho) as [Ho' Hi]. split; [|done]. unfold data_of. by rewrite Hi.
Qed.

Lemma heap_keeps N fs fs' e T :
  keeps N fs fs' -> (forall i h, K i -> handles e !! i = Some h -> ~ N (path h)) ->
  heap_ok fs e T -> heap_ok fs' e T.
Proof.
  intros HK HN [H1 H2 H3 H4 H5]. split; try done. intros i h Hi Hh. eapply usable_keeps; [done|by eapply HN|by apply H1].
Qed.

(** The file of one handle with an open reader is removed. *)
Lemma usable_removed fs h rs :
  fs_wf fs -> opened h -> usable fs h rs -> usable (set_dirents (base.delete (path h) (dirents fs)) fs) h rs.
Proof.
  intros [Hlt Hinj] [r Er] [Hn Hst]. split; [done|right].
  assert (forall i n, dirents fs !! path h = Some i -> base.delete (path h) (dirents fs) !! n <> Some i) as Hun.
  { intros i n Hi. rewrite lookup_delete. case_decide as Hne; [done|]. intros Hn'. by apply Hne, (Hinj _ _ i). }
  destruct Hst as [[l [A1 A2 A3 A4 A5 A6 (ino & B1 & (bl & f & B2) & B3)]]|[G1 G2 G3 G4 G5]].
  - split; try done; [cbn; by rewrite lookup_delete_eq|by apply (tb_sorted _ _ _ _ B2)|].
    rewrite Er in B3. destruct B3 as [B3 B4]. subst ino. exists r. split; [done|]. split; [done|].
    split; [by eapply Hlt|]. intros n. by apply Hun.
  - split; try done; [cbn; by rewrite lookup_delete_eq|]. destruct G5 as (r' & Er' & Hr & [Ho1 Ho2]).
    exists r'. split; [done|]. split; [done|]. split; [done|]. intros n. cbn. rewrite lookup_delete.
    case_decide; [done|apply Ho2].
Qed.

Lemma heap_removed fs e T i h :
  faults fs = [] -> fs_wf fs -> K i -> handles e !! i = Some h -> opened h -> heap_ok fs e T ->
  heap_ok (set_dirents (base.delete (path h) (dirents fs)) fs) e T.
Proof.
  intros Hf Hwf Hi Hh Hop [H1 H2 H3 H4 H5]. split; try done. intros j hj Hj Hhj.
  destruct (decide (i = j)) as [<-|Hne]; [simplify_eq; by apply usable_removed; [..|by apply H1]|].
  eapply usable_keeps; [by apply (keeps_remove (path h))| |by apply H1]. intros Heq. by apply Hne, (H3 i j h hj).
Qed.

(** ** Changes of the engine *)

(** What a heap needs of the engine. *)
Lemma heap_engine fs e e' T :
  handles e' = handles e -> next_seq e <= next_seq e' ->
  (forall l i, live e' l i -> K i) -> heap_ok fs e T -> heap_ok fs e' T.
Proof.
  intros Eh En El [H1 H2 H3 H4 H5]. split; rewrite ?Eh; try done.
  intros i h Hi Hh. specialize (H2 i h Hi Hh). lia.
Qed.

(** A table with a new number has a new name. *)
Lemma named_fresh h l n : named h -> (l <= 1)%nat -> 0 <= n <= u64_max -> Manifest.seq (meta h) < n -> path h <> sst_name l n.
Proof.
  intros (l' & Hl' & -> & Hs) Hl Hn Hlt Heq. destruct l as [|[|]], l' as [|[|]]; try lia.
  - apply sst_name_inj in Heq; lia.
  - symmetry in Heq. by apply sst_name_level in Heq.
  - by apply sst_name_level in Heq.
  - apply sst_name_inj in Heq; lia.
Qed.

(** A new handle joins the heap. *)
Lemma heap_alloc fs e T l n rs :
  heap_ok fs e T -> handle_ok fs l (new_handle l n rs) rs -> (l <= 1)%nat -> n < next_seq e ->
  (forall i h, K i -> handles e !! i = Some h -> Manifest.seq (meta h) < n) ->
  heap_ok fs (set_handles (handles e ++ [new_handle l n rs]) e) (set_T T (length (handles e)) rs).
Proof.
  intros [H1 H2 H3 H4 H5] Hnew Hl Hn Hbelow. set (h := new_handle l n rs) in *.
  assert (named h) as Hnamed by (exists l; split_and!; [done|done|apply (ho_seq _ _ _ _ Hnew)..]).
  assert (forall i hi, (handles e ++ [h]) !! i = Some hi ->
    handles e !! i = Some hi /\ i <> length (handles e) \/ i = length (handles e) /\ hi = h) as Hcases.
  { intros i hi [Hi|[Hi [Hz <-]%list_lookup_singleton_Some]]%lookup_app_Some.
    - left. split; [done|]. apply lookup_lt_Some in Hi. lia.
    - right. split; [lia|done]. }
  split; cbn [handles set_handles next_seq].
  - intros i hi Hi [[Hh Hne]|[-> ->]]%Hcases; unfold set_T.
    + rewrite decide_False by done. by apply H1.
    + rewrite decide_True by done. split; [done|]. left. by exists l.
  - intros i hi Hi [[Hh Hne]|[-> ->]]%Hcases; [by eapply H2|done].
  - assert (forall i hi, K i -> handles e !! i = Some hi -> path hi <> path h) as Hdiff.
    { intros i hi Hi Hh. apply named_fresh; [by apply (H1 i hi Hi Hh)|done|apply (ho_seq _ _ _ _ Hnew)|].
      by apply (Hbelow i). }
    intros i j hi hj Hi Hj [[Ai Ni]|[-> ->]]%Hcases [[Aj Nj]|[-> ->]]%Hcases Heq; try done.
    + by eapply H3.
    + by destruct (Hdiff i hi Hi Ai).
    + by destruct (Hdiff j hj Hj Aj).
  - done.
  - intros i Hi. apply H5. rewrite length_app in Hi. simpl in Hi. lia.
Qed.

(** ** Readers that are opened *)

(** Only cached readers are new. *)
Definition reopened (e e' : LsmEngineInner) : Prop :=
  cached e e' /\ forall i h r, handles e !! i = Some h -> reader h = Some r ->
    exists h', handles e' !! i = Some h' /\ reader h' = Some r.

Lemma reopened_refl e : reopened e e.
Proof. split; [apply cached_refl|]. intros i h r Hh Hr. by exists h. Qed.

Lemma reopened_set e i h x :
  handles e !! i = Some h -> reader h = None -> reopened e (set_handles (<[i := recache h x]> (handles e)) e).
Proof.
  intros Hh Hr. split; [by apply recached|]. intros j hj r Hj Hrj. exists hj. split; [|done].
  cbn. rewrite list_lookup_insert_ne; [done|]. intros ->. congruence.
Qed.

Lemma recached_heap fs e T i h x :
  heap_ok fs e T -> handles e !! i = Some h -> (usable fs h (T i) -> usable fs (recache h x) (T i)) ->
  heap_ok fs (set_handles (<[i := recache h x]> (handles e)) e) T.
Proof.
  intros [H1 H2 H3 H4 H5] Hh Hx. set (e' := set_handles _ e).
  assert (forall j hj, handles e' !! j = Some hj -> exists hj0, handles e !! j = Some hj0 /\ same_handle hj0 hj /\
    (j = i /\ hj = recache h x \/ hj0 = hj)) as Hback.
  { intros j hj. cbn. rewrite list_lookup_insert. case_decide as Hc; [|by exists hj; split_and!; [|done|right]].
    intros [= <-]. destruct Hc as [-> _]. exists h. split_and!; [done|done|by left]. }
  split.
  - intros j hj Hj (hj0 & Hj0 & _ & [[-> ->]| ->])%Hback; [apply Hx|]; simplify_eq; by apply H1.
  - intros j hj Hj (hj0 & Hj0 & [-> _] & _)%Hback. by eapply H2.
  - intros j1 j2 h1 h2 K1 K2 (h1' & A1 & [_ ->] & _)%Hback (h2' & A2 & [_ ->] & _)%Hback. by eapply H3.
  - done.
  - intros j Hj. apply H5. cbn in Hj. by rewrite length_insert in Hj.
Qed.

(** [open_reader] on a handle of the heap: a reader of its records, that stays
    open. *)
Lemma open_usable fs e T a fl i h :
  mid_ok fs e T a fl -> heap_ok fs e T -> K i -> handles e !! i = Some h ->
  exists r e' h', open_reader i (fs, e) = (Ok r, (fs, e')) /\ reopened e e' /\ mid_ok fs e' T a fl /\ heap_ok fs e' T /\
    handles e' !! i = Some h' /\ reader h' = Some (inr r).
Proof.
  intros Hok Hheap Hi Hh. pose proof (hp_usable _ _ _ Hheap i h Hi Hh) as Hu. destruct Hu as [Hn Hst].
  unfold open_reader. rewrite (M_bind_ok _ _ _ _ _ (handle_at_ok fs e i h Hh)).
  destruct (reader h) as [[msg|r]|] eqn:Er.
  - exfalso. destruct Hst as [[l [_ _ _ _ _ _ (ino & _ & _ & Hr)]]|[_ _ _ _ (r & Hr & _)]]; by rewrite Er in Hr.
  - mstep. exists r, e, h. split_and!; try done; apply reopened_refl.
  - rewrite M_bind_assoc. destruct Hst as [[l Hho]|[_ _ _ _ (r & Hr & _)]]; [|by rewrite Er in Hr].
    destruct (ho_file _ _ _ _ Hho) as (ino & Hd & Ht & _).
    destruct (Reader.open_ok (path h) ino _ (T i) fs (md_faults _ _ _ _ _ Hok) Hd eq_refl Ht)
      as (r & Hopen & Hrd & <- & _).
    assert (try_ (on_fs (Reader.open (path h))) (fs, e) = (Ok (inr r), (fs, e))) as Hrun
      by (apply try_ok; unfold on_fs, zoom; cbn [fst snd]; by rewrite Hopen).
    rewrite (M_bind_ok _ _ _ _ _ Hrun). cbn beta zeta. rewrite M_bind_assoc. mstep. mstep.
    eexists r, _, (recache h (inr r)). split; [reflexivity|]. fold (recache h (inr r)).
    split; [by apply reopened_set|]. split; [apply recached_mid; [done..|]; intros l'; by apply recache_handle|].
    split; [apply recached_heap; [done..|]|].
    + intros [_ _]. split; [done|]. left. exists l. by apply recache_handle.
    + split; [|done]. cbn. by rewrite list_lookup_insert_eq by (by eapply lookup_lt_Some).
Qed.
End heap.
