(* ===== verification/ThreadInv.v ===== *)
(** * What holds between the steps of threads

    The assertion of a thread at its program point, by the lock it holds, and
    what the steps of the others leave to it: [evolves] for a reader, which
    holds no lock, [rely_flush] for the holder of the flush lock and [rely_log]
    for the holder of the log lock. *)

From S2P Require Import Prelude Outcome External Fs MemTable Wal WalWriter WalReader.
From S2P Require Import StdVec SstRecord SstIndex Bloom Builder Reader Merge Manifest.
From S2P Require Import Names KvSpec Engine EngineSpec EngineGet EnginePut EngineFlush EngineCommit.
From S2P Require Import EngineCompact Threads ThreadHeap.

(** ** Histories *)

Section history.
Context (m0 : kvmap).

(** The map after a history. *)
Definition replay (h : list (nat * request)) : kvmap := foldl (fun m w => spec_next w.2 m) m0 h.

(** [v] is the value of [k] at some moment since the history had [since]
    writes. *)
Definition moment (h : list (nat * request)) (since : nat) (k : bytes) (v : option bytes) : Prop :=
  exists j, (since <= j <= length h)%nat /\ v = replay (take j h) !! k.

Lemma moment_app h evs n k v : moment h n k v -> moment (h ++ evs) n k v.
Proof.
  intros (j & Hj & ->). exists j. rewrite length_app. split; [lia|]. by rewrite take_app_le by lia.
Qed.

Lemma moment_now h n k : (n <= length h)%nat -> moment h n k (replay h !! k).
Proof. intros Hn. exists (length h). split; [lia|]. by rewrite firstn_all. Qed.

Lemma replay_app h evs : replay (h ++ evs) = foldl (fun m w => spec_next w.2 m) (replay h) evs.
Proof. apply foldl_app. Qed.

(** The writes of thread [i]. *)
Definition owns (i : nat) (h : list (nat * request)) : list request :=
  omap (fun w => if decide (i = w.1) then Some w.2 else None) h.

(** The writes a request makes. *)
Definition effect (r : request) : list request :=
  match r with
  | ReqPut k v => match oversize k v with None => [r] | Some _ => [] end
  | ReqDelete k => match oversize k [] with None => [r] | Some _ => [] end
  | _ => []
  end.

(** A write on [k]. *)
Definition writes_key (k : bytes) (r : request) : Prop := (exists v, r = ReqPut k v) \/ r = ReqDelete k.

(** Some thread has written [k]. *)
Definition overwritten (h : list (nat * request)) (k : bytes) : Prop := exists i r, (i, r) ∈ h /\ writes_key k r.

(** [v] is a value that [k] had at some moment, or the one that lay beneath the
    active memtable before the threads started, where the base [b] has it. *)
Definition past (b : bytes -> option bytes) (h : list (nat * request)) (k : bytes) (v : option bytes) : Prop :=
  (exists j, (j <= length h)%nat /\ v = replay (take j h) !! k) \/ v = b k.

Lemma overwritten_app h evs k : overwritten h k -> overwritten (h ++ evs) k.
Proof. intros (i & r & Hi & Hr). exists i, r. split; [apply elem_of_app; by left|done]. Qed.

Lemma past_app b h evs k v : past b h k v -> past b (h ++ evs) k v.
Proof.
  intros [(j & Hj & ->)| ->]; [left|by right]. exists j. rewrite length_app. split; [lia|]. by rewrite take_app_le by lia.
Qed.

Lemma past_now b h k : past b h k (replay h !! k).
Proof. left. exists (length h). split; [done|]. by rewrite firstn_all. Qed.

(** The segment of a history between two of its lengths. *)
Definition segment {A} (n m : nat) (h : list A) : list A := take (m - n) (drop n h).

Lemma segment_app {A} n m (h evs : list A) : (m <= length h)%nat -> segment n m (h ++ evs) = segment n m h.
Proof.
  intros Hm. unfold segment. destruct (decide (n <= length h)%nat).
  - rewrite drop_app_le by done. apply take_app_le. rewrite length_drop. lia.
  - replace (m - n)%nat with 0%nat by lia. done.
Qed.

Lemma segment_end {A} n (h : list A) : segment n (length h) h = drop n h.
Proof. unfold segment. rewrite take_ge; [done|]. by rewrite length_drop. Qed.

(** The reply is that of the map at a moment between the lengths [n] and [m]. *)
Definition timely (h : list (nat * request)) (r : request) (n m : nat) (o : reply) : Prop :=
  exists j, (n <= j <= m)%nat /\ o = spec_reply r (replay (take j h)).

(** A [get] did not see an entry that was being replaced, and answered a value
    the key had earlier. *)
Definition lagging (b : bytes -> option bytes) (h : list (nat * request)) (r : request) (m : nat) (o : reply) : Prop :=
  exists k v, r = ReqGet k /\ o = Ok v /\ overwritten (take m h) k /\ past b (take m h) k v.

(** Thread [i] had its request [r] answered by [o] between the lengths [n] and
    [m] of the history: its own write is there exactly once, and the reply is
    that of the map at a moment in between, unless it [missed] an entry. *)
Definition answered (b : bytes -> option bytes) (h : list (nat * request)) (i : nat) (r : request) (n m : nat)
    (missed : bool) (o : reply) : Prop :=
  (n <= m <= length h)%nat /\ owns i (segment n m h) = effect r /\
  if missed then lagging b h r m o else timely h r n m o.

Lemma answered_app b h evs i r n m ms o : answered b h i r n m ms o -> answered b (h ++ evs) i r n m ms o.
Proof.
  intros (Hn & Ho & Hr). split; [rewrite length_app; lia|]. rewrite segment_app by lia. split; [done|].
  destruct ms.
  - destruct Hr as (k & v & Hk). exists k, v. by rewrite take_app_le by lia.
  - destruct Hr as (j & Hj & ->). exists j. by rewrite take_app_le by lia.
Qed.
End history.

Section inv.
Context {C : Crc32} {SM : SkipMap Entry} {FB : FastBloom} {AL : Allocator}.
Context (K : nat -> Prop) (m0 : kvmap) (b0 : bytes -> option bytes).

Abbreviation Sys := (Fs * LsmEngineInner)%type.

(** ** Readers *)

(** The tables a reader has still to ask. *)
Definition tables_fine (e : LsmEngineInner) (hs : list nat) : Prop :=
  forall i, i ∈ hs -> K i /\ is_Some (handles e !! i).

Definition frozen_fine (e : LsmEngineInner) (ps : list PendingImm) : Prop :=
  forall p, p ∈ ps -> (mem p < length (mems e))%nat /\ active (state e) <> Some (mem p).

Definition asks (e : LsmEngineInner) (T : nat -> list record) (ps : list PendingImm) (hs : list nat)
    (k : bytes) : option bytes :=
  first_some (((fun p => mem_entry (mems e) (mem p)) <$> ps) ++ ((fun i => record_entry (T i)) <$> hs)) k
    ≫= entry_value.

(** What a reader is going to answer: the value of the key at some moment of its
    call, or, where it missed an entry, a value of the past. *)
Definition seen (ms : bool) (h : list (nat * request)) (n : nat) (k : bytes) (v : option bytes) : Prop :=
  if ms then overwritten h k /\ past m0 b0 h k v else moment m0 h n k v.

Lemma seen_app ms h evs n k v : seen ms h n k v -> seen ms (h ++ evs) n k v.
Proof.
  destruct ms; [|apply moment_app]. intros [H1 H2]. split; [by apply overwritten_app|by apply past_app].
Qed.

Definition reader_ok (e : LsmEngineInner) (T : nat -> list record) (h : list (nat * request)) (n : nat)
    (ms : bool) (p : pc) : Prop :=
  match p with
  | Snapshot _ => ms = false
  | AskActive k i st =>
      frozen_fine e (immutables st) /\ tables_fine e (search st) /\ ms = false /\
      let rest := asks e T (reverse (immutables st)) (search st) k in
      past m0 b0 h k rest /\ exists t, mems e !! i = Some t /\
        moment m0 h n k (match get_entry t k with Some en => entry_value en | None => rest end)
  | AskFrozen k ps hs => frozen_fine e ps /\ tables_fine e hs /\ seen ms h n k (asks e T ps hs k)
  | AskTables k hs => tables_fine e hs /\ seen ms h n k (asks e T [] hs k)
  | AskReader k i r hs =>
      tables_fine e (i :: hs) /\ seen ms h n k (asks e T [] (i :: hs) k) /\
      exists hd, handles e !! i = Some hd /\ reader hd = Some (inr r)
  | _ => True
  end.

(** What every step leaves to readers. *)
Record evolves (e : LsmEngineInner) (T : nat -> list record) (h : list (nat * request))
    (e' : LsmEngineInner) (T' : nat -> list record) (evs : list (nat * request)) : Prop := {
  ev_mems : forall i t, mems e !! i = Some t -> exists t', mems e' !! i = Some t' /\
    (active (state e) <> Some i -> t' = t) /\
    forall k, get_entry t' k = get_entry t k \/
      exists en, get_entry t' k = Some en /\ entry_value en = replay m0 (h ++ evs) !! k;
  ev_frozen : forall i, (i < length (mems e))%nat -> active (state e) <> Some i -> active (state e') <> Some i;
  ev_handles : forall i hd, handles e !! i = Some hd -> exists hd', handles e' !! i = Some hd' /\
    same_handle hd hd' /\ forall r, reader hd = Some r -> reader hd' = Some r;
  ev_T : forall i, (i < length (handles e))%nat -> T' i = T i;
}.

Lemma frozen_evolves e T h e' T' evs ps :
  evolves e T h e' T' evs -> frozen_fine e ps -> frozen_fine e' ps.
Proof.
  intros Hev Hps p Hp. destruct (Hps p Hp) as [Hlt Hna]. split; [|by eapply ev_frozen].
  destruct (lookup_lt_is_Some_2 _ _ Hlt) as [t Ht]. destruct (ev_mems _ _ _ _ _ _ Hev _ t Ht) as (t' & Ht' & _).
  by eapply lookup_lt_Some.
Qed.

Lemma tables_evolves e T h e' T' evs hs :
  evolves e T h e' T' evs -> tables_fine e hs -> tables_fine e' hs.
Proof.
  intros Hev Hhs i Hi. destruct (Hhs i Hi) as (HK & hd & Hhd). split; [done|].
  destruct (ev_handles _ _ _ _ _ _ Hev i hd Hhd) as (hd' & Hhd' & _). by exists hd'.
Qed.

Lemma asks_evolves e T h e' T' evs ps hs k :
  evolves e T h e' T' evs -> frozen_fine e ps -> tables_fine e hs ->
  asks e' T' ps hs k = asks e T ps hs k.
Proof.
  intros Hev Hps Hhs. unfold asks. f_equal. apply first_some_ext, Forall2_app.
  - apply Forall2_fmap, Forall_Forall2_diag, Forall_forall. intros p Hp. destruct (Hps p Hp) as [Hlt Hna].
    destruct (lookup_lt_is_Some_2 _ _ Hlt) as [t Ht].
    destruct (ev_mems _ _ _ _ _ _ Hev _ t Ht) as (t' & Ht' & Hsame & _).
    unfold mem_entry. by rewrite Ht, Ht', (Hsame Hna).
  - apply Forall2_fmap, Forall_Forall2_diag, Forall_forall. intros i Hi. destruct (Hhs i Hi) as (_ & hd & Hhd).
    rewrite (ev_T _ _ _ _ _ _ Hev); [done|]. by eapply lookup_lt_Some.
Qed.

Lemma nil_fine e : frozen_fine e [].
Proof. by intros p ?%not_elem_of_nil. Qed.

Lemma reader_evolves e T h e' T' evs n ms p :
  evolves e T h e' T' evs -> (n <= length h)%nat -> reader_ok e T h n ms p ->
  reader_ok e' T' (h ++ evs) n ms p.
Proof.
  intros Hev Hn. destruct p; try done; cbn [reader_ok].
  - intros (Hps & Hhs & Hms & Hp & t & Ht & Hm). destruct (ev_mems _ _ _ _ _ _ Hev _ t Ht) as (t' & Ht' & _ & Hk).
    split; [by eapply frozen_evolves|]. split; [by eapply tables_evolves|]. split; [done|].
    assert (asks e' T' (reverse (immutables st)) (search st) key = asks e T (reverse (immutables st)) (search st) key) as ->.
    { eapply asks_evolves; [done| |done]. intros p Hin. rewrite elem_of_reverse in Hin. by apply Hps. }
    split; [by apply past_app|]. exists t'. split; [done|]. destruct (Hk key) as [->|(en & -> & ->)].
    + by apply moment_app.
    + apply moment_now. rewrite length_app. lia.
  - intros (Hps & Hhs & Hm). split; [by eapply frozen_evolves|]. split; [by eapply tables_evolves|].
    erewrite asks_evolves by done. by apply seen_app.
  - intros (Hhs & Hm). split; [by eapply tables_evolves|].
    erewrite asks_evolves; [by apply seen_app|done|apply nil_fine|done].
  - intros (Hhs & Hm & hd & Hhd & Hr). split; [by eapply tables_evolves|]. split.
    + erewrite asks_evolves; [by apply seen_app|done|apply nil_fine|done].
    + destruct (ev_handles _ _ _ _ _ _ Hev _ hd Hhd) as (hd' & Hhd' & _ & Hr'). exists hd'. auto.
Qed.

(** ** The holder of the flush lock *)

(** A sequence number drawn for the next table. *)
Definition fresh_table (e : LsmEngineInner) (n : Z) : Prop :=
  0 <= n < next_seq e /\ forall i hd, K i -> handles e !! i = Some hd -> Manifest.seq (meta hd) < n.

(** A compaction of the present levels. *)
Definition merging (e : LsmEngineInner) (ins : list nat) : Prop :=
  ins = inputs e /\ levels (state e) <> [].

(** The readers of tables that are read are open. *)
Definition ready (e : LsmEngineInner) (i : nat) : Prop := exists hd, handles e !! i = Some hd /\ opened hd.

Definition dead (e : LsmEngineInner) (i : nat) : Prop := K i /\ ready e i /\ forall l, ~ live e l i.

Definition flusher_ok (fs : Fs) (e : LsmEngineInner) (T : nat -> list record) (p : pc) : Prop :=
  match p with
  | DrawTable _ _ p => head (immutables (state e)) = Some p
  | BuildTable _ _ p n => head (immutables (state e)) = Some p /\ fresh_table e n
  | JoinTable _ _ p m => head (immutables (state e)) = Some p /\
      exists n t ino, fresh_table e n /\ mems e !! mem p = Some t /\ m = meta (new_handle 0 n (mem_records t)) /\
        dirents fs !! sst_name 0 n = Some ino /\ table_of (data_of fs ino) (mem_records t)
  | ReadRuns _ ins todo runs => merging e ins /\
      exists before, ins = before ++ todo /\ runs = run_of (handles e) T <$> before /\ Forall (ready e) before
  | DrawMerged _ ins out =>
      merging e ins /\ Forall (ready e) ins /\ merged (run_of (handles e) T <$> ins) out /\ len (records_bytes out) <= 2 ^ 60
  | BuildMerged _ ins out n =>
      merging e ins /\ Forall (ready e) ins /\ merged (run_of (handles e) T <$> ins) out /\ len (records_bytes out) <= 2 ^ 60 /\
      out <> [] /\ fresh_table e n
  | Swap _ ins None => merging e ins /\ Forall (ready e) ins /\ merged (run_of (handles e) T <$> ins) []
  | Swap _ ins (Some i) =>
      merging e ins /\ Forall (ready e) ins /\ merged (run_of (handles e) T <$> ins) (T i) /\ (i ∉ ins) /\ K i /\
      exists hd, handles e !! i = Some hd /\ Manifest.level (meta hd) = 1 /\ is_Some (dirents fs !! path hd)
  | CompactManifest _ todo | RemoveInputs _ todo => Forall (dead e) todo
  | _ => True
  end.

(** What steps without the flush lock leave to its holder. *)
Record rely_flush (fs : Fs) (e : LsmEngineInner) (T : nat -> list record)
    (fs' : Fs) (e' : LsmEngineInner) (T' : nat -> list record) : Prop := {
  rf_levels : levels (state e') = levels (state e);
  rf_frozen : (immutables (state e)) `prefix_of` (immutables (state e'));
  rf_mems : forall p, p ∈ immutables (state e) -> mems e' !! mem p = mems e !! mem p;
  rf_handles : Forall2 same_handle (handles e) (handles e');
  rf_ready : forall i, ready e i -> ready e' i;
  rf_T : T' = T;
  rf_next : next_seq e <= next_seq e';
  rf_files : forall x, initial x = Some x4c -> kept x fs fs';
}.

Lemma rely_seq_of fs e T fs' e' T' i : rely_flush fs e T fs' e' T' -> seq_of (handles e') i = seq_of (handles e) i.
Proof.
  intros Hr. assert (cached e (set_handles (handles e') e)) as Hc by (split; [done|apply Hr]).
  exact (cached_seq_of _ _ i Hc).
Qed.

Lemma rely_back fs e T fs' e' T' i hd' :
  rely_flush fs e T fs' e' T' -> handles e' !! i = Some hd' ->
  exists hd, handles e !! i = Some hd /\ same_handle hd hd'.
Proof. intros Hr Hh. exact (Forall2_lookup_r _ _ _ _ _ (rf_handles _ _ _ _ _ _ Hr) Hh). Qed.

Lemma rely_forth fs e T fs' e' T' i hd :
  rely_flush fs e T fs' e' T' -> handles e !! i = Some hd ->
  exists hd', handles e' !! i = Some hd' /\ same_handle hd hd'.
Proof. intros Hr Hh. exact (Forall2_lookup_l _ _ _ _ _ (rf_handles _ _ _ _ _ _ Hr) Hh). Qed.

Lemma rely_head fs e T fs' e' T' p :
  rely_flush fs e T fs' e' T' -> head (immutables (state e)) = Some p -> head (immutables (state e')) = Some p.
Proof.
  intros Hr Hp. destruct (rf_frozen _ _ _ _ _ _ Hr) as [k ->]. by destruct (immutables (state e)).
Qed.

Lemma rely_fresh fs e T fs' e' T' n :
  rely_flush fs e T fs' e' T' -> fresh_table e n -> fresh_table e' n.
Proof.
  intros Hr [Hn Hh]. pose proof (rf_next _ _ _ _ _ _ Hr). split; [lia|]. intros i hd HK Hhd.
  destruct (rely_back _ _ _ _ _ _ _ _ Hr Hhd) as (hd0 & Hhd0 & [-> _]). by eapply Hh.
Qed.

Lemma rely_merging fs e T fs' e' T' ins : rely_flush fs e T fs' e' T' -> merging e ins -> merging e' ins.
Proof.
  intros Hr [-> Hl]. unfold merging, inputs. by rewrite (rf_levels _ _ _ _ _ _ Hr).
Qed.

Lemma rely_runs fs e T fs' e' T' (ins : list nat) :
  rely_flush fs e T fs' e' T' -> run_of (handles e') T' <$> ins = run_of (handles e) T <$> ins.
Proof.
  intros Hr. apply list_fmap_ext. intros _ i _. unfold run_of.
  by rewrite (rely_seq_of _ _ _ _ _ _ _ Hr), (rf_T _ _ _ _ _ _ Hr).
Qed.

Lemma rely_dead fs e T fs' e' T' i : rely_flush fs e T fs' e' T' -> dead e i -> dead e' i.
Proof.
  intros Hr (HK & Hrd & Hl). split; [done|]. split; [by apply (rf_ready _ _ _ _ _ _ Hr)|].
  unfold live. by rewrite (rf_levels _ _ _ _ _ _ Hr).
Qed.

Lemma rely_readers fs e T fs' e' T' ins : rely_flush fs e T fs' e' T' -> Forall (ready e) ins -> Forall (ready e') ins.
Proof. intros Hr Hi. eapply Forall_impl; [exact Hi|]. intros i. apply (rf_ready _ _ _ _ _ _ Hr). Qed.

Lemma rely_refl fs e T : rely_flush fs e T fs e T.
Proof.
  split; try done. apply Forall2_same_length_lookup_2; [done|]. intros. by simplify_eq.
Qed.

Lemma rely_swap fs e T fs' e' T' ins i :
  rely_flush fs e T fs' e' T' -> heap_ok K fs e T -> flusher_ok fs e T (Swap Caller ins (Some i)) ->
  flusher_ok fs' e' T' (Swap Caller ins (Some i)).
Proof.
  intros Hr Hheap (Hm & Hrd & Hout & Hi & HK & hd & Hhd & Hl & Hfile). cbn [flusher_ok].
  rewrite (rely_runs _ _ _ _ _ _ ins Hr), (rf_T _ _ _ _ _ _ Hr). split; [by eapply rely_merging|].
  split; [by eapply rely_readers|].
  split_and!; try done. destruct (rely_forth _ _ _ _ _ _ _ _ Hr Hhd) as (hd' & Hhd' & [Em Ep]).
  exists hd'. split_and!; [done|by rewrite Em|]. rewrite Ep.
  destruct (hp_usable _ _ _ _ Hheap i hd HK Hhd) as [Hn _].
  by rewrite (proj1 (rf_files _ _ _ _ _ _ Hr _ (named_initial _ Hn))).
Qed.

Lemma flusher_stable fs e T fs' e' T' p :
  rely_flush fs e T fs' e' T' -> heap_ok K fs e T -> flusher_ok fs e T p -> flusher_ok fs' e' T' p.
Proof.
  intros Hr Hheap. destruct p; try done.
  - by eapply rely_head.
  - intros [Hp Hn]. split; [by eapply rely_head|by eapply rely_fresh].
  - intros (Hp & n & t & ino & Hn & Ht & Hm & Hd & Htab). split; [by eapply rely_head|].
    destruct (kept_data _ _ _ _ (rf_files _ _ _ _ _ _ Hr _ (initial_sst 0 n)) Hd) as [Hd' Hdat].
    exists n, t, ino. rewrite (rf_mems _ _ _ _ _ _ Hr _ (head_Some_elem_of _ _ Hp)), Hdat.
    split_and!; [by eapply rely_fresh|done..].
  - intros (Hm & before & -> & -> & Hrd). split; [by eapply rely_merging|]. exists before. split; [done|].
    split; [|by eapply rely_readers]. symmetry. by eapply rely_runs.
  - intros (Hm & Hrd & Hout & Hsm). cbn [flusher_ok]. rewrite (rely_runs _ _ _ _ _ _ _ Hr).
    split; [by eapply rely_merging|split; [by eapply rely_readers|done]].
  - intros (Hm & Hrd & Hout & Hsm & Hne & Hn). cbn [flusher_ok]. rewrite (rely_runs _ _ _ _ _ _ _ Hr).
    split_and!; [by eapply rely_merging|by eapply rely_readers|done..|by eapply rely_fresh].
  - destruct output as [i|]; [by eapply rely_swap|]. intros (Hm & Hrd & Hout). cbn [flusher_ok].
    rewrite (rely_runs _ _ _ _ _ _ _ Hr). split; [by eapply rely_merging|split; [by eapply rely_readers|done]].
  - intros Hd. eapply Forall_impl; [exact Hd|]. intros i. by eapply rely_dead.
  - intros Hd. eapply Forall_impl; [exact Hd|]. intros i. by eapply rely_dead.
Qed.

(** ** The holder of the log lock *)

(** A memtable with entries is being frozen, and the next log has a number. *)
Definition writer_ok (fs : Fs) (e : LsmEngineInner) (p : pc) : Prop :=
  match p with
  | Applied i _ => active (state e) = Some i
  | Rotate _ n => fresh_wal fs e n /\ exists a t, active (state e) = Some a /\ mems e !! a = Some t /\ iter t <> []
  | _ => True
  end.

(** What steps without the log lock leave to its holder. *)
Record rely_log (fs : Fs) (e : LsmEngineInner) (fs' : Fs) (e' : LsmEngineInner) : Prop := {
  rl_wals : forall s, s ∈ live_wals e' -> s ∈ live_wals e;
  rl_active : active (state e') = active (state e);
  rl_mems : mems e' = mems e;
  rl_next : next_seq e <= next_seq e';
  rl_files : forall n, dirents fs !! wal_name n = None -> dirents fs' !! wal_name n = None;
}.

Lemma rely_log_refl fs e : rely_log fs e fs e.
Proof. done. Qed.

Lemma writer_stable fs e fs' e' p : rely_log fs e fs' e' -> writer_ok fs e p -> writer_ok fs' e' p.
Proof.
  intros [H1 H2 H3 H4 H5]. destruct p; try done; [by cbn; rewrite H2|]. intros [(Hlast & Hn & Habs) Hact]. cbn [writer_ok].
  rewrite H2, H3. split; [|done]. split; [|split; [lia|by apply H5]].
  apply Forall_forall. rewrite Forall_forall in Hlast. auto.
Qed.

(** ** The shared state *)

(** The logs of the memtables a flush has put into tables, and whether the
    manifest does not list the present tables yet. *)
Definition logs_of (p : pc) : list Z :=
  match p with
  | Drain _ fl | DrawTable _ fl _ | BuildTable _ fl _ _ | JoinTable _ fl _ _ | FlushManifest _ fl => fl
  | RemoveLogs _ ws => ws
  | _ => []
  end.

Definition stale (p : pc) : bool :=
  match p with
  | Drain _ fl | DrawTable _ fl _ | BuildTable _ fl _ _ | JoinTable _ fl _ _ | FlushManifest _ fl => negb (is_nil fl)
  | CompactManifest _ _ => true
  | _ => false
  end.

(** What a [get] that finds nothing in the active memtable goes on to find. *)
Definition beneath (e : LsmEngineInner) (T : nat -> list record) (k : bytes) : option bytes :=
  asks e T (reverse (immutables (state e))) (search (state e)) k.

(** The same as the view of an engine without an active memtable. *)
Definition unseated (e : LsmEngineInner) : LsmEngineInner :=
  set_state (mkEngineState None (immutables (state e)) (levels (state e))) e.

Lemma beneath_unseated e T k : beneath e T k = view (unseated e) T k.
Proof. done. Qed.

Lemma view_beneath e T a t k :
  active (state e) = Some a -> mems e !! a = Some t ->
  view e T k = match get_entry t k with Some en => entry_value en | None => beneath e T k end.
Proof.
  intros Ha Ht. unfold view, sources, mem_sources. rewrite Ha. cbn [app first_some]. unfold mem_entry at 1. rewrite Ht.
  cbn [mbind option_bind]. by destruct (get_entry t k).
Qed.

(** [q] is the point of the holder of the flush lock. *)
Record shared (fs : Fs) (e : LsmEngineInner) (T : nat -> list record) (a : nat) (h : list (nat * request)) (q : pc) : Prop := {
  sh_mid : mid_ok fs e T a (logs_of q);
  sh_manifest : stale q = false -> manifest_current fs e;
  sh_heap : heap_ok K fs e T;
  sh_view : forall k, view e T k = replay m0 h !! k;
  sh_beneath : forall k, past m0 b0 h k (beneath e T k);
}.

(** ** Threads *)

Definition flush_job (r : runner) : request := match r with Caller => ReqFlush | Worker => ReqBackground end.
Definition compact_job (r : runner) : request := match r with Caller => ReqCompact | Worker => ReqBackground end.

(** The request of a thread at a point. *)
Definition kind (p : pc) (r : request) : Prop :=
  match p with
  | Write k v d => if d then v = [] /\ r = ReqDelete k else r = ReqPut k v
  | SyncLog | Freeze Sealing | Rotate Sealing _ => r = ReqFlush
  | Applied _ u => effect r = [r] /\ forall k, u = Some k -> writes_key k r
  | Freeze Full | Rotate Full _ => effect r = [r]
  | LockFlush x | Drain x _ | DrawTable x _ _ | BuildTable x _ _ _ | JoinTable x _ _ _
  | FlushManifest x _ | RemoveLogs x _ => r = flush_job x
  | LockCompact x | Inputs x | ReadRuns x _ _ _ | DrawMerged x _ _ | BuildMerged x _ _ _
  | Swap x _ _ | CompactManifest x _ | RemoveInputs x _ => r = compact_job x
  | Snapshot k | AskActive k _ _ | AskFrozen k _ _ | AskTables k _ | AskReader k _ _ _ => r = ReqGet k
  | Receive | NeedCompact => r = ReqBackground
  | Done _ => True
  end.

(** The thread's write is in the map. *)
Definition applied_by (p : pc) : bool :=
  match p with Applied _ _ | Freeze Full | Rotate Full _ => true | _ => false end.

Record thread_ok (fs : Fs) (e : LsmEngineInner) (T : nat -> list record) (h : list (nat * request)) (i : nat) (t : thread) : Prop := {
  th_kind : kind (ctl t) (job t);
  th_since : (since t <= length h)%nat;
  th_write : busy (ctl t) = true -> owns i (drop (since t) h) = if applied_by (ctl t) then effect (job t) else [];
  th_missed : missed t = true -> exists k, job t = ReqGet k;
  th_reader : reader_ok e T h (since t) (missed t) (ctl t);
  th_flusher : flusher_ok fs e T (ctl t);
  th_writer : writer_ok fs e (ctl t);
  th_done : forall o, ctl t = Done o -> answered m0 b0 h i (job t) (since t) (upto t) (missed t) o;
}.

(** The holder of the flush lock. *)
Definition phase (c : config) : pc :=
  match flush_owner c with
  | Some i => match pool c !! i with Some t => ctl t | None => Done (Ok None) end
  | None => Done (Ok None)
  end.

Definition locked (l : lock) (c : config) : Prop :=
  forall i, owner l c = Some i <-> exists t, pool c !! i = Some t /\ holds (ctl t) = Some l.
End inv.
