(* ===== verification/ThreadDisk.v ===== *)
(** * What the directory stands for while threads run

    Between the commit of a table and the end of a flush or a compaction the
    manifest lists tables of the past, and the logs of flushed memtables are still
    there.  The directory is then that of an engine in which these memtables are
    still frozen and the levels are the listed ones ([as_if]): it has the same
    view, and an opening recovers it. *)

From S2P Require Import Prelude Outcome External Fs MemTable Wal WalWriter WalReader.
From S2P Require Import StdVec SstRecord SstIndex Bloom Builder Reader Merge Manifest.
From S2P Require Import Names KvSpec Engine EngineSpec EngineGet EnginePut EngineFlush EngineCommit.
From S2P Require Import EngineCompact Threads ThreadHeap ThreadInv.

Section disk.
Context {C : Crc32} {SM : SkipMap Entry} {FB : FastBloom} {AL : Allocator}.
Context (K : nat -> Prop) (m0 : kvmap).

(** ** The engine the directory belongs to *)

Definition as_if (ps : list PendingImm) (ls : list (list nat)) (e : LsmEngineInner) : LsmEngineInner :=
  set_state (mkEngineState (active (state e)) (ps ++ immutables (state e)) ls) e.

Definition flushed_sources (e : LsmEngineInner) (ps : list PendingImm) : list (bytes -> option Entry) :=
  (fun p => mem_entry (mems e) (mem p)) <$> reverse ps.

(** A memtable that was flushed: its log is complete, and it is not in use. *)
Definition flushed_ok (fs : Fs) (e : LsmEngineInner) (p : PendingImm) : Prop :=
  (exists t ino, mems e !! mem p = Some t /\ iter t <> [] /\
     dirents fs !! wal_name (wal_seq p) = Some ino /\ wal_holds (data_of fs ino) t) /\
  active (state e) <> Some (mem p) /\ mem p ∉ (mem <$> immutables (state e)).

(** [q] is the point of the holder of the flush lock, [ps] are the flushed
    memtables whose logs are left, [ls] are the tables the manifest lists. *)
Record backed (fs : Fs) (e : LsmEngineInner) (T : nat -> list record) (q : pc)
    (ps : list PendingImm) (ls : list (list nat)) : Prop := {
  bk_logs : wal_seq <$> ps = logs_of q;
  bk_mems : NoDup (mem <$> ps);
  bk_files : forall p, p ∈ ps -> flushed_ok fs e p;
  bk_tables : tables_ok fs (compacted e ls) T;
  bk_manifest : manifest_current fs (compacted e ls);
  bk_known : forall l i, live (compacted e ls) l i -> K i;
  bk_current : stale q = false -> ls = levels (state e);
  bk_again : forall n k,
    first_some (flushed_sources e (drop n ps) ++ table_sources T (levels (state e))) k =
    first_some (table_sources T (levels (state e))) k;
  bk_view : forall k,
    first_some (flushed_sources e ps ++ table_sources T ls) k ≫= entry_value =
    first_some (table_sources T (levels (state e))) k ≫= entry_value;
}.

Definition on_disk (fs : Fs) (e : LsmEngineInner) (T : nat -> list record) (q : pc) : Prop :=
  exists ps ls, backed fs e T q ps ls.

(** The log writer loses nothing. *)
Definition durable_log (e : LsmEngineInner) : Prop := sync_per_write (options e) = true /\ unbuffered e.

(** ** The directory is that of an engine *)

Lemma backed_engine fs e T a q ps ls :
  mid_ok fs e T a (logs_of q) -> backed fs e T q ps ls -> engine_ok fs (as_if ps ls e) T a.
Proof.
  intros [F1 F2 F3 F4 F5 [M1 M2 M3] F7 [W1 W2 W3 W4 W5]] [B1 B2 B3 B4 B5 B6 B7 B8 B9].
  assert (logs_of q ++ live_wals e = live_wals (as_if ps ls e)) as Hlive
    by (unfold live_wals; cbn; by rewrite <- B1, fmap_app, <- app_assoc).
  rewrite Hlive in W3, W4, W5. split; try done.
  - split; [done|..]; unfold live_mems; cbn; rewrite fmap_app.
    + apply Forall_cons in M2 as [A1 A2]. constructor; [done|]. apply Forall_app. split; [|done].
      apply Forall_fmap, Forall_forall. intros p Hp. destruct (B3 p Hp) as [(t & _ & Ht & _) _]. by eapply lookup_lt_Some.
    + apply NoDup_cons in M3 as [N1 N2]. apply NoDup_cons. split.
      * intros [Hin|Hin]%elem_of_app; [|done]. apply list_elem_of_fmap in Hin as (p & -> & Hp).
        destruct (B3 p Hp) as (_ & Hna & _). by rewrite M1 in Hna.
      * apply NoDup_app. split; [done|]. split; [|done]. intros x (p & -> & Hp)%list_elem_of_fmap. by apply (B3 p Hp).
  - by apply (tables_ok_same _ (compacted e ls)).
  - split; try done. intros p Hp. cbn in Hp. apply elem_of_app in Hp as [Hp|Hp]; [by apply (B3 p Hp)|by apply W2].
Qed.

Lemma as_if_view e T ps ls k :
  (first_some (flushed_sources e ps ++ table_sources T ls) k ≫= entry_value =
    first_some (table_sources T (levels (state e))) k ≫= entry_value) ->
  view (as_if ps ls e) T k = view e T k.
Proof.
  intros H. unfold view, sources, mem_sources. cbn [as_if set_state state mems active immutables levels].
  rewrite reverse_app, fmap_app. fold (flushed_sources e ps).
  revert H. generalize (flushed_sources e ps), (table_sources T ls), (table_sources T (levels (state e))).
  intros P L L'. rewrite !first_some_app.
  destruct (first_some (match active (state e) with Some _ => _ | None => _ end) k); [done|].
  by destruct (first_some ((fun p => mem_entry (mems e) (mem p)) <$> reverse (immutables (state e))) k).
Qed.

(** A directory in order. *)
Lemma backed_settled fs e T q :
  logs_of q = [] -> tables_ok fs e T -> manifest_current fs e -> (forall l i, live e l i -> K i) ->
  on_disk fs e T q.
Proof.
  intros Hq Ht Hm HK. exists [], (levels (state e)).
  assert (compacted e (levels (state e)) = e) as He by (by destruct e as [? []]).
  split; rewrite ?He; try done; [constructor|by intros p ?%not_elem_of_nil|].
  intros n k. by rewrite drop_nil.
Qed.

Lemma on_disk_point fs e T q q' :
  logs_of q' = logs_of q -> (stale q' = false -> stale q = false) -> on_disk fs e T q -> on_disk fs e T q'.
Proof.
  intros Hl Hs (ps & ls & [B1 B2 B3 B4 B5 B6 B7 B8 B9]). exists ps, ls. split; try done; [by rewrite Hl|auto].
Qed.

(** ** Changes *)

(** The tables of a list of handles, in another directory. *)
Lemma relist fs e T fs' e' T' ls :
  tables_ok fs (compacted e ls) T -> (forall l i, live (compacted e ls) l i -> K i) ->
  heap_ok K fs' e' T' -> next_seq e <= next_seq e' ->
  (forall i hd, handles e !! i = Some hd -> exists hd', handles e' !! i = Some hd' /\ same_handle hd hd' /\ T' i = T i) ->
  (forall l i hd, live (compacted e ls) l i -> handles e !! i = Some hd -> is_Some (dirents fs' !! path hd)) ->
  tables_ok fs' (compacted e' ls) T'.
Proof.
  intros [T1 T2 T3 T4] HK Hheap Hn Hh Hfile. cbn in *.
  assert (forall l ids i, ls !! l = Some ids -> i ∈ ids -> seq_of (handles e') i = seq_of (handles e) i) as Hseq.
  { intros l ids i Hl Hi. destruct (T2 l ids i Hl Hi) as (hd & Hhd & _). destruct (Hh i hd Hhd) as (hd' & Hhd' & [Em _] & _).
    unfold seq_of. by rewrite Hhd, Hhd', Em. }
  split; cbn; [done|..].
  - intros l ids i Hl Hi. destruct (T2 l ids i Hl Hi) as (hd & Hhd & Hho & Hlt).
    assert (live (compacted e ls) l i) as Hlv by (by exists ids).
    destruct (Hh i hd Hhd) as (hd' & Hhd' & [Em Ep] & ET). exists hd'. split; [done|]. split; [|rewrite Em; lia].
    destruct (hp_usable _ _ _ _ Hheap i hd' (HK l i Hlv) Hhd') as [_ [[l' Hok]|Hg]].
    + assert (l' = l) as -> by (pose proof (ho_level _ _ _ _ Hok) as H1; pose proof (ho_level _ _ _ _ Hho) as H2;
        rewrite Em in H1; lia). done.
    + destruct (Hfile l i hd Hlv Hhd) as [x Hx]. rewrite <- Ep, (go_path _ _ _ Hg) in Hx. done.
  - intros l ids Hl. specialize (T3 l ids Hl).
    assert (forall i, i ∈ ids -> seq_of (handles e') i = seq_of (handles e) i) as Hs by (intros i; by apply (Hseq l)).
    clear Hl. induction T3 as [|x l0 H0 IH Hf]; constructor.
    + apply IH. intros i Hi. by apply Hs, list_elem_of_further.
    + apply Forall_forall. rewrite Forall_forall in Hf. intros y Hy.
      rewrite (Hs x), (Hs y) by (apply list_elem_of_here || by apply list_elem_of_further). by apply Hf.
  - intros ids0 ids1 i j H0 H1 Hi Hj. rewrite (Hseq _ _ _ H0 Hi), (Hseq _ _ _ H1 Hj). by eapply T4.
Qed.

Lemma relist_manifest fs e T fs' e' ls :
  tables_ok fs (compacted e ls) T -> file_of fs' MANIFEST_FILE_NAME = file_of fs MANIFEST_FILE_NAME ->
  (forall i hd, handles e !! i = Some hd -> exists hd', handles e' !! i = Some hd' /\ same_handle hd hd') ->
  manifest_current fs (compacted e ls) -> manifest_current fs' (compacted e' ls).
Proof.
  intros [_ T2 _ _] Hf Hh. unfold manifest_current. rewrite Hf.
  replace (live_metas (compacted e' ls)) with (live_metas (compacted e ls)); [done|].
  unfold live_metas. cbn. apply list_fmap_ext. intros l ids Hl. apply list_fmap_ext. intros x i Hi.
  destruct (T2 l ids i Hl (list_elem_of_lookup_2 _ _ _ Hi)) as (hd & Hhd & _). cbn in Hhd.
  destruct (Hh i hd Hhd) as (hd' & Hhd' & [Em _]). unfold meta_at. by rewrite Hhd, Hhd', Em.
Qed.

Lemma flushed_same e e' ps :
  (forall p, p ∈ ps -> mems e' !! mem p = mems e !! mem p) -> flushed_sources e' ps = flushed_sources e ps.
Proof.
  intros H. unfold flushed_sources. apply list_fmap_ext. intros x p Hp%list_elem_of_lookup_2. rewrite elem_of_reverse in Hp.
  unfold mem_entry. by rewrite (H p Hp).
Qed.

Lemma sources_same e T T' ls :
  (forall l i, live (compacted e ls) l i -> T' i = T i) -> table_sources T' ls = table_sources T ls.
Proof.
  intros H. unfold table_sources. apply list_fmap_ext. intros x i Hi%list_elem_of_lookup_2.
  apply elem_of_concat_inv in Hi as (ids & Hids & Hi). apply list_elem_of_fmap in Hids as (ids0 & -> & Hl).
  rewrite elem_of_reverse in Hi. apply list_elem_of_lookup in Hl as [l Hl]. rewrite (H l i); [done|]. by exists ids0.
Qed.

(** What a step leaves to the directory when it neither commits tables nor
    writes the manifest nor removes logs. *)
Lemma on_disk_evolves fs e T h fs' e' T' evs q q' :
  tables_ok fs e T -> heap_ok K fs' e' T' -> evolves m0 e T h e' T' evs -> next_seq e <= next_seq e' ->
  levels (state e') = levels (state e) -> logs_of q' = logs_of q -> (stale q' = false -> stale q = false) ->
  kept MANIFEST_FILE_NAME fs fs' -> (forall w, w ∈ logs_of q -> kept (wal_name w) fs fs') ->
  (forall i hd, K i -> handles e !! i = Some hd -> stale q = true \/ (exists l, live e l i) ->
    is_Some (dirents fs !! path hd) -> is_Some (dirents fs' !! path hd)) ->
  (forall i, active (state e) <> Some i -> i ∉ (mem <$> immutables (state e)) -> (i < length (mems e))%nat ->
    i ∉ (mem <$> immutables (state e'))) ->
  on_disk fs e T q -> on_disk fs' e' T' q'.
Proof.
  intros Ht Hheap Hev Hn Hlev Hlogs Hst Hman Hwal Hfile Himm (ps & ls & [B1 B2 B3 B4 B5 B6 B7 B8 B9]). exists ps, ls.
  assert (forall p, p ∈ ps -> mems e' !! mem p = mems e !! mem p) as Hms.
  { intros p Hp. destruct (B3 p Hp) as [(t & _ & Htp & _) [Hna _]].
    destruct (ev_mems _ _ _ _ _ _ _ Hev _ t Htp) as (t' & Ht' & Hsame & _). by rewrite Ht', Htp, (Hsame Hna). }
  assert (forall i hd, handles e !! i = Some hd ->
    exists hd', handles e' !! i = Some hd' /\ same_handle hd hd' /\ T' i = T i) as Hh.
  { intros i hd Hhd. destruct (ev_handles _ _ _ _ _ _ _ Hev i hd Hhd) as (hd' & Hhd' & Hs & _). exists hd'.
    split_and!; [done..|]. apply (ev_T _ _ _ _ _ _ _ Hev). by eapply lookup_lt_Some. }
  assert (table_sources T' ls = table_sources T ls) as Els.
  { apply (sources_same e). intros l i (ids & Hl & Hi).
    destruct (ta_handles _ _ _ B4 l ids i Hl Hi) as (hd & Hhd & _). by destruct (Hh i hd Hhd) as (_ & _ & _ & ->). }
  assert (table_sources T' (levels (state e')) = table_sources T (levels (state e))) as El.
  { rewrite Hlev. apply (sources_same e). intros l i (ids & Hl & Hi).
    destruct (ta_handles _ _ _ Ht l ids i Hl Hi) as (hd & Hhd & _). by destruct (Hh i hd Hhd) as (_ & _ & _ & ->). }
  split.
  - by rewrite Hlogs.
  - done.
  - intros p Hp. destruct (B3 p Hp) as [(t & ino & A1 & A2 & A3 & A4) [A5 A6]].
    assert (mem p < length (mems e))%nat as Hlt by (by eapply lookup_lt_Some).
    assert (wal_seq p ∈ logs_of q) as Hin by (rewrite <- B1; by apply list_elem_of_fmap_2).
    destruct (kept_data _ _ _ _ (Hwal _ Hin) A3) as [D1 D2].
    split; [exists t, ino; rewrite (Hms p Hp), D2; split_and!; done|]. split.
    + by apply (ev_frozen _ _ _ _ _ _ _ Hev).
    + by apply Himm.
  - eapply (relist fs e T); [done|done|done|done|done|]. intros l i hd Hlv Hhd.
    apply (Hfile i hd (B6 l i Hlv) Hhd).
    + destruct (stale q) eqn:Es; [by left|right]. rewrite (B7 eq_refl) in Hlv. by exists l.
    + destruct Hlv as (ids & Hl & Hi). destruct (ta_handles _ _ _ B4 l ids i Hl Hi) as (hd0 & Hhd0 & Hho & _).
      cbn in Hhd0. simplify_eq. destruct (ho_file _ _ _ _ Hho) as (ino & -> & _). by eexists.
  - eapply (relist_manifest fs e T); [done|by apply kept_file_of| |done].
    intros i hd Hhd. destruct (Hh i hd Hhd) as (hd' & ? & ? & _). by exists hd'.
  - done.
  - intros Hs. rewrite Hlev. apply B7. auto.
  - intros n k. rewrite El, (flushed_same e e' (drop n ps)); [apply B8|].
    intros p Hp. apply Hms. rewrite <- (take_drop n ps). apply elem_of_app. by right.
  - intros k. by rewrite El, Els, (flushed_same e e' ps).
Qed.

(** ** Commits *)

Lemma compacted_same e : compacted e (levels (state e)) = e.
Proof. by destruct e as [? []]. Qed.

(** The manifest is written: it lists the present tables, which repeat what the
    logs that are left hold. *)
Lemma on_disk_listed fs e T fs' q q' :
  tables_ok fs' e T -> manifest_current fs' e -> (forall l i, live e l i -> K i) ->
  (forall w, w ∈ logs_of q -> kept (wal_name w) fs fs') -> logs_of q' = logs_of q ->
  on_disk fs e T q -> on_disk fs' e T q'.
Proof.
  intros Ht Hm HK Hw Hl (ps & ls & [B1 B2 B3 B4 B5 B6 B7 B8 B9]). exists ps, (levels (state e)).
  split; rewrite ?compacted_same; try done; [by rewrite Hl| |].
  - intros p Hp. destruct (B3 p Hp) as [(t & ino & A1 & A2 & A3 & A4) Hn]. split; [|done]. exists t, ino.
    destruct (kept_data _ _ _ _ (Hw (wal_seq p) ltac:(rewrite <- B1; by apply list_elem_of_fmap_2)) A3) as [-> ->]. done.
  - intros k. f_equal. apply (B8 0%nat).
Qed.

(** The oldest log that is left goes. *)
Lemma on_disk_removed fs e T fs' q q' w :
  tables_ok fs' e T -> manifest_current fs' e -> stale q = false -> stale q' = false ->
  logs_of q = w :: logs_of q' -> (forall x, x ∈ logs_of q' -> kept (wal_name x) fs fs') ->
  on_disk fs e T q -> on_disk fs' e T q'.
Proof.
  intros Ht Hm Hs Hs' Hl Hw (ps & ls & [B1 B2 B3 B4 B5 B6 B7 B8 B9]). rewrite (B7 Hs) in *.
  rewrite Hl in B1. destruct ps as [|p ps]; [done|]. injection B1 as B0 B1. rewrite compacted_same in *.
  apply NoDup_cons in B2 as [_ B2].
  exists ps, (levels (state e)). split; rewrite ?compacted_same; try done.
  - intros x Hx. destruct (B3 x (list_elem_of_further _ _ _ Hx)) as [(t & ino & A1 & A2 & A3 & A4) Hn]. split; [|done].
    exists t, ino. destruct (kept_data _ _ _ _ (Hw (wal_seq x) ltac:(rewrite <- B1; by apply list_elem_of_fmap_2)) A3) as [-> ->]. done.
  - intros n k. apply (B8 (S n)).
  - intros k. f_equal. apply (B8 1%nat).
Qed.

(** A memtable becomes a table that the manifest does not list yet. *)
Lemma on_disk_joined fs e T q q' p x t hd :
  let e' := joined e p hd in let T' := set_T T (length (handles e)) (mem_records t) in
  immutables (state e) = x :: p -> mems e !! mem x = Some t -> iter t <> [] ->
  (exists ino, dirents fs !! wal_name (wal_seq x) = Some ino /\ wal_holds (data_of fs ino) t) ->
  active (state e) <> Some (mem x) -> NoDup (mem <$> immutables (state e)) ->
  tables_ok fs e T -> heap_ok K fs e' T' -> stale q' = true ->
  logs_of q' = logs_of q ++ [wal_seq x] ->
  (forall k, first_some (table_sources T' (levels (state e'))) k =
     first_some (mem_entry (mems e) (mem x) :: table_sources T (levels (state e))) k) ->
  on_disk fs e T q -> on_disk fs e' T' q'.
Proof.
  intros e' T' Him Ht Hne (ino & Hd & Hw) Hna Hnd Htab Hheap Hst Hl Hsrc (ps & ls & [B1 B2 B3 B4 B5 B6 B7 B8 B9]).
  exists (ps ++ [x]), ls. rewrite Him in Hnd. apply NoDup_cons in Hnd as [Hx Hnd].
  assert (forall i hd', handles e !! i = Some hd' ->
    exists hd'', handles e' !! i = Some hd'' /\ same_handle hd' hd'' /\ T' i = T i) as Hh.
  { intros i hd' Hhd. exists hd'. split; [by apply lookup_app_l_Some|]. split; [done|]. unfold T', set_T.
    apply lookup_lt_Some in Hhd. by rewrite decide_False by lia. }
  assert (table_sources T' ls = table_sources T ls) as Els.
  { apply (sources_same e). intros l i (ids & Hli & Hi).
    destruct (ta_handles _ _ _ B4 l ids i Hli Hi) as (hd' & Hhd & _). by destruct (Hh i hd' Hhd) as (_ & _ & _ & ->). }
  split; [by rewrite Hl, fmap_app, B1| | | | |done|by rewrite Hst| |].
  - rewrite fmap_app. apply NoDup_app. split; [done|]. split; [|apply NoDup_singleton].
    intros i (y & -> & Hy)%list_elem_of_fmap Hi%list_elem_of_singleton. destruct (B3 y Hy) as (_ & _ & Hn).
    apply Hn. rewrite Him, Hi. apply list_elem_of_here.
  - intros y [Hy| ->%list_elem_of_singleton]%elem_of_app.
    + destruct (B3 y Hy) as (A & A1 & A2). split; [done|]. split; [done|]. cbn. intros Hi. apply A2. rewrite Him.
      by apply list_elem_of_further.
    + split; [by exists t, ino|]. by split.
  - eapply (relist fs e T); try done. intros l i hd' (ids & Hli & Hi) Hhd.
    destruct (ta_handles _ _ _ B4 l ids i Hli Hi) as (hd0 & Hhd0 & Hho & _). cbn in Hhd0. simplify_eq.
    destruct (ho_file _ _ _ _ Hho) as (ino' & -> & _). by eexists.
  - eapply (relist_manifest fs e T); try done. intros i hd' Hhd. destruct (Hh i hd' Hhd) as (hd'' & ? & ? & _). by exists hd''.
  - intros n k. rewrite first_some_app, Hsrc. change (flushed_sources e' ?l) with (flushed_sources e l).
    rewrite drop_app. unfold flushed_sources. rewrite reverse_app, fmap_app, first_some_app.
    specialize (B8 n k). rewrite first_some_app in B8. unfold flushed_sources in B8.
    cbn [first_some]. destruct (n - length ps)%nat as [|n'] eqn:En.
    + cbn. by destruct (mem_entry (mems e) (mem x) k).
    + rewrite (drop_ge [x]) by (cbn; lia). rewrite drop_ge by lia. done.
  - intros k. change (flushed_sources e' ?l) with (flushed_sources e l). rewrite Hsrc, Els.
    specialize (B9 k). unfold flushed_sources in *. rewrite reverse_app, fmap_app, <- app_assoc.
    cbn [reverse rev_append fmap list_fmap app first_some]. cbn. by destruct (mem_entry (mems e) (mem x) k).
Qed.

(** The merged table replaces its inputs, which the manifest still lists. *)
Lemma on_disk_swapped fs e T q q' ls' :
  stale q = false -> stale q' = true -> logs_of q = [] -> logs_of q' = [] ->
  (forall k, first_some (table_sources T ls') k ≫= entry_value =
     first_some (table_sources T (levels (state e))) k ≫= entry_value) ->
  on_disk fs e T q -> on_disk fs (compacted e ls') T q'.
Proof.
  intros Hs Hs' Hl Hl' Hv (ps & ls & [B1 B2 B3 B4 B5 B6 B7 B8 B9]). rewrite (B7 Hs) in *. rewrite Hl in B1.
  destruct ps; [|done]. exists [], (levels (state e)). split; try done.
  - intros H. by rewrite Hs' in H.
  - intros n k. by rewrite drop_nil.
Qed.
End disk.
