(* ===== verification/ThreadCost.v ===== *)
(** * How much work is left

    [cost D M p] bounds the steps a thread at [p] still takes when no further
    call is made, where at most [D] memtables wait to be flushed or can still be
    frozen, and [M] is twice the number of tables there can be with them.  A step
    [spends] when it lowers the cost of its thread and raises neither bound. *)

From S2P Require Import Prelude Outcome External Fs MemTable Wal WalWriter WalReader.
From S2P Require Import StdVec SstRecord SstIndex Bloom Builder Reader Merge Manifest.
From S2P Require Import Names KvSpec Engine EngineSpec EngineGet EnginePut EngineFlush EngineCommit.
From S2P Require Import EngineCompact Threads.

#[local] Open Scope nat_scope.

Section cost.
Context {C : Crc32} {SM : SkipMap Entry} {FB : FastBloom} {AL : Allocator}.

(** The thread may still freeze a memtable. *)
Definition freezes (p : pc) : nat := match p with Write _ _ _ | Applied _ _ | SyncLog | Freeze _ | Rotate _ _ => 1 | _ => 0 end.

Definition waiting (e : LsmEngineInner) : nat := length (immutables (state e)).
Definition tables (e : LsmEngineInner) : nat := length (concat (levels (state e))).

(** What the worker does after a flush. *)
Definition afterwards (r : runner) (M : nat) : nat := match r with Caller => 0 | Worker => M + 13 end.

Definition cost (D M : nat) (p : pc) : nat :=
  match p with
  | Done _ => 0
  | Rotate Full _ => 1
  | Freeze Full => 2
  | Applied _ _ => 3
  | Write _ _ _ => 4
  | Rotate Sealing _ => 5 * D + 6
  | Freeze Sealing => 5 * D + 7
  | SyncLog => 5 * D + 8
  | LockFlush r => 5 * D + 5 + afterwards r M
  | Drain r fl => 5 * D + length fl + 4 + afterwards r M
  | DrawTable r fl _ => 5 * D + length fl + 3 + afterwards r M
  | BuildTable r fl _ _ => 5 * D + length fl + 2 + afterwards r M
  | JoinTable r fl _ _ => 5 * D + length fl + 1 + afterwards r M
  | FlushManifest r fl => length fl + 2 + afterwards r M
  | RemoveLogs r ws => length ws + 1 + afterwards r M
  | Receive => 5 * D + 6 + afterwards Worker M
  | NeedCompact => M + 12
  | LockCompact _ => M + 11
  | Inputs _ => M + 10
  | ReadRuns _ ins todo _ => length ins + length todo + 8
  | DrawMerged _ ins _ => length ins + 6
  | BuildMerged _ ins _ _ => length ins + 5
  | Swap _ ins _ => length ins + 4
  | CompactManifest _ ins => length ins + 3
  | RemoveInputs _ todo => length todo + 1
  | Snapshot _ => D + M + 6
  | AskActive _ _ st => length (immutables st) + 2 * length (search st) + 5
  | AskFrozen _ ps hs => length ps + 2 * length hs + 4
  | AskTables _ hs => 2 * length hs + 1
  | AskReader _ _ _ hs => 2 * length hs + 2
  end.

Definition spends (e : LsmEngineInner) (p : pc) (e' : LsmEngineInner) (p' : pc) : Prop :=
  let x := waiting e + freezes p in
  let x' := waiting e' + freezes p' in
  let y := x + tables e in
  let y' := x' + tables e' in
  x' <= x /\ y' <= y /\
  forall D M, x <= D -> 2 * y <= M -> cost (D - x + x') (M - 2 * y + 2 * y') p' < cost D M p.

Lemma cost_mono D D' M M' p : D <= D' -> M <= M' -> cost D M p <= cost D' M' p.
Proof.
  intros HD HM. destruct p; cbn; try lia;
    first [destruct r as [|]; cbn; lia|destruct why as [|]; lia].
Qed.

(** The engine keeps its frozen memtables and its tables. *)
Lemma spends_same e p e' p' :
  waiting e' = waiting e -> tables e' = tables e -> freezes p' <= freezes p ->
  (forall D M, waiting e + freezes p <= D -> 2 * (waiting e + tables e) <= M -> cost D M p' < cost D M p) ->
  spends e p e' p'.
Proof.
  intros Hw Ht Hf Hc. unfold spends. rewrite Hw, Ht. split; [lia|]. split; [lia|]. intros D M HD HM.
  eapply Nat.le_lt_trans; [|apply (Hc D M); lia]. apply cost_mono; lia.
Qed.

(** A step that only reads. *)
Lemma spends_quiet e p p' :
  freezes p' <= freezes p ->
  (forall D M, waiting e + freezes p <= D -> 2 * (waiting e + tables e) <= M -> cost D M p' < cost D M p) ->
  spends e p e p'.
Proof. by apply spends_same. Qed.

Lemma search_length e : length (search (state e)) = tables e.
Proof.
  unfold search, tables. induction (levels (state e)) as [|l ls IH]; [done|].
  rewrite fmap_cons. cbn [concat]. rewrite !length_app, length_reverse. lia.
Qed.

Lemma inputs_length e : length (inputs e) <= tables e.
Proof.
  unfold inputs, tables. destruct (levels (state e)) as [|l0 [|l1 ls]]; cbn; rewrite ?length_app; cbn; lia.
Qed.
End cost.
