(* ===== verification/ThreadStep.v ===== *)
(** * The steps of a thread that leave the machine as it is

    [sound] is what one step of a thread owes: the shared state, its own
    assertion at the next point, and what the other threads rely on.  Here are
    the steps that only read. *)

From S2P Require Import Prelude Outcome External Fs MemTable Wal WalWriter WalReader.
From S2P Require Import StdVec SstRecord SstIndex Bloom Builder Reader Merge Manifest.
From S2P Require Import Names KvSpec Engine EngineSpec EngineGet EnginePut EngineFlush EngineCommit.
From S2P Require Import EngineCompact Threads ThreadHeap ThreadInv ThreadDisk ThreadCost.

Section act.
Context {C : Crc32} {SM : SkipMap Entry} {FB : FastBloom} {AL : Allocator}.

(** A step where its code returns. *)
Lemma act_ok {A} l (m : M (Fs * LsmEngineInner) A) k stop s x s' : m s = (Ok x, s') -> act l m k stop s = (k x, s').
Proof. unfold act. by intros ->. Qed.

Lemma act_err {A} l (m : M (Fs * LsmEngineInner) A) k stop s err s' :
  m s = (Err err, s') -> act l m k stop s = (stop (Err err), s').
Proof. unfold act. by intros ->. Qed.
End act.

(** Runs the step at hand. *)
Ltac runs H := cbn [ctl next write_step flush_step worker_step compact_step get_step]; erewrite act_ok by exact H.

(** The step at hand costs what it should. *)
Ltac spend := apply spends_same; [done..|cbn; lia|intros D M; unfold waiting; cbn; rewrite ?length_reverse; lia].

Section step.
Context {C : Crc32} {SM : SkipMap Entry} {FB : FastBloom} {AL : Allocator}.
Context (K : nat -> Prop) (m0 : kvmap) (b0 : bytes -> option bytes) (g : gap).

Abbreviation Sys := (Fs * LsmEngineInner)%type.
Abbreviation shared := (shared K m0 b0).
Abbreviation evolves := (evolves m0).
Abbreviation reader_ok := (reader_ok K m0 b0).
Abbreviation flusher_ok := (flusher_ok K).
Abbreviation thread_ok := (thread_ok K m0 b0).

(** ** What a step owes *)

Definition is_lock (l : lock) (o : option lock) : bool :=
  match l, o with WalLock, Some WalLock | FlushLock, Some FlushLock => true | _, _ => false end.

(** No other thread holds [l] while a thread at [p] runs. *)
Definition under (l : lock) (p : pc) : bool := is_lock l (takes p) || is_lock l (holds p).

(** The writes of a request that are in the map at a point. *)
Definition written (p : pc) (r : request) : list request :=
  match p with
  | Done _ => effect r
  | _ => if applied_by p then effect r else []
  end.

Definition replied (ms : bool) (h : list (nat * request)) (r : request) (n : nat) (o : reply) : Prop :=
  if ms then lagging m0 b0 h r (length h) o else timely m0 h r n (length h) o.

(** A step from [p] to [p'] is one of the request's, and records what it did. *)
Record passes (ms : bool) (i : nat) (r : request) (n : nat) (h : list (nat * request)) (p p' : pc) (evs : list (nat * request)) : Prop := {
  pa_kind : kind p' r;
  pa_writes : written p r ++ owns i evs = written p' r;
  pa_others : forall j, j <> i -> owns j evs = [];
  pa_locks : forall l, is_lock l (holds p') = true -> under l p = true;
  pa_reply : forall o, p' = Done o -> replied ms (h ++ evs) r n o;
}.

(** The assertion of a thread at its point. *)
Record own (ms : bool) (fs : Fs) (e : LsmEngineInner) (T : nat -> list record) (h : list (nat * request)) (n : nat) (p : pc) : Prop := {
  ow_reader : reader_ok e T h n ms p;
  ow_flusher : flusher_ok fs e T p;
  ow_writer : writer_ok fs e p;
}.

(** The point of the holder of the flush lock, when [q] is another's. *)
Definition point (q p p' : pc) : pc := if under FlushLock p then p' else q.

(** What a step leaves on disk. *)
Record spares (fs : Fs) (e : LsmEngineInner) (T : nat -> list record) (q : pc)
    (fs' : Fs) (e' : LsmEngineInner) (T' : nat -> list record) (q' : pc) : Prop := {
  sp_disk : on_disk K fs e T q -> on_disk K fs' e' T' q';
  sp_log : durable_log e -> durable_log e';
}.

Definition sound (i : nat) (t : thread) (q : pc) (fs : Fs) (e : LsmEngineInner) (T : nat -> list record)
    (h : list (nat * request)) (p' : pc) (fs' : Fs) (e' : LsmEngineInner) : Prop :=
  let p := ctl t in
  let evs := emits i t p' in
  let ms := missed t || misses g p in
  exists T' a',
    passes ms i (job t) (since t) h p p' evs /\
    shared fs' e' T' a' (h ++ evs) (point q p p') /\
    own ms fs' e' T' (h ++ evs) (since t) p' /\
    evolves e T h e' T' evs /\
    (under FlushLock p = false -> rely_flush fs e T fs' e' T') /\
    (under WalLock p = false -> rely_log fs e fs' e') /\
    spends e p e' p' /\
    spares fs e T (point q p p) fs' e' T' (point q p p').

Definition steps (i : nat) (t : thread) (q : pc) (fs : Fs) (e : LsmEngineInner) (T : nat -> list record)
    (h : list (nat * request)) : Prop :=
  exists p' fs' e', next g (ctl t) (fs, e) = (p', (fs', e')) /\ sound i t q fs e T h p' fs' e'.

(** ** Changes *)

Lemma evolves_same e T h e' evs :
  mems e' = mems e -> active (state e') = active (state e) -> handles e' = handles e -> evolves e T h e' T evs.
Proof.
  intros Em Ea Eh. split; rewrite ?Em, ?Ea, ?Eh; try done.
  - intros i t Ht. exists t. split_and!; [done..|]. intros k. by left.
  - intros i hd Hhd. by exists hd.
Qed.

(** The engine changed in the number it draws next or in its notifications. *)
Definition counted (e e' : LsmEngineInner) : Prop :=
  exists n x, e' = set_flush_tx x (set_next_seq n e) /\ next_seq e <= n <= u64_max.

Lemma counted_drawn e : next_seq e < u64_max -> counted e (drawn e).
Proof. intros H. exists (next_seq e + 1), (flush_tx e). split; [done|lia]. Qed.

Lemma counted_tx e n : next_seq e <= u64_max -> counted e (set_flush_tx n e).
Proof. intros H. exists (next_seq e), n. split; [by destruct e|lia]. Qed.

Lemma counted_refl e : next_seq e <= u64_max -> counted e e.
Proof. intros H. exists (next_seq e), (flush_tx e). split; [by destruct e|lia]. Qed.

Lemma counted_shared fs e T a h q e' : counted e e' -> shared fs e T a h q -> shared fs e' T a h q.
Proof.
  intros (n & x & -> & Hn) [[F1 F2 F3 F4 F5 [M1 M2 M3] F7 [W1 W2 W3 W4 W5]] Hman Hheap Hv Hb].
  split; [|exact Hman| |exact Hv|exact Hb].
  - split; try done; [cbn; lia| |].
    + apply (tables_ok_same _ e); [done..|cbn; lia|done].
    + split; try done. eapply Forall_impl; [exact W4|]. cbn. lia.
  - apply (heap_engine K fs e); [done|cbn; lia|exact (hp_live _ _ _ _ Hheap)|done].
Qed.

Lemma counted_evolves e T h e' : counted e e' -> evolves e T h e' T [].
Proof. intros (n & x & -> & Hn). by apply evolves_same. Qed.

Lemma counted_rely fs e T e' : counted e e' -> rely_flush fs e T fs e' T.
Proof.
  intros (n & x & -> & Hn). destruct (rely_refl fs e T). split; try done. cbn. lia.
Qed.

Lemma counted_log fs e e' : counted e e' -> rely_log fs e fs e'.
Proof. intros (n & x & -> & Hn). split; try done. cbn. lia. Qed.

(** A step that leaves the directory, the memtables in use and the log writer. *)
Lemma spares_same fs e T a h q q' e' evs :
  shared fs e T a h q -> heap_ok K fs e' T -> evolves e T h e' T evs -> next_seq e <= next_seq e' ->
  state e' = state e -> wal e' = wal e -> options e' = options e ->
  logs_of q' = logs_of q -> (stale q' = false -> stale q = false) -> spares fs e T q fs e' T q'.
Proof.
  intros [S1 S2 S3 S4 S5] Hh Hev Hn Es Ew Eo Hl Hst. split.
  - eapply on_disk_evolves; rewrite ?Es; try done; apply S1.
  - unfold durable_log, unbuffered. by rewrite Ew, Eo.
Qed.

(** A step that changes nothing but the counters. *)
Lemma sound_counted i t q fs e T a h p' e' :
  counted e e' -> emits i t p' = [] -> shared fs e T a h (point q (ctl t) (ctl t)) ->
  passes (missed t || misses g (ctl t)) i (job t) (since t) h (ctl t) p' [] ->
  logs_of (point q (ctl t) p') = logs_of (point q (ctl t) (ctl t)) ->
  (stale (point q (ctl t) p') = false -> stale (point q (ctl t) (ctl t)) = false) ->
  own (missed t || misses g (ctl t)) fs e' T h (since t) p' -> spends e (ctl t) e' p' -> sound i t q fs e T h p' fs e'.
Proof.
  intros Hc Hev Hsh Hp Hlogs Hst Hown Hsp. pose proof Hsh as [S1 S2 S3 S4 S5].
  assert (shared fs e' T a h (point q (ctl t) p')) as Hsh'
    by (apply (counted_shared fs e); [done|split; [by rewrite Hlogs|auto|done..]]).
  unfold sound. rewrite Hev, app_nil_r. exists T, a. split_and!; try done.
  - by apply counted_evolves.
  - intros _. by apply counted_rely.
  - intros _. by apply counted_log.
  - pose proof Hc as (n & x & -> & Hn). apply (spares_same _ _ _ a h _ _ _ []); try done; [apply Hsh'|by apply counted_evolves|cbn; lia].
Qed.

(** A step that only reads. *)
Lemma sound_quiet i t q fs e T a h p' :
  emits i t p' = [] -> shared fs e T a h (point q (ctl t) (ctl t)) ->
  passes (missed t || misses g (ctl t)) i (job t) (since t) h (ctl t) p' [] ->
  logs_of (point q (ctl t) p') = logs_of (point q (ctl t) (ctl t)) ->
  (stale (point q (ctl t) p') = false -> stale (point q (ctl t) (ctl t)) = false) ->
  own (missed t || misses g (ctl t)) fs e T h (since t) p' -> spends e (ctl t) e p' -> sound i t q fs e T h p' fs e.
Proof.
  intros Hev Hsh. apply (sound_counted _ _ _ _ _ _ a); try done.
  apply counted_refl. pose proof (md_next _ _ _ _ _ (sh_mid _ _ _ _ _ _ _ _ _ Hsh)). lia.
Qed.

(** A step without the flush lock that only counts. *)
Lemma sound_free i j n u q p p' fs e T a h e' :
  under FlushLock p = false -> misses g p = false -> counted e e' -> emits i (mkThread p j n u false) p' = [] ->
  shared fs e T a h q -> passes false i j n h p p' [] -> own false fs e' T h n p' -> spends e p e' p' ->
  sound i (mkThread p j n u false) q fs e T h p' fs e'.
Proof.
  intros Hu Hms Hc He Hsh Hp Hown Hsp.
  assert (forall p0, point q p p0 = q) as Hq by (intros p0; unfold point; by rewrite Hu).
  apply (sound_counted _ _ _ _ _ _ a); cbn [ctl job since missed orb]; rewrite ?Hq, ?Hms; done.
Qed.

(** Requests that answer with nothing. *)
Definition plain (r : request) : Prop := forall m, spec_reply r m = Ok None.

Lemma replied_plain h r n : plain r -> (n <= length h)%nat -> replied false h r n (Ok None).
Proof. intros Hr Hn. exists (length h). split; [lia|]. by rewrite Hr. Qed.

(** A step within a request without writes. *)
Lemma passes_on ms i r n h p p' :
  kind p' r -> written p r = written p' r -> (forall l, is_lock l (holds p') = true -> under l p = true) ->
  (forall o, p' = Done o -> replied ms h r n o) -> passes ms i r n h p p' [].
Proof. intros H1 H2 H3 H4. split; try done; [by rewrite app_nil_r|by rewrite app_nil_r]. Qed.

Lemma replied_seen ms h k n v : seen m0 b0 ms h n k v -> replied ms h (ReqGet k) n (Ok v).
Proof.
  destruct ms; [intros [Ho Hp]|intros (j & Hj & ->); by exists j]. exists k, v. by rewrite firstn_all.
Qed.

(** ** [get] *)

(** A step of [get] that only reads. *)
Lemma sound_get i k n u ms q p p' fs e T a h :
  under FlushLock p = false -> emits i (mkThread p (ReqGet k) n u ms) p' = [] ->
  shared fs e T a h q -> applied_by p = false -> applied_by p' = false -> holds p' = None -> kind p' (ReqGet k) ->
  own (ms || misses g p) fs e T h n p' ->
  (forall o, p' = Done o -> replied (ms || misses g p) h (ReqGet k) n o) -> spends e p e p' ->
  sound i (mkThread p (ReqGet k) n u ms) q fs e T h p' fs e.
Proof.
  intros Hu He Hsh Ha Ha' Hh Hk Hown Hr Hsp. unfold sound.
  assert (forall p0, point q p p0 = q) as Hq by (intros p0; unfold point; by rewrite Hu).
  apply (sound_quiet _ _ _ _ _ _ a); cbn [ctl job since missed]; rewrite ?Hq; try done.
  apply passes_on; [done| |by rewrite Hh; intros []|done].
  destruct p, p'; try done; cbn in *; by rewrite ?Ha, ?Ha'.
Qed.

Lemma own_reader ms fs e T h n p :
  holds p = None -> reader_ok e T h n ms p -> own ms fs e T h n p.
Proof. intros Hh Hr. split; [done| |]; destruct p; done. Qed.

Lemma take_snapshot_ok fs e i :
  poisoned e = [] -> active (state e) = Some i -> take_snapshot (fs, e) = (Ok (i, state e), (fs, e)).
Proof.
  intros Hp Ha. unfold take_snapshot. mstep. unfold is_poisoned. cbn [snd].
  rewrite Hp, bool_decide_false by apply not_elem_of_nil. mstep. cbn [snd]. by rewrite Ha.
Qed.

Lemma live_fine fs e T a fl i l :
  mid_ok fs e T a fl -> heap_ok K fs e T -> live e l i -> K i /\ is_Some (handles e !! i).
Proof.
  intros Hok Hheap Hl. split; [by eapply (hp_live _ _ _ _ Hheap)|]. destruct Hl as (ids & Hl & Hi).
  destruct (ta_handles _ _ _ (md_tables _ _ _ _ _ Hok) l ids i Hl Hi) as (hd & Hhd & _). by exists hd.
Qed.

Lemma search_live e i : i ∈ search (state e) -> exists l, live e l i.
Proof.
  intros (ids & Hids & Hi)%elem_of_concat_inv. apply list_elem_of_fmap in Hids as (ids0 & -> & Hl).
  rewrite elem_of_reverse in Hi. apply list_elem_of_lookup in Hl as [l Hl]. by exists l, ids0.
Qed.

Lemma step_snapshot i k n u q fs e T a h :
  (n <= length h)%nat -> shared fs e T a h q -> steps i (mkThread (Snapshot k) (ReqGet k) n u false) q fs e T h.
Proof.
  intros Hn Hsh. pose proof Hsh as [S1 S2 S3 S4 S5]. pose proof S1 as [F1 F2 F3 F4 F5 [M1 M2 M3] F7 F8].
  exists (AskActive k a (state e)), fs, e.
  split; [by runs (take_snapshot_ok fs e a F4 M1)|].
  apply (sound_get _ _ _ _ _ _ _ _ _ _ _ a); try done; [|pose proof (search_length e); spend]. apply own_reader; [done|].
  rewrite Forall_forall in M2. destruct (lookup_lt_is_Some_2 _ _ (M2 a (list_elem_of_here _ _))) as [t Ht].
  split; [|split; [|split; [done|split; [apply S5|]]]].
  - intros p Hp. split; [apply M2, list_elem_of_further; by apply list_elem_of_fmap_2|]. rewrite M1.
    intros [= ->]. apply NoDup_cons in M3 as [M3 _]. by apply M3, list_elem_of_fmap_2.
  - intros j (l & Hl)%search_live. by eapply live_fine.
  - exists t. split; [done|]. change (asks e T _ _ k) with (beneath e T k).
    rewrite <- (view_beneath e T a t k M1 Ht), S4. by apply moment_now.
Qed.

(** The gap is in the active memtable, and its key is being overwritten. *)
Definition gap_ok (e : LsmEngineInner) (h : list (nat * request)) : Prop :=
  forall i k, g = Some (i, k) -> active (state e) = Some i /\ overwritten h k.

Lemma step_active i k j st n u ms q fs e T a h :
  gap_ok e h -> shared fs e T a h q -> reader_ok e T h n ms (AskActive k j st) ->
  steps i (mkThread (AskActive k j st) (ReqGet k) n u ms) q fs e T h.
Proof.
  intros Hg Hsh (Hps & Hhs & -> & Hpast & t & Ht & Hm). exists (match find_entry g j t k with
    | Some en => Done (Ok (entry_value en)) | None => AskFrozen k (reverse (immutables st)) (search st) end), fs, e.
  split; [runs (mem_at_ok fs e j t Ht); by destruct (find_entry g j t k)|].
  assert (forall ms, seen m0 b0 ms h n k (asks e T (reverse (immutables st)) (search st) k) ->
    own ms fs e T h n (AskFrozen k (reverse (immutables st)) (search st))) as Hown.
  { intros ms Hs. apply own_reader; [done|]. split; [|done]. intros p Hp. rewrite elem_of_reverse in Hp. by apply Hps. }
  unfold find_entry. case_bool_decide as Hgap.
  - apply (sound_get _ _ _ _ _ _ _ _ _ _ _ a); try done; [|spend]. cbn [misses orb]. rewrite bool_decide_true by done.
    apply Hown. split; [|exact Hpast]. by apply (Hg _ _ Hgap).
  - destruct (get_entry t k) as [en|]; apply (sound_get _ _ _ _ _ _ _ _ _ _ _ a); try done;
      cbn [misses orb]; rewrite ?bool_decide_false by done.
    + intros o [= <-]. by apply (replied_seen false).
    + spend.
    + by apply Hown.
    + spend.
Qed.

Lemma step_frozen i k ps hs n u ms q fs e T a h :
  gap_ok e h -> shared fs e T a h q -> reader_ok e T h n ms (AskFrozen k ps hs) ->
  steps i (mkThread (AskFrozen k ps hs) (ReqGet k) n u ms) q fs e T h.
Proof.
  intros Hg Hsh (Hps & Hhs & Hm). destruct ps as [|p ps].
  { exists (AskTables k hs), fs, e. split; [done|].
    apply (sound_get _ _ _ _ _ _ _ _ _ _ _ a); cbn [misses]; rewrite ?orb_false_r; try done. spend. }
  destruct (Hps p (list_elem_of_here _ _)) as [Hlt Hna]. destruct (lookup_lt_is_Some_2 _ _ Hlt) as [t Ht].
  assert (find_entry g (mem p) t k = get_entry t k) as Hfind.
  { unfold find_entry. rewrite bool_decide_false; [done|]. intros Hgap. by apply Hna, (Hg _ _ Hgap). }
  exists (match get_entry t k with Some en => Done (Ok (entry_value en)) | None => AskFrozen k ps hs end), fs, e.
  split; [runs (mem_at_ok fs e (mem p) t Ht); rewrite Hfind; by destruct (get_entry t k)|].
  unfold asks in Hm. cbn [fmap list_fmap app first_some] in Hm. unfold mem_entry at 1 in Hm.
  rewrite Ht in Hm. cbn [mbind option_bind] in Hm.
  destruct (get_entry t k) as [en|]; apply (sound_get _ _ _ _ _ _ _ _ _ _ _ a); cbn [misses]; rewrite ?orb_false_r; try done.
  - intros o [= <-]. by apply replied_seen.
  - spend.
  - apply own_reader; [done|]. split; [|done]. intros p' Hp'. apply Hps. by apply list_elem_of_further.
  - spend.
Qed.

Lemma asks_tables e T i hs k :
  asks e T [] (i :: hs) k = match record_entry (T i) k with Some en => entry_value en | None => asks e T [] hs k end.
Proof. unfold asks. cbn [fmap list_fmap app first_some]. by destruct (record_entry (T i) k). Qed.

Lemma step_reader i k j r hs n u ms q fs e T a h :
  shared fs e T a h q -> reader_ok e T h n ms (AskReader k j r hs) ->
  steps i (mkThread (AskReader k j r hs) (ReqGet k) n u ms) q fs e T h.
Proof.
  intros Hsh (Hhs & Hm & hd & Hhd & Hr). pose proof (sh_heap _ _ _ _ _ _ _ _ _ Hsh) as Hheap.
  destruct (Hhs j (list_elem_of_here _ _)) as (HK & _).
  pose proof (usable_reader _ _ _ _ (hp_usable _ _ _ _ Hheap j hd HK Hhd) Hr) as Hrd.
  pose proof (reader_get_ok r _ (T j) k fs (md_faults _ _ _ _ _ (sh_mid _ _ _ _ _ _ _ _ _ Hsh)) eq_refl Hrd) as Hget.
  rewrite lookup_record_entry in Hget.
  exists (match record_entry (T j) k with Some en => Done (Ok (entry_value en)) | None => AskTables k hs end), fs, e.
  split.
  { runs (on_fs_run _ fs e _ _ Hget). f_equal.
    destruct (record_entry (T j) k) as [en|]; [|done]. cbn. unfold entry_lookup, entry_value. by destruct (deleted en). }
  rewrite asks_tables in Hm.
  destruct (record_entry (T j) k) as [en|]; apply (sound_get _ _ _ _ _ _ _ _ _ _ _ a);
    cbn [misses]; rewrite ?orb_false_r; try done.
  - intros o [= <-]. by apply replied_seen.
  - spend.
  - apply own_reader; [done|]. split; [|done]. intros j' Hj'. apply Hhs. by apply list_elem_of_further.
  - spend.
Qed.
(** ** Readers that are opened *)

Lemma reopened_shared fs e T a h q e' :
  reopened e e' -> mid_ok fs e' T a (logs_of q) -> heap_ok K fs e' T -> shared fs e T a h q -> shared fs e' T a h q.
Proof.
  intros [Hc _] Hm Hh [S1 S2 S3 S4 S5]. split; [done| |done| |].
  - intros Hs. by apply (cached_manifest _ e), S2.
  - intros k. by rewrite (cached_view e e').
  - intros k. unfold beneath, asks. destruct (cached_state _ _ Hc) as (-> & -> & _). apply S5.
Qed.

Lemma reopened_evolves e T h e' : reopened e e' -> evolves e T h e' T [].
Proof.
  intros [Hc Hr]. destruct (cached_state _ _ Hc) as (Es & Em & _). split; rewrite ?Em, ?Es; try done.
  - intros i t Ht. exists t. split_and!; [done..|]. intros k. by left.
  - intros i hd Hhd. destruct Hc as [_ HF]. destruct (Forall2_lookup_l _ _ _ _ _ HF Hhd) as (hd' & Hhd' & Hs).
    exists hd'. split_and!; [done..|]. intros r Hrd. destruct (Hr i hd r Hhd Hrd) as (hd2 & ? & ?). by simplify_eq.
Qed.

Lemma reopened_ready e e' i : reopened e e' -> ready e i -> ready e' i.
Proof.
  intros [_ Hr] (hd & Hhd & r & Hrd). destruct (Hr i hd _ Hhd Hrd) as (hd' & Hhd' & Hr'). exists hd'. split; [done|by exists r].
Qed.

Lemma reopened_rely fs e T e' : reopened e e' -> rely_flush fs e T fs e' T.
Proof.
  intros Hre. pose proof Hre as [Hc _]. destruct (cached_state _ _ Hc) as (Es & Em & _ & En & _).
  split; rewrite ?Em, ?Es, ?En; try done; [apply Hc|]. intros i. by apply reopened_ready.
Qed.

Lemma reopened_log fs e e' : reopened e e' -> rely_log fs e fs e'.
Proof.
  intros [Hc _]. destruct (cached_state _ _ Hc) as (Es & Em & Ew & En & _).
  split; unfold live_wals; rewrite ?Em, ?Es, ?En, ?Ew; done.
Qed.

Lemma spends_reopened e p e' p' : reopened e e' -> spends e p e p' -> spends e p e' p'.
Proof.
  intros [Hc _]. destruct (cached_state _ _ Hc) as (Es & _). unfold spends, waiting, tables. by rewrite Es.
Qed.

(** A step that only opens a reader. *)
Lemma sound_reopened i t q fs e T a h p' e' :
  reopened e e' -> mid_ok fs e' T a (logs_of (point q (ctl t) p')) -> heap_ok K fs e' T ->
  emits i t p' = [] -> shared fs e T a h (point q (ctl t) (ctl t)) ->
  passes (missed t || misses g (ctl t)) i (job t) (since t) h (ctl t) p' [] ->
  logs_of (point q (ctl t) p') = logs_of (point q (ctl t) (ctl t)) ->
  (stale (point q (ctl t) p') = false -> stale (point q (ctl t) (ctl t)) = false) ->
  own (missed t || misses g (ctl t)) fs e' T h (since t) p' -> spends e (ctl t) e' p' -> sound i t q fs e T h p' fs e'.
Proof.
  intros Hre Hm Hh Hev Hsh Hp Hlogs Hst Hown Hsp. pose proof Hsh as [S1 S2 S3 S4 S5].
  unfold sound. rewrite Hev, app_nil_r. exists T, a. split_and!; try done.
  - apply (reopened_shared fs e); try done. split; [by rewrite Hlogs|auto|done..].
  - by apply reopened_evolves.
  - intros _. by apply reopened_rely.
  - intros _. by apply reopened_log.
  - destruct (cached_state _ _ (proj1 Hre)) as (Es & _ & Ew & En & Eo & _).
    apply (spares_same _ _ _ a h _ _ _ []); try done; [by apply reopened_evolves|lia].
Qed.

Lemma step_tables i k hs n u ms q fs e T a h :
  (n <= length h)%nat -> shared fs e T a h q -> reader_ok e T h n ms (AskTables k hs) ->
  steps i (mkThread (AskTables k hs) (ReqGet k) n u ms) q fs e T h.
Proof.
  intros Hn Hsh (Hhs & Hm). pose proof Hsh as [S1 _ S3 _ _]. destruct hs as [|j hs].
  { exists (Done (Ok None)), fs, e. split; [done|].
    apply (sound_get _ _ _ _ _ _ _ _ _ _ _ a); cbn [misses]; rewrite ?orb_false_r; try done.
    { intros o [= <-]. by apply replied_seen. }
    spend. }
  destruct (Hhs j (list_elem_of_here _ _)) as (HK & hd & Hhd). pose proof (handle_at_ok fs e j hd Hhd) as Hat.
  destruct (key_ltb k (Manifest.min (meta hd)) || key_ltb (Manifest.max (meta hd)) k) eqn:Hrange.
  - exists (AskTables k hs), fs, e. split.
    { assert (reader_for k j (fs, e) = (Ok None, (fs, e))) as Hrun
        by (unfold reader_for; rewrite (M_bind_ok _ _ _ _ _ Hat), Hrange; done).
      by runs Hrun. }
    rewrite asks_tables in Hm. rewrite (handle_outside fs hd (T j) k) in Hm by (apply Hrange || by eapply hp_usable).
    apply (sound_get _ _ _ _ _ _ _ _ _ _ _ a); cbn [misses]; rewrite ?orb_false_r; try done; [|spend].
    apply own_reader; [done|]. split; [|done]. intros j' Hj'. apply Hhs. by apply list_elem_of_further.
  - destruct (open_usable K fs e T a _ j hd S1 S3 HK Hhd) as (r & e' & hd' & Hopen & Hre & Hm' & Hheap' & Hhd' & Hr').
    exists (AskReader k j r hs), fs, e'. split.
    { assert (reader_for k j (fs, e) = (Ok (Some r), (fs, e'))) as Hrun
        by (unfold reader_for; rewrite (M_bind_ok _ _ _ _ _ Hat), Hrange; by rewrite (M_bind_ok _ _ _ _ _ Hopen)).
      by runs Hrun. }
    apply (sound_reopened _ _ _ _ _ _ a); cbn [ctl job since missed misses]; rewrite ?orb_false_r; try done;
      [by apply passes_on; [..|intros []|]| |apply (spends_reopened e); [done|spend]].
    apply own_reader; [done|].
    pose proof (reader_evolves K m0 b0 e T h e' T [] n ms (AskTables k (j :: hs)) (reopened_evolves _ T h _ Hre) Hn
      (conj Hhs Hm)) as Hok'. rewrite app_nil_r in Hok'. destruct Hok' as [Hhs' Hmo]. split; [done|]. split; [done|]. by exists hd'.
Qed.
End step.
