(* ===== verification/ThreadFlush.v ===== *)
(** * The steps of a flush *)

From S2P Require Import Prelude Outcome External Fs MemTable Wal WalWriter WalReader.
From S2P Require Import StdVec SstRecord SstIndex Bloom Builder Reader Merge Manifest.
From S2P Require Import Names KvSpec Engine EngineSpec EngineGet EnginePut EngineFlush EngineCommit.
From S2P Require Import EngineCompact EngineRefine Threads ThreadHeap ThreadInv ThreadDisk ThreadCost ThreadStep.

Section within.
Context {C : Crc32} {SM : SkipMap Entry} {FB : FastBloom} {AL : Allocator}.
Context (K : nat -> Prop) (m0 : kvmap) (b0 : bytes -> option bytes) (g : gap).

Abbreviation shared := (shared K m0 b0).
Abbreviation sound := (sound K m0 b0 g).
Abbreviation own := (own K m0 b0 false).
Abbreviation passes := (passes m0 b0 false).

(** ** Returning *)

Lemma passes_flush i r n h p p' :
  (n <= length h)%nat -> applied_by p = false -> busy p = true ->
  p' = flush_returns r (Ok tt) -> passes i (flush_job r) n h p p' [].
Proof.
  intros Hn Ha Hb ->. apply passes_on.
  - by destruct r.
  - destruct r, p; try done; cbn in *; by rewrite Ha.
  - intros l Hl'. destruct r; cbn in Hl'; by destruct l.
  - intros o Ho. destruct r; [|done]. injection Ho as <-. by apply replied_plain.
Qed.

Lemma passes_compact i r n h p p' :
  (n <= length h)%nat -> applied_by p = false -> busy p = true -> p' = compact_returns r (Ok tt) ->
  passes i (compact_job r) n h p p' [].
Proof.
  intros Hn Ha Hb ->. apply passes_on.
  - by destruct r.
  - destruct r, p; try done; cbn in *; by rewrite Ha.
  - intros l Hl'. destruct r; cbn in Hl'; by destruct l.
  - intros o Ho. destruct r; injection Ho as <-; by apply replied_plain.
Qed.

(** A step within a flush or a compaction. *)
Lemma passes_within i r n h p p' :
  kind p' r -> applied_by p = false -> applied_by p' = false -> busy p = true -> busy p' = true ->
  (forall l, is_lock l (holds p') = true -> under l p = true) -> passes i r n h p p' [].
Proof.
  intros Hk Ha Ha' Hb Hb' Hl. apply passes_on; [done| |done|].
  - destruct p, p'; try done; cbn in *; by rewrite ?Ha, ?Ha'.
  - intros o ->. done.
Qed.

Lemma own_idle fs e T h n p :
  (exists r, p = flush_returns r (Ok tt)) \/ (exists r, p = compact_returns r (Ok tt)) -> own fs e T h n p.
Proof. intros [[[] ->]|[[] ->]]; done. Qed.
(** The locks are free when a thread gets them, and are not poisoned. *)
Lemma lock_taken l msg fs e : poisoned e = [] -> with_lock l msg (mret tt) (fs, e) = (Ok tt, (fs, e)).
Proof. intros Hp. by apply with_lock_ok. Qed.

(** A step under the flush lock that only reads. *)
Lemma sound_flusher i j n u q p p' fs e T a h :
  under FlushLock p = true -> misses g p = false -> applied_by p = false -> busy p = true ->
  emits i (mkThread p j n u false) p' = [] ->
  shared fs e T a h p -> passes i j n h p p' [] -> logs_of p' = logs_of p -> (stale p' = false -> stale p = false) ->
  own fs e T h n p' -> spends e p e p' -> sound i (mkThread p j n u false) q fs e T h p' fs e.
Proof.
  intros Hu Hms Ha Hb He Hsh Hp Hl Hs Hown Hsp.
  assert (forall p0, point q p p0 = p0) as Hq by (intros p0; unfold point; by rewrite Hu).
  apply (sound_quiet _ _ _ _ _ _ _ _ _ _ a); cbn [ctl job since missed orb]; rewrite ?Hq, ?Hms; done.
Qed.

End within.

Ltac within := apply passes_within; first [done|by intros []].

Section flush.
Context {C : Crc32} {SM : SkipMap Entry} {FB : FastBloom} {AL : Allocator}.
Context (K : nat -> Prop) (m0 : kvmap) (b0 : bytes -> option bytes) (g : gap).

Abbreviation shared := (shared K m0 b0).
Abbreviation evolves := (evolves m0).
Abbreviation reader_ok := (reader_ok K m0 b0).
Abbreviation flusher_ok := (flusher_ok K).
Abbreviation steps := (steps K m0 b0 g).
Abbreviation sound := (sound K m0 b0 g).
Abbreviation own := (own K m0 b0 false).
Abbreviation passes := (passes m0 b0 false).

(** ** The loop *)

Lemma step_lock_flush i r n u q fs e T a h :
  shared fs e T a h (LockFlush r) -> steps i (mkThread (LockFlush r) (flush_job r) n u false) q fs e T h.
Proof.
  intros Hsh. exists (Drain r []), fs, e.
  split; [by runs (lock_taken FlushLock "flush lock poisoned" fs e (md_poison _ _ _ _ _ (sh_mid _ _ _ _ _ _ _ _ _ Hsh)))|].
  apply (sound_flusher K m0 b0 g _ _ _ _ _ _ _ _ _ _ a); try done; [within|spend].
Qed.

Lemma step_drain i r fl n u q fs e T a h :
  (n <= length h)%nat -> shared fs e T a h (Drain r fl) ->
  steps i (mkThread (Drain r fl) (flush_job r) n u false) q fs e T h.
Proof.
  intros Hn Hsh. pose proof (read_state_ok fs e (md_poison _ _ _ _ _ (sh_mid _ _ _ _ _ _ _ _ _ Hsh))) as Hrun.
  assert (exists p', next g (Drain r fl) (fs, e) = (p', (fs, e)) /\
    ((exists x, p' = DrawTable r fl x /\ head (immutables (state e)) = Some x) \/
     p' = FlushManifest r fl \/ (fl = [] /\ p' = flush_returns r (Ok tt)))) as (p' & Hnext & Hp').
  { runs Hrun. destruct (head (immutables (state e))) as [x|]; [eexists; split; [done|]; left; by exists x|].
    destruct fl as [|w fl]; eexists; (split; [done|]); right; [by right|by left]. }
  exists p', fs, e. split; [done|].
  destruct Hp' as [(x & -> & Hx)|[->|[-> ->]]]; apply (sound_flusher K m0 b0 g _ _ _ _ _ _ _ _ _ _ a); try done.
  - within.
  - spend.
  - within.
  - spend.
  - by apply passes_flush.
  - by destruct r.
  - apply own_idle. left. by exists r.
  - destruct r; spend.
Qed.

Lemma step_cleaned i r n u q fs e T a h :
  (n <= length h)%nat -> shared fs e T a h (RemoveLogs r []) ->
  steps i (mkThread (RemoveLogs r []) (flush_job r) n u false) q fs e T h.
Proof.
  intros Hn Hsh. exists (flush_returns r (Ok tt)), fs, e. split; [done|].
  apply (sound_flusher K m0 b0 g _ _ _ _ _ _ _ _ _ _ a); try done; [by apply passes_flush|by destruct r| |destruct r; spend].
  apply own_idle. left. by exists r.
Qed.

(** ** Drawing a number *)

Lemma next_table fs e T : heap_ok K fs e T -> 0 <= next_seq e -> fresh_table K (drawn e) (next_seq e).
Proof. intros Hh Hn. split; [cbn; lia|]. intros i hd. apply (hp_next _ _ _ _ Hh). Qed.

Lemma step_draw_table i r fl x n u q fs e T a h :
  next_seq e < u64_max -> shared fs e T a h (DrawTable r fl x) -> flusher_ok fs e T (DrawTable r fl x) ->
  steps i (mkThread (DrawTable r fl x) (flush_job r) n u false) q fs e T h.
Proof.
  intros Hroom Hsh Hx. pose proof Hsh as [S1 _ S3 _ _]. pose proof (md_next _ _ _ _ _ S1).
  exists (BuildTable r fl x (next_seq e)), fs, (drawn e). split; [by runs (fetch_add_seq_ok fs e ltac:(lia))|].
  apply (sound_counted _ _ _ _ _ _ _ _ _ _ a); try done; [by apply counted_drawn|within| |spend].
  split; [done| |done]. split; [done|]. eapply next_table; [done|lia].
Qed.

(** ** Writing files *)

(** A step of the flush lock's holder that only changes the directory. *)
Lemma sound_files i j n u q p p' fs e T a h fs' N :
  under FlushLock p = true -> misses g p = false -> emits i (mkThread p j n u false) p' = [] ->
  keeps N fs fs' -> (forall i hd, K i -> handles e !! i = Some hd -> ~ N (path hd)) ->
  (forall w, dirents fs !! wal_name w = None -> dirents fs' !! wal_name w = None) ->
  shared fs e T a h p -> mid_ok fs' e T a (logs_of p') -> (stale p' = false -> manifest_current fs' e) ->
  passes i j n h p p' [] -> own fs' e T h n p' -> spends e p e p' ->
  (heap_ok K fs' e T -> on_disk K fs e T p -> on_disk K fs' e T p') ->
  sound i (mkThread p j n u false) q fs e T h p' fs' e.
Proof.
  intros Hu Hms He Hk HN Hw [S1 S2 S3 S4 S5] Hm Hman Hp Hown Hsp Hdisk. unfold ThreadStep.sound. cbn [ctl job since missed orb].
  rewrite He, Hms, app_nil_r. exists T, a. unfold point. rewrite Hu.
  assert (heap_ok K fs' e T) as Hheap by (by eapply heap_keeps).
  split_and!; try done; [by apply evolves_same|]. split; [by apply Hdisk|done].
Qed.

(** New and removed files that are no table's, no manifest's and no log's. *)
Lemma on_disk_keeps fs e T a fl fs' N q q' :
  mid_ok fs e T a fl -> heap_ok K fs' e T -> keeps N fs fs' ->
  (forall i hd, K i -> handles e !! i = Some hd -> ~ N (path hd)) ->
  ~ N MANIFEST_FILE_NAME -> (forall w, w ∈ logs_of q -> ~ N (wal_name w)) ->
  logs_of q' = logs_of q -> (stale q' = false -> stale q = false) ->
  on_disk K fs e T q -> on_disk K fs' e T q'.
Proof.
  intros Hok Hh Hk HN Hm Hw Hl Hst. apply (on_disk_evolves K m0 _ _ _ [] _ _ _ []); try done.
  - apply Hok.
  - by apply evolves_same.
  - by apply (kp_kept _ _ _ Hk).
  - intros w Hin. by apply (kp_kept _ _ _ Hk), Hw.
  - intros i hd HK Hhd _. by rewrite (proj1 (kp_kept _ _ _ Hk _ (HN i hd HK Hhd))).
Qed.

(** A table's names. *)
Lemma table_names l n x : initial x = Some x77 \/ x = MANIFEST_FILE_NAME -> ~ (x = tmp_name (sst_name l n) \/ x = sst_name l n).
Proof.
  intros Hx. assert (initial x <> Some x4c) as Hi by (destruct Hx as [Hx| ->]; [congruence|by rewrite initial_manifest]).
  intros [->| ->]; [by rewrite initial_sst_tmp in Hi|by rewrite initial_sst in Hi].
Qed.

Lemma fresh_above fs e T a fl n : mid_ok fs e T a fl -> heap_ok K fs e T -> fresh_table K e n -> above e n.
Proof.
  intros Hok Hh [Hn Hlt] l i Hl. unfold seq_of. pose proof (hp_live _ _ _ _ Hh l i Hl) as HK.
  destruct Hl as (ids & Hl & Hi). destruct (ta_handles _ _ _ (md_tables _ _ _ _ _ Hok) l ids i Hl Hi) as (hd & Hhd & _).
  rewrite Hhd. by apply (Hlt i).
Qed.

(** A table under a new number has a new name. *)
Lemma fresh_files fs e T l n rs fs' :
  heap_ok K fs e T -> fresh_table K e n -> next_seq e <= u64_max -> (l <= 1)%nat ->
  table_written (tmp_name (sst_name l n)) (sst_name l n) rs fs fs' ->
  (forall i hd, K i -> handles e !! i = Some hd -> ~ (path hd = tmp_name (sst_name l n) \/ path hd = sst_name l n)) /\
  forall w, dirents fs !! wal_name w = None -> dirents fs' !! wal_name w = None.
Proof.
  intros Hh [Hn Hlt] Hmax Hl Htw. split.
  - intros i hd HK Hhd. destruct (hp_usable _ _ _ _ Hh i hd HK Hhd) as [Hnamed _]. intros [Heq|Heq].
    + destruct Hnamed as (l' & _ & Hp & _). rewrite Hp in Heq. symmetry in Heq. by apply tmp_ne_sst in Heq.
    + eapply (named_fresh hd l n); [done|done|lia|by apply (Hlt i)|done].
  - intros w Hw. destruct (dirents fs' !! wal_name w) as [ino|] eqn:E; [|done].
    destruct (tw_names _ _ _ _ _ Htw (wal_name w)) as [Heq|[x Hx]]; [by rewrite E| |congruence].
    by eapply (initial_ne _ _ _ _ (initial_wal w) (initial_sst l n)) in Heq.
Qed.

Lemma build_step_kept l n rs fs e T a fl fs' :
  mid_ok fs e T a fl -> above e n -> (l <= 1)%nat -> 0 <= n <= u64_max ->
  table_written (tmp_name (sst_name l n)) (sst_name l n) rs fs fs' ->
  mid_ok fs' e T a fl /\ (manifest_current fs e -> manifest_current fs' e).
Proof.
  intros Hok Hab Hl Hn Htw. split; [by eapply written_mid|]. apply manifest_current_kept.
  eapply (table_written_above l n); [apply Hok|done..|]. right. by rewrite initial_manifest.
Qed.

Lemma step_build_table i r fl x s n u q fs e T a h :
  Forall small (mems e) -> shared fs e T a h (BuildTable r fl x s) -> flusher_ok fs e T (BuildTable r fl x s) ->
  steps i (mkThread (BuildTable r fl x s) (flush_job r) n u false) q fs e T h.
Proof.
  intros Hsm Hsh [Hx Hs]. pose proof Hsh as [S1 S2 S3 S4 S5]. pose proof (md_next _ _ _ _ _ S1) as Hnx.
  pose proof (head_Some_elem_of _ _ Hx) as Hin. pose proof Hs as [Hlt _].
  destruct (wm_frozen _ _ _ _ (md_wals _ _ _ _ _ S1) x Hin) as (t & _ & Ht & Hne & _).
  rewrite Forall_forall in Hsm. pose proof (Hsm t (list_elem_of_lookup_2 _ _ _ Ht)) as Hst.
  destruct (build_pending_ok fs e T a _ x t s S1 Hin Ht Hst) as (fs' & Hrun & Htw).
  exists (JoinTable r fl x (meta (new_handle 0 s (mem_records t)))), fs', e. split; [by runs Hrun|].
  destruct (fresh_files fs e T 0 s _ fs' S3 Hs ltac:(lia) ltac:(lia) Htw) as [HN Hw].
  destruct (build_step_kept 0 s _ _ _ _ _ _ _ S1 (fresh_above _ _ _ _ _ _ S1 S3 Hs) ltac:(lia) ltac:(lia) Htw) as [Hm Hman].
  apply (sound_files _ _ _ _ _ _ _ _ _ _ a _ _ (fun x => x = tmp_name (sst_name 0 s) \/ x = sst_name 0 s)); try done.
  - apply Htw.
  - intros Hst'. by apply Hman, S2.
  - within.
  - split; [done| |done]. split; [done|]. destruct (tw_file _ _ _ _ _ Htw) as (ino & Hd & Htab). by exists s, t, ino.
  - spend.
  - intros Hheap. eapply on_disk_keeps; [exact S1|exact Hheap|apply Htw|exact HN|apply table_names; by right| |done..].
    intros w _. apply table_names. left. apply initial_wal.
Qed.

Lemma manifest_step fs e T a fl h q p :
  shared fs e T a h q -> logs_of q = fl -> logs_of p = fl -> stale p = false ->
  exists fs', write_manifest (fs, e) = (Ok tt, (fs', e)) /\ shared fs' e T a h p /\
    forall i j n u q0, under FlushLock q = true -> misses g q = false -> emits i (mkThread q j n u false) p = [] ->
      passes i j n h q p [] -> own fs' e T h n p -> spends e q e p ->
      sound i (mkThread q j n u false) q0 fs e T h p fs' e.
Proof.
  intros Hsh Hq Hp Hst. pose proof Hsh as [S1 S2 S3 S4 S5]. rewrite Hq in S1.
  destruct (write_manifest_ok fs e T (md_faults _ _ _ _ _ S1) (md_fs _ _ _ _ _ S1)
      (md_poison _ _ _ _ _ S1) (md_tables _ _ _ _ _ S1)) as (fs' & Hrun & Hcur & Hk & Hn).
  pose proof (manifest_mid _ _ _ _ _ _ S1 Hk Hn) as Hm.
  assert (forall i hd, K i -> handles e !! i = Some hd ->
    ~ (path hd = MANIFEST_TMP_FILE_NAME \/ path hd = MANIFEST_FILE_NAME)) as HN.
  { intros i hd HK Hhd. destruct (hp_usable _ _ _ _ S3 i hd HK Hhd) as [Hnamed%named_initial _].
    intros [Heq|Heq]; rewrite Heq in Hnamed; [by rewrite initial_manifest_tmp in Hnamed|by rewrite initial_manifest in Hnamed]. }
  exists fs'. split; [done|]. split.
  - split; [by rewrite Hp|done| |done..]. eapply heap_keeps; [exact Hk|done|done].
  - intros i j n u q0 Hu Hms He Hps Hown Hsp. eapply (sound_files _ _ _ _ _ _ _ _ _ _ a); try done; [|by rewrite Hp|].
    + intros w Hw. destruct (dirents fs' !! wal_name w) as [ino|] eqn:E; [|done].
      destruct (Hn (wal_name w)) as [Heq|[x Hx]]; [by rewrite E| |congruence].
      by eapply (initial_ne _ _ _ _ (initial_wal w) initial_manifest) in Heq.
    + intros _. apply on_disk_listed; [apply Hm|done|apply (hp_live _ _ _ _ S3)| |by rewrite Hp].
      intros w _. apply (kp_kept _ _ _ Hk). intros [Hx|Hx];
        [by eapply (initial_ne _ _ _ _ (initial_wal w) initial_manifest_tmp)
        |by eapply (initial_ne _ _ _ _ (initial_wal w) initial_manifest)].
Qed.

Lemma step_flush_manifest i r fl n u q fs e T a h :
  shared fs e T a h (FlushManifest r fl) ->
  steps i (mkThread (FlushManifest r fl) (flush_job r) n u false) q fs e T h.
Proof.
  intros Hsh. destruct (manifest_step _ _ _ _ fl _ _ (RemoveLogs r fl) Hsh eq_refl eq_refl eq_refl)
    as (fs' & Hrun & _ & Hsound).
  exists (RemoveLogs r fl), fs', e. split; [by runs Hrun|]. apply Hsound; try done; [within|spend].
Qed.

Lemma step_remove_log i r w ws n u q fs e T a h :
  shared fs e T a h (RemoveLogs r (w :: ws)) ->
  steps i (mkThread (RemoveLogs r (w :: ws)) (flush_job r) n u false) q fs e T h.
Proof.
  intros Hsh. pose proof Hsh as [S1 S2 S3 S4 S5]. pose proof (md_faults _ _ _ _ _ S1) as Hf.
  pose proof (ignore_remove_run (wal_name w) fs e Hf) as Hrun.
  pose proof (keeps_remove (wal_name w) fs Hf (md_fs _ _ _ _ _ S1)) as Hk.
  exists (RemoveLogs r ws), (set_dirents (base.delete (wal_name w) (dirents fs)) fs), e. split; [by runs Hrun|].
  assert (mid_ok (set_dirents (base.delete (wal_name w) (dirents fs)) fs) e T a ws) as Hm.
  { apply (clean_mid fs e T a (w :: ws) [w]); [done|by exists ws| |].
    - eapply keeps_mono; [|exact Hk]. intros x <-. apply list_elem_of_here.
    - intros x. cbn. rewrite lookup_delete. case_decide as Hx; [by intros []|]. intros Hin. split; [|done].
      intros ->%list_elem_of_singleton. done. }
  apply (sound_files _ _ _ _ _ _ _ _ _ _ a _ _ (eq (wal_name w))); try done.
  - intros j hd HK Hhd. destruct (hp_usable _ _ _ _ S3 j hd HK Hhd) as [Hnamed%named_initial _].
    intros Heq. by rewrite <- Heq, initial_wal in Hnamed.
  - intros w' Hw'. cbn. rewrite lookup_delete. by case_decide.
  - intros _. eapply manifest_current_kept; [|by apply S2]. apply (kp_kept _ _ _ Hk).
    intros Heq. by eapply (initial_ne _ _ _ _ (initial_wal w) initial_manifest).
  - within.
  - spend.
  - intros _. eapply on_disk_removed; [apply Hm| |done..|].
    + eapply manifest_current_kept; [|by apply S2]. apply (kp_kept _ _ _ Hk).
      intros Heq. by eapply (initial_ne _ _ _ _ (initial_wal w) initial_manifest).
    + intros x Hx. apply (kp_kept _ _ _ Hk). pose proof (wm_sorted _ _ _ _ (md_wals _ _ _ _ _ S1)) as Hsort.
      pose proof (wm_range _ _ _ _ (md_wals _ _ _ _ _ S1)) as Hrg. cbn [logs_of app] in Hsort, Hrg.
      pose proof (md_next _ _ _ _ _ S1). apply StronglySorted_inv in Hsort as [_ Hsort].
      apply Forall_cons in Hrg as [Hr1 Hrg]. rewrite Forall_forall in Hsort, Hrg.
      assert (x ∈ ws ++ live_wals e) as Hin by (apply elem_of_app; by left).
      specialize (Hsort x Hin). specialize (Hrg x Hin). intros Heq%wal_name_inj; lia.
Qed.

(** ** The commit of a flush *)

Lemma evolves_alloc e T h e' hd rs :
  mems e' = mems e -> active (state e') = active (state e) -> handles e' = handles e ++ [hd] ->
  evolves e T h e' (set_T T (length (handles e)) rs) [].
Proof.
  intros Em Ea Eh. split; rewrite ?Em, ?Ea, ?Eh; try done.
  - intros i t Ht. exists t. split_and!; [done..|]. intros k. by left.
  - intros i hd' Hhd. exists hd'. split_and!; [by apply lookup_app_l_Some|done..].
  - intros i Hi. unfold set_T. by rewrite decide_False by lia.
Qed.

Lemma add_l0_length ls i : length (concat (add_l0 ls i)) = S (length (concat ls)).
Proof. destruct ls as [|l0 ls]; [done|]. cbn. rewrite !length_app. cbn. lia. Qed.

Lemma stale_joined r fl w : stale (Drain r (fl ++ [w])) = true.
Proof. by destruct fl. Qed.

(** A frozen memtable becomes a table. *)
Lemma joined_beneath fs e T x ps s t k :
  tables_ok fs e T -> immutables (state e) = x :: ps -> mems e !! mem x = Some t ->
  beneath (joined e ps (new_handle 0 s (mem_records t))) (set_T T (length (handles e)) (mem_records t)) k =
    beneath e T k.
Proof.
  intros Hok Himm Ht. rewrite !beneath_unseated.
  refine (joined_view fs (unseated e) T x ps s t k _ Himm Ht). apply (tables_ok_same fs e); done.
Qed.

Lemma step_join_table i r fl x m n u q fs e T a h :
  shared fs e T a h (JoinTable r fl x m) -> flusher_ok fs e T (JoinTable r fl x m) ->
  steps i (mkThread (JoinTable r fl x m) (flush_job r) n u false) q fs e T h.
Proof.
  intros Hsh (Hx & s & t & ino & Hs & Ht & -> & Hd & Htab). pose proof Hsh as [S1 S2 S3 S4 S5].
  cbn [logs_of] in S1. pose proof (md_next _ _ _ _ _ S1) as Hnx.
  destruct (immutables (state e)) as [|x' ps] eqn:Himm; [done|]. injection Hx as ->.
  destruct (wm_frozen _ _ _ _ (md_wals _ _ _ _ _ S1) x ltac:(rewrite Himm; apply list_elem_of_here))
    as (t' & _ & Ht' & Hne & _). rewrite Ht in Ht'. injection Ht' as <-.
  pose proof (fresh_above _ _ _ _ _ _ S1 S3 Hs) as Hab. pose proof Hs as [Hlt Hold].
  pose proof (join_table_ok fs e T a fl 0 s (mem_records t) x ps S1 Hab Himm) as Hrun.
  set (e' := joined e ps (new_handle 0 s (mem_records t))) in *.
  exists (Drain r (fl ++ [wal_seq x])), fs, e'. split; [by runs Hrun|].
  assert (handle_ok fs 0 (new_handle 0 s (mem_records t)) (mem_records t)) as Hnew.
  { eapply new_handle_ok; [lia| |done|done]. unfold mem_records. by destruct (iter t). }
  assert (heap_ok K fs e' (set_T T (length (handles e)) (mem_records t))) as Hheap'.
  { apply (heap_engine K fs (set_handles (handles e ++ [new_handle 0 s (mem_records t)]) e)); [done|done| |
      apply heap_alloc; [done|done|lia|lia|exact Hold]].
    intros l j (ids & Hl & Hj). cbn in Hl. apply add_l0_lookup in Hl as [(-> & ids0 & -> & Hids)|[_ Hl]].
    - apply elem_of_app in Hj as [Hj| ->%list_elem_of_singleton]; [|by apply (hp_new _ _ _ _ S3)].
      destruct Hids as [Hids|[_ ->]]; [|by apply not_elem_of_nil in Hj].
      apply (hp_live _ _ _ _ S3 0%nat). by exists ids0.
    - apply (hp_live _ _ _ _ S3 l). by exists ids. }
  unfold ThreadStep.sound. cbn [ctl job since emits]. rewrite app_nil_r.
  exists (set_T T (length (handles e)) (mem_records t)), a. unfold point. cbn [under takes holds is_lock orb].
  split_and!; [within| | | | | | |].
  - split.
    + by eapply joined_mid.
    + by rewrite stale_joined.
    + done.
    + intros k. rewrite <- S4. eapply joined_view; (apply S1 || done).
    + intros k. unfold e'. rewrite (joined_beneath fs e T x ps s t k (md_tables _ _ _ _ _ S1) Himm Ht). apply S5.
  - done.
  - by eapply evolves_alloc.
  - done.
  - intros _. split; try done. intros w Hw. unfold live_wals in *. cbn in Hw. rewrite Himm. cbn. by apply list_elem_of_further.
  - unfold spends, waiting, tables. cbn. rewrite Himm. cbn. rewrite add_l0_length, length_app. cbn.
    split; [lia|]. split; [lia|]. intros D M. destruct r; cbn; lia.
  - split; [|done]. intros Hdisk. pose proof (md_mems _ _ _ _ _ S1) as [M1 _ M3]. unfold live_mems in M3.
    apply NoDup_cons in M3 as [M3 M4].
    destruct (wm_frozen _ _ _ _ (md_wals _ _ _ _ _ S1) x ltac:(rewrite Himm; apply list_elem_of_here))
      as (t' & ino' & Ht' & _ & Hd' & Hw'). rewrite Ht in Ht'. injection Ht' as <-.
    eapply (on_disk_joined K fs e T (JoinTable r fl x _) _ ps x t); try done.
    + by exists ino'.
    + rewrite M1. intros [= Heq]. apply M3. rewrite Heq, Himm. apply list_elem_of_here.
    + apply S1.
    + apply stale_joined.
    + intros k. by rewrite (joined_tables _ _ _ ps _ s _ k (md_tables _ _ _ _ _ S1) Ht).
Qed.
End flush.
