(* ===== verification/ThreadCompact.v ===== *)
(** * The steps of the worker and of a compaction *)

From S2P Require Import Prelude Outcome External Fs MemTable Wal WalWriter WalReader.
From S2P Require Import StdVec SstRecord SstIndex Bloom Builder Reader Merge Manifest.
From S2P Require Import Names KvSpec Engine EngineSpec EngineGet EnginePut EngineFlush EngineCommit.
From S2P Require Import EngineCompact EngineRefine Threads ThreadHeap ThreadInv ThreadDisk ThreadCost ThreadStep ThreadFlush.

Section compact.
Context {C : Crc32} {SM : SkipMap Entry} {FB : FastBloom} {AL : Allocator}.
Context (K : nat -> Prop) (m0 : kvmap) (b0 : bytes -> option bytes) (g : gap).

Abbreviation shared := (shared K m0 b0).
Abbreviation evolves := (evolves m0).
Abbreviation reader_ok := (reader_ok K m0 b0).
Abbreviation flusher_ok := (flusher_ok K).
Abbreviation steps := (steps K m0 b0 g).
Abbreviation sound := (sound K m0 b0 g).
Abbreviation own := (own K m0 b0 false).
Abbreviation passes := (passes m0 b0 false).

Ltac flusher a := apply (sound_flusher K m0 b0 g _ _ _ _ _ _ _ _ _ _ a); try done.

(** ** The worker *)

Lemma step_receive i n u q fs e T a h :
  (n <= length h)%nat -> shared fs e T a h q -> steps i (mkThread Receive ReqBackground n u false) q fs e T h.
Proof.
  intros Hn Hsh. pose proof (md_next _ _ _ _ _ (sh_mid _ _ _ _ _ _ _ _ _ Hsh)) as Hnx.
  destruct (flush_tx e) as [|x] eqn:Etx.
  - exists (Done (Ok None)), fs, e. split.
    { cbn [ctl next write_step flush_step worker_step compact_step get_step]. unfold act. mstep. cbn [snd]. by rewrite Etx. }
    apply (sound_free _ _ _ _ _ _ _ _ _ _ _ _ _ _ a); try done.
    + apply counted_refl. lia.
    + apply passes_on; [done..|intros []; done|]. intros o [= <-]. by apply replied_plain.
    + spend.
  - exists (LockFlush Worker), fs, (set_flush_tx x e). split.
    { cbn [ctl next write_step flush_step worker_step compact_step get_step]. unfold act. mstep. cbn [snd]. rewrite Etx. by mstep. }
    apply (sound_free _ _ _ _ _ _ _ _ _ _ _ _ _ _ a); try done; [apply counted_tx; lia|within|spend].
Qed.

Lemma step_need_compact i n u q fs e T a h :
  (n <= length h)%nat -> shared fs e T a h q -> steps i (mkThread NeedCompact ReqBackground n u false) q fs e T h.
Proof.
  intros Hn Hsh. pose proof (sh_mid _ _ _ _ _ _ _ _ _ Hsh) as Hm. pose proof (md_next _ _ _ _ _ Hm) as Hnx.
  destruct (compact_needed_ok fs e (md_poison _ _ _ _ _ Hm)) as [b Hrun].
  exists (if b then LockCompact Worker else Done (Ok None)), fs, e. split; [runs Hrun; by destruct b|].
  pose proof (counted_refl e ltac:(lia)) as Hc.
  destruct b; apply (sound_free _ _ _ _ _ _ _ _ _ _ _ _ _ _ a); try done; [within|spend| |spend].
  apply passes_on; [done..|intros []; done|]. intros o [= <-]. by apply replied_plain.
Qed.

(** ** Reading the inputs *)

Lemma step_lock_compact i r n u q fs e T a h :
  shared fs e T a h (LockCompact r) -> steps i (mkThread (LockCompact r) (compact_job r) n u false) q fs e T h.
Proof.
  intros Hsh. exists (Inputs r), fs, e.
  split; [by runs (lock_taken FlushLock "flush lock poisoned" fs e (md_poison _ _ _ _ _ (sh_mid _ _ _ _ _ _ _ _ _ Hsh)))|].
  flusher a; [within|spend].
Qed.

Lemma step_inputs i r n u q fs e T a h :
  (n <= length h)%nat -> shared fs e T a h (Inputs r) -> steps i (mkThread (Inputs r) (compact_job r) n u false) q fs e T h.
Proof.
  intros Hn Hsh. pose proof (read_state_ok fs e (md_poison _ _ _ _ _ (sh_mid _ _ _ _ _ _ _ _ _ Hsh))) as Hrun.
  assert (exists p', next g (Inputs r) (fs, e) = (p', (fs, e)) /\
    (p' = compact_returns r (Ok tt) \/ p' = ReadRuns r (inputs e) (inputs e) [] /\ levels (state e) <> [])) as (p' & Hnext & Hp').
  { runs Hrun. unfold inputs. destruct (levels (state e)) as [|[|j l0] ls]; cbn [head default]; eexists; (split; [done|]);
      [by left|by left|by right]. }
  exists p', fs, e. split; [done|]. destruct Hp' as [->|[-> Hl]]; flusher a.
  - by apply passes_compact.
  - by destruct r.
  - apply own_idle. right. by exists r.
  - destruct r; spend.
  - within.
  - split; [done| |done]. split; [done|]. by exists [].
  - pose proof (inputs_length e). spend.
Qed.

Lemma read_run_mid fs e T a fl l i :
  mid_ok fs e T a fl -> heap_ok K fs e T -> live e l i ->
  exists e', read_run i (fs, e) = (Ok (run_of (handles e) T i), (fs, e')) /\ reopened e e' /\
    mid_ok fs e' T a fl /\ heap_ok K fs e' T /\ ready e' i.
Proof.
  intros Hok Hheap Hl. pose proof (hp_live _ _ _ _ Hheap l i Hl) as HK. pose proof Hl as (ids & Hids & Hi).
  destruct (ta_handles _ _ _ (md_tables _ _ _ _ _ Hok) l ids i Hids Hi) as (hd & Hhd & Hho & _).
  destruct (open_usable K fs e T a fl i hd Hok Hheap HK Hhd) as (r & e' & hd' & Hopen & Hre & Hm & Hheap' & Hhd' & Hr).
  exists e'. split; [|split; [done|split; [done|split; [done|]]]].
  2: { exists hd'. split; [done|by exists r]. }
  pose proof (usable_reader _ _ _ _ (hp_usable _ _ _ _ Hheap' i hd' HK Hhd') Hr) as Hrd.
  pose proof (Reader.records_ok r _ (T i) fs (md_faults _ _ _ _ _ Hm) eq_refl Hrd) as Hrec.
  unfold read_run. rewrite (M_bind_ok _ _ _ _ _ Hopen), (M_bind_ok _ _ _ _ _ (on_fs_run _ fs e' _ _ Hrec)).
  rewrite (M_bind_ok _ _ _ _ _ (handle_at_ok fs e' i hd' Hhd')).
  unfold run_of. rewrite <- (cached_seq_of e e' i (proj1 Hre)). unfold seq_of. by rewrite Hhd'.
Qed.

Lemma step_read_run i r ins j todo runs n u q fs e T a h :
  shared fs e T a h (ReadRuns r ins (j :: todo) runs) -> flusher_ok fs e T (ReadRuns r ins (j :: todo) runs) ->
  steps i (mkThread (ReadRuns r ins (j :: todo) runs) (compact_job r) n u false) q fs e T h.
Proof.
  intros Hsh Hf. pose proof Hsh as [S1 S2 S3 S4 S5]. pose proof Hf as ([Hins _] & before & Hb & Hruns & _).
  destruct (inputs_live e j) as [l Hl].
  { rewrite <- Hins, Hb. apply elem_of_app. right. apply list_elem_of_here. }
  destruct (read_run_mid fs e T a _ l j S1 S3 Hl) as (e' & Hrun & Hre & Hm & Hheap & Hready).
  exists (ReadRuns r ins todo (runs ++ [run_of (handles e) T j])), fs, e'. split; [by runs Hrun|].
  apply (sound_reopened K m0 b0 g _ _ _ _ _ _ a); try done; [within| |apply (spends_reopened e); [done|spend]].
  pose proof (flusher_stable K fs e T fs e' T _ (reopened_rely fs e T e' Hre) S3 Hf) as (Hmg & before' & Hb' & _ & Hready').
  assert (before' = before) as -> by (rewrite Hb in Hb'; by apply app_inj_2 in Hb' as [-> _]).
  split; [done| |done]. split; [done|]. exists (before ++ [j]). split; [by rewrite <- app_assoc|].
  split; [|apply Forall_app; by split; [|constructor]]. rewrite fmap_app, Hruns. symmetry. f_equal; [|cbn; f_equal; unfold run_of; by rewrite (cached_seq_of e e' j (proj1 Hre))].
  apply list_fmap_ext. intros _ x _. unfold run_of. by rewrite (cached_seq_of e e' x (proj1 Hre)).
Qed.

Lemma step_merge i r ins runs n u q fs e T a h :
  len (records_bytes (concat (records <$> runs))) <= 2 ^ 60 ->
  shared fs e T a h (ReadRuns r ins [] runs) -> flusher_ok fs e T (ReadRuns r ins [] runs) ->
  steps i (mkThread (ReadRuns r ins [] runs) (compact_job r) n u false) q fs e T h.
Proof.
  intros Hsm Hsh (Hmg & before & -> & -> & Hready). rewrite app_nil_r in *. pose proof Hmg as [Hins _].
  pose proof (runs_mergeable fs e T (md_tables _ _ _ _ _ (sh_mid _ _ _ _ _ _ _ _ _ Hsh))) as Hmb. rewrite <- Hins in Hmb.
  destruct (merge_runs_ok _ Hmb) as (out & Hrun & Hout).
  exists (DrawMerged r before out), fs, e. split.
  { assert (lift (merge_runs (run_of (handles e) T <$> before)) (fs, e) = (Ok out, (fs, e))) as Hl
      by (unfold lift; by rewrite Hrun).
    by runs Hl. }
  flusher a; [within| |spend]. split; [done| |done]. split_and!; [done..|]. pose proof (merged_small _ _ Hout). lia.
Qed.
(** ** The merged table *)

Lemma step_draw_merged i r ins out n u q fs e T a h :
  next_seq e < u64_max -> shared fs e T a h (DrawMerged r ins out) -> flusher_ok fs e T (DrawMerged r ins out) ->
  steps i (mkThread (DrawMerged r ins out) (compact_job r) n u false) q fs e T h.
Proof.
  intros Hroom Hsh (Hmg & Hrd & Hout & Hsm). pose proof Hsh as [S1 _ S3 _ _]. pose proof (md_next _ _ _ _ _ S1) as Hnx.
  destruct out as [|x out].
  - exists (Swap r ins None), fs, e. split; [done|]. flusher a; [within|spend].
  - exists (BuildMerged r ins (x :: out) (next_seq e)), fs, (drawn e). split; [cbn [ctl next write_step flush_step worker_step compact_step get_step is_nil]; by runs (fetch_add_seq_ok fs e ltac:(lia))|].
    apply (sound_counted _ _ _ _ _ _ _ _ _ _ a); try done; [by apply counted_drawn|within| |spend].
    split; [done| |done]. split_and!; try done. eapply next_table; [done|lia].
Qed.

(** A table that is not live yet. *)
Lemma alloc_mid fs e T a fl hd rs :
  mid_ok fs e T a fl -> mid_ok fs (set_handles (handles e ++ [hd]) e) (set_T T (length (handles e)) rs) a fl.
Proof.
  intros [F1 F2 F3 F4 F5 [M1 M2 M3] F7 [W1 W2 W3 W4 W5]]. split; try done. by apply tables_ok_alloc.
Qed.

Lemma alloc_manifest fs e T a fl hd :
  mid_ok fs e T a fl -> manifest_current fs e -> manifest_current fs (set_handles (handles e ++ [hd]) e).
Proof.
  intros Hok. unfold manifest_current. replace (live_metas (set_handles (handles e ++ [hd]) e)) with (live_metas e); [done|].
  unfold live_metas. cbn [handles state set_handles]. apply list_fmap_ext. intros l ids Hl. apply list_fmap_ext.
  intros x i Hi. unfold meta_at. rewrite lookup_app_l; [done|].
  eapply live_alloc; [apply Hok|exact Hl|by eapply list_elem_of_lookup_2].
Qed.

Lemma alloc_view fs e T a fl hd rs k :
  mid_ok fs e T a fl ->
  view (set_handles (handles e ++ [hd]) e) (set_T T (length (handles e)) rs) k = view e T k.
Proof.
  intros Hok. unfold view, sources. rewrite !first_some_app. cbn [mems state set_handles].
  destruct (first_some _ k); [done|]. f_equal. apply first_some_ext, table_sources_set_T.
  intros l ids j Hl Hj. eapply live_alloc; [apply Hok|done|done].
Qed.

Lemma alloc_beneath fs e T a fl hd rs k :
  mid_ok fs e T a fl ->
  beneath (set_handles (handles e ++ [hd]) e) (set_T T (length (handles e)) rs) k = beneath e T k.
Proof.
  intros Hok. rewrite !beneath_unseated. unfold view, sources. rewrite !first_some_app. cbn [mems state set_handles].
  destruct (first_some _ k); [done|]. f_equal. apply first_some_ext, table_sources_set_T.
  intros l ids j Hl Hj. eapply live_alloc; [apply Hok|done|done].
Qed.

Lemma alloc_runs e T hd rs (ins : list nat) :
  Forall (fun i => (i < length (handles e))%nat) ins ->
  run_of (handles e ++ [hd]) (set_T T (length (handles e)) rs) <$> ins = run_of (handles e) T <$> ins.
Proof.
  intros Hal. rewrite Forall_forall in Hal. apply list_fmap_ext. intros x i Hi%list_elem_of_lookup_2%Hal.
  unfold run_of, set_T. by rewrite seq_of_app, decide_False by lia.
Qed.

Lemma alloc_ready e hd ins : Forall (ready e) ins -> Forall (ready (set_handles (handles e ++ [hd]) e)) ins.
Proof.
  intros Hi. eapply Forall_impl; [exact Hi|]. intros i (hi & Hhi & Ho). exists hi. split; [by apply lookup_app_l_Some|done].
Qed.

Lemma inputs_alloc fs e T a fl :
  mid_ok fs e T a fl -> Forall (fun i => (i < length (handles e))%nat) (inputs e).
Proof.
  intros Hok. apply Forall_forall. intros i (l & ids & Hl & Hi)%inputs_live.
  by eapply live_alloc; [apply Hok|..].
Qed.

Lemma step_build_merged i r ins out s n u q fs e T a h :
  shared fs e T a h (BuildMerged r ins out s) -> flusher_ok fs e T (BuildMerged r ins out s) ->
  steps i (mkThread (BuildMerged r ins out s) (compact_job r) n u false) q fs e T h.
Proof.
  intros Hsh (Hmg & Hrd & Hout & Hsm & Hne & Hs). pose proof Hsh as [S1 S2 S3 S4 S5]. pose proof Hs as [Hlt Hold].
  pose proof (md_next _ _ _ _ _ S1) as Hnx. pose proof Hmg as [Hins Hlev].
  pose proof (merged_capped fs e T out (md_tables _ _ _ _ _ S1) ltac:(by rewrite <- Hins)) as Hcap.
  destruct (build_merged_ok fs e out s (md_faults _ _ _ _ _ S1) (md_fs _ _ _ _ _ S1) (mg_sorted _ _ Hout) Hcap Hsm)
    as (fs' & Hrun & Htw).
  set (hd := new_handle 1 s out) in *. set (e' := set_handles (handles e ++ [hd]) e) in *.
  set (T' := set_T T (length (handles e)) out).
  exists (Swap r ins (Some (length (handles e)))), fs', e'. split; [by runs Hrun|].
  destruct (fresh_files K fs e T 1 s _ fs' S3 Hs ltac:(lia) ltac:(lia) Htw) as [HN Hw].
  pose proof (tw_keeps _ _ _ _ _ Htw) as Hk.
  destruct (build_step_kept 1 s _ _ _ _ _ _ _ S1 (fresh_above K _ _ _ _ _ _ S1 S3 Hs) ltac:(lia) ltac:(lia) Htw) as [Hm Hman].
  destruct (tw_file _ _ _ _ _ Htw) as (ino & Hd & Htab).
  assert (handle_ok fs' 1 hd out) as Hnew by (eapply new_handle_ok; [lia|done..]).
  pose proof (inputs_alloc _ _ _ _ _ S1) as Hal. rewrite <- Hins in Hal.
  unfold ThreadStep.sound. cbn [ctl job since emits]. rewrite app_nil_r. exists T', a.
  assert (heap_ok K fs' e' T') as Hheap
    by (apply heap_alloc; [eapply heap_keeps; [exact Hk|done|done]|done|lia|lia|exact Hold]).
  unfold point. cbn [under takes holds is_lock orb]. split_and!; [within| | | | | | |].
  - split; [by apply alloc_mid|intros _; eapply alloc_manifest; [done|by apply Hman, S2]|done| |].
    + intros k. rewrite <- S4. by eapply alloc_view.
    + intros k. unfold e', T'. by rewrite (alloc_beneath _ _ _ _ _ _ _ _ S1).
  - split; [done| |done]. cbn [ThreadInv.flusher_ok]. unfold T', e'. cbn [handles set_handles].
    rewrite alloc_runs by done. split; [done|]. split; [by apply alloc_ready|]. unfold set_T at 1. rewrite decide_True by done.
    split; [done|]. split; [intros Hin; rewrite Forall_forall in Hal; specialize (Hal _ Hin); lia|].
    split; [by apply (hp_new _ _ _ _ S3)|]. exists hd. rewrite lookup_app_r, Nat.sub_diag by done. cbn.
    split_and!; [done|done|by exists ino].
  - by apply (evolves_alloc m0 _ _ _ _ hd).
  - done.
  - intros _. by split.
  - spend.
  - split; [|done]. apply (on_disk_evolves K m0 fs e T h fs' e' T' []); try done.
    + apply S1.
    + by apply (evolves_alloc m0 _ _ _ _ hd).
    + apply (kp_kept _ _ _ Hk), table_names. by right.
    + by intros w ?%not_elem_of_nil.
    + intros i0 hd0 HK Hhd0 _. by rewrite (proj1 (kp_kept _ _ _ Hk _ (HN i0 hd0 HK Hhd0))).
Qed.

(** ** The commit of a compaction *)

Lemma compacted_mid fs e T a fl ls :
  mid_ok fs e T a fl -> tables_ok fs (compacted e ls) T -> mid_ok fs (compacted e ls) T a fl.
Proof. intros [F1 F2 F3 F4 F5 [M1 M2 M3] F7 [W1 W2 W3 W4 W5]] Ht. by split. Qed.

Lemma tables_ok_single fs e T i hd :
  handles e !! i = Some hd -> handle_ok fs 1 hd (T i) -> Manifest.seq (meta hd) < next_seq e ->
  tables_ok fs (compacted e [[]; [i]]) T.
Proof.
  intros Hhd Hh Hs. split; cbn [compacted set_state state levels handles next_seq].
  - simpl. lia.
  - intros [|[|l]] ids j Hl Hj; cbn in Hl; simplify_eq; [by apply not_elem_of_nil in Hj|].
    apply list_elem_of_singleton in Hj as ->. by exists hd.
  - intros [|[|l]] ids Hl; cbn in Hl; simplify_eq; by repeat constructor.
  - intros ids0 ids1 x y H0 _ Hx. cbn in H0. simplify_eq. by apply not_elem_of_nil in Hx.
Qed.

(** What the swap makes of the levels. *)
Definition swapped (output : option nat) : list (list nat) :=
  match output with Some i => [[]; [i]] | None => [[]] end.

Lemma swap_run fs e T a fl output :
  mid_ok fs e T a fl -> levels (state e) <> [] ->
  with_lock StateLock "state lock poisoned" (write_state (commit_compact output)) (fs, e) =
    (Ok tt, (fs, compacted e (swapped output))).
Proof.
  intros Hok Hne. pose proof (md_poison _ _ _ _ _ Hok) as Hp.
  pose proof (ta_levels _ _ _ (md_tables _ _ _ _ _ Hok)) as Hlen.
  destruct (levels (state e)) as [|l0 ls] eqn:Hl; [done|]. apply with_lock_ok; [done| |done].
  apply write_state_ok; [done| |done]. destruct output as [i|]; [|by eapply commit_compact_none].
  eapply commit_compact_some; [done|]. simpl in Hlen. lia.
Qed.

(** The table a compaction ends with holds what its inputs held. *)
Lemma swap_ok_mid fs e T a fl r ins output :
  mid_ok fs e T a fl -> heap_ok K fs e T -> flusher_ok fs e T (Swap r ins output) ->
  tables_ok fs (compacted e (swapped output)) T /\
  (forall k, first_some (table_sources T (swapped output)) k ≫= entry_value =
    first_some (table_sources T (levels (state e))) k ≫= entry_value) /\
  (forall l i, live (compacted e (swapped output)) l i -> K i /\ (i ∉ ins)).
Proof.
  intros Hok Hheap Hf. pose proof (md_tables _ _ _ _ _ Hok) as Ht. destruct output as [i|].
  - destruct Hf as ([-> Hne] & _ & Hout & Hi & HK & hd & Hhd & Hl & Hfile).
    destruct (hp_usable _ _ _ _ Hheap i hd HK Hhd) as [_ [[l Hho]|Hg]].
    2: { rewrite (go_path _ _ _ Hg) in Hfile. by destruct Hfile. }
    assert (l = 1%nat) as -> by (pose proof (ho_level _ _ _ _ Hho); lia).
    split; [eapply tables_ok_single; [done|done|by eapply (hp_next _ _ _ _ Hheap)]|]. split.
    + intros k. rewrite <- (merged_view fs e T (T i) k Ht Hout). cbn. by destruct (record_entry (T i) k).
    + intros [|[|l]] j (ids & Hl' & Hj); cbn in Hl'; simplify_eq; [by apply not_elem_of_nil in Hj|].
      apply list_elem_of_singleton in Hj as ->. done.
  - destruct Hf as ([-> Hne] & _ & Hout). split; [by apply tables_ok_none|]. split.
    + intros k. by rewrite <- (merged_view fs e T [] k Ht Hout).
    + intros [|l] j (ids & Hl' & Hj); cbn in Hl'; [|done]. simplify_eq. by apply not_elem_of_nil in Hj.
Qed.

(** A compaction leaves no more tables than it found. *)
Lemma swapped_tables fs e T a fl r ins output :
  mid_ok fs e T a fl -> heap_ok K fs e T -> flusher_ok fs e T (Swap r ins output) ->
  (length (concat (swapped output)) <= length (concat (levels (state e))))%nat.
Proof.
  intros Hok Hheap Hf. destruct output as [i|]; [|simpl; lia].
  destruct Hf as ([-> Hne] & _ & Hout & _ & HK & hd & Hhd & _ & Hfile).
  destruct (hp_usable _ _ _ _ Hheap i hd HK Hhd) as [_ [[l Hho]|Hg]].
  2: { rewrite (go_path _ _ _ Hg) in Hfile. by destruct Hfile. }
  pose proof (ho_min _ _ _ _ Hho) as Hmin. destruct (T i) as [|x rs]; [done|].
  destruct (mg_from _ _ Hout x (list_elem_of_here _ _)) as (_ & run & Hrun & _).
  apply list_elem_of_fmap in Hrun as (j & -> & Hj). pose proof (inputs_length e) as Hle. unfold tables in Hle.
  destruct (inputs e); [by apply not_elem_of_nil in Hj|]. simpl in *. lia.
Qed.

Lemma step_swap i r ins output n u q fs e T a h :
  shared fs e T a h (Swap r ins output) -> flusher_ok fs e T (Swap r ins output) ->
  steps i (mkThread (Swap r ins output) (compact_job r) n u false) q fs e T h.
Proof.
  intros Hsh Hf. pose proof Hsh as [S1 S2 S3 S4 S5]. cbn [logs_of] in S1.
  destruct (swap_ok_mid fs e T a _ r ins output S1 S3 Hf) as (Ht & Hv & Hl).
  assert ((ins = inputs e /\ levels (state e) <> []) /\ Forall (ready e) ins) as [[Hins Hne] Hrd]
    by (destruct output; destruct Hf as (? & ? & _); done).
  exists (CompactManifest r ins), fs, (compacted e (swapped output)). split.
  { by runs (swap_run fs e T a [] output S1 Hne). }
  unfold ThreadStep.sound. cbn [ctl job since emits]. rewrite app_nil_r. exists T, a.
  unfold point. cbn [under takes holds is_lock orb]. split_and!; [within| | | | | | |].
  - split; [by apply compacted_mid|done| | |].
    + apply (heap_engine K fs e); [done|done|intros l j Hj; by eapply Hl|done].
    + intros k. rewrite <- S4. by apply view_tables.
    + intros k. rewrite beneath_unseated. rewrite (view_tables (unseated e) _ T T k); [apply S5|done..|apply Hv].
  - split; [done| |done]. cbn. apply Forall_forall. intros j Hj. split_and!.
    + rewrite Hins in Hj. apply inputs_live in Hj as [l Hj]. by eapply (hp_live _ _ _ _ S3).
    + rewrite Forall_forall in Hrd. by apply Hrd.
    + intros l Hlv. by destruct (Hl l j Hlv).
  - by apply evolves_same.
  - done.
  - intros _. by split.
  - pose proof (swapped_tables fs e T a _ r ins output S1 S3 Hf) as Hle. unfold spends, waiting, tables in *. cbn in *.
    split; [lia|]. split; [lia|]. intros D M. lia.
  - split; [|done]. by apply on_disk_swapped.
Qed.

Lemma step_compact_manifest i r ins n u q fs e T a h :
  shared fs e T a h (CompactManifest r ins) -> flusher_ok fs e T (CompactManifest r ins) ->
  steps i (mkThread (CompactManifest r ins) (compact_job r) n u false) q fs e T h.
Proof.
  intros Hsh Hf. destruct (manifest_step K m0 b0 g _ _ _ _ [] _ _ (RemoveInputs r ins) Hsh eq_refl eq_refl eq_refl)
    as (fs' & Hrun & _ & Hsound).
  exists (RemoveInputs r ins), fs', e. split; [by runs Hrun|]. apply Hsound; try done; [within|spend].
Qed.

Lemma step_compacted i r n u q fs e T a h :
  (n <= length h)%nat -> shared fs e T a h (RemoveInputs r []) ->
  steps i (mkThread (RemoveInputs r []) (compact_job r) n u false) q fs e T h.
Proof.
  intros Hn Hsh. exists (compact_returns r (Ok tt)), fs, e. split; [done|].
  flusher a; [by apply passes_compact|by destruct r| |destruct r; spend]. apply own_idle. right. by exists r.
Qed.

Lemma step_remove_input i r j todo n u q fs e T a h :
  shared fs e T a h (RemoveInputs r (j :: todo)) -> flusher_ok fs e T (RemoveInputs r (j :: todo)) ->
  steps i (mkThread (RemoveInputs r (j :: todo)) (compact_job r) n u false) q fs e T h.
Proof.
  intros Hsh Hf. pose proof Hsh as [S1 S2 S3 S4 S5]. cbn in Hf. apply Forall_cons in Hf as [(HK & (hd & Hhd & Hop) & Hdead) Hf].
  pose proof (md_faults _ _ _ _ _ S1) as Hfl. pose proof (md_fs _ _ _ _ _ S1) as Hwf.
  pose proof (keeps_remove (path hd) fs Hfl Hwf) as Hk. set (fs' := set_dirents _ fs) in *.
  assert ((h0 ← handle_at j; ignore (on_fs (fs_remove_file (path h0)))) (fs, e) = (Ok tt, (fs', e))) as Hrun.
  { rewrite (M_bind_ok _ _ _ _ _ (handle_at_ok fs e j hd Hhd)). by apply ignore_remove_run. }
  exists (RemoveInputs r todo), fs', e. split; [by runs Hrun|].
  pose proof (named_initial _ (proj1 (hp_usable _ _ _ _ S3 j hd HK Hhd))) as Hini.
  unfold ThreadStep.sound. cbn [ctl job since emits]. rewrite app_nil_r. exists T, a.
  unfold point. cbn [under takes holds is_lock orb]. split_and!.
  - within.
  - split.
    + apply (removed_mid fs e T a [] fs' (eq (path hd))); [done|done| |].
      * intros x. cbn. rewrite lookup_delete. by case_decide; [intros []|].
      * intros x <-. split; [done|]. intros (l & j' & hd' & Hl & Hhd' & Hp).
        assert (j' = j) as -> by (eapply (hp_path _ _ _ _ S3); [by eapply (hp_live _ _ _ _ S3)|done..]).
        by apply (Hdead l).
    + intros _. eapply manifest_current_kept; [|by apply S2]. apply (kp_kept _ _ _ Hk).
      intros Heq. rewrite Heq, initial_manifest in Hini. done.
    + by eapply heap_removed.
    + done.
    + done.
  - split; [done| |done]. exact Hf.
  - by apply evolves_same.
  - done.
  - intros _. split; try done. intros w Hw. cbn. rewrite lookup_delete. by case_decide.
  - spend.
  - split; [|done]. apply (on_disk_evolves K m0 fs e T h fs' e T []); try done.
    + apply S1.
    + by eapply heap_removed.
    + by apply evolves_same.
    + apply (kp_kept _ _ _ Hk). intros Heq. rewrite Heq, initial_manifest in Hini. done.
    + by intros w ?%not_elem_of_nil.
    + intros i0 hd0 HK0 Hhd0 [|[l Hl]] [x Hx]; [done|]. cbn. rewrite lookup_delete. case_decide as Hp; [|by eexists].
      assert (i0 = j) as -> by (by eapply (hp_path _ _ _ _ S3)). by destruct (Hdead l).
Qed.
End compact.
