(* ===== verification/ThreadWrite.v ===== *)
(** * The steps of a write, and of the first half of [flush] *)

From S2P Require Import Prelude Outcome External Fs MemTable Wal WalWriter WalReader.
From S2P Require Import StdVec SstRecord SstIndex Bloom Builder Reader Merge Manifest.
From S2P Require Import Names KvSpec Engine EngineSpec EngineGet EnginePut EngineFlush EngineCommit.
From S2P Require Import EngineCompact EngineRefine Threads ThreadHeap ThreadInv ThreadDisk ThreadCost ThreadStep ThreadFlush.

(** Requests with a write answer with nothing. *)
Lemma effect_plain r w : effect r = [w] -> plain r.
Proof. intros He m. destruct r; cbn in *; by try destruct (oversize _ _). Qed.

Section write.
Context {C : Crc32} {SM : SkipMap Entry} {FB : FastBloom} {AL : Allocator}.
Context (K : nat -> Prop) (m0 : kvmap) (b0 : bytes -> option bytes) (g : gap).

Abbreviation shared := (shared K m0 b0).
Abbreviation evolves := (evolves m0).
Abbreviation reader_ok := (reader_ok K m0 b0).
Abbreviation flusher_ok := (flusher_ok K).
Abbreviation steps := (steps K m0 b0 g).
Abbreviation sound := (sound K m0 b0 g).
Abbreviation own := (own K m0 b0 false).
Abbreviation passes := (passes m0 b0 false).

(** ** A change of the active log and of the active memtable *)

Definition logged (e : LsmEngineInner) (w : WalWriter) (ms : list MemTable) : LsmEngineInner :=
  set_mems ms (set_wal (mkActiveWal w (seq (wal e))) e).

Lemma logged_kept fs e T a fl fs' x b :
  mid_ok fs e T a fl -> touches (bw_file (ww_file (writer (wal e)))) fs fs' ->
  initial x = Some b -> b <> x77 -> kept x fs fs'.
Proof.
  intros Hok Ht Hx Hb. eapply kept_wal_others; [done..|]. intros ->. rewrite initial_wal in Hx. congruence.
Qed.

Lemma logged_beneath e w ms T a k :
  mems_ok e a -> (forall i, i <> a -> ms !! i = mems e !! i) -> beneath (logged e w ms) T k = beneath e T k.
Proof.
  intros [_ _ Hnd] Hms. unfold beneath, asks. cbn [logged mems set_mems set_wal state]. f_equal.
  apply first_some_ext, Forall2_app; [|by apply Forall_Forall2_diag, Forall_forall].
  apply Forall2_fmap, Forall_Forall2_diag, Forall_forall. intros p Hp. rewrite elem_of_reverse in Hp.
  unfold mem_entry. rewrite Hms; [done|]. intros <-. apply NoDup_cons in Hnd as [Hnd _]. apply Hnd.
  by apply list_elem_of_fmap_2.
Qed.

Lemma logged_shared fs e T a h h' q fs' w ms :
  shared fs e T a h q -> touches (bw_file (ww_file (writer (wal e)))) fs fs' ->
  mid_ok fs' (logged e w ms) T a (logs_of q) -> (forall k, view (logged e w ms) T k = replay m0 h' !! k) ->
  (forall i, i <> a -> ms !! i = mems e !! i) -> h `prefix_of` h' -> shared fs' (logged e w ms) T a h' q.
Proof.
  intros [S1 S2 S3 S4 S5] Ht Hm Hv Hms [evs ->]. split; [done| | |done|].
  - intros Hs. eapply logged_manifest; [exact S1|done|by apply S2].
  - apply (heap_engine K fs' e); [done|done|apply (hp_live _ _ _ _ S3)|].
    destruct (wm_active _ _ _ _ (md_wals _ _ _ _ _ S1)) as (t & _ & Hd & _).
    eapply heap_keeps; [exact (keeps_touches _ _ _ _ (md_fs _ _ _ _ _ S1) Hd Ht)| |done].
    intros i hd HK Hhd Heq. pose proof (named_initial _ (proj1 (hp_usable _ _ _ _ S3 i hd HK Hhd))) as Hi.
    by rewrite <- Heq, initial_wal in Hi.
  - intros k. rewrite (logged_beneath e w ms T a k); [by apply past_app|apply S1|done].
Qed.

Lemma logged_rely fs e T a fl fs' w ms :
  mid_ok fs e T a fl -> touches (bw_file (ww_file (writer (wal e)))) fs fs' ->
  (forall i, i <> a -> ms !! i = mems e !! i) -> rely_flush fs e T fs' (logged e w ms) T.
Proof.
  intros Hok Ht Hms. destruct (rely_refl fs e T) as [_ _ _ H4 _ _ _ _]. split; try done.
  - intros p Hp. apply Hms. intros Heq. pose proof (mo_distinct _ _ (md_mems _ _ _ _ _ Hok)) as Hnd.
    apply NoDup_cons in Hnd as [Hnd _]. apply Hnd. rewrite <- Heq. by apply list_elem_of_fmap_2.
  - intros x Hx. eapply logged_kept; [done..|]. done.
Qed.

(** The logs of flushed memtables are older than the active one. *)
Lemma flushed_before fs e T a fl s :
  mid_ok fs e T a fl -> s ∈ fl -> 0 <= s < seq (wal e) /\ seq (wal e) <= u64_max.
Proof.
  intros Hok Hs. pose proof (wm_sorted _ _ _ _ (md_wals _ _ _ _ _ Hok)) as Hsort.
  pose proof (wm_range _ _ _ _ (md_wals _ _ _ _ _ Hok)) as Hrg. pose proof (md_next _ _ _ _ _ Hok).
  rewrite Forall_forall in Hrg. pose proof (Hrg s ltac:(apply elem_of_app; by left)).
  pose proof (Hrg (seq (wal e)) ltac:(unfold live_wals; set_solver)).
  unfold live_wals in Hsort. rewrite app_assoc in Hsort. apply StronglySorted_app in Hsort as (Hlt & _ & _).
  specialize (Hlt s (seq (wal e)) ltac:(apply elem_of_app; by left) (list_elem_of_here _ _)). lia.
Qed.

(** The directory of the flush's holder, who may be another thread. *)
Lemma logged_spares fs e T a h h' q fs' w ms evs :
  shared fs e T a h q -> touches (bw_file (ww_file (writer (wal e)))) fs fs' ->
  shared fs' (logged e w ms) T a h' q -> evolves e T h (logged e w ms) T evs ->
  (durable_log e -> bw_buf (ww_file w) = []) -> spares K fs e T q fs' (logged e w ms) T q.
Proof.
  intros [S1 S2 S3 S4 S5] Ht Hsh' Hev Hub. split; [|intros [Hs Hu]; split; [done|by apply Hub]].
  apply (on_disk_evolves K m0 fs e T h _ _ _ evs); try done; [apply S1|apply Hsh'|..].
  - eapply logged_kept; [done..|apply initial_manifest|done].
  - intros s Hs. eapply kept_wal_others; [done..|]. destruct (flushed_before _ _ _ _ _ s S1 Hs) as [H1 H2].
    intros Heq%wal_name_inj; lia.
  - intros i hd HK Hhd _. pose proof (named_initial _ (proj1 (hp_usable _ _ _ _ S3 i hd HK Hhd))) as Hi.
    by rewrite (proj1 (logged_kept _ _ _ _ _ _ _ _ S1 Ht Hi ltac:(done))).
Qed.

(** ** The sync of [flush] *)

Lemma step_sync i n u q fs e T a h :
  shared fs e T a h q -> steps i (mkThread SyncLog ReqFlush n u false) q fs e T h.
Proof.
  intros Hsh. pose proof Hsh as [S1 S2 S3 S4 S5].
  destruct (sync_writer_ok fs e (md_faults _ _ _ _ _ S1)) as (fs' & w & Hrun & HB & HT & Hbuf & HL & _).
  exists (Freeze Sealing), fs', (logged e w (mems e)). split.
  { assert (with_lock WalLock "wal lock poisoned" (on_writer sync) (fs, e) = (Ok tt, (fs', logged e w (mems e)))) as Hl
      by (apply with_lock_ok; [apply S1|exact Hrun|done]).
    by runs Hl. }
  unfold ThreadStep.sound. cbn [ctl job since emits]. rewrite app_nil_r. exists T, a. unfold point.
  assert (shared fs' (logged e w (mems e)) T a h q) as Hsh'
    by (apply (logged_shared fs e T a h); try done; exact (synced_mid fs e T a _ fs' w S1 HB HT HL)).
  cbn [under takes holds is_lock orb]. split_and!; [within|done|done| | |done|spend|].
  - by apply evolves_same.
  - intros _. by eapply logged_rely.
  - eapply (logged_spares fs e T a h); try done. by apply (evolves_same m0 _ _ _ _ []).
Qed.

(** ** Logging and applying a write *)

Lemma log_and_apply_ok fs e T a fl k v (d : bool) :
  mid_ok fs e T a fl -> let en := mkWalEntry (if d then Delete else Put) k v in encodable en ->
  exists fs' w t t', mems e !! a = Some t /\
    log_and_apply k v d (fs, e) = (Ok (a, replaced k t), (fs', logged e w (<[a := t']> (mems e)))) /\
    logs (frame en) fs (writer (wal e)) fs' w /\
    (sync_per_write (options e) = true -> bw_buf (ww_file w) = []) /\
    forall k', get_entry t' k' = if decide ((entry_mutation en).1 = k') then Some (entry_mutation en).2 else get_entry t k'.
Proof.
  intros Hok en Hen. pose proof (md_faults _ _ _ _ _ Hok) as Hf. pose proof (md_mems _ _ _ _ _ Hok) as [Ha _ _].
  destruct (wm_active _ _ _ _ (md_wals _ _ _ _ _ Hok)) as (t & Hta & _).
  destruct (append_ok fs (writer (wal e)) en Hf Hen) as (fs1 & w1 & H1 & B1 & _ & T1 & L1).
  assert (exists fs2 w2, (if sync_per_write (options e) then on_writer sync else mret tt)
      (fs1, set_wal (mkActiveWal w1 (seq (wal e))) e) = (Ok tt, (fs2, set_wal (mkActiveWal w2 (seq (wal e))) e)) /\
    logs (frame en) fs (writer (wal e)) fs2 w2 /\
    (sync_per_write (options e) = true -> bw_buf (ww_file w2) = [])) as (fs2 & w2 & H2 & HL2 & Hbuf).
  { destruct (sync_per_write (options e)); [|by exists fs1, w1].
    destruct (sync_logs fs1 w1 (touches_faults _ _ _ T1)) as (fs2 & w2 & H2 & L2 & Hb2). exists fs2, w2. split; [|split; [|done]].
    - by rewrite (on_writer_ok sync fs1 (set_wal (mkActiveWal w1 (seq (wal e))) e) tt fs2 w2 H2).
    - rewrite <- (app_nil_r (frame en)). by eapply logs_trans. }
  destruct (mutate_ok en t Hen) as (t' & Hm & Hget).
  assert (mutate en = (if d then MemTable.delete k else MemTable.put k v)) as Hmut by (by destruct d).
  rewrite Hmut in Hm. set (e2 := set_wal (mkActiveWal w2 (seq (wal e))) e).
  exists fs2, w2, t, t'. split; [done|]. split; [|split; [done|split; done]]. unfold log_and_apply.
  rewrite (M_bind_ok _ _ _ _ _ (on_writer_ok _ fs e tt fs1 w1 H1)). mstep. cbn [snd options set_wal].
  rewrite (M_bind_ok _ _ _ _ _ H2).
  rewrite (M_bind_ok _ _ _ _ _ (snapshot_active_ok fs2 e2 a (md_poison _ _ _ _ _ Hok) Ha)).
  rewrite (M_bind_ok _ _ _ _ _ (mem_at_ok fs2 e2 a t Hta)).
  by rewrite (M_bind_ok _ _ _ _ _ (on_mem_ok a _ fs2 e2 t t' tt Hta Hm)).
Qed.

Lemma replay_wrote h i j k v (d : bool) k' :
  kind (Write k v d) j -> oversize k v = None ->
  let en := mkWalEntry (if d then Delete else Put) k v in
  replay m0 (h ++ [(i, j)]) !! k' =
    if decide ((entry_mutation en).1 = k') then entry_value (entry_mutation en).2 else replay m0 h !! k'.
Proof.
  intros Hj Hsz en. rewrite replay_app. cbn [foldl snd]. destruct d; cbn in Hj.
  - destruct Hj as [-> ->]. cbn [spec_next]. rewrite Hsz. by rewrite lookup_delete.
  - subst j. cbn [spec_next]. rewrite Hsz. by rewrite lookup_insert.
Qed.

Lemma kind_effect k v d j : kind (Write k v d) j -> oversize k v = None -> effect j = [j].
Proof. destruct d; cbn; [intros [-> ->] H|intros -> H]; cbn; by rewrite H. Qed.

Lemma kind_writes k v d j : kind (Write k v d) j -> writes_key k j.
Proof. destruct d; cbn; [intros [_ ->]; by right|intros ->; left; by exists v]. Qed.

Lemma replaced_key k t k' : replaced k t = Some k' -> k' = k.
Proof. unfold replaced. destruct (get_entry t k); congruence. Qed.

(** The entry is logged and inserted. *)
Lemma step_write_ok i j k v d n u q fs e T a h :
  (n <= length h)%nat -> kind (Write k v d) j -> oversize k v = None -> shared fs e T a h q ->
  steps i (mkThread (Write k v d) j n u false) q fs e T h.
Proof.
  intros Hn Hj Hsz Hsh. pose proof Hsh as [S1 S2 S3 S4 S5]. pose proof (kind_effect _ _ _ _ Hj Hsz) as Heff.
  pose (en := mkWalEntry (if d then Delete else Put) k v).
  assert (encodable en) as Hen.
  { apply oversize_None in Hsz as [Hk Hv]. destruct d; cbn in Hj; [destruct Hj as [-> _]|]; by split; [split|]. }
  destruct (log_and_apply_ok fs e T a _ k v d S1 Hen) as (fs' & w & t & t' & Hta & Hrun & HL & Hbuf & Hget). fold en in HL, Hget.
  pose proof HL as (HB & HT & _). set (e' := logged e w (<[a := t']> (mems e))) in *.
  exists (Applied a (replaced k t)), fs', e'. split.
  { assert (with_lock WalLock "wal lock poisoned" (log_and_apply k v d) (fs, e) = (Ok (a, replaced k t), (fs', e'))) as Hl
      by (apply with_lock_ok; [apply S1|exact Hrun|done]).
    by runs Hl. }
  unfold ThreadStep.sound. cbn [ctl job since missed emits]. exists T, a. unfold point. cbn [under takes holds is_lock orb].
  assert (forall x, x <> a -> <[a := t']> (mems e) !! x = mems e !! x) as Hothers
    by (intros x Hx; by rewrite list_lookup_insert_ne).
  assert (forall k', view e' T k' = replay m0 (h ++ [(i, j)]) !! k') as Hv.
  { intros k'. rewrite (replay_wrote h i j k v d k' Hj Hsz). fold en. rewrite <- S4.
    eapply (applied_view e T a t); [apply S1|done|done]. }
  assert (shared fs' e' T a (h ++ [(i, j)]) q) as Hsh'
    by (apply (logged_shared fs e T a h); try done; [by eapply applied_mid|by exists [(i, j)]]).
  assert (evolves e T h e' T [(i, j)]) as Hevo.
  { split; try done.
    - intros x tx Htx. cbn. destruct (decide (a = x)) as [<-|Hne].
      + exists t'. rewrite list_lookup_insert_eq by (by eapply lookup_lt_Some). split_and!; [done| |].
        * intros Hna. by rewrite (mo_active _ _ (md_mems _ _ _ _ _ S1)) in Hna.
        * intros k'. rewrite Hta in Htx. injection Htx as <-. rewrite Hget. case_decide as Hk'; [right|by left].
          exists (entry_mutation en).2. split; [done|]. rewrite (replay_wrote h i j k v d k' Hj Hsz). fold en.
          by rewrite decide_True by done.
      + exists tx. rewrite list_lookup_insert_ne by done. split_and!; [done..|]. intros k'. by left.
    - intros x hd Hhd. by exists hd. }
  split_and!; [|done| |done| |done|spend|].
  - split.
    + split; [done|]. intros k' ->%replaced_key. by eapply kind_writes.
    + cbn [written applied_by omap]. unfold owns. cbn. by rewrite decide_True.
    + intros x Hx. unfold owns. cbn. by rewrite decide_False by done.
    + by intros [].
    + done.
  - split; [done..|]. exact (mo_active _ _ (md_mems _ _ _ _ _ S1)).
  - intros _. by eapply logged_rely.
  - eapply (logged_spares fs e T a h); try done. intros [Hs _]. by apply Hbuf.
Qed.

(** The test of the threshold. *)
Lemma step_applied i j x o n u q fs e T a h :
  (n <= length h)%nat -> kind (Applied x o) j -> shared fs e T a h q -> writer_ok fs e (Applied x o) ->
  steps i (mkThread (Applied x o) j n u false) q fs e T h.
Proof.
  intros Hn [Hj _] Hsh Hx. pose proof Hsh as [S1 S2 S3 S4 S5]. pose proof (md_next _ _ _ _ _ S1) as Hnx.
  cbn in Hx. rewrite (mo_active _ _ (md_mems _ _ _ _ _ S1)) in Hx. injection Hx as <-.
  destruct (wm_active _ _ _ _ (md_wals _ _ _ _ _ S1)) as (t & Hta & _).
  assert (exists b, is_full a (fs, e) = (Ok b, (fs, e))) as [b Hrun]
    by (eexists; unfold is_full; rewrite (M_bind_ok _ _ _ _ _ (mem_at_ok fs e a t Hta)); by mstep).
  exists (if b then Freeze Full else Done (Ok None)), fs, e. split; [runs Hrun; by destruct b|].
  apply (sound_free _ _ _ _ _ _ _ _ _ _ _ _ _ _ a); try done.
  - apply counted_refl. lia.
  - apply passes_on; [by destruct b|by destruct b|by destruct b; intros []|].
    intros r Hr. destruct b; [done|]. injection Hr as <-. apply replied_plain; [by eapply effect_plain|done].
  - by destruct b.
  - destruct b; spend.
Qed.

(** A write that is too large. *)
Lemma step_write_refused i j k v d err n u q fs e T a h :
  (n <= length h)%nat -> kind (Write k v d) j -> oversize k v = Some err -> shared fs e T a h q ->
  steps i (mkThread (Write k v d) j n u false) q fs e T h.
Proof.
  intros Hn Hj Hsz Hsh. pose proof Hsh as [S1 S2 S3 S4 S5].
  destruct (append_oversize fs (writer (wal e)) (if d then Delete else Put) k v err Hsz) as (w & H1 & Hw).
  exists (Done (Err err)), fs, (logged e w (mems e)). split.
  { assert (with_lock WalLock "wal lock poisoned" (log_and_apply k v d) (fs, e) = (Err err, (fs, logged e w (mems e)))) as Hl.
    { apply with_lock_ok; [apply S1| |done]. unfold log_and_apply.
      by rewrite (M_bind_err _ _ _ _ _ (on_writer_err _ fs e err fs w H1)). }
    cbn [ctl next write_step flush_step worker_step compact_step get_step]. by rewrite (act_err _ _ _ _ _ _ _ Hl). }
  assert (effect j = [] /\ forall m, spec_reply j m = Err err) as [Heff Hrep].
  { destruct d; cbn in Hj; [destruct Hj as [-> ->]|subst j]; cbn; by rewrite Hsz. }
  assert (touches (bw_file (ww_file (writer (wal e)))) fs fs) as HT by (apply touches_refl, S1).
  unfold ThreadStep.sound. cbn [ctl job since emits]. rewrite app_nil_r. exists T, a. unfold point.
  assert (shared fs (logged e w (mems e)) T a h q) as Hsh'
    by (apply (logged_shared fs e T a h); try done; exact (scratch_mid fs e T a _ w S1 Hw)).
  cbn [under takes holds is_lock orb]. split_and!; [|done|done| | |done|spend|].
  - apply passes_on; [done|by cbn; rewrite Heff|by intros []|]. intros o [= <-]. exists (length h). split; [lia|].
    by rewrite Hrep.
  - by apply evolves_same.
  - intros _. by eapply logged_rely.
  - eapply (logged_spares fs e T a h); try done; [by apply (evolves_same m0 _ _ _ _ [])|]. intros [_ Hu]. by rewrite Hw.
Qed.

(** ** Freezing *)

Lemma passes_frozen i j n h why p' :
  (n <= length h)%nat -> kind (Freeze why) j -> p' = after_freeze why ->
  passes i j n h (Freeze why) p' [] /\ forall s, passes i j n h (Rotate why s) p' [].
Proof.
  intros Hn Hj ->. destruct why; cbn in Hj.
  - split; [|intros s]; (apply passes_on; [done..|by intros []|]);
      intros o [= <-]; (apply replied_plain; [by eapply effect_plain|done]).
  - split; [|intros s]; within.
Qed.

Lemma step_freeze i j why n u q fs e T a h :
  (n <= length h)%nat -> kind (Freeze why) j -> next_seq e < u64_max -> shared fs e T a h q ->
  steps i (mkThread (Freeze why) j n u false) q fs e T h.
Proof.
  intros Hn Hj Hroom Hsh. pose proof Hsh as [S1 S2 S3 S4 S5]. pose proof (md_next _ _ _ _ _ S1) as Hnx.
  pose proof (mo_active _ _ (md_mems _ _ _ _ _ S1)) as Ha.
  destruct (wm_active _ _ _ _ (md_wals _ _ _ _ _ S1)) as (t & Hta & _).
  pose proof (snapshot_active_ok fs e a (md_poison _ _ _ _ _ S1) Ha) as Hsnap. pose proof (mem_at_ok fs e a t Hta) as Hmem.
  destruct (MemTable.is_empty t) eqn:He.
  - exists (after_freeze why), fs, e. split.
    { assert (draw_log (fs, e) = (Ok None, (fs, e))) as Hl
        by (unfold draw_log; by rewrite (M_bind_ok _ _ _ _ _ Hsnap), (M_bind_ok _ _ _ _ _ Hmem), He).
      by runs Hl. }
    apply (sound_free _ _ _ _ _ _ _ _ _ _ _ _ _ _ a); try done.
    + apply counted_refl. lia.
    + by apply passes_frozen.
    + by destruct why.
    + destruct why; spend.
  - exists (Rotate why (next_seq e)), fs, (drawn e). split.
    { assert (draw_log (fs, e) = (Ok (Some (next_seq e)), (fs, drawn e))) as Hl.
      { unfold draw_log. rewrite (M_bind_ok _ _ _ _ _ Hsnap), (M_bind_ok _ _ _ _ _ Hmem), He.
        by rewrite (M_bind_ok _ _ _ _ _ (fetch_add_seq_ok fs e ltac:(lia))). }
      by runs Hl. }
    apply (sound_free _ _ _ _ _ _ _ _ _ _ _ _ _ _ a); try done; [by apply counted_drawn| | |destruct why; spend].
    + apply passes_on; [done|by destruct why|by intros []|done].
    + split; [done..|]. split; [by eapply drawn_fresh|]. exists a, t. split_and!; [done|done|].
      intros Hi. apply is_empty_iter in Hi. congruence.
Qed.

(** ** Rotating *)

Lemma counted_after e T h e' e'' evs :
  counted e' e'' -> evolves e T h e' T evs -> evolves e T h e'' T evs.
Proof. intros (n & x & -> & _) [H1 H2 H3 H4]. by split. Qed.

Lemma counted_after_rely fs e T fs' e' e'' :
  counted e' e'' -> rely_flush fs e T fs' e' T -> rely_flush fs e T fs' e'' T.
Proof. intros (n & x & -> & Hn) [H1 H2 H3 H4 H5 H6 H7 H8]. split; try done. cbn. lia. Qed.

(** All that was visible lies beneath the new memtable. *)
Lemma frozen_beneath s e T a t w k :
  mems_ok e a -> mems e !! a = Some t -> beneath (frozen_at s e a w) T k = view e T k.
Proof.
  intros Hm Hta. rewrite <- (frozen_view s e T a t w k Hm Hta).
  rewrite (view_beneath (frozen_at s e a w) T (length (mems e)) MemTable.new k); [|done|].
  { unfold get_entry. cbn [MemTable.new MemTable.map]. by rewrite sm_get_new. }
  cbn. by rewrite lookup_app_r, Nat.sub_diag.
Qed.

Lemma frozen_shared fs e T a t h q s w fs' :
  shared fs e T a h q -> fresh_wal fs e s -> mems e !! a = Some t -> iter t <> [] -> rotated_at s fs e w fs' ->
  shared fs' (frozen_at s e a w) T (length (mems e)) h q /\
  evolves e T h (frozen_at s e a w) T [] /\ rely_flush fs e T fs' (frozen_at s e a w) T.
Proof.
  intros [S1 S2 S3 S4 S5] Hs Hta Hne Hrot. pose proof (md_mems _ _ _ _ _ S1) as [Ha Hal _].
  split; [split; [by eapply frozen_mid|intros Hst; by eapply frozen_manifest, S2| | |]|split].
  - apply (heap_engine K fs' e); [done|done|apply (hp_live _ _ _ _ S3)|].
    destruct Hrot as (ino & _ & _ & _ & _ & Hk). eapply heap_keeps; [exact Hk| |done].
    intros i hd HK Hhd Heq. pose proof (named_initial _ (proj1 (hp_usable _ _ _ _ S3 i hd HK Hhd))) as Hi.
    destruct Heq as [Heq|Heq]; by rewrite Heq, initial_wal in Hi.
  - intros k. rewrite <- S4. apply (frozen_view s e T a t); [apply S1|done].
  - intros k. rewrite (frozen_beneath s e T a t w k) by (apply S1 || done). rewrite S4. by apply past_now.
  - split; try done.
    + intros i tx Htx. exists tx. split_and!; [by apply lookup_app_l_Some|done|]. intros k. by left.
    + intros i Hi Hna. cbn. intros [= Heq]. lia.
    + intros i hd Hhd. by exists hd.
  - destruct (rely_refl fs e T) as [_ _ _ H4 _ _ _ _]. split; try done.
    + cbn. by exists [mkPendingImm a (seq (wal e))].
    + intros p Hp. cbn. rewrite lookup_app_l; [done|]. rewrite Forall_forall in Hal.
      apply Hal, list_elem_of_further. by apply list_elem_of_fmap_2.
    + intros x Hx. by eapply rotated_kept.
Qed.

Lemma frozen_spares fs e T a t h q s w fs' :
  shared fs e T a h q -> fresh_wal fs e s -> mems e !! a = Some t -> iter t <> [] -> rotated_at s fs e w fs' ->
  spares K fs e T q fs' (frozen_at s e a w) T q.
Proof.
  intros Hsh Hs Hta Hne Hrot. pose proof Hsh as [S1 S2 S3 S4 S5]. pose proof (md_mems _ _ _ _ _ S1) as [Ha Hal _].
  destruct (frozen_shared fs e T a t h q s w fs' Hsh Hs Hta Hne Hrot) as (Hsh' & Hev & _).
  pose proof Hrot as (ino & -> & _ & _ & _ & Hk). pose proof Hs as (Hlast & Hlt & _). pose proof (md_next _ _ _ _ _ S1).
  split; [|by intros [Hd _]]. apply (on_disk_evolves K m0 fs e T h _ _ _ []); try done; [apply S1|apply Hsh'|..].
  - apply (kp_kept _ _ _ Hk). intros [Hx|Hx]; by eapply (initial_ne _ _ _ _ (initial_wal _) initial_manifest).
  - intros x Hx. destruct (flushed_before _ _ _ _ _ x S1 Hx) as [H1 H2]. apply (kp_kept _ _ _ Hk).
    rewrite Forall_forall in Hlast. specialize (Hlast (seq (wal e)) (live_wal_active e)). simpl in Hlast.
    intros [Heq|Heq]; apply wal_name_inj in Heq; lia.
  - intros i hd HK Hhd _. pose proof (named_initial _ (proj1 (hp_usable _ _ _ _ S3 i hd HK Hhd))) as Hi.
    rewrite (proj1 (kp_kept _ _ _ Hk (path hd) ltac:(intros [Hx|Hx]; by rewrite Hx, initial_wal in Hi))). done.
  - intros i Hna Hni _. cbn. rewrite fmap_app. intros [Hi|Hi%list_elem_of_singleton]%elem_of_app; [done|].
    cbn in Hi. by rewrite Hi in Hna.
Qed.

Lemma step_rotate i j why s n u q fs e T a h :
  (n <= length h)%nat -> kind (Rotate why s) j -> shared fs e T a h q -> writer_ok fs e (Rotate why s) ->
  steps i (mkThread (Rotate why s) j n u false) q fs e T h.
Proof.
  intros Hn Hj Hsh (Hs & a' & t & Ha' & Hta & Hne). pose proof Hsh as [S1 S2 S3 S4 S5].
  pose proof (mo_active _ _ (md_mems _ _ _ _ _ S1)) as Ha. rewrite Ha in Ha'. injection Ha' as <-.
  destruct (rotate_ok s fs e T a _ S1 Hs) as (w & fs' & Hrun & Hrot). set (e' := frozen_at s e a w) in *.
  destruct (frozen_shared fs e T a t h q s w fs' Hsh Hs Hta Hne Hrot) as (Hsh' & Hev & Hrely).
  pose proof (md_next _ _ _ _ _ S1) as Hnx.
  set (e'' := match why with Full => set_flush_tx (S (flush_tx e')) e' | Sealing => e' end).
  assert (counted e' e'') as Hc.
  { destruct why; [apply counted_tx|apply counted_refl]; cbn; lia. }
  exists (after_freeze why), fs', e''. split.
  { assert ((_ ← rotate s; match why with Full => notify | Sealing => mret tt end) (fs, e) = (Ok tt, (fs', e''))) as Hl
      by (rewrite (M_bind_ok _ _ _ _ _ Hrun); by destruct why).
    by runs Hl. }
  unfold ThreadStep.sound. cbn [ctl job since emits]. rewrite app_nil_r. exists T, (length (mems e)). unfold point.
  cbn [under takes holds is_lock orb]. split_and!; [| | | | |done| |].
  - by apply passes_frozen.
  - by eapply counted_shared.
  - by destruct why.
  - by eapply counted_after.
  - intros _. by eapply counted_after_rely.
  - assert (waiting e'' = S (waiting e) /\ tables e'' = tables e) as [Hx Hy].
    { unfold waiting, tables. destruct why; cbn; rewrite length_app; cbn; (split; [lia|done]). }
    unfold spends. rewrite Hx, Hy. destruct why; cbn; (split; [lia|]; split; [lia|]); intros D M; lia.
  - pose proof (frozen_spares fs e T a t h q s w fs' Hsh Hs Hta Hne Hrot) as [Hd Hl].
    assert (spares K fs' e' T q fs' e'' T q) as [Hd' Hl'].
    { pose proof (counted_shared K m0 b0 fs' e' T _ h q e'' Hc Hsh') as Hsh''.
      apply (spares_same K m0 b0 _ _ _ (length (mems e)) h _ _ _ [] Hsh'); try (by destruct why);
        [apply Hsh''|by apply counted_evolves]. }
    split; auto.
Qed.
End write.
