(* ===== verification/ThreadSafe.v ===== *)
(** * Every step keeps the invariant *)

From S2P Require Import Prelude Outcome External Fs MemTable Wal WalWriter WalReader.
From S2P Require Import StdVec SstRecord SstIndex Bloom Builder Reader Merge Manifest.
From S2P Require Import Names KvSpec Engine EngineSpec EngineGet EnginePut EngineFlush EngineCommit.
From S2P Require Import EngineCompact EngineRefine Threads ThreadHeap ThreadInv ThreadDisk ThreadCost ThreadStep ThreadFlush.
From S2P Require Import ThreadCompact ThreadWrite.

Section safe.
Context {C : Crc32} {SM : SkipMap Entry} {FB : FastBloom} {AL : Allocator}.

Abbreviation Sys := (Fs * LsmEngineInner)%type.

(** ** Resources *)

(** Numbers are left to draw, memtables and the inputs of a merge fit the table
    format. *)
Definition roomy (c : config) : bool :=
  (next_seq (sys c).2 <? u64_max) &&
  forallb (fun t => len (records_bytes (mem_records t)) <=? 2 ^ 60) (mems (sys c).2) &&
  forallb (fun t => match ctl t with
    | ReadRuns _ _ [] runs => len (records_bytes (concat (records <$> runs))) <=? 2 ^ 60
    | _ => true
    end) (pool c).

(** The memtables that wait for a flush or can still be frozen, and a bound on
    the steps the threads take when no further call is made. *)
Definition slots (c : config) : nat :=
  (waiting (sys c).2 + sum_list_with (fun t => freezes (ctl t)) (pool c))%nat.
Definition work (c : config) : nat :=
  sum_list_with (fun t => cost (slots c) (2 * (slots c + tables (sys c).2)) (ctl t)) (pool c).

(** A step of a machine that has the resources for it. *)
Definition roomy_step (c c' : config) : Prop := roomy c = true /\ step c c'.

Lemma roomy_ok c : roomy c = true ->
  next_seq (sys c).2 < u64_max /\ Forall small (mems (sys c).2) /\
  forall i t r ins runs, pool c !! i = Some t -> ctl t = ReadRuns r ins [] runs ->
    len (records_bytes (concat (records <$> runs))) <= 2 ^ 60.
Proof.
  unfold roomy. intros [[H1 H2]%andb_true_iff H3]%andb_true_iff. split; [by apply Z.ltb_lt|]. split.
  - apply Forall_forall. intros t Ht. rewrite forallb_forall in H2.
    by apply Z.leb_le, (H2 t), list_elem_of_In.
  - intros i t r ins runs Ht Hc. rewrite forallb_forall in H3.
    specialize (H3 t (proj1 (list_elem_of_In _ _) (list_elem_of_lookup_2 _ _ _ Ht))). rewrite Hc in H3.
    by apply Z.leb_le.
Qed.

Section inv.
Context (K : nat -> Prop) (m0 : kvmap) (b0 : bytes -> option bytes).

Abbreviation shared := (shared K m0 b0).
Abbreviation thread_ok := (thread_ok K m0 b0).
Abbreviation on_disk := (on_disk K).

(** The invariant of a configuration. *)
Record inv (c : config) : Prop := {
  in_shared : exists T a, shared (sys c).1 (sys c).2 T a (history c) (phase c) /\
    on_disk (sys c).1 (sys c).2 T (phase c) /\ forall i t,
      pool c !! i = Some t -> thread_ok (sys c).1 (sys c).2 T (history c) i t;
  in_log : locked WalLock c;
  in_flush : locked FlushLock c;
}.

(** ** Every thread can run, and runs soundly *)

(** A thread that missed an entry is a reader. *)
Lemma reader_kind p k :
  busy p = true -> kind p (ReqGet k) ->
  match p with
  | Snapshot _ | AskActive _ _ _ | AskFrozen _ _ _ | AskTables _ _ | AskReader _ _ _ _ => True
  | _ => False
  end.
Proof.
  destruct p; try done; cbn; try (by destruct r); intros _.
  - destruct deleted; [by intros [_ ?]|done].
  - by intros [? _].
  - by destruct why.
  - by destruct why.
Qed.

(** Nobody writes while a gap is open but the thread that opened it. *)
Lemma gap_sound c T a :
  shared (sys c).1 (sys c).2 T a (history c) (phase c) -> locked WalLock c ->
  (forall i t, pool c !! i = Some t -> thread_ok (sys c).1 (sys c).2 T (history c) i t) ->
  gap_ok (gap_at c) (sys c).2 (history c).
Proof.
  intros Hsh HL Hth i k. unfold gap_at. change (wal_owner c) with (owner WalLock c).
  destruct (owner WalLock c) as [j|] eqn:Eo; [|done]. destruct (proj1 (HL j) Eo) as (t & Ht & Hh). rewrite Ht.
  destruct (Hth j t Ht) as [Hk Hn Hw _ _ _ Hwr _]. destruct (ctl t) eqn:Ec; try done.
  cbn. destruct unlinked as [k'|]; [|done]. intros [= <- <-]. destruct Hk as [He Hkey]. split; [exact Hwr|].
  specialize (Hw eq_refl). cbn [applied_by] in Hw. rewrite He in Hw.
  assert (job t ∈ owns j (drop (since t) (history c))) as Hin by (rewrite Hw; apply list_elem_of_here).
  apply list_elem_of_omap in Hin as ([j' r] & Hin & Heq). cbn in Heq. case_decide; [|done]. injection Heq as ->. subst j'.
  exists j, (job t). split; [|by apply Hkey]. rewrite <- (take_drop (since t) (history c)). apply elem_of_app. by right.
Qed.

Lemma step_any g i t q fs e T a h :
  gap_ok g e h -> thread_ok fs e T h i t -> busy (ctl t) = true -> next_seq e < u64_max -> Forall small (mems e) ->
  (forall r ins runs, ctl t = ReadRuns r ins [] runs -> len (records_bytes (concat (records <$> runs))) <= 2 ^ 60) ->
  shared fs e T a h (point q (ctl t) (ctl t)) -> steps K m0 b0 g i t q fs e T h.
Proof.
  destruct t as [p j n u ms]. intros Hg [Hk Hn _ Hms Hr Hf Hw _] Hb Hroom Hsm Hruns Hsh. cbn [ctl job since upto missed] in *.
  assert (ms = false \/ exists k, j = ReqGet k) as Hget by (destruct ms; [right; by apply Hms|by left]).
  destruct p; try done; cbn in Hk; cbn [point under takes holds is_lock orb] in Hsh;
    try (destruct Hget as [->|[? ->]]; [|by apply (reader_kind _ _ Hb) in Hk]).
  - destruct (oversize key value) as [err|] eqn:Hsz; [by eapply step_write_refused|by eapply step_write_ok].
  - by eapply step_applied.
  - subst j. by eapply step_sync.
  - by eapply step_freeze.
  - by eapply step_rotate.
  - subst j. by eapply step_lock_flush.
  - subst j. by eapply step_drain.
  - subst j. by eapply step_draw_table.
  - subst j. by eapply step_build_table.
  - subst j. by eapply step_join_table.
  - subst j. by eapply step_flush_manifest.
  - subst j. destruct ws; [by eapply step_cleaned|by eapply step_remove_log].
  - subst j. by eapply step_receive.
  - subst j. by eapply step_need_compact.
  - subst j. by eapply step_lock_compact.
  - subst j. by eapply step_inputs.
  - subst j. destruct todo; [eapply step_merge; [by eapply Hruns|done..]|by eapply step_read_run].
  - subst j. by eapply step_draw_merged.
  - subst j. by eapply step_build_merged.
  - subst j. by eapply step_swap.
  - subst j. by eapply step_compact_manifest.
  - subst j. destruct todo; [by eapply step_compacted|by eapply step_remove_input].
  - subst j. cbn in Hr. subst ms. by eapply step_snapshot.
  - subst j. by eapply step_active.
  - subst j. by eapply step_frozen.
  - subst j. by eapply step_tables.
  - subst j. by eapply step_reader.
Qed.

(** ** Locks *)

Lemma is_lock_spec l o : is_lock l o = true -> o = Some l.
Proof. by destruct l, o as [[]|]. Qed.

Lemma lock_is l : l = WalLock \/ l = FlushLock -> is_lock l (Some l) = true.
Proof. by intros [->| ->]. Qed.

(** Who runs under a lock is its only holder. *)
Lemma under_alone l c i t j tj :
  locked l c -> pool c !! i = Some t -> free (ctl t) c = true -> under l (ctl t) = true ->
  pool c !! j = Some tj -> holds (ctl tj) = Some l -> j = i.
Proof.
  intros Hl Ht Hf Hu Htj Hh. apply orb_true_iff in Hu as [Hu%is_lock_spec|Hu%is_lock_spec].
  - unfold free in Hf. rewrite Hu in Hf. rewrite (proj2 (Hl j)) in Hf by (by exists tj). done.
  - assert (owner l c = Some i) as H1 by (apply Hl; by exists t).
    assert (owner l c = Some j) as H2 by (apply Hl; by exists tj). congruence.
Qed.

Lemma locked_step l c i t p' o c' t' :
  locked l c -> pool c !! i = Some t -> free (ctl t) c = true ->
  (is_lock l (holds p') = true -> under l (ctl t) = true) -> l = WalLock \/ l = FlushLock ->
  pool c' = <[i := t']> (pool c) -> ctl t' = p' -> o = relock l i (ctl t) p' (owner l c) -> owner l c' = o ->
  locked l c'.
Proof.
  intros Hl Ht Hf Hu Hwf Hpool Hctl -> Howner j. rewrite Howner, Hpool.
  assert (i < length (pool c))%nat as Hi by (by eapply lookup_lt_Some). unfold relock.
  assert (holds p' = Some l -> forall tj, pool c !! j = Some tj -> holds (ctl tj) = Some l -> j = i) as Halone.
  { intros Hp' tj Htj Hh. eapply under_alone; try done. apply Hu. rewrite Hp'. by apply lock_is. }
  pose proof (Hl i) as Hli. pose proof (Hl j) as Hlj.
  destruct (decide (j = i)) as [->|Hne].
  - rewrite list_lookup_insert_eq by done.
    assert ((exists t0, Some t' = Some t0 /\ holds (ctl t0) = Some l) <-> holds p' = Some l) as ->
      by (split; [intros (? & [= <-] & H); by rewrite <- Hctl|intros H; exists t'; by rewrite Hctl]).
    case_decide as Hp'; [done|]. case_decide as Hp; [done|]. rewrite Hli. split; [|done].
    intros (t0 & H0 & H1). congruence.
  - rewrite list_lookup_insert_ne by done. case_decide as Hp'.
    + split; [congruence|]. intros (tj & Htj & Hh). by destruct (Hne (Halone Hp' tj Htj Hh)).
    + case_decide as Hp; [|done]. split; [done|]. intros H%Hlj. assert (owner l c = Some i) by (apply Hli; by exists t).
      congruence.
Qed.

(** ** Points of the holder of the flush lock *)

Lemma unlocked_logs p : holds p <> Some FlushLock -> logs_of p = [] /\ stale p = false.
Proof. by destruct p. Qed.

(** What only depends on the flush under way. *)
Definition idle_closed (Q : pc -> Prop) : Prop :=
  forall p p', holds p <> Some FlushLock -> holds p' <> Some FlushLock -> Q p -> Q p'.

Lemma shared_idle fs e T a h : idle_closed (fun q => shared fs e T a h q /\ on_disk fs e T q).
Proof.
  intros p p' [H1 H2]%unlocked_logs [H3 H4]%unlocked_logs [[S1 S2 S3 S4 S5] Hd]. rewrite H1 in S1. rewrite H2 in S2. split.
  - split; [by rewrite H3|auto|done..].
  - eapply on_disk_point; [by rewrite H1, H3|by rewrite H2|done].
Qed.

Lemma phase_point Q c i t :
  idle_closed Q -> locked FlushLock c -> pool c !! i = Some t -> free (ctl t) c = true ->
  Q (phase c) -> Q (point (phase c) (ctl t) (ctl t)).
Proof.
  intros HQ Hl Ht Hf Hsh. unfold point. destruct (under FlushLock (ctl t)) eqn:Hu; [|done]. unfold phase in Hsh.
  apply orb_true_iff in Hu as [Hu%is_lock_spec|Hu%is_lock_spec].
  - unfold free in Hf. rewrite Hu in Hf. cbn in Hf. destruct (flush_owner c); [done|].
    eapply HQ; [..|exact Hsh]; [done|]. by destruct (ctl t).
  - change (flush_owner c) with (owner FlushLock c) in Hsh.
    rewrite (proj2 (Hl i)) in Hsh by (by exists t). by rewrite Ht in Hsh.
Qed.

Lemma phase_step Q c c' i t p' t' :
  idle_closed Q -> locked FlushLock c -> pool c !! i = Some t -> free (ctl t) c = true ->
  (is_lock FlushLock (holds p') = true -> under FlushLock (ctl t) = true) ->
  pool c' = <[i := t']> (pool c) -> ctl t' = p' -> flush_owner c' = relock FlushLock i (ctl t) p' (flush_owner c) ->
  Q (point (phase c) (ctl t) p') -> Q (phase c').
Proof.
  intros HQ Hl Ht Hf Hu Hpool Hctl Howner Hsh. unfold phase. rewrite Howner, Hpool. unfold relock.
  assert (i < length (pool c))%nat as Hi by (by eapply lookup_lt_Some). unfold point in Hsh.
  case_decide as Hp'.
  - rewrite list_lookup_insert_eq, Hctl by done. rewrite Hu in Hsh by (by rewrite Hp'). done.
  - destruct (under FlushLock (ctl t)) eqn:Hun.
    + assert ((if decide (holds (ctl t) = Some FlushLock) then None else flush_owner c) = None) as ->.
      { case_decide as Hp; [done|]. apply orb_true_iff in Hun as [Hun%is_lock_spec|Hun%is_lock_spec]; [|done].
        unfold free in Hf. rewrite Hun in Hf. cbn in Hf. by destruct (flush_owner c). }
      by eapply HQ; [..|exact Hsh].
    + rewrite decide_False. 2: { intros Hp. unfold under in Hun. rewrite Hp in Hun. by destruct (is_lock FlushLock (takes _)). }
      unfold phase in Hsh. destruct (flush_owner c) as [j|] eqn:Eo; [|done].
      destruct (decide (i = j)) as [<-|Hne]; [|by rewrite list_lookup_insert_ne by done].
      destruct (proj1 (Hl i) Eo) as (t0 & H0 & H1). rewrite Ht in H0. injection H0 as <-.
      unfold under in Hun. rewrite H1 in Hun. by destruct (is_lock FlushLock (takes _)).
Qed.

(** ** The threads *)

Lemma owns_app i h1 h2 : owns i (h1 ++ h2) = owns i h1 ++ owns i h2.
Proof. unfold owns. apply omap_app. Qed.

Lemma quiet_flusher fs e T fs' e' T' p :
  holds p <> Some FlushLock -> flusher_ok K fs e T p -> flusher_ok K fs' e' T' p.
Proof. by destruct p. Qed.

Lemma quiet_writer fs e fs' e' p : holds p <> Some WalLock -> writer_ok fs e p -> writer_ok fs' e' p.
Proof. by destruct p. Qed.

Lemma other_ok c i t j tj fs e T h fs' e' T' evs :
  inv c -> pool c !! i = Some t -> free (ctl t) c = true -> pool c !! j = Some tj -> j <> i ->
  heap_ok K fs e T -> owns j evs = [] -> evolves m0 e T h e' T' evs ->
  (under FlushLock (ctl t) = false -> rely_flush fs e T fs' e' T') ->
  (under WalLock (ctl t) = false -> rely_log fs e fs' e') ->
  thread_ok fs e T h j tj -> thread_ok fs' e' T' (h ++ evs) j tj.
Proof.
  intros [_ HL HF] Ht Hfr Htj Hne Hheap Hev Hevo Hrf Hrl [Hk Hn Hw Hms Hr Hfl Hwr Hd]. split; [done| | |done| | | |].
  - rewrite length_app. lia.
  - intros Hb. by rewrite drop_app_le, owns_app, Hev, app_nil_r, Hw by done.
  - by eapply reader_evolves.
  - destruct (under FlushLock (ctl t)) eqn:Hu; [|by eapply flusher_stable; [apply Hrf|..]].
    apply (quiet_flusher fs e T); [|done]. intros Hh. by apply Hne, (under_alone FlushLock c i t j tj).
  - destruct (under WalLock (ctl t)) eqn:Hu; [|by eapply writer_stable; [apply Hrl|]].
    apply (quiet_writer fs e); [|done]. intros Hh. by apply Hne, (under_alone WalLock c i t j tj).
  - intros o Ho. by apply answered_app, Hd.
Qed.

Lemma self_ok g i t p' fs e T h fs' e' T' evs :
  let ms := missed t || misses g (ctl t) in
  thread_ok fs e T h i t -> busy (ctl t) = true -> passes m0 b0 ms i (job t) (since t) h (ctl t) p' evs ->
  own K m0 b0 ms fs' e' T' (h ++ evs) (since t) p' ->
  thread_ok fs' e' T' (h ++ evs) i (mkThread p' (job t) (since t) (length (h ++ evs)) ms).
Proof.
  intros ms [Hk Hn Hw Hms Hr Hf Hwr Hd] Hb [P1 P2 P3 P4 P5] [O1 O2 O3].
  assert (owns i (drop (since t) (h ++ evs)) = written p' (job t)) as Howns.
  { rewrite drop_app_le, owns_app, Hw, <- P2 by done. f_equal. by destruct (ctl t). }
  split; cbn [ctl job since upto missed]; try done.
  - rewrite length_app. lia.
  - intros Hb'. rewrite Howns. by destruct p'.
  - intros [Hm|Hm]%orb_true_iff; [by apply Hms|]. destruct (ctl t); try done. by eexists.
  - intros o ->. split; [rewrite length_app; lia|]. rewrite segment_end. split; [exact Howns|].
    specialize (P5 _ eq_refl). exact P5.
Qed.

(** ** Steps *)

(** What the step of a thread yields. *)
Lemma run_sound i t c fs e T a :
  roomy c = true -> sys c = (fs, e) -> locked FlushLock c -> pool c !! i = Some t -> busy (ctl t) = true ->
  free (ctl t) c = true -> shared fs e T a (history c) (phase c) -> on_disk fs e T (phase c) ->
  gap_ok (gap_at c) e (history c) -> thread_ok fs e T (history c) i t ->
  steps K m0 b0 (gap_at c) i t (phase c) fs e T (history c).
Proof.
  intros (Hroom & Hsm & Hruns)%roomy_ok Hs HF Ht Hb Hfr Hsh Hd Hg Hti. rewrite Hs in Hroom, Hsm.
  apply (step_any (gap_at c) i t (phase c) fs e T a (history c) Hg Hti Hb Hroom Hsm).
  - intros r ins runs Hc. by eapply Hruns.
  - by apply (phase_point _ c i t (shared_idle fs e T a (history c))).
Qed.

Lemma run_inv i t c : inv c -> roomy c = true -> pool c !! i = Some t -> busy (ctl t) = true ->
  free (ctl t) c = true -> inv (advance i t c).
Proof.
  intros Hinv Hroom Ht Hb Hfr. pose proof Hinv as [(T & a & Hsh & Hdisk & Hth) HL HF].
  destruct c as [[fs e] lo fo ts h]. cbn [sys pool history] in *. set (c := mkConfig _ _ _ _ _) in *.
  pose proof (Hth i t Ht) as Hti. pose proof (gap_sound c T a Hsh HL Hth) as Hgap.
  destruct (run_sound i t c fs e T a Hroom eq_refl HF Ht Hb Hfr Hsh Hdisk Hgap Hti) as (p' & fs' & e' & Hrun & Hsound).
  destruct Hsound as (T' & a' & Hpass & Hsh' & Hown & Hevo & Hrf & Hrl & _ & Hsp). cbn zeta in *.
  assert (on_disk fs e T (point (phase c) (ctl t) (ctl t))) as Hpt
    by (by apply (phase_point _ c i t (shared_idle fs e T a h))).
  apply (sp_disk _ _ _ _ _ _ _ _ _ Hsp) in Hpt.
  unfold advance. change (sys c) with (fs, e). rewrite Hrun. cbn zeta. change (history c) with h.
  set (evs := emits i t p') in *. pose proof (pa_locks _ _ _ _ _ _ _ _ _ _ Hpass) as Hlocks.
  split; cbn [sys history pool].
  - exists T', a'. apply Logic.and_assoc. split.
    + eapply (phase_step _ c _ i t p' _ (shared_idle _ _ _ a' _)); try done. apply Hlocks.
    + intros j tj Hj. cbn [fst snd]. destruct (decide (j = i)) as [->|Hne].
      * rewrite list_lookup_insert_eq in Hj by (by eapply lookup_lt_Some). injection Hj as <-.
        by eapply self_ok.
      * rewrite list_lookup_insert_ne in Hj by done.
        eapply (other_ok c i t j tj fs e T h); try done; [apply Hsh|by apply (pa_others _ _ _ _ _ _ _ _ _ _ Hpass)|by apply Hth].
  - eapply (locked_step WalLock c i t p'); try done; [apply Hlocks|by left].
  - eapply (locked_step FlushLock c i t p'); try done; [apply Hlocks|by right].
Qed.

Lemma start_ok r p : start r = Some p -> kind p r /\ busy p = true /\ applied_by p = false /\ holds p = None /\
  forall fs e T h n, own K m0 b0 false fs e T h n p.
Proof. destruct r; intros [= <-]; done. Qed.

Lemma call_inv i r c t p :
  inv c -> pool c !! i = Some t -> busy (ctl t) = false -> start r = Some p ->
  inv (mkConfig (sys c) (wal_owner c) (flush_owner c)
    (<[i := mkThread p r (length (history c)) (length (history c)) false]> (pool c)) (history c)).
Proof.
  intros [(T & a & Hsh & Hdisk & Hth) HL HF] Ht Hb (Hk & Hbp & Hap & Hh & Hown)%start_ok.
  assert (holds (ctl t) = None) as Hht by (by destruct (ctl t)).
  assert (i < length (pool c))%nat as Hi by (by eapply lookup_lt_Some).
  set (t' := mkThread p r _ _ _).
  assert (forall l j, (exists tj, <[i := t']> (pool c) !! j = Some tj /\ holds (ctl tj) = Some l) <->
    exists tj, pool c !! j = Some tj /\ holds (ctl tj) = Some l) as Hsame.
  { intros l j. destruct (decide (j = i)) as [->|Hne]; [|by rewrite list_lookup_insert_ne by done].
    rewrite list_lookup_insert_eq by done. split; intros (tj & Hj & Hl); [|congruence].
    injection Hj as <-. cbn in Hl. congruence. }
  split; cbn [sys history pool].
  - exists T, a. apply Logic.and_assoc. split.
    + pose proof (conj Hsh Hdisk) as Hboth. clear Hsh Hdisk. unfold phase in *. cbn [flush_owner pool]. destruct (flush_owner c) as [j|] eqn:Eo; [|done].
      destruct (decide (j = i)) as [->|Hne]; [|by rewrite list_lookup_insert_ne by done].
      destruct (proj1 (HF i) Eo) as (t0 & H0 & H1). congruence.
    + intros j tj Hj. destruct (decide (j = i)) as [->|Hne].
      * rewrite list_lookup_insert_eq in Hj by done. injection Hj as <-. destruct (Hown (sys c).1 (sys c).2 T (history c) (length (history c))).
        unfold t'. split; cbn [ctl job since upto missed]; try done.
        -- intros _. by rewrite drop_all, Hap.
        -- intros o ->. done.
      * rewrite list_lookup_insert_ne in Hj by done. by apply Hth.
  - intros j. cbn [pool]. rewrite Hsame. apply HL.
  - intros j. cbn [pool]. rewrite Hsame. apply HF.
Qed.

Lemma step_inv c c' : inv c -> roomy_step c c' -> inv c'.
Proof.
  intros Hinv [Hroom [x Hx]]. destruct x as [i r|i]; cbn in Hx.
  - destruct (pool c !! i) as [t|] eqn:Ht; [|done]. cbn in Hx. destruct (start r) as [p|] eqn:Hp; [|done]. cbn in Hx.
    destruct (negb (busy (ctl t)) && may_call i r (sys c)) eqn:Hb; [|done]. injection Hx as <-.
    apply andb_true_iff in Hb as [Hb%negb_true_iff _]. by eapply call_inv.
  - destruct (pool c !! i) as [t|] eqn:Ht; [|done]. cbn in Hx.
    destruct (busy (ctl t) && free (ctl t) c) eqn:Hb; [|done]. injection Hx as <-.
    apply andb_true_iff in Hb as [Hb Hf]. by apply run_inv.
Qed.

(** ** The work left *)

Lemma run_work i t c : inv c -> roomy c = true -> pool c !! i = Some t -> busy (ctl t) = true ->
  free (ctl t) c = true -> (work (advance i t c) < work c)%nat.
Proof.
  intros [(T & a & Hsh & Hdisk & Hth) HL HF] Hroom Ht Hb Hfr. pose proof (gap_sound c T a Hsh HL Hth) as Hgap.
  destruct (sys c) as [fs e] eqn:Hs. cbn [fst snd] in *.
  destruct (run_sound i t c fs e T a Hroom Hs HF Ht Hb Hfr Hsh Hdisk Hgap (Hth i t Ht)) as (p' & fs' & e' & Hrun & Hsound).
  destruct Hsound as (_ & _ & _ & _ & _ & _ & _ & _ & (Hx & Hy & Hcost) & _). cbn zeta in *.
  unfold advance. rewrite Hs, Hrun. unfold work, slots. rewrite Hs. cbn [sys pool fst snd].
  apply list_elem_of_split_length in Ht as (l1 & l2 & -> & ->).
  set (t' := mkThread p' _ _ _ _). rewrite (insert_app_r_alt l1 (t :: l2)), Nat.sub_diag by done.
  cbn [insert list_insert]. rewrite !sum_list_with_app. cbn [sum_list_with]. change (ctl t') with p'.
  set (D := (waiting e + _)%nat). set (D' := (waiting e' + _)%nat).
  set (M := (2 * (D + tables e))%nat). set (M' := (2 * (D' + tables e'))%nat).
  specialize (Hcost D M). unfold D, D', M, M' in *.
  set (S1 := sum_list_with (fun t => freezes (ctl t)) l1) in *. set (S2 := sum_list_with (fun t => freezes (ctl t)) l2) in *.
  match goal with |- (sum_list_with ?f' l1 + (cost ?d ?m p' + sum_list_with ?f' l2) <
    sum_list_with ?f l1 + (cost ?d0 ?m0 _ + sum_list_with ?f l2))%nat =>
    assert (forall l, sum_list_with f' l <= sum_list_with f l)%nat as Hsum;
    [|assert (cost d m p' < cost d0 m0 (ctl t))%nat as Hlt] end.
  - intros l. induction l as [|x l IH]; cbn [sum_list_with]; [lia|]. apply Nat.add_le_mono; [apply cost_mono; lia|done].
  - eapply Nat.le_lt_trans; [|apply Hcost; lia]. apply cost_mono; lia.
  - pose proof (Hsum l1). pose proof (Hsum l2). lia.
Qed.

Lemma steps_inv c c' : inv c -> rtc roomy_step c c' -> inv c'.
Proof. intros Hinv Hr. induction Hr as [|c1 c2 c3 H12 _ IH]; [done|]. apply IH. by eapply step_inv. Qed.
End inv.
End safe.
