(* ===== verification/ThreadCrash.v ===== *)
(** * Stopping while threads run

    A thread at whose system call the process dies is inside one step.  For
    every step, what is on disk at each of its system calls is the directory of
    an engine with the map of the history, in which the write of the step itself
    may or may not have reached the log. *)

From S2P Require Import Prelude Outcome External Fs Crash MemTable Wal WalWriter WalReader.
From S2P Require Import StdVec SstRecord SstIndex Bloom Builder Reader Merge Manifest.
From S2P Require Import Names KvSpec Engine Steady EngineSpec EngineGet EnginePut EngineFlush EngineCommit.
From S2P Require Import EngineCompact EngineOpen EngineRecover EngineRefine EngineDisk.
From S2P Require Import CrashWrite CrashFlush CrashCompact CrashOpen CrashOps CrashStore.
From S2P Require Import Threads ThreadHeap ThreadInv ThreadDisk ThreadCost ThreadStep ThreadFlush ThreadCompact.
From S2P Require Import ThreadWrite ThreadSafe.

Section crash.
Context {C : Crc32} {SM : SkipMap Entry} {FB : FastBloom} {AL : Allocator}.
Context (K : nat -> Prop) (m0 : kvmap) (b0 : bytes -> option bytes).

Abbreviation Sys := (Fs * LsmEngineInner)%type.
Abbreviation shared := (shared K m0 b0).
Abbreviation on_disk := (on_disk K).
Abbreviation flusher_ok := (flusher_ok K).
Abbreviation thread_ok := (thread_ok K m0 b0).

(** An opening finds the map of the history. *)
Definition survives (h : list (nat * request)) (fs : Fs) : Prop := reopens (replay m0 h) fs.

(** ** The engine the directory belongs to *)

Record stands (fs : Fs) (e : LsmEngineInner) (T : nat -> list record) (a : nat) (h : list (nat * request))
    (fl : list Z) (d : LsmEngineInner) : Prop := {
  st_ok : engine_ok fs d T a;
  st_view : forall k, view d T k = replay m0 h !! k;
  st_wal : wal d = wal e;
  st_next : next_seq d = next_seq e;
  st_wals : live_wals d = fl ++ live_wals e;
  st_handles : handles d = handles e;
  st_tables : forall l i, live d l i -> K i;
}.

Lemma stands_for fs e T a h q :
  shared fs e T a h q -> on_disk fs e T q -> exists d, stands fs e T a h (logs_of q) d.
Proof.
  intros [S1 S2 S3 S4 _] (ps & ls & Hb). pose proof (backed_engine K fs e T a q ps ls S1 Hb) as Hok.
  destruct Hb as [B1 B2 B3 B4 B5 B6 B7 B8 B9]. exists (as_if ps ls e). split; try done.
  - intros k. rewrite <- S4. by apply as_if_view.
  - unfold live_wals. cbn. by rewrite <- B1, fmap_app, <- app_assoc.
Qed.

Section at_.
Context (fs : Fs) (e d : LsmEngineInner) (T : nat -> list record) (a : nat) (h : list (nat * request)) (q : pc).
Context (Hsh : shared fs e T a h q) (Hd : stands fs e T a h (logs_of q) d).
Context (Hdur : durable_log e) (Hfit : files_fit fs) (Hroom : next_seq e < u64_max).

Lemma stands_unbuffered : unbuffered d.
Proof. unfold unbuffered. rewrite (st_wal _ _ _ _ _ _ _ Hd). apply Hdur. Qed.

Lemma survives_here : survives h fs.
Proof.
  pose proof (st_next _ _ _ _ _ _ _ Hd). eapply (reopens_here fs d T a); [apply Hd|done|apply stands_unbuffered|lia|apply Hd].
Qed.

(** New files under numbers that no table has. *)
Lemma survives_fresh n fs' :
  (forall i hd, K i -> handles e !! i = Some hd -> Manifest.seq (meta hd) < n) -> 0 <= n ->
  within (fresh_name n) fs fs' -> survives h fs'.
Proof.
  intros Hn H0 Hw. pose proof (st_ok _ _ _ _ _ _ _ Hd) as Hok. pose proof (st_next _ _ _ _ _ _ _ Hd).
  eapply (recovers_reopens (next_seq d - 1) _ (durable fs d T)); [|lia|].
  - intros _. exists (disk_metas d), (file_records fs), (disk_logs fs d). split; [|split; [by eapply engine_seqs|]].
    + eapply disk_ok_fresh; [by eapply engine_disk| |exact H0|exact Hw].
      apply Forall_forall. intros x (metas & Hx & Hin)%elem_of_concat_inv.
      apply list_elem_of_lookup in Hx as [l Hl]. apply disk_metas_lookup in Hl as (ids & Hl & ->).
      apply list_elem_of_fmap in Hin as (i & -> & Hi).
      destruct (ta_handles _ _ _ (eo_tables _ _ _ _ Hok) l ids i Hl Hi) as (hd & Hhd & _).
      rewrite (meta_at_lookup _ _ _ Hhd). rewrite (st_handles _ _ _ _ _ _ _ Hd) in Hhd.
      apply (Hn i hd); [|done]. apply (st_tables _ _ _ _ _ _ _ Hd l). by exists ids.
    + intros k. by eapply disk_view_of.
  - intros _ k. rewrite (durable_unbuffered fs d T a k Hok Hfit stands_unbuffered). apply Hd.
Qed.

Lemma survives_tmp fs' : within (eq MANIFEST_TMP_FILE_NAME) fs fs' -> survives h fs'.
Proof.
  intros Hw. apply (survives_fresh (next_seq e)).
  - apply Hsh.
  - pose proof (md_next _ _ _ _ _ (sh_mid _ _ _ _ _ _ _ _ _ Hsh)). lia.
  - eapply within_mono; [|exact Hw]. intros x <-. by left.
Qed.

(** The end of the active log. *)
Lemma survives_cut es fs' : log_is fs d a es -> cut_at (next_seq e - 1) fs d T es fs' -> survives h fs'.
Proof.
  intros Hlog Hcut. eapply cut_reopens; [apply Hd|exact Hlog|apply stands_unbuffered|exact Hcut|lia|apply Hd].
Qed.

Lemma survives_synced fs' :
  let w := writer (wal e) in extends (bw_file (ww_file w)) (log_of fs w) fs fs' -> survives h (killed fs').
Proof.
  intros w Hex. pose proof (st_ok _ _ _ _ _ _ _ Hd) as Hok. destruct (log_is_any fs d T a Hok) as (es & Hlog).
  pose proof (md_next _ _ _ _ _ (sh_mid _ _ _ _ _ _ _ _ _ Hsh)).
  pose proof Hlog as (Hl & Hes & _). apply (survives_cut es); [done|].
  apply (extends_cut fs d T a); [done..| |]; rewrite ?(st_wal _ _ _ _ _ _ _ Hd), ?(st_next _ _ _ _ _ _ _ Hd); [|lia].
  rewrite (st_wal _ _ _ _ _ _ _ Hd) in Hl. by rewrite <- Hl.
Qed.

Lemma survives_rotating s fs' : fresh_wal fs e s -> rotating s fs e fs' -> survives h fs'.
Proof.
  intros (Hlast & Hs & Habs) Hrot. pose proof (st_ok _ _ _ _ _ _ _ Hd) as Hok. pose proof (sh_mid _ _ _ _ _ _ _ _ _ Hsh) as Hmid.
  destruct (log_is_any fs d T a Hok) as (es & Hlog). pose proof (md_next _ _ _ _ _ Hmid).
  pose proof Hlog as (Hl & Hes & _). apply (survives_cut es); [done|].
  pose proof (st_wal _ _ _ _ _ _ _ Hd) as Ew. pose proof (st_next _ _ _ _ _ _ _ Hd) as En.
  apply (took_rotating s fs d T a [] es fs (writer (wal e)) e); try done; rewrite ?Ew, ?En; [|lia| |lia| |by destruct (wal e)].
  - rewrite (st_wals _ _ _ _ _ _ _ Hd). apply Forall_app. split; [|done].
    apply Forall_forall. intros x Hx. destruct (flushed_before K _ _ _ _ _ x Hmid Hx) as [Hlt _].
    rewrite Forall_forall in Hlast. specialize (Hlast _ (live_wal_active e)). simpl in *. lia.
  - rewrite app_nil_r. by rewrite <- Ew.
  - apply took_refl, Hmid.
Qed.

(** A write whose entry is in the log or not. *)
Lemma survives_write en fs' m' :
  let w := writer (wal e) in encodable en ->
  (forall k, (if decide ((entry_mutation en).1 = k) then entry_value (entry_mutation en).2 else replay m0 h !! k) = m' !! k) ->
  extends (bw_file (ww_file w)) (log_of fs w ++ frame en) fs fs' ->
  survives h (killed fs') \/ reopens m' (killed fs').
Proof.
  intros w Hen Hm Hex. pose proof (st_ok _ _ _ _ _ _ _ Hd) as Hok. destruct (log_is_any fs d T a Hok) as (es & Hlog).
  pose proof (md_next _ _ _ _ _ (sh_mid _ _ _ _ _ _ _ _ _ Hsh)).
  pose proof Hlog as (Hl & Hes & _).
  pose proof (st_wal _ _ _ _ _ _ _ Hd) as Ew. pose proof (st_next _ _ _ _ _ _ _ Hd) as En.
  apply (cut_reopens_write (next_seq e - 1) fs d T a es en); [done|done|apply stands_unbuffered| |lia|apply Hd|done].
  apply (extends_cut fs d T a); [done|done| | |lia].
  - apply Forall_app. split; [done|]. constructor; [apply Hen|constructor].
  - rewrite frames_snoc, <- Hl, Ew. exact Hex.
Qed.
End at_.

(** ** Steps *)

(** A step stops where its code does. *)
Lemma act_halts {A} l (m : M Sys A) k stop s n c s' (P : Fs -> Prop) :
  (forall x, k x <> Done Halt) -> (forall o, stop o = Done Halt -> o = Halt) ->
  act l m k stop (arm n c s) = (Done Halt, s') -> crashes m s P -> P (killed (disk s')).
Proof.
  intros Hk Hstop Hrun Hc. unfold act in Hrun. specialize (Hc n c). destruct (m (arm n c s)) as [[x|err| |] s1].
  - injection Hrun as Hx _. by destruct (Hk x).
  - injection Hrun as Hx _. by apply Hstop in Hx.
  - injection Hrun as Hx _. by apply Hstop in Hx.
  - injection Hrun as _ <-. by apply Hc.
Qed.

Lemma return_halts o : return_ o = Done Halt -> o = Halt.
Proof. by destruct o. Qed.

Lemma flush_halts r o : flush_returns r o = Done Halt -> o = Halt.
Proof. by destruct r, o. Qed.

Lemma compact_halts r o : compact_returns r o = Done Halt -> o = Halt.
Proof. by destruct r, o. Qed.

(** The steps that write to the directory. *)
Definition touches_disk (p : pc) : bool :=
  match p with
  | Write _ _ _ | SyncLog | Rotate _ _ | BuildTable _ _ _ _ | FlushManifest _ _ | RemoveLogs _ (_ :: _)
  | BuildMerged _ _ _ _ | CompactManifest _ _ | RemoveInputs _ (_ :: _) => true
  | _ => false
  end.

Lemma quiet_act {A} l (m : M Sys A) k stop s : quiet m -> killed (disk (act l m k stop s).2) = killed (disk s).
Proof.
  intros Hq. specialize (Hq s). unfold act. destruct (m s) as [[] s1]; try done. by destruct l.
Qed.

Lemma quiet_with_lock {A} l msg (m : M Sys A) : quiet m -> quiet (with_lock l msg m).
Proof.
  intros Hm. unfold with_lock. apply quiet_bind; [by apply inert_quiet|]. intros [|]; [by apply inert_quiet|].
  by apply quiet_guarded.
Qed.

(** The others leave it alone. *)
Lemma quiet_next g p s : touches_disk p = false -> killed (disk (next g p s).2) = killed (disk s).
Proof.
  intros Hp. destruct p; try discriminate Hp; cbn [next write_step flush_step worker_step compact_step get_step];
    try done; repeat case_match; try discriminate Hp; try done; apply quiet_act;
    first [apply quiet_locked|apply quiet_with_lock|idtac];
    unfold draw_log, is_full, compact_needed, take_snapshot, reader_for; steady_tac.
Qed.

(** ** The steps that write *)

Section stops.
Context (fs : Fs) (e d : LsmEngineInner) (T : nat -> list record) (a : nat) (h : list (nat * request)) (q : pc).
Context (Hsh : shared fs e T a h q) (Hd : stands fs e T a h (logs_of q) d).
Context (Hdur : durable_log e) (Hfit : files_fit fs) (Hroom : next_seq e < u64_max).

Let S1 : mid_ok fs e T a (logs_of q) := sh_mid _ _ _ _ _ _ _ _ _ Hsh.

Lemma crashes_log_and_apply i j k v (dl : bool) :
  kind (Write k v dl) j ->
  crashes (with_lock WalLock "wal lock poisoned" (log_and_apply k v dl)) (fs, e)
    (fun fs' => survives h fs' \/ survives (h ++ [(i, j)]) fs').
Proof.
  intros Hj. destruct (oversize k v) as [err|] eqn:Hsz.
  - unfold log_and_apply. eapply crashes_refused; [apply S1|apply S1|exact Hsz|].
    left. by eapply survives_here.
  - pose (en := mkWalEntry (if dl then Delete else Put) k v).
    assert (encodable en) as Hen.
    { apply oversize_None in Hsz as [Hk Hv]. destruct dl; cbn in Hj; [destruct Hj as [-> _]|]; by split; [split|]. }
    apply crashes_with_lock; [apply S1|]. unfold log_and_apply. apply (crashes_log en); [apply S1|done|..].
    + intros fs' Hex. eapply survives_write; try done. intros k'. symmetry. by apply (replay_wrote m0 h i j k v dl).
    + intros fs2 w2 HT. pose proof HT as [HL HE]. pose proof HL as (_ & HT2 & _). pose proof (touches_faults _ _ _ HT2) as Hf2.
      apply quiet_crashes.
      * apply inert_quiet, inert_bind; [apply inert_snapshot_active|]. intros x.
        apply inert_bind; [apply inert_mem_at|]. intros t. apply inert_bind; [apply inert_on_mem|]. done.
      * change (disk (fs2, _)) with fs2. eapply survives_write; try done. intros k'. symmetry. by apply (replay_wrote m0 h i j k v dl).
Qed.

Lemma crashes_sync_log :
  crashes (with_lock WalLock "wal lock poisoned" (on_writer sync)) (fs, e) (survives h).
Proof.
  apply crashes_with_lock; [apply S1|]. apply crashes_on_writer, crashes_sync; [apply S1|].
  intros fs' Hex. by eapply survives_synced.
Qed.

Lemma crashes_new_log why s :
  fresh_wal fs e s ->
  crashes (_ ← rotate s; match why with Full => notify | Sealing => mret tt end) (fs, e) (survives h).
Proof.
  intros Hs. apply crashes_bind; [apply S1|apply steady_rotate| |].
  - eapply crashes_rotate; [exact S1|exact Hs|by eapply survives_here|]. intros fs' Hrot. by eapply survives_rotating.
  - intros b s1 _ _. intros n c s2. by destruct why.
Qed.

Lemma crashes_table x t n :
  x ∈ immutables (state e) -> mems e !! mem x = Some t -> small t -> fresh_table K e n ->
  crashes (build_pending x n) (fs, e) (survives h).
Proof.
  intros Hx Ht Hsm [Hn Hlt]. eapply crashes_build_pending; [exact S1|exact Hx|exact Ht|exact Hsm|lia|].
  intros fs' Hw. eapply (survives_fresh fs e d); try done. lia.
Qed.

Lemma crashes_merged out n :
  rs_sorted out -> Forall capped out -> len (records_bytes out) <= 2 ^ 60 -> fresh_table K e n ->
  crashes (build_merged out n) (fs, e) (survives h).
Proof.
  intros Hs Hc Hsm [Hn Hlt]. apply crashes_build_merged; [apply S1|apply S1|done|done|done|lia|].
  intros fs' Hw. eapply (survives_fresh fs e d); try done. lia.
Qed.

Lemma crashes_manifest : crashes write_manifest (fs, e) (survives h).
Proof.
  eapply crashes_write_manifest; [apply S1..|]. intros fs' Hw. by eapply survives_tmp.
Qed.

Lemma crashes_remove name : crashes (ignore (on_fs (fs_remove_file name))) (fs, e) (survives h).
Proof.
  apply crashes_ignore; [apply S1|apply steady_on_fs, steady_fs_remove_file|].
  apply crashes_on_fs, crashes_fs_remove_file; [apply S1|]. by eapply survives_here.
Qed.
End stops.

(** ** A step that stops *)

(** The write of a thread that is about to log it. *)
Definition pending (i : nat) (t : thread) : list (nat * request) :=
  match ctl t with Write _ _ _ => [(i, job t)] | _ => [] end.

Lemma step_stops g i t q fs e T a h n c s' :
  thread_ok fs e T h i t -> next_seq e < u64_max -> Forall small (mems e) ->
  shared fs e T a h (point q (ctl t) (ctl t)) -> on_disk fs e T (point q (ctl t) (ctl t)) ->
  durable_log e -> files_fit fs -> next g (ctl t) (arm n c (fs, e)) = (Done Halt, s') ->
  survives h (killed s'.1) \/ survives (h ++ pending i t) (killed s'.1).
Proof.
  intros [Hk _ _ _ _ Hf Hw _] Hroom Hsm Hsh Hdisk Hdur Hfit Hrun.
  destruct (stands_for _ _ _ _ _ _ Hsh Hdisk) as (d & Hd). pose proof (sh_mid _ _ _ _ _ _ _ _ _ Hsh) as S1.
  destruct (touches_disk (ctl t)) eqn:Ht.
  2: { left. pose proof (quiet_next g (ctl t) (arm n c (fs, e)) Ht) as Hq. rewrite Hrun, disk_arm in Hq. cbn in Hq.
       rewrite Hq, killed_calm by apply S1. by eapply survives_here. }
  unfold pending. destruct t as [p j nn u ms]. cbn [ctl job] in *.
  destruct p; try discriminate Ht; cbn [kind ThreadInv.flusher_ok writer_ok] in Hk, Hf, Hw;
    cbn [next write_step flush_step compact_step] in Hrun.
  - refine (act_halts _ _ _ _ _ _ _ _ (fun fs' => survives h fs' \/ survives (h ++ [(i, j)]) fs') _ return_halts Hrun _);
      [by intros []|by eapply crashes_log_and_apply].
  - left. refine (act_halts _ _ _ _ _ _ _ _ (survives h) _ return_halts Hrun _); [done|by eapply crashes_sync_log].
  - left. destruct Hw as [Hs _].
    refine (act_halts _ _ _ _ _ _ _ _ (survives h) _ return_halts Hrun _); [by destruct why|by eapply crashes_new_log].
  - left. destruct Hf as [Hx Hs]. apply head_Some_elem_of in Hx.
    destruct (wm_frozen _ _ _ _ (md_wals _ _ _ _ _ S1) _ Hx) as (t & _ & Ht' & _).
    refine (act_halts _ _ _ _ _ _ _ _ (survives h) _ (flush_halts r) Hrun _); [done|].
    eapply crashes_table; try done. rewrite Forall_forall in Hsm. by eapply Hsm, list_elem_of_lookup_2.
  - left. refine (act_halts _ _ _ _ _ _ _ _ (survives h) _ (flush_halts r) Hrun _); [done|by eapply crashes_manifest].
  - left. destruct ws as [|w ws]; [done|].
    refine (act_halts _ _ _ _ _ _ _ _ (survives h) _ (flush_halts r) Hrun _); [done|by eapply crashes_remove].
  - left. destruct Hf as ([Hins _] & _ & Hout & Hsmall & _ & Hs).
    refine (act_halts _ _ _ _ _ _ _ _ (survives h) _ (compact_halts r) Hrun _); [done|].
    eapply crashes_merged; try done; [apply Hout|]. apply (merged_capped fs e T); [apply S1|by rewrite <- Hins].
  - left. refine (act_halts _ _ _ _ _ _ _ _ (survives h) _ (compact_halts r) Hrun _); [done|by eapply crashes_manifest].
  - left. destruct todo as [|x todo]; [done|]. apply Forall_cons in Hf as [(_ & (hd & Hhd & _) & _) _].
    refine (act_halts _ _ _ _ _ _ _ _ (survives h) _ (compact_halts r) Hrun _); [done|].
    eapply crashes_bind_inert; [apply inert_handle_at|exact (handle_at_ok fs e x hd Hhd)|by eapply crashes_remove].
Qed.


(** ** Runs *)

(** No step buffers what it logs. *)
Lemma step_durable c c' :
  inv K m0 b0 c -> roomy_step c c' -> durable_log (sys c).2 -> durable_log (sys c').2.
Proof.
  intros [(T & a & Hsh & Hdisk & Hth) HL HF] [Hroom [x Hx]] Hdur.
  pose proof (gap_sound K m0 b0 c T a Hsh HL Hth) as Hgap. destruct x as [i r|i]; cbn in Hx.
  - destruct (pool c !! i) as [t|] eqn:Ht; [|done]. cbn in Hx. destruct (start r) as [p|]; [|done]. cbn in Hx.
    destruct (negb _ && _); [|done]. by injection Hx as <-.
  - destruct (pool c !! i) as [t|] eqn:Ht; [|done]. cbn in Hx. destruct (busy (ctl t) && free (ctl t) c) eqn:Hb; [|done].
    injection Hx as <-. apply andb_true_iff in Hb as [Hb Hf]. destruct (sys c) as [fs e] eqn:Hs. cbn [fst snd] in *.
    destruct (run_sound K m0 b0 i t c fs e T a Hroom Hs HF Ht Hb Hf Hsh Hdisk Hgap (Hth i t Ht)) as (p' & fs' & e' & Hrun & Hsound).
    destruct Hsound as (_ & _ & _ & _ & _ & _ & _ & _ & _ & _ & Hlog).
    unfold advance. rewrite Hs, Hrun. by apply Hlog.
Qed.

Lemma steps_durable c c' :
  inv K m0 b0 c -> rtc roomy_step c c' -> durable_log (sys c).2 -> durable_log (sys c').2.
Proof.
  intros Hinv Hr. induction Hr as [|c1 c2 c3 H12 _ IH]; [done|]. intros Hdur.
  apply IH; [by eapply step_inv|by eapply step_durable].
Qed.
End crash.

(** What can be on disk when the process is killed with the threads at [c]: it
    dies between two steps, or within the next one. *)
Inductive stopped `{Crc32, SkipMap Entry, FastBloom, Allocator} (c : config) : Fs -> Prop :=
  | StoppedBetween : stopped c (killed (sys c).1)
  | StoppedWithin i t n k s' :
      pool c !! i = Some t -> busy (ctl t) = true -> free (ctl t) c = true ->
      next (gap_at c) (ctl t) (arm n k (sys c)) = (Done Halt, s') -> stopped c (killed s'.1).

Section stopped.
Context {C : Crc32} {SM : SkipMap Entry} {FB : FastBloom} {AL : Allocator}.
Context (K : nat -> Prop) (m0 : kvmap) (b0 : bytes -> option bytes).

Lemma stopped_survives c fs :
  inv K m0 b0 c -> durable_log (sys c).2 -> roomy c = true -> files_fit (sys c).1 -> stopped c fs ->
  reopens (replay m0 (history c)) fs \/
  exists i t, pool c !! i = Some t /\ reopens (replay m0 (history c ++ pending i t)) fs.
Proof.
  intros [(T & a & Hsh & Hdisk & Hth) HL HF] Hdur (Hroom & Hsm & _)%roomy_ok Hfit Hstop.
  destruct Hstop as [|i t n k s' Ht Hb Hf Hrun].
  - left. destruct (stands_for _ _ _ _ _ _ _ _ _ Hsh Hdisk) as (d & Hd).
    rewrite killed_calm by apply (sh_mid _ _ _ _ _ _ _ _ _ Hsh). by eapply survives_here.
  - assert (shared K m0 b0 (sys c).1 (sys c).2 T a (history c) (point (phase c) (ctl t) (ctl t)) /\
      on_disk K (sys c).1 (sys c).2 T (point (phase c) (ctl t) (ctl t))) as [Hsh' Hdisk'].
    { split; by apply (phase_point _ c i t (shared_idle K m0 b0 (sys c).1 (sys c).2 T a (history c))). }
    destruct (sys c) as [fs e] eqn:Hs. cbn [fst snd] in *.
    destruct (step_stops K m0 b0 (gap_at c) i t (phase c) fs e T a (history c) n k s' (Hth i t Ht) Hroom Hsm Hsh' Hdisk' Hdur Hfit Hrun);
      [by left|right; by exists i, t].
Qed.
End stopped.
