(* ===== verification/ThreadOutage.v ===== *)
(** * Threads and power losses

    With [sync_per_write], every step of every thread keeps the engine [dry]: a
    power loss between two steps takes no byte that is there. *)

From S2P Require Import Prelude Outcome External Fs Crash MemTable Wal WalWriter WalReader.
From S2P Require Import StdVec SstRecord SstIndex Bloom Builder Reader Merge Manifest.
From S2P Require Import Names KvSpec Engine Steady EngineSpec EngineGet EnginePut EngineFlush EngineCommit.
From S2P Require Import EngineCompact EngineOpen EngineRecover EngineRefine EngineDisk.
From S2P Require Import CrashWrite CrashStore Outage.
From S2P Require Import Threads ThreadHeap ThreadInv ThreadDisk ThreadStep ThreadSafe ThreadCrash.

Section outage.
Context {C : Crc32} {SM : SkipMap Entry} {FB : FastBloom} {AL : Allocator}.

Abbreviation Sys := (Fs * LsmEngineInner)%type.

(** ** Steps *)

Lemma dry_act {A} l (m : M Sys A) k stop s : maintains dry m -> dry s -> dry (act l m k stop s).2.
Proof.
  intros Hm Hs. specialize (Hm s Hs). unfold act. destruct (m s) as [[] s1]; try done.
  destruct l; [by apply dry_poison|done].
Qed.

Lemma dry_log_and_apply k v d : maintains dry (with_lock WalLock "wal lock poisoned" (log_and_apply k v d)).
Proof. apply dry_with_lock, dry_log. dry_tac. Qed.

Lemma dry_next g p s : dry s -> dry (next g p s).2.
Proof.
  intros Hs. destruct p; cbn [next write_step flush_step worker_step compact_step get_step]; try done;
    repeat case_match; try done; apply dry_act; try exact Hs.
  all: first [apply dry_log_and_apply|unfold is_full, draw_log, notify, build_pending, join_table, commit_flush,
    compact_needed, read_run, build_merged, commit_compact, take_snapshot, reader_for; dry_tac].
Qed.

Lemma dry_step c c' : roomy_step c c' -> dry (sys c) -> dry (sys c').
Proof.
  intros [_ [x Hx]] Hs. destruct x as [i r|i]; cbn in Hx.
  - destruct (pool c !! i) as [t|]; [|done]. cbn in Hx. destruct (start r) as [p|]; [|done]. cbn in Hx.
    destruct (negb _ && _); [|done]. by injection Hx as <-.
  - destruct (pool c !! i) as [t|]; [|done]. cbn in Hx. destruct (busy (ctl t) && free (ctl t) c); [|done].
    injection Hx as <-. pose proof (dry_next (gap_at c) (ctl t) (sys c) Hs) as Hn. unfold advance.
    by destruct (next (gap_at c) (ctl t) (sys c)).
Qed.

Lemma dry_steps c c' : rtc roomy_step c c' -> dry (sys c) -> dry (sys c').
Proof. induction 1 as [|c1 c2 c3 H12 _ IH]; [done|]. intros Hs. by eapply IH, dry_step. Qed.

(** ** What is left *)

Lemma outage_survives K m0 b0 c fs :
  inv K m0 b0 c -> dry (sys c) -> roomy c = true -> files_fit (sys c).1 -> outage (sys c).1 fs ->
  reopens (replay m0 (history c)) fs.
Proof.
  intros [(T & a & Hsh & Hdisk & Hth) HL HF] (Hs & Ho & Hu) (Hroom & Hsm & _)%roomy_ok Hfit Hout.
  destruct (stands_for _ _ _ _ _ _ _ _ _ Hsh Hdisk) as (d & Hd).
  pose proof (sh_mid _ _ _ _ _ _ _ _ _ Hsh) as S1. destruct (sys c) as [fs0 e]. cbn [fst snd] in *.
  assert (survives m0 (history c) fs) as Hsv; [|exact Hsv].
  eapply (survives_fresh K) with (n := next_seq e); [exact Hd|done|done|done|apply Hsh|..].
  - pose proof (md_next _ _ _ _ _ S1). lia.
  - eapply within_mono; [|apply outage_within; [done|apply S1|done]]. done.
Qed.
End outage.
