(* ===== verification/EngineLive.v ===== *)
(** * The background worker makes progress

    Every frozen memtable is announced to the worker, and a worker that
    receives its notifications ends with nothing left to do. *)

From S2P Require Import Prelude Outcome External Fs MemTable Wal WalWriter WalReader.
From S2P Require Import StdVec SstRecord SstIndex Bloom Builder Reader Merge Manifest.
From S2P Require Import Names KvSpec Engine EngineSpec EngineGet EnginePut EngineFlush EngineCommit.
From S2P Require Import EngineCompact EngineOpen EngineRecover EngineRefine.

Section live.
Context {C : Crc32} {SM : SkipMap Entry} {FB : FastBloom} {AL : Allocator}.

Abbreviation Sys := (Fs * LsmEngineInner)%type.

(** ** The queue of the worker *)

(** What the worker has to do: frozen memtables and notifications. *)
Definition to_flush (e : LsmEngineInner) : list PendingImm * nat := (immutables (state e), flush_tx e).

(** A frozen memtable never waits without a notification. *)
Definition notified (s : Sys) : Prop := immutables (state s.2) <> [] -> (0 < flush_tx s.2)%nat.

Lemma notified_queue (s s' : Sys) : to_flush s'.2 = to_flush s.2 -> notified s -> notified s'.
Proof. unfold notified. intros [= -> ->]. done. Qed.

(** Computations that do not touch what [q] observes of the engine. *)
Definition leaves {X A} (q : LsmEngineInner -> X) (m : M Sys A) : Prop := forall s, q (m s).2.2 = q s.2.

(** Observations that see neither heaps, counters, locks nor levels. *)
Record remote {X} (q : LsmEngineInner -> X) : Prop := {
  rm_poison : forall l e, q (set_poisoned l e) = q e;
  rm_handles : forall hs e, q (set_handles hs e) = q e;
  rm_mems : forall ms e, q (set_mems ms e) = q e;
  rm_next : forall n e, q (set_next_seq n e) = q e;
  rm_wal : forall w e, q (set_wal w e) = q e;
  rm_levels : forall ls e, q (set_state (mkEngineState (active (state e)) (immutables (state e)) ls) e) = q e;
}.

Section leaves.
Context {X : Type} (q : LsmEngineInner -> X) (Hq : remote q).

Lemma leaves_bind {A B} (m : M Sys A) (f : A -> M Sys B) :
  leaves q m -> (forall a, leaves q (f a)) -> leaves q (m ≫= f).
Proof.
  intros Hm Hf s. specialize (Hm s). unfold mbind, M_bind. destruct (m s) as [[a|e| |] s1]; try done.
  by rewrite (Hf a s1).
Qed.

Lemma leaves_on_fs {A} (m : M Fs A) : leaves q (on_fs m).
Proof. intros [fs e]. unfold on_fs, zoom. cbn. by destruct (m fs). Qed.

Lemma leaves_on_writer {A} (m : M (Fs * WalWriter) A) : leaves q (on_writer m).
Proof. intros [fs e]. unfold on_writer, zoom. cbn. destruct (m _) as [? []]. apply (rm_wal _ Hq). Qed.

Lemma leaves_guarded {A} l (m : M Sys A) : leaves q m -> leaves q (guarded (poison l) m).
Proof.
  intros Hm s. specialize (Hm s). unfold guarded. destruct (m s) as [[a|e| |] s1]; try done.
  cbn. by rewrite (rm_poison _ Hq).
Qed.

Lemma leaves_with_lock {A} l msg (m : M Sys A) : leaves q m -> leaves q (with_lock l msg m).
Proof. intros Hm. apply leaves_bind; [done|]. intros []; [done|]. by apply leaves_guarded. Qed.

Lemma leaves_write_state {A} (m : M Sys A) : leaves q m -> leaves q (write_state m).
Proof. intros Hm. apply leaves_bind; [done|]. intros []; [done|]. by apply leaves_guarded. Qed.

Lemma leaves_read_state : leaves q read_state.
Proof. apply leaves_bind; [done|]. by intros []. Qed.

Lemma leaves_mem_at i : leaves q (mem_at i).
Proof. by apply leaves_bind. Qed.

Lemma leaves_handle_at i : leaves q (handle_at i).
Proof. by apply leaves_bind. Qed.

Lemma leaves_fetch_add_seq : leaves q fetch_add_seq.
Proof. apply leaves_bind; [done|]. intros n. apply leaves_bind; [|done]. intros s. apply (rm_next _ Hq). Qed.

Lemma leaves_on_mem {A} i (m : M MemTable A) : leaves q (on_mem i m).
Proof.
  apply leaves_bind; [apply leaves_mem_at|]. intros t. cbn beta. destruct (m t) as [o t'].
  apply leaves_bind; [|done]. intros s. apply (rm_mems _ Hq).
Qed.

Lemma leaves_snapshot_active : leaves q snapshot_active.
Proof. apply leaves_bind; [apply leaves_read_state|]. by intros st; destruct (active st). Qed.

Lemma leaves_try {A} (m : M Sys A) : leaves q m -> leaves q (try_ m).
Proof. intros Hm s. specialize (Hm s). unfold try_. by destruct (m s) as [[a|e| |] s1]. Qed.

Lemma leaves_ignore {A} (m : M Sys A) : leaves q m -> leaves q (ignore m).
Proof. intros Hm. apply leaves_bind; [by apply leaves_try|done]. Qed.

Lemma leaves_for_each {A} (l : list A) (f : A -> M Sys unit) : (forall x, leaves q (f x)) -> leaves q (for_each l f).
Proof. intros Hf. induction l as [|x l IH]; [done|]. apply leaves_bind; [apply Hf|done]. Qed.

Lemma leaves_map_each {A B} (l : list A) (f : A -> M Sys B) : (forall x, leaves q (f x)) -> leaves q (map_each l f).
Proof.
  intros Hf. induction l as [|x l IH]; [done|]. apply leaves_bind; [apply Hf|]. intros y.
  by apply leaves_bind.
Qed.

Lemma leaves_alloc_handle h : leaves q (alloc_handle h).
Proof. apply leaves_bind; [done|]. intros hs. apply leaves_bind; [|done]. intros s. apply (rm_handles _ Hq). Qed.

Lemma leaves_open_reader i : leaves q (open_reader i).
Proof.
  apply leaves_bind; [apply leaves_handle_at|]. intros h. apply leaves_bind; [|by intros []].
  destruct (reader h); [done|]. apply leaves_bind; [apply leaves_try, leaves_on_fs|]. intros r. cbn zeta.
  apply leaves_bind; [|done]. intros s. apply (rm_handles _ Hq).
Qed.

Lemma leaves_write_table b tmp final : leaves q (write_table b tmp final).
Proof.
  apply leaves_bind; [apply leaves_on_fs|]. intros _. apply leaves_bind; [apply leaves_on_fs|]. intros f.
  apply leaves_bind; [apply leaves_on_fs|]. intros _. apply leaves_on_fs.
Qed.

Lemma leaves_write_manifest : leaves q write_manifest.
Proof.
  apply leaves_bind; [apply leaves_read_state|]. intros st. apply leaves_bind; [|intros m; apply leaves_on_fs].
  generalize 0%nat as l, default_manifest as m.
  induction (levels st) as [|hs ls IH]; intros l m; [done|]. cbn [manifest_levels].
  apply leaves_bind; [|intros; apply IH]. revert m. induction hs as [|i hs IHh]; intros m; [done|].
  cbn [manifest_level]. apply leaves_bind; [apply leaves_handle_at|]. intros h. cbn zeta.
  apply leaves_bind; [done|]. intros m'. apply IHh.
Qed.

Lemma leaves_read_run i : leaves q (read_run i).
Proof.
  apply leaves_bind; [apply leaves_open_reader|]. intros r. apply leaves_bind; [apply leaves_on_fs|]. intros rs.
  by apply leaves_bind; [apply leaves_handle_at|].
Qed.

Lemma leaves_write_merged rs : leaves q (write_merged rs).
Proof.
  unfold write_merged. destruct (is_nil rs); [done|]. apply leaves_bind; [apply leaves_fetch_add_seq|]. intros n.
  apply leaves_bind; [|done].
  unfold build_merged. cbn zeta. apply leaves_bind; [done|]. intros b. apply leaves_bind; [apply leaves_try, leaves_write_table|].
  intros r. apply leaves_bind; [destruct r; [apply leaves_ignore, leaves_on_fs|done]|]. intros _.
  apply leaves_bind; [by destruct r|]. intros _. apply leaves_alloc_handle.
Qed.

Lemma leaves_compact : leaves q compact.
Proof.
  apply leaves_with_lock, leaves_bind; [apply leaves_read_state|]. intros st.
  destruct (head (levels st)) as [[|i l0]|]; [done| |done]. cbn zeta.
  apply leaves_bind; [apply leaves_map_each, leaves_read_run|]. intros runs.
  apply leaves_bind; [done|]. intros merged. apply leaves_bind; [apply leaves_write_merged|]. intros o.
  apply leaves_bind.
  { apply leaves_with_lock, leaves_write_state. intros s. unfold commit_compact, eng. mstep. apply (rm_levels _ Hq). }
  intros _. apply leaves_bind; [apply leaves_write_manifest|]. intros _.
  apply leaves_for_each. intros j. apply leaves_bind; [apply leaves_handle_at|]. intros h.
  apply leaves_ignore, leaves_on_fs.
Qed.

(** An observation that does not see the state at all. *)
Context (Hstate : forall st e, q (set_state st e) = q e).

Lemma leaves_flush_pending p : leaves q (flush_pending p).
Proof.
  apply leaves_bind; [apply leaves_fetch_add_seq|]. intros n. apply leaves_bind.
  { apply leaves_bind; [apply leaves_mem_at|]. intros t. apply leaves_bind; [done|]. intros b. cbn zeta.
    by apply leaves_bind; [apply leaves_write_table|]. }
  intros m. apply leaves_with_lock, leaves_write_state, leaves_bind; [apply leaves_alloc_handle|]. intros i.
  apply leaves_bind; [done|]. intros st. cbn zeta. apply leaves_bind; [done|]. intros l0.
  apply leaves_bind; [done|]. intros hs. cbn zeta. apply leaves_bind; [done|]. intros l1.
  intros s. apply Hstate.
Qed.

Lemma leaves_flush_all_pending : leaves q flush_all_pending.
Proof.
  apply leaves_with_lock, leaves_bind; [done|]. intros n. apply leaves_bind.
  { generalize (Datatypes.S n) as fuel, (@nil Z) as flushed. induction fuel as [|fuel IH]; intros flushed; [done|].
    cbn [drain]. apply leaves_bind; [apply leaves_read_state|]. intros st.
    destruct (head (immutables st)); [|done]. apply leaves_bind; [apply leaves_flush_pending|]. intros _. apply IH. }
  intros flushed. destruct (is_nil flushed); [done|]. apply leaves_bind; [apply leaves_write_manifest|]. intros _.
  apply leaves_for_each. intros w. apply leaves_ignore, leaves_on_fs.
Qed.
End leaves.

Lemma remote_to_flush : remote to_flush.
Proof. by split. Qed.

Lemma remote_flush_tx : remote flush_tx.
Proof. by split. Qed.

(** ** Writes announce what they freeze *)

(** A run of [m] that ends in a value or a reported error keeps [notified],
    whatever the file system does. *)
Definition announces {A} (m : M Sys A) : Prop :=
  forall s, notified s -> match m s with (Ok _, s') | (Err _, s') => notified s' | _ => True end.

Lemma leaves_announces {A} (m : M Sys A) : leaves to_flush m -> announces m.
Proof.
  intros Hm s Hs. specialize (Hm s). destruct (m s) as [[a|e| |] s1]; try done; by eapply notified_queue.
Qed.

Lemma announces_bind {A B} (m : M Sys A) (f : A -> M Sys B) :
  announces m -> (forall a, announces (f a)) -> announces (m ≫= f).
Proof.
  intros Hm Hf s Hs. specialize (Hm s Hs). unfold mbind, M_bind.
  destruct (m s) as [[a|e| |] s1]; try done. by apply Hf.
Qed.

Lemma announces_with_lock {A} l msg (m : M Sys A) : announces m -> announces (with_lock l msg m).
Proof.
  intros Hm. apply announces_bind; [by apply leaves_announces|]. intros []; [by apply leaves_announces|].
  intros s Hs. specialize (Hm s Hs). unfold guarded. by destruct (m s) as [[a|e| |] s1].
Qed.

Lemma wal_drop_no_err s e s' : on_writer wal_drop s <> (Err e, s').
Proof.
  unfold on_writer, wal_drop, on_file, zoom. cbn. unfold bw_drop, ignore, try_, mbind, M_bind.
  by destruct (bw_flush_buf _) as [[] []].
Qed.

(** Computations that report no error. *)
Definition no_err {A} (m : M Sys A) : Prop := forall s e s', m s <> (Err e, s').

Lemma no_err_bind {A B} (m : M Sys A) (f : A -> M Sys B) : no_err m -> (forall a, no_err (f a)) -> no_err (m ≫= f).
Proof.
  intros Hm Hf s e s'. unfold mbind, M_bind. specialize (Hm s).
  destruct (m s) as [[a|e1| |] s1]; try done; [apply Hf|]. by destruct (Hm e1 s1).
Qed.

Lemma no_err_guarded {A} l (m : M Sys A) : no_err m -> no_err (guarded (poison l) m).
Proof.
  intros Hm s e s'. specialize (Hm s). unfold guarded. by destruct (m s) as [[a|e1| |] s1].
Qed.

(** A critical section on the state fails before it begins. *)
Lemma locked_err {A} (m : M Sys A) msg s e s' :
  no_err m -> with_lock StateLock msg (write_state m) s = (Err e, s') -> s' = s.
Proof.
  intros Hm. unfold with_lock, mbind at 1, M_bind at 1, eng at 1, gets at 1.
  destruct (is_poisoned StateLock s.2); [by intros [= _ <-]|]. intros H. exfalso. revert H.
  apply no_err_guarded, no_err_bind; [done|]. intros []; [done|]. by apply no_err_guarded.
Qed.

(** A rotation that reports an error has frozen nothing. *)
Lemma freeze_queue s :
  match freeze_active s with (Ok false, s') | (Err _, s') => to_flush s'.2 = to_flush s.2 | _ => True end.
Proof.
  unfold freeze_active.
  pose proof (leaves_snapshot_active to_flush s) as H0. unfold mbind at 1, M_bind at 1.
  destruct (snapshot_active s) as [[i|e| |] s0]; try done. cbn [snd] in H0. rewrite <- H0. clear H0.
  pose proof (leaves_mem_at to_flush i s0) as H0. unfold mbind at 1, M_bind at 1.
  destruct (mem_at i s0) as [[t|e| |] s1]; try done. cbn [snd] in H0. rewrite <- H0. clear H0.
  destruct (MemTable.is_empty t); [done|].
  pose proof (leaves_fetch_add_seq to_flush remote_to_flush s1) as H0. unfold mbind at 1, M_bind at 1.
  destruct (fetch_add_seq s1) as [[n|e| |] s2]; try done. cbn [snd] in H0. rewrite <- H0. clear H0. unfold rotate.
  pose proof (leaves_on_fs to_flush (wal_create (wal_name n)) s2) as H0. unfold mbind at 1, M_bind at 1.
  destruct (on_fs _ s2) as [[w|e| |] s3]; try done. cbn [snd] in H0. rewrite <- H0. clear H0.
  unfold mbind at 1, M_bind at 1.
  match goal with |- context [with_lock StateLock ?msg ?m s3] => set (swap := with_lock StateLock msg m) end.
  assert (forall e s', swap s3 = (Err e, s') -> s' = s3) as Hswap.
  { intros e s'. apply locked_err. apply no_err_bind; [done|]. intros st. destruct (active st); [|done].
    repeat (apply no_err_bind; [done|intros ?]). done. }
  destruct (swap s3) as [[[]|e| |] s4]; try done; [|by rewrite (Hswap e s4 eq_refl)].
  unfold mbind at 1, M_bind at 1. pose proof (wal_drop_no_err s4) as Hd.
  destruct (on_writer wal_drop s4) as [[[]|e| |] s5]; try done. exfalso. by apply (Hd e s5).
Qed.

Lemma apply_announces k v d : announces (apply_and_maybe_freeze k v d).
Proof.
  unfold apply_and_maybe_freeze.
  apply announces_bind; [apply leaves_announces, (leaves_snapshot_active to_flush)|]. intros i.
  apply announces_bind; [apply leaves_announces, (leaves_on_mem to_flush remote_to_flush)|]. intros _.
  apply announces_bind; [apply leaves_announces, (leaves_mem_at to_flush)|]. intros t.
  apply announces_bind; [by apply leaves_announces|]. intros o.
  destruct (_ && _); [|by apply leaves_announces].
  intros s Hs. pose proof (freeze_queue s) as Hq. unfold mbind, M_bind.
  destruct (freeze_active s) as [[[]|e| |] s1]; try done.
  - unfold notified. cbn. lia.
  - by eapply notified_queue.
  - by eapply notified_queue.
Qed.

Lemma put_announces k v : announces (put k v).
Proof.
  apply announces_with_lock. apply announces_bind; [apply leaves_announces, (leaves_on_writer to_flush remote_to_flush)|]. intros _.
  apply announces_bind; [by apply leaves_announces|]. intros o.
  apply announces_bind; [|intros _; apply apply_announces].
  destruct (sync_per_write o); [apply leaves_announces, (leaves_on_writer to_flush remote_to_flush)|by apply leaves_announces].
Qed.

Lemma delete_announces k : announces (delete k).
Proof.
  apply announces_with_lock. apply announces_bind; [apply leaves_announces, (leaves_on_writer to_flush remote_to_flush)|]. intros _.
  apply announces_bind; [by apply leaves_announces|]. intros o.
  apply announces_bind; [|intros _; apply apply_announces].
  destruct (sync_per_write o); [apply leaves_announces, (leaves_on_writer to_flush remote_to_flush)|by apply leaves_announces].
Qed.

Lemma write_notified (m : M Sys unit) err s s' :
  announces m -> unit_reply m s = (match err with Some err => Err err | None => Ok None end, s') ->
  notified s -> notified s'.
Proof.
  intros Hm Hrun Hs. specialize (Hm s Hs). unfold unit_reply, mbind, M_bind, mret, M_ret in Hrun.
  destruct (m s) as [[[]|e| |] s1]; destruct err; simplify_eq; done.
Qed.

Lemma open_queue o fs e fs' : open_with_options o fs = (Ok e, fs') -> immutables (state e) = [].
Proof.
  unfold open_with_options.
  repeat match goal with
  | |- (?m ≫= ?f) ?s = _ -> _ =>
      unfold mbind at 1, M_bind at 1; destruct (m s) as [[?x|?x| |] ?s']; try done
  | |- (let (_, _) := ?x in _) _ = _ -> _ => destruct x
  | |- _ => progress cbn zeta
  end.
  all: try (intros [= <-]; done).
Qed.

Lemma reopen_queue s x s' : reopen s = (Ok x, s') -> immutables (state s'.2) = [].
Proof.
  unfold reopen, mbind at 1, M_bind at 1. destruct (drop_engine s) as [[[]|?| |] s1]; try done.
  unfold eng, upd. mstep. unfold on_fs, zoom, mbind at 1, M_bind at 1.
  destruct (open_with_options _ s1.1) as [[e|?| |] fs'] eqn:E; try done. mstep. cbn. intros [= _ <-].
  by eapply open_queue.
Qed.

(** ** One notification *)

(** Nothing left for the worker to do. *)
Definition settled (e : LsmEngineInner) : Prop :=
  immutables (state e) = [] /\ forall fs, compact_needed (fs, e) = (Ok false, (fs, e)).

Lemma compact_needed_run fs e :
  poisoned e = [] ->
  compact_needed (fs, e) =
    (Ok (if compaction_l0_file_threshold (options e) =? 0 then false
         else match head (levels (state e)) with
              | Some l0 => compaction_l0_file_threshold (options e) <=? len l0
              | None => false
              end), (fs, e)).
Proof.
  intros Hp. unfold compact_needed. mstep. cbn [snd]. destruct (_ =? 0); [done|].
  by rewrite (M_bind_ok _ _ _ _ _ (read_state_ok fs e Hp)).
Qed.

(** A worker that has nothing to do changes nothing. *)
Lemma tick_settled fs e T a n :
  engine_ok fs e T a -> settled e -> flush_tx e = S n -> worker_tick (fs, e) = (Ok tt, (fs, set_flush_tx n e)).
Proof.
  intros Hok [Himm Hc] Htx. unfold worker_tick. mstep. cbn [snd]. rewrite Htx. mstep. cbn [fst snd].
  pose proof (eo_poison _ _ _ _ Hok) as Hp.
  assert (flush_all_pending (fs, set_flush_tx n e) = (Ok tt, (fs, set_flush_tx n e))) as Hf.
  { apply with_lock_ok; [done| |done]. mstep. cbn [snd set_flush_tx state]. rewrite Himm. cbn [length drain].
    rewrite M_bind_assoc, (M_bind_ok _ _ _ _ _ (read_state_ok fs (set_flush_tx n e) Hp)).
    cbn [set_flush_tx state]. rewrite Himm. done. }
  assert (compact_needed (fs, set_flush_tx n e) = (Ok false, (fs, set_flush_tx n e))) as Hn.
  { specialize (Hc fs). rewrite (compact_needed_run _ _ Hp) in Hc.
    rewrite (compact_needed_run fs (set_flush_tx n e) Hp). cbn [set_flush_tx options state]. by injection Hc as ->. }
  unfold catch_unwind. rewrite (M_bind_ok _ _ _ _ _ (try_ok _ _ _ _ Hf)).
  by rewrite (M_bind_ok _ _ _ _ _ Hn).
Qed.

(** The first notification does all the work there is. *)
Lemma tick_settles fs e T a n :
  engine_ok fs e T a -> background_room (fs, e) -> 0 <= compaction_l0_file_threshold (options e) ->
  flush_tx e = S n ->
  exists fs' e' T', worker_tick (fs, e) = (Ok tt, (fs', e')) /\ engine_ok fs' e' T' a /\ same_log e e' /\
    flush_tx e' = n /\ settled e' /\ forall k, view e' T' k = view e T k.
Proof.
  intros Hok (Hsm & Hroom & Hin) Hth Htx. cbn [fst snd] in *. unfold worker_tick. mstep. cbn [snd].
  rewrite Htx in Hin |- *. mstep. cbn [fst snd pred] in *.
  pose proof (engine_ok_tx fs e T a n Hok) as Hok1.
  destruct (flush_all_pending_ok fs (set_flush_tx n e) T a Hok1 Hsm ltac:(cbn; lia))
    as (fs1 & e1 & T1 & Hf & Hok2 & Himm & _ & Hsl1 & Hns & _ & _ & Hv1). cbn [set_flush_tx next_seq state] in Hns.
  pose proof (leaves_flush_all_pending flush_tx remote_flush_tx ltac:(done) (fs, set_flush_tx n e)) as Htx1.
  rewrite Hf in Hin, Htx1. cbn [snd set_flush_tx flush_tx] in Hin, Htx1. unfold catch_unwind.
  rewrite (M_bind_ok _ _ _ _ _ (try_ok _ _ _ _ Hf)).
  pose proof (compact_needed_run fs1 e1 (eo_poison _ _ _ _ Hok2)) as Hb.
  destruct (compaction_l0_file_threshold (options e1) =? 0) eqn:E0.
  { rewrite (M_bind_ok _ _ _ _ _ Hb). exists fs1, e1, T1. do 4 (split; [done|]). split; [|done].
    split; [done|]. intros fs2. by rewrite (compact_needed_run fs2 e1 (eo_poison _ _ _ _ Hok2)), E0. }
  rewrite (M_bind_ok _ _ _ _ _ Hb).
  destruct (match head (levels (state e1)) with Some l0 => compaction_l0_file_threshold (options e1) <=? len l0 | None => false end) eqn:E1.
  2: { exists fs1, e1, T1. do 4 (split; [done|]). split; [|done].
       split; [done|]. intros fs2. by rewrite (compact_needed_run fs2 e1 (eo_poison _ _ _ _ Hok2)), E0, E1. }
  apply Z.eqb_neq in E0. assert (0 < compaction_l0_file_threshold (options e1)) as Hpos.
  { destruct Hsl1 as [_ Ho]. cbn in Ho. rewrite Ho in *. lia. }
  destruct (compact_ok fs1 e1 T1 a Hok2 (inputs_fit_small _ _ _ _ Hok2 Hin) ltac:(lia))
    as (fs2 & e2 & T2 & Hc & Hok3 & _ & Hsl2 & Himm2 & _ & Hlev & Hv2).
  pose proof (leaves_compact flush_tx remote_flush_tx (fs1, e1)) as Htx2. rewrite Hc in Htx2. cbn [snd] in Htx2.
  unfold compact in Hc. exists fs2, e2, T2. split; [by rewrite (ignore_ok _ _ _ _ Hc)|]. split; [done|].
  split; [by eapply same_log_trans|]. split; [congruence|]. split.
  - split; [congruence|]. intros fs3. rewrite (compact_needed_run fs3 e2 (eo_poison _ _ _ _ Hok3)).
    destruct Hsl2 as [_ ->]. rewrite (proj2 (Z.eqb_neq _ _) E0).
    destruct (levels (state e1)) as [|l0 ls]; [done|]. cbn [head default from_option id] in *.
    assert (l0 <> []) as Hne. { intros ->. apply Z.leb_le in E1. rewrite len_nil in E1. lia. }
    destruct (Hlev Hne) as [->|(i & -> & _)]; cbn [head]; rewrite len_nil; by rewrite (proj2 (Z.leb_gt _ _)).
  - intros k. by rewrite Hv2, Hv1.
Qed.

Lemma serve_notified r m s :
  rep m s -> room r s -> 0 <= compaction_l0_file_threshold (options s.2) -> notified s -> notified (serve r s).2.
Proof.
  intros Hrep Hroom Hth Hs. destruct r as [k v|k|k| | | |].
  - destruct (serve_put m k v s Hrep Hroom) as (s' & Hrun & _). rewrite Hrun.
    eapply (write_notified (put k v) (oversize k v)); [apply put_announces|exact Hrun|done].
  - destruct (serve_delete m k s Hrep Hroom) as (s' & Hrun & _). rewrite Hrun.
    eapply (write_notified (delete k) (oversize k [])); [apply delete_announces|exact Hrun|done].
  - destruct s as [fs e], Hrep as (T & a & Hok & _).
    destruct (engine_get_ok fs e T a k Hok) as (e' & Hrun & Hc & _). cbn [serve]. rewrite Hrun.
    destruct (cached_state _ _ Hc) as (E1 & _ & _ & _ & _ & E2 & _). unfold notified. cbn. by rewrite E1, E2.
  - destruct s as [fs e], Hrep as (T & a & Hok & _), Hroom as [Hsm Hroom].
    destruct (flush_ok fs e T a Hok Hsm Hroom) as (fs' & e' & T' & a' & t & Hrun & _ & Himm & _).
    cbn [serve]. rewrite (unit_reply_ok _ _ _ Hrun). intros Hne. by destruct Hne.
  - eapply notified_queue; [|exact Hs]. cbn [serve]. unfold unit_reply.
    by apply (leaves_bind to_flush compact); [apply leaves_compact, remote_to_flush|].
  - cbn [serve]. unfold unit_reply. destruct s as [fs e], Hrep as (T & a & Hok & _).
    destruct (flush_tx e) as [|n] eqn:Htx.
    + unfold worker_tick, mbind at 1, M_bind at 1, mbind at 1, M_bind at 1, eng, gets. cbn [snd]. by rewrite Htx.
    + destruct (tick_settles fs e T a n Hok Hroom Hth Htx) as (fs' & e' & T' & Hrun & _ & _ & _ & [Hn _] & _).
      rewrite (M_bind_ok _ _ _ _ _ Hrun). intros Hne. by destruct Hne.
  - destruct (serve_reopen m s Hrep Hroom) as (s' & Hrun & _). cbn [serve]. rewrite Hrun.
    intros Hne. by destruct Hne; eapply reopen_queue.
Qed.

(** ** The loop of the worker *)

Lemma settled_tx n e : poisoned e = [] -> settled e -> settled (set_flush_tx n e).
Proof.
  intros Hp [Himm Hc]. split; [done|]. intros fs. specialize (Hc fs). rewrite (compact_needed_run _ _ Hp) in Hc.
  rewrite (compact_needed_run fs (set_flush_tx n e) Hp). cbn [set_flush_tx options state]. by injection Hc as ->.
Qed.

Lemma worker_idles fs e T a n :
  engine_ok fs e T a -> settled e -> flush_tx e = n ->
  flush_worker (S n) (fs, e) = (Ok tt, (fs, set_flush_tx 0 e)).
Proof.
  revert e. induction n as [|n IH]; intros e Hok Hset Htx; cbn [flush_worker]; unfold eng at 1; mstep; cbn [snd]; rewrite Htx.
  { rewrite <- Htx. by destruct e. }
  rewrite (M_bind_ok _ _ _ _ _ (tick_settled fs e T a n Hok Hset Htx)).
  apply (IH (set_flush_tx n e)); [by apply engine_ok_tx|by apply settled_tx; [apply Hok|]|done].
Qed.

(** The worker empties its channel. *)
Lemma worker_runs fs e T a :
  engine_ok fs e T a -> background_room (fs, e) -> 0 <= compaction_l0_file_threshold (options e) ->
  exists fs' e' T', flush_worker (S (flush_tx e)) (fs, e) = (Ok tt, (fs', e')) /\ engine_ok fs' e' T' a /\
    flush_tx e' = 0%nat /\ (flush_tx e = 0%nat -> e' = e) /\ ((0 < flush_tx e)%nat -> settled e') /\
    forall k, view e' T' k = view e T k.
Proof.
  intros Hok Hroom Hth. destruct (flush_tx e) as [|n] eqn:Htx.
  { exists fs, e, T. split; [|split_and!; [done..|lia|done]]. cbn [flush_worker]. unfold eng. mstep. cbn [snd]. by rewrite Htx. }
  destruct (tick_settles fs e T a n Hok Hroom Hth Htx) as (fs1 & e1 & T1 & Hrun & Hok1 & _ & Htx1 & Hset & Hv).
  exists fs1, (set_flush_tx 0 e1), T1. split.
  { change (flush_worker (S (S n))) with (n0 ← eng flush_tx; match n0 with O => mret tt | S _ => _ ← worker_tick; flush_worker (S n) end).
    unfold eng. mstep. cbn [snd]. rewrite Htx, (M_bind_ok _ _ _ _ _ Hrun). by eapply worker_idles. }
  split; [by apply engine_ok_tx|]. split; [done|]. split; [done|].
  split; [|done]. intros _. by apply settled_tx; [apply Hok1|].
Qed.

(** ** Sessions *)

(** No request changes the options. *)
Lemma reopen_options s x s' : reopen s = (Ok x, s') -> exists s1, drop_engine s = (Ok tt, s1) /\ options s'.2 = options s1.2.
Proof.
  unfold reopen, mbind at 1, M_bind at 1. destruct (drop_engine s) as [[[]|?| |] s1]; try done.
  unfold eng, upd. mstep. unfold on_fs, zoom, mbind at 1, M_bind at 1.
  destruct (open_with_options _ s1.1) as [[e|?| |] fs'] eqn:E; try done. mstep. cbn. intros [= _ <-].
  exists s1. split; [done|]. cbn. revert E. unfold open_with_options.
  repeat match goal with
  | |- (?m ≫= ?f) ?s = _ -> _ =>
      unfold mbind at 1, M_bind at 1; destruct (m s) as [[?x|?x| |] ?s']; try done
  | |- (let (_, _) := ?x in _) _ = _ -> _ => destruct x
  | |- _ => progress cbn zeta
  end.
  all: try (intros [= <-]; done).
Qed.

Lemma serve_options r m s : rep m s -> room r s -> options (serve r s).2.2 = options s.2.
Proof.
  destruct s as [fs e]. intros (T & a & Hok & Hv) Hroom. destruct r as [k v|k|k| | | |]; cbn [serve fst snd room] in *.
  - destruct (oversize k v) as [err|] eqn:Hsize.
    + destruct (put_refused fs e T a k v err Hok Hsize) as (e' & Hrun & _ & Ho & _).
      by rewrite (unit_reply_err _ _ _ _ Hrun).
    + apply oversize_None in Hsize as [Hk Hval].
      destruct (put_ok fs e T a k v Hok Hroom Hk Hval) as (fs' & e' & a' & Hrun & _ & _ & Ho & _).
      by rewrite (unit_reply_ok _ _ _ Hrun).
  - destruct (oversize k []) as [err|] eqn:Hsize.
    + destruct (delete_refused fs e T a k err Hok Hsize) as (e' & Hrun & _ & Ho & _).
      by rewrite (unit_reply_err _ _ _ _ Hrun).
    + apply oversize_None in Hsize as [Hk _].
      destruct (delete_ok fs e T a k Hok Hroom Hk) as (fs' & e' & a' & Hrun & _ & _ & Ho & _).
      by rewrite (unit_reply_ok _ _ _ Hrun).
  - destruct (engine_get_ok fs e T a k Hok) as (e' & Hrun & Hc & _). rewrite Hrun. by apply (cached_state e e').
  - destruct Hroom as [Hsm Hroom].
    destruct (flush_ok fs e T a Hok Hsm Hroom) as (fs' & e' & T' & a' & t & Hrun & _ & _ & _ & _ & _ & Ho & _).
    by rewrite (unit_reply_ok _ _ _ Hrun).
  - destruct Hroom as [Hin Hroom].
    destruct (compact_ok fs e T a Hok (inputs_fit_small _ _ _ _ Hok Hin) Hroom) as (fs' & e' & T' & Hrun & _ & _ & [_ Ho] & _).
    by rewrite (unit_reply_ok _ _ _ Hrun).
  - destruct (worker_tick_ok fs e T a Hok Hroom) as (fs' & e' & T' & Hrun & _ & [_ Ho] & _).
    by rewrite (unit_reply_ok _ _ _ Hrun).
  - destruct (serve_reopen m (fs, e)) as (s' & Hrun & _); [by exists T, a|done|]. rewrite Hrun. cbn [snd].
    destruct (reopen_options _ _ _ Hrun) as ((fs1 & e1) & Hdrop & ->). destruct Hroom as (Hfit & Hlen & Hroom).
    destruct (drop_engine_ok fs e T a Hok Hfit Hlen) as (fs2 & e2 & Hdrop' & Hx). rewrite Hdrop in Hdrop'.
    injection Hdrop' as <- <-. apply Hx.
Qed.

Lemma session_notified rs m s :
  rep m s -> session_room rs s -> 0 <= compaction_l0_file_threshold (options s.2) -> notified s ->
  notified (session rs s).2 /\ options (session rs s).2.2 = options s.2.
Proof.
  revert m s. induction rs as [|r rs IH]; intros m s Hrep Hroom Hth Hs; [done|].
  destruct Hroom as [Hr Hroom]. pose proof (serve_notified r m s Hrep Hr Hth Hs) as Hs1.
  pose proof (serve_options r m s Hrep Hr) as Ho.
  destruct (serve_ok r m s Hrep Hr) as (s1 & Hrun & Hrep1). cbn [kv_serve engine_store] in *.
  cbn [session kv_serve engine_store]. rewrite Hrun in *. cbn [snd] in *.
  rewrite <- Ho in Hth. specialize (IH _ _ Hrep1 Hroom Hth Hs1). rewrite Ho in IH. by destruct (session rs s1).
Qed.
End live.
