(* ===== verification/EngineTheorems.v ===== *)
(** * The engine's guarantees

    What the engine promises to its callers, each with an instance on a small
    concrete engine, and two schedules of I/O errors after which a reopened
    engine returns a value that had been overwritten. *)

From S2P Require Import Prelude Outcome External Fs MemTable Wal WalWriter WalReader.
From S2P Require Import StdVec SstRecord SstIndex Bloom Builder Reader Merge Manifest.
From S2P Require Import Names KvSpec Engine EngineSpec EngineGet EnginePut EngineFlush EngineCommit.
From S2P Require Import EngineCompact EngineOpen EngineRecover EngineRefine EngineLive.

(** ** Deciding the resource conditions *)

Section decide.
Context {C : Crc32} {SM : SkipMap Entry} {FB : FastBloom} {AL : Allocator}.

#[export] Instance files_fit_dec fs : Decision (files_fit fs).
Proof.
  refine (cast_if (decide (map_Forall (fun _ i => len (data_of fs i) <= isize_max) (dirents fs)))).
  - intros n d Hn. unfold file_of in Hn. destruct (dirents fs !! n) as [i|] eqn:E; [|discriminate].
    cbn in Hn. injection Hn as <-. exact (m n i E).
  - intros H. apply n. intros x i Hx. apply (H x). unfold file_of. by rewrite Hx.
Defined.

#[export] Instance small_dec t : Decision (small t).
Proof. unfold small. apply _. Defined.

Definition small_at (e : LsmEngineInner) (i : nat) : bool :=
  match mems e !! i with Some t => bool_decide (small t) | None => true end.

Lemma small_at_spec e i : small_at e i = true <-> forall t, mems e !! i = Some t -> small t.
Proof.
  unfold small_at. destruct (mems e !! i) as [t|]; [|naive_solver].
  rewrite bool_decide_eq_true. naive_solver.
Qed.

#[export] Instance small_mems_dec e : Decision (small_mems e).
Proof.
  refine (cast_if (decide (Forall (fun i => small_at e i = true)
    ((match active (state e) with Some a => [a] | None => [] end) ++ (mem <$> immutables (state e)))))).
  - intros i t Hi. rewrite Forall_forall in f. by apply small_at_spec, f.
  - intros H. apply n, Forall_forall. intros i Hi. apply small_at_spec. intros t. by apply H.
Defined.

#[export] Instance small_frozen_dec e : Decision (small_frozen e).
Proof.
  refine (cast_if (decide (Forall (fun p => small_at e (mem p) = true) (immutables (state e))))).
  - intros p t Hp. rewrite Forall_forall in f. by apply small_at_spec, (f p).
  - intros H. apply n, Forall_forall. intros p Hp. apply small_at_spec. intros t. by apply H.
Defined.

#[export] Instance room_dec r s : Decision (room r s).
Proof.
  destruct r; unfold room, background_room, inputs_fit; apply _.
Defined.

Fixpoint session_room_dec rs s : Decision (session_room rs s) :=
  match rs with
  | [] => left I
  | r :: rs => and_dec (room_dec r s) (session_room_dec rs (kv_serve r s).2)
  end.
#[export] Existing Instance session_room_dec.
End decide.

(** ** A concrete engine *)

Module Sample.
#[export] Existing Instance Toy.crc32.
#[export] Existing Instance Toy.bloom.
#[export] Existing Instance Toy.allocator.
#[export] Instance skip_map : SkipMap Entry := Toy.skip_map Entry.

Abbreviation Sys := (Fs * LsmEngineInner)%type.

(** Rotation after about two entries, a sync per write, compaction from two
    tables on. *)
Definition config : LsmOptions := mkLsmOptions 160 true 2.

Definition no_engine : LsmEngineInner :=
  mkEngine config (mkEngineState None [] []) (mkActiveWal (mkWalWriter (bw_new 0) EmptyString []) 0) 0 0 [] [] [].

Definition start (o : LsmOptions) : Sys :=
  match open_with_options o empty_fs with (Ok e, fs) => (fs, e) | (_, fs) => (fs, no_engine) end.

Definition script : list request :=
  [ReqPut [x61] [x31]; ReqPut [x62] [x32]; ReqPut [x63] [x33]; ReqBackground; ReqDelete [x61]; ReqFlush;
   ReqGet [x61]; ReqGet [x62]; ReqCompact; ReqGet [x63]; ReqReopen; ReqGet [x61]; ReqPut [x64] [x34];
   ReqGet [x64]].

(** A history that leaves one table, a frozen generation and an active one. *)
Definition history : list request :=
  [ReqPut [x61] [x31]; ReqPut [x62] [x32]; ReqFlush; ReqPut [x61] [x35]; ReqDelete [x62]; ReqPut [x63] [x33]].

Definition sys : Sys := (session history (start config)).2.
Definition contents : kvmap := (spec_session history ∅).2.

Lemma start_rep o : rep ∅ (start o).
Proof. destruct (open_fresh o) as (fs & e & Hrun & Hrep). unfold start. by rewrite Hrun. Qed.

Lemma sys_rep : rep contents sys.
Proof.
  destruct (session_ok (K := engine_store) history ∅ (start config) (start_rep config)) as (s & Hrun & Hrep).
  { apply (bool_decide_unpack _). vm_compute. exact I. }
  unfold sys. rewrite Hrun. exact Hrep.
Qed.

Lemma sys_ok : exists T a, engine_ok sys.1 sys.2 T a /\ forall k, view sys.2 T k = contents !! k.
Proof. exact sys_rep. Qed.
End Sample.

(** ** Refinement of the key-value map *)

(** C1: an engine opened on an empty directory serves every session of puts,
    deletes, gets, flushes, compactions, background notifications and clean
    restarts exactly as a finite map would: the same replies, size errors
    included, in the same order, as long as every step has the 64-bit sequence
    numbers and the memory it needs.  Where the data sits, in a memtable, a
    frozen generation, a log or any level of tables, is not observable. *)
Theorem session_refines {C : Crc32} {SM : SkipMap Entry} {FB : FastBloom} {AL : Allocator}
    (o : LsmOptions) (rs : list request) :
  exists fs e, open_with_options o empty_fs = (Ok e, fs) /\
    (session_room rs (fs, e) ->
     exists s', session rs (fs, e) = ((spec_session rs ∅).1, s') /\ rep (spec_session rs ∅).2 s').
Proof.
  destruct (open_fresh o) as (fs & e & Hrun & Hrep). exists fs, e. split; [done|].
  intros Hroom. by apply (session_ok (K := engine_store)).
Qed.

(** ** Reads and writes *)

Section operations.
Context {C : Crc32} {SM : SkipMap Entry} {FB : FastBloom} {AL : Allocator}.
Implicit Types (fs : Fs) (e : LsmEngineInner) (T : nat -> list record).

(** C17: [get] returns the newest visible value of the key, found in the active
    memtable, the frozen ones from the newest to the oldest, or the tables
    level by level from the newest to the oldest, and stops at a tombstone.  It
    writes nothing to disk and changes the engine only by keeping the readers
    it opened. *)
Theorem get_reads_view fs e T a k :
  engine_ok fs e T a ->
  exists e', get k (fs, e) = (Ok (view e T k), (fs, e')) /\ engine_ok fs e' T a /\
    e' = set_handles (handles e') e /\ forall k', view e' T k' = view e T k'.
Proof.
  intros Hok. destruct (engine_get_ok fs e T a k Hok) as (e' & Hrun & Hc & Hok'). exists e'.
  split_and!; [done|done|by destruct Hc|]. intros k'. by rewrite (cached_view _ _ _ _ Hc).
Qed.

(** C18: an accepted [put] changes the value of its key and of no other, whether
    or not it fills the memtable and rotates the log, and keeps the engine's
    invariant; with a sync per write nothing is left in the log's buffer. *)
Theorem put_updates fs e T a k v :
  engine_ok fs e T a -> next_seq e < u64_max -> len k <= MAX_KEY_LEN -> len v <= MAX_VALUE_LEN ->
  exists fs' e' a', put k v (fs, e) = (Ok tt, (fs', e')) /\ engine_ok fs' e' T a' /\
    options e' = options e /\ (sync_per_write (options e) = true -> unbuffered e') /\
    forall k', view e' T k' = if decide (k = k') then Some v else view e T k'.
Proof.
  intros Hok Hroom Hk Hv. destruct (put_ok fs e T a k v Hok Hroom Hk Hv)
    as (fs' & e' & a' & H1 & H2 & _ & H3 & H4 & H5). by exists fs', e', a'.
Qed.

(** C19: an accepted [delete] hides its key in every memtable and table, and no
    other key. *)
Theorem delete_hides fs e T a k :
  engine_ok fs e T a -> next_seq e < u64_max -> len k <= MAX_KEY_LEN ->
  exists fs' e' a', delete k (fs, e) = (Ok tt, (fs', e')) /\ engine_ok fs' e' T a' /\
    options e' = options e /\ (sync_per_write (options e) = true -> unbuffered e') /\
    forall k', view e' T k' = if decide (k = k') then None else view e T k'.
Proof.
  intros Hok Hroom Hk. destruct (delete_ok fs e T a k Hok Hroom Hk)
    as (fs' & e' & a' & H1 & H2 & _ & H3 & H4 & H5). by exists fs', e', a'.
Qed.

(** C20: a write with an oversized key or value is refused with the limit it
    breaks, the key's first; the log file, the memtables and every key are as
    they were, and the engine stays usable. *)
Theorem oversized_write_refused fs e T a k v err :
  engine_ok fs e T a -> oversize k v = Some err ->
  (exists e', put k v (fs, e) = (Err err, (fs, e')) /\ engine_ok fs e' T a /\
    forall k', view e' T k' = view e T k') /\
  (v = [] -> exists e', delete k (fs, e) = (Err err, (fs, e')) /\ engine_ok fs e' T a /\
    forall k', view e' T k' = view e T k').
Proof.
  intros Hok Hbig. split.
  - destruct (put_refused fs e T a k v err Hok Hbig) as (e' & H1 & H2 & _ & _ & H3). by exists e'.
  - intros ->. destruct (delete_refused fs e T a k err Hok Hbig) as (e' & H1 & H2 & _ & _ & H3). by exists e'.
Qed.

(** ** Flush and compaction *)

(** C21: [flush] moves every memtable to tables of level 0: afterwards no frozen
    generation is left, the active memtable is empty, the manifest on disk
    lists the tables, the logs of the flushed generations are gone, and every
    key reads as before. *)
Theorem flush_drains fs e T a :
  engine_ok fs e T a -> small_mems e -> next_seq e + len (immutables (state e)) + 2 <= u64_max ->
  exists fs' e' T' a' t, flush (fs, e) = (Ok tt, (fs', e')) /\ engine_ok fs' e' T' a' /\
    immutables (state e') = [] /\ mems e' !! a' = Some t /\ iter t = [] /\
    forall k, view e' T' k = view e T k.
Proof.
  intros Hok Hsm Hroom. destruct (flush_ok fs e T a Hok Hsm Hroom)
    as (fs' & e' & T' & a' & t & H1 & H2 & H3 & H4 & H5 & _ & _ & _ & H6). by exists fs', e', T', a', t.
Qed.

(** C22: [compact] leaves at most one table, on level 1, without tombstones, keeps
    the memtables as they are and the invariant, by which the manifest lists
    exactly the tables that are left, and every key reads as before. *)
Theorem compact_merges fs e T a :
  engine_ok fs e T a -> tables_small e T -> next_seq e < u64_max ->
  exists fs' e' T', compact (fs, e) = (Ok tt, (fs', e')) /\ engine_ok fs' e' T' a /\
    mems e' = mems e /\ immutables (state e') = immutables (state e) /\
    (default [] (head (levels (state e))) <> [] ->
      levels (state e') = [[]] \/
      exists i, levels (state e') = [[]; [i]] /\ Forall (fun r => rdeleted r = false) (T' i)) /\
    (forall k, view e' T' k = view e T k).
Proof.
  intros Hok Hsm Hroom. destruct (compact_ok fs e T a Hok Hsm Hroom)
    as (fs' & e' & T' & H1 & H2 & H3 & _ & H4 & _ & H5 & H6). by exists fs', e', T'.
Qed.

(** A notification of the background worker, with the flush and the
    compaction it triggers, changes what no key reads as. *)
Theorem background_transparent fs e T a :
  engine_ok fs e T a -> background_room (fs, e) ->
  exists fs' e' T', worker_tick (fs, e) = (Ok tt, (fs', e')) /\ engine_ok fs' e' T' a /\
    forall k, view e' T' k = view e T k.
Proof.
  intros Hok Hroom. destruct (worker_tick_ok fs e T a Hok Hroom) as (fs' & e' & T' & H1 & H2 & _ & H3).
  by exists fs', e', T'.
Qed.

(** C23: the background worker catches up.  After any session of requests a
    frozen memtable has a notification in the worker's channel; the worker's
    loop empties the channel and then no memtable is frozen, one log is left, and
    every key reads as before.  If a notification was pending, no compaction is
    due any more; without one the worker sleeps, and a compaction that explicit
    flushes made due stays due. *)
Theorem worker_catches_up (rs : list request) (m : kvmap) (s : Fs * LsmEngineInner) :
  rep m s -> immutables (state s.2) = [] -> 0 <= compaction_l0_file_threshold (options s.2) ->
  session_room rs s -> let s' := (session rs s).2 in background_room s' ->
  exists s'', flush_worker (S (flush_tx s'.2)) s' = (Ok tt, s'') /\ rep (spec_session rs m).2 s'' /\
    flush_tx s''.2 = 0%nat /\ immutables (state s''.2) = [] /\
    (forall n w, is_Some (dirents s''.1 !! n) -> parse_wal_name n = Some w -> w = seq (wal s''.2)) /\
    ((0 < flush_tx s'.2)%nat -> compact_needed s'' = (Ok false, s'')).
Proof.
  intros Hrep Himm Hth Hroom s' Hback.
  destruct (session_notified rs m s Hrep Hroom Hth) as [Hn Ho]; [intros Hne; by destruct Hne|].
  destruct (session_ok (K := engine_store) rs m s Hrep Hroom) as (s1 & Hrun & T & a & Hok & Hv).
  subst s'. rewrite Hrun in *. destruct s1 as [fs e]. cbn [fst snd] in *.
  destruct (worker_runs fs e T a Hok Hback) as (fs' & e' & T' & Hw & Hok' & Htx & Hsame & Hset & Hv'); [by rewrite Ho|].
  assert (immutables (state e') = []) as Hempty.
  { destruct (flush_tx e) as [|n] eqn:E; [|apply Hset; lia]. rewrite (Hsame eq_refl).
    destruct (immutables (state e)) eqn:Ei; [done|]. exfalso. unfold notified in Hn. cbn [snd] in Hn.
    rewrite E, Ei in Hn. specialize (Hn ltac:(done)). lia. }
  exists (fs', e'). split; [done|]. split; [exists T', a; split; [done|]; intros k; cbn [snd]; by rewrite Hv'|].
  split; [done|]. split; [done|]. split.
  - intros n w Hd Hp. destruct (wo_only _ _ _ (eo_wals _ _ _ _ Hok') n w Hd Hp) as [_ Hin].
    unfold live_wals in Hin. cbn [snd] in *. rewrite Hempty in Hin. by apply list_elem_of_singleton in Hin.
  - intros Hpos. by apply (Hset Hpos).
Qed.

(** ** Recovery *)

(** C16: opening a directory replays the logs from the oldest to the newest over
    the manifest's tables: every key has the last value that the logs hold for
    it, or else that of the newest table, tombstones included.  The recovered
    writes are in one new, synced log and the old logs are removed. *)
Theorem open_recovers fs ms R ws o :
  disk_ok fs ms R ws ->
  Forall (fun m => Manifest.seq m <= u64_max - 2) (concat ms) -> Forall (fun s => s <= u64_max - 2) (ws.*1) ->
  exists e fs' T, open_with_options o fs = (Ok e, fs') /\ engine_ok fs' e T 0 /\ unbuffered e /\
    live_wals e = [seq (wal e)] /\ forall k, view e T k = disk_view ms R ws k.
Proof.
  intros Hd Hm Hw. destruct (engine_open_ok fs ms R ws o Hd Hm Hw) as (e & fs' & T & H1 & H2 & _ & H3 & H4 & H5).
  exists e, fs', T. split_and!; try done. unfold live_wals. by rewrite H4.
Qed.

(** C14: dropping the engine and opening the directory again loses nothing. *)
Theorem clean_restart fs e T a o :
  engine_ok fs e T a -> files_fit fs -> len (log_of fs (writer (wal e))) <= isize_max ->
  next_seq e < u64_max ->
  exists fs1 e1 e' fs' T',
    drop_engine (fs, e) = (Ok tt, (fs1, e1)) /\
    open_with_options o fs1 = (Ok e', fs') /\ engine_ok fs' e' T' 0 /\
    forall k, view e' T' k = view e T k.
Proof. apply close_reopen. Qed.

(** C15: when the process is killed, reopening succeeds and loses at most the
    newest writes of the active generation, those whose bytes were still in
    the log writer's buffer: what is recovered is the state after a prefix of
    that generation's writes.  When the buffer is empty nothing is lost. *)
Theorem killed_restart fs e T a o :
  engine_ok fs e T a -> files_fit fs -> next_seq e < u64_max ->
  exists es m e' fs' T',
    log_of fs (writer (wal e)) = frames es /\
    (forall k, view e T k = view_from e T (entry_mutation <$> es) k) /\
    open_with_options o (killed fs) = (Ok e', fs') /\ engine_ok fs' e' T' 0 /\
    (forall k, view e' T' k = view_from e T (entry_mutation <$> take m es) k) /\
    (unbuffered e -> forall k, view e' T' k = view e T k).
Proof. apply kill_reopen. Qed.

(** With a sync per write, an acknowledged [put] survives the death of the
    process right after it returned. *)
Theorem synced_put_survives fs e T a k v o :
  engine_ok fs e T a -> next_seq e + 1 < u64_max -> len k <= MAX_KEY_LEN -> len v <= MAX_VALUE_LEN ->
  sync_per_write (options e) = true ->
  exists fs' e' a', put k v (fs, e) = (Ok tt, (fs', e')) /\ engine_ok fs' e' T a' /\
    (files_fit fs' ->
     exists e2 fs2 T2 e3, open_with_options o (killed fs') = (Ok e2, fs2) /\ engine_ok fs2 e2 T2 0 /\
       get k (fs2, e2) = (Ok (Some v), (fs2, e3)) /\
       forall k', k <> k' -> view e2 T2 k' = view e T k').
Proof.
  intros Hok Hroom Hk Hv Hsync.
  destruct (put_ok fs e T a k v Hok ltac:(lia) Hk Hv) as (fs' & e' & a' & H1 & H2 & Hns & _ & Hub & Hview).
  exists fs', e', a'. split_and!; [done..|]. intros Hfit.
  destruct (kill_reopen fs' e' T a' o H2 Hfit ltac:(lia)) as (es & m & e2 & fs2 & T2 & _ & _ & Hopen & Hok2 & _ & Hall).
  specialize (Hall (Hub Hsync)). destruct (engine_get_ok fs2 e2 T2 0 k Hok2) as (e3 & Hget & _).
  exists e2, fs2, T2, e3. split_and!; [done..| |].
  - rewrite Hget, Hall, Hview. by rewrite decide_True.
  - intros k' Hne. rewrite Hall, Hview. by rewrite decide_False.
Qed.
End operations.

(** ** Instances on the concrete engine *)

Import Sample.
#[local] Opaque sys.

Lemma session_refines_witness :
  exists fs e s', open_with_options Sample.config empty_fs = (Ok e, fs) /\
    session_room Sample.script (fs, e) /\
    session Sample.script (fs, e) = ((spec_session Sample.script ∅).1, s').
Proof.
  destruct (session_refines Sample.config Sample.script) as (fs & e & Hrun & H).
  assert (session_room Sample.script (fs, e)) as Hroom.
  { assert ((fs, e) = Sample.start Sample.config) as -> by (unfold Sample.start; by rewrite Hrun).
    apply (bool_decide_unpack _). vm_compute. exact I. }
  destruct (H Hroom) as (s' & Hs & _). exists fs, e, s'. split; [exact Hrun|]. split; [exact Hroom|exact Hs].
Defined.


Lemma get_reads_view_witness :
  exists e', get [x61] (sys.1, sys.2) = (Ok (Some [x35]), (sys.1, e')).
Proof.
  destruct sys_ok as (T & a & Hok & Hv).
  destruct (get_reads_view sys.1 sys.2 T a [x61] Hok) as (e' & Hrun & _).
  exists e'. rewrite Hv in Hrun. exact Hrun.
Defined.

Lemma put_updates_witness :
  exists T fs' e', put [x64] [x34] (sys.1, sys.2) = (Ok tt, (fs', e')) /\ view e' T [x64] = Some [x34] /\
    view e' T [x61] = Some [x35].
Proof.
  destruct sys_ok as (T & a & Hok & Hv).
  destruct (put_updates sys.1 sys.2 T a [x64] [x34] Hok) as (fs' & e' & a' & Hrun & _ & _ & _ & Hview).
  - vm_compute. reflexivity.
  - vm_compute. discriminate.
  - vm_compute. discriminate.
  - exists T, fs', e'. split; [exact Hrun|]. rewrite !Hview, Hv. split; reflexivity.
Defined.

Lemma delete_hides_witness :
  exists T fs' e', delete [x61] (sys.1, sys.2) = (Ok tt, (fs', e')) /\ view e' T [x61] = None /\
    view e' T [x63] = Some [x33].
Proof.
  destruct sys_ok as (T & a & Hok & Hv).
  destruct (delete_hides sys.1 sys.2 T a [x61] Hok) as (fs' & e' & a' & Hrun & _ & _ & _ & Hview).
  - vm_compute. reflexivity.
  - vm_compute. discriminate.
  - exists T, fs', e'. split; [exact Hrun|]. rewrite !Hview, Hv. split; reflexivity.
Defined.

(** A key one byte over the limit. *)
Definition long_key : bytes := replicate (Z.to_nat 65536) x61.

Lemma len_long_key : len long_key = 65536.
Proof. unfold len, long_key. rewrite length_replicate. lia. Qed.

Lemma oversized_write_refused_witness :
  exists e', delete long_key (sys.1, sys.2) = (Err (KeyTooLarge 65536 65535), (sys.1, e')).
Proof.
  destruct sys_ok as (T & a & Hok & _).
  destruct (oversized_write_refused sys.1 sys.2 T a long_key [] (KeyTooLarge 65536 65535) Hok)
    as [_ (e' & Hrun & _)].
  - unfold oversize. rewrite len_long_key. reflexivity.
  - reflexivity.
  - exists e'. exact Hrun.
Defined.

Lemma flush_drains_witness :
  exists fs' e', flush (sys.1, sys.2) = (Ok tt, (fs', e')) /\ immutables (state e') = [].
Proof.
  destruct sys_ok as (T & a & Hok & _).
  destruct (flush_drains sys.1 sys.2 T a Hok) as (fs' & e' & T' & a' & t & Hrun & _ & Him & _).
  - apply (bool_decide_unpack _). vm_compute. exact I.
  - vm_compute. discriminate.
  - exists fs', e'. split; [exact Hrun|exact Him].
Defined.

Lemma compact_merges_witness :
  exists fs' e', compact (sys.1, sys.2) = (Ok tt, (fs', e')) /\
    (levels (state e') = [[]] \/ exists i, levels (state e') = [[]; [i]]).
Proof.
  destruct sys_ok as (T & a & Hok & _).
  destruct (compact_merges sys.1 sys.2 T a Hok) as (fs' & e' & T' & Hrun & _ & _ & _ & Hl & _).
  - apply (inputs_fit_small sys.1 sys.2 T a Hok). vm_compute. discriminate.
  - vm_compute. reflexivity.
  - exists fs', e'. split; [exact Hrun|]. destruct Hl as [Hl|(i & Hl & _)].
    + vm_compute. discriminate.
    + left. exact Hl.
    + right. exists i. exact Hl.
Defined.

Lemma background_transparent_witness :
  exists fs' e', worker_tick (sys.1, sys.2) = (Ok tt, (fs', e')).
Proof.
  destruct sys_ok as (T & a & Hok & _).
  destruct (background_transparent sys.1 sys.2 T a Hok) as (fs' & e' & T' & Hrun & _).
  - exact (bool_decide_unpack (room ReqBackground (sys.1, sys.2)) (ltac:(vm_compute; exact I))).
  - exists fs', e'. exact Hrun.
Defined.

(** Six writes without a notification received. *)
Definition burst : list request :=
  [ReqPut [x61] [x31]; ReqPut [x62] [x32]; ReqPut [x63] [x33]; ReqDelete [x61]; ReqPut [x64] [x34]; ReqPut [x65] [x35]].

Lemma worker_catches_up_witness :
  (0 < length (immutables (state (session burst (start config)).2.2)))%nat /\
  exists s'', flush_worker (S (flush_tx (session burst (start config)).2.2)) (session burst (start config)).2 = (Ok tt, s'') /\
    rep (spec_session burst ∅).2 s'' /\ immutables (state s''.2) = [] /\ compact_needed s'' = (Ok false, s'').
Proof.
  split; [vm_compute; lia|].
  destruct (worker_catches_up burst ∅ (start config) (start_rep config)) as (s'' & Hrun & Hrep & _ & Himm & _ & Hc).
  - vm_compute. reflexivity.
  - vm_compute. discriminate.
  - apply (bool_decide_unpack _). vm_compute. exact I.
  - exact (bool_decide_unpack (room ReqBackground (session burst (start config)).2) (ltac:(vm_compute; exact I))).
  - exists s''. split; [exact Hrun|]. split; [exact Hrep|]. split; [exact Himm|]. apply Hc. vm_compute. lia.
Defined.

Lemma open_recovers_witness :
  exists e fs' T, open_with_options config sys.1 = (Ok e, fs') /\ view e T [x61] = Some [x35] /\
    view e T [x62] = None.
Proof.
  destruct sys_ok as (T & a & Hok & Hv).
  assert (files_fit sys.1) as Hfit by (apply (bool_decide_unpack _); vm_compute; exact I).
  pose proof (engine_disk sys.1 sys.2 T a Hok Hfit) as Hd.
  assert (next_seq sys.2 < u64_max) as Hroom by (vm_compute; reflexivity).
  destruct (disk_seqs sys.1 sys.2 T a Hok Hroom) as [H1 H2].
  destruct (open_recovers sys.1 _ _ _ config Hd H1 H2) as (e & fs' & T' & Hrun & _ & _ & _ & Hview).
  exists e, fs', T'. split; [exact Hrun|]. rewrite !Hview. split; vm_compute; reflexivity.
Defined.

Lemma clean_restart_witness :
  exists fs1 e1 e' fs' T', drop_engine (sys.1, sys.2) = (Ok tt, (fs1, e1)) /\
    open_with_options config fs1 = (Ok e', fs') /\ view e' T' [x63] = Some [x33].
Proof.
  destruct sys_ok as (T & a & Hok & Hv).
  destruct (clean_restart sys.1 sys.2 T a config Hok) as (fs1 & e1 & e' & fs' & T' & H1 & H2 & _ & H3).
  - apply (bool_decide_unpack _). vm_compute. exact I.
  - vm_compute. discriminate.
  - vm_compute. reflexivity.
  - exists fs1, e1, e', fs', T'. split; [exact H1|]. split; [exact H2|]. rewrite H3, Hv. reflexivity.
Defined.

Lemma killed_restart_witness :
  exists e' fs' T', open_with_options config (killed sys.1) = (Ok e', fs') /\ view e' T' [x63] = Some [x33].
Proof.
  destruct sys_ok as (T & a & Hok & Hv).
  destruct (killed_restart sys.1 sys.2 T a config Hok) as (es & m & e' & fs' & T' & _ & _ & H2 & _ & _ & H3).
  - apply (bool_decide_unpack _). vm_compute. exact I.
  - vm_compute. reflexivity.
  - exists e', fs', T'. split; [exact H2|]. rewrite H3; [|vm_compute; reflexivity]. rewrite Hv. reflexivity.
Defined.

Lemma synced_put_survives_witness :
  exists fs' e' e2 fs2 e3, put [x64] [x34] (sys.1, sys.2) = (Ok tt, (fs', e')) /\
    open_with_options config (killed fs') = (Ok e2, fs2) /\
    get [x64] (fs2, e2) = (Ok (Some [x34]), (fs2, e3)).
Proof.
  destruct sys_ok as (T & a & Hok & Hv).
  destruct (synced_put_survives sys.1 sys.2 T a [x64] [x34] config Hok) as (fs' & e' & a' & Hrun & _ & H).
  - vm_compute. reflexivity.
  - vm_compute. discriminate.
  - vm_compute. discriminate.
  - vm_compute. reflexivity.
  - destruct H as (e2 & fs2 & T2 & e3 & H1 & _ & H2 & _).
    + assert (fs' = (put [x64] [x34] (sys.1, sys.2)).2.1) as ->
        by (rewrite Hrun; reflexivity).
      apply (bool_decide_unpack _). vm_compute. exact I.
    + exists fs', e', e2, fs2, e3. split; [exact Hrun|]. split; [exact H1|exact H2].
Defined.

(** ** Overwritten values that come back *)

(** One key is written, flushed while the system calls of the list meet the
    given faults, overwritten, flushed, read, and read again after a clean
    restart; the replies, in order. *)
Definition incident (calls : list fault) : list reply :=
  let '(r1, s1) := serve (ReqPut [x61] [x31]) (start config) in
  let '(r2, s2) := serve ReqFlush (set_faults calls s1.1, s1.2) in
  let '(r3, s3) := serve (ReqPut [x61] [x32]) (set_faults [] s2.1, s2.2) in
  let '(r4, s4) := serve ReqFlush s3 in
  let '(r5, s5) := serve (ReqGet [x61]) s4 in
  let '(r6, s6) := serve ReqReopen s5 in
  let '(r7, _) := serve (ReqGet [x61]) s6 in
  [r1; r2; r3; r4; r5; r6; r7].

(** When writing the manifest fails once, the flush reports the error and
    forgets which logs it has flushed.  The write and the flush that follow
    succeed, but the first log is never removed, and after a clean restart its
    replay hides the newer value: the overwritten one is read. *)
Example failed_manifest_write_resurrects :
  incident (replicate 7 Pass ++ [Fail 0]) =
    [Ok None; Err (Io OtherIo); Ok None; Ok None; Ok (Some [x32]); Ok None; Ok (Some [x31])].
Proof. vm_compute. reflexivity. Qed.

(** When removing a flushed log fails once, no error is reported at all,
    and after a clean restart the overwritten value is read. *)
Example failed_log_removal_resurrects :
  incident (replicate 11 Pass ++ [Fail 0]) =
    [Ok None; Ok None; Ok None; Ok None; Ok (Some [x32]); Ok None; Ok (Some [x31])].
Proof. vm_compute. reflexivity. Qed.

(** Without faults the same requests read the last value. *)
Example incident_free :
  incident [] = [Ok None; Ok None; Ok None; Ok None; Ok (Some [x32]); Ok None; Ok (Some [x32])].
Proof. vm_compute. reflexivity. Qed.
