(* ===== verification/CrashTheorems.v ===== *)
(** * What a killed process keeps

    The engine's guarantees when the process dies at any one of its system
    calls, with a write that is under way cut at any byte: what the directory
    then holds is what the next opening finds. *)

From S2P Require Import Prelude Outcome External Fs Crash MemTable Wal WalWriter WalReader.
From S2P Require Import StdVec SstRecord SstIndex Bloom Builder Reader Merge Manifest.
From S2P Require Import Names KvSpec Engine Steady EngineSpec EngineGet EnginePut EngineFlush EngineCommit.
From S2P Require Import EngineCompact EngineOpen EngineRecover EngineRefine EngineDisk.
From S2P Require Import CrashWrite CrashFlush CrashCompact CrashOpen CrashOps CrashStore Outage EngineTheorems.

Section stopped.
Context {C : Crc32} {SM : SkipMap Entry} {FB : FastBloom} {AL : Allocator}.
Implicit Types (fs : Fs) (e : LsmEngineInner) (T : nat -> list record).

Abbreviation Sys := (Fs * LsmEngineInner)%type.

(** ** Sessions *)

(** C7: with [sync_per_write], wherever the process is killed during a session
    of requests, every answered request survives: up to the kill the replies are
    those of the map, and the directory opens to the map after the answered
    requests, or to the map after them and the request that was under way.  A
    kill that never comes changes nothing.  What the system calls have done is
    kept and the buffers of the process are lost; [sync_per_write] matters here
    because it leaves nothing in them. *)
Theorem session_survives_kill (rs : list request) (m : kvmap) (s : Sys) (n k : nat) (o : LsmOptions) :
  rep m s -> durable_state s -> session_limits rs s ->
  (exists n' s', until_stop rs (arm n k s) = ((spec_session rs m).1, arm n' k s') /\
    rep (spec_session rs m).2 s') \/
  (exists i s', (i < length rs)%nat /\
    until_stop rs (arm n k s) = (take i (spec_session rs m).1 ++ [Halt], s') /\
    (files_fit (killed s'.1) ->
      exists j e' fs', (j = i \/ j = 1 + i)%nat /\ open_with_options o (killed s'.1) = (Ok e', fs') /\
        rep (spec_session (take j rs) m).2 (fs', e'))).
Proof.
  intros Hrep Hdur Hlim.
  destruct (crash_session_ok (K := engine_store) (CS := engine_crash_store) rs m s n k Hrep Hdur Hlim) as [(n' & s' & E & Hr)|(i & s' & Hi & E & Hr)].
  - left. by exists n', s'.
  - right. exists i, s'. split; [done|]. split; [done|]. intros Hfit.
    destruct Hr as [Hr|Hr]; destruct (Hr Hfit o) as (e' & fs' & Hrun & _ & Hrep').
    + exists i, e', fs'. split; [by left|done].
    + exists (1 + i)%nat, e', fs'. split; [by right|done].
Qed.

(** C8: with [sync_per_write], a power loss between two requests takes nothing
    that was answered: every request leaves every byte of every file synced, so
    that whatever unsynced bytes the loss drops, the directory opens to the map
    after the whole session, and the engine that opens it is again one that the
    next power loss cannot hurt.  Only the names are taken to survive, since the
    source never syncs the directory. *)
Theorem session_survives_outage (rs : list request) (m : kvmap) (s : Sys) (o : LsmOptions) (fs : Fs) :
  rep m s -> dry s -> session_room rs s -> let s' := (session rs s).2 in
  files_fit s'.1 -> next_seq s'.2 < u64_max - 1 -> power_loss s'.1 fs -> dirents fs = dirents s'.1 ->
  (session rs s).1 = (spec_session rs m).1 /\
  exists e fs', open_with_options o fs = (Ok e, fs') /\ rep (spec_session rs m).2 (fs', e) /\
    (sync_per_write o = true -> dry (fs', e)).
Proof.
  intros Hrep Hdry Hroom s' Hfit Hns Hloss Hnames.
  destruct (session_ok (K := engine_store) rs m s Hrep Hroom) as (s1 & Hrun & T & a & Hok & Hv).
  pose proof (dry_session rs m s Hrep Hroom Hdry) as Hd. subst s'. rewrite Hrun in *. destruct s1 as [fs1 e1].
  assert (outage fs1 fs) as Hout by done.
  destruct (outage_reopens fs1 e1 T a _ fs Hok Hd Hfit Hns Hv Hout) as [Hfit' Hre].
  destruct (Hre Hfit' o) as (e & fs' & Hopen & _ & Hrep'). split; [done|]. exists e, fs'. do 2 (split; [done|]).
  intros Ho. exact (dry_open o fs e fs' (proj1 (settled_outage _ _ (proj1 Hd) Hout)) Ho Hopen).
Qed.

(** ** Operations, with any options *)

Lemma durable_prefix fs e T a es :
  engine_ok fs e T a -> files_fit fs -> log_is fs e a es ->
  (length (log_entries fs (seq (wal e))) <= length es)%nat /\
  log_entries fs (seq (wal e)) = take (length (log_entries fs (seq (wal e)))) es /\
  (length (frames (log_entries fs (seq (wal e)))) <=
    length (data_of fs (bw_file (ww_file (writer (wal e))))))%nat.
Proof.
  intros Hok Hfit (Hlog & Hes & _). pose proof (active_dirent _ _ _ _ Hok) as Hd.
  set (ino := bw_file (ww_file (writer (wal e)))) in *. set (c := length (data_of fs ino)).
  assert (data_of fs ino = take c (frames es)) as Hdat by (rewrite <- Hlog; unfold log_of, c; by rewrite take_app_length).
  destruct (take_frames es c Hes) as (j & tail & Htake & Htorn & _ & _). rewrite Htake in Hdat.
  destruct (log_entries_ok fs (seq (wal e)) ino (take j es) tail Hfit Hd Hdat Htorn) as [He _]; [by apply Forall_take|].
  rewrite He, length_take. split; [lia|]. split.
  - destruct (Nat.le_gt_cases j (length es)); [by rewrite Nat.min_l|].
    rewrite Nat.min_r, firstn_all, take_ge by lia. done.
  - unfold c. rewrite Hdat, length_app. lia.
Qed.

(** What an opening after a stop in a write finds. *)
Lemma stopped_cut b fs e T a es es' fs' o :
  engine_ok fs e T a -> files_fit fs -> log_is fs e a es -> es `prefix_of` es' -> b <= u64_max - 2 ->
  cut_at b fs e T es' fs' -> files_fit fs' ->
  exists j e' fs2 T', (length (log_entries fs (seq (wal e))) <= j)%nat /\
    (unbuffered e -> (length es <= j)%nat) /\
    open_with_options o fs' = (Ok e', fs2) /\ engine_ok fs2 e' T' 0 /\
    (forall k, view e' T' k = view_from e T (entry_mutation <$> take j es') k).
Proof.
  intros Hok Hfit Hlog [ext ->] Hb (j & Hr & Hj) Hfit'.
  destruct (durable_prefix fs e T a es Hok Hfit Hlog) as (H1 & H2 & H3).
  destruct (recovers_open b fs' _ o Hr Hfit' Hb) as (e' & fs2 & T' & Hrun & Hok' & _ & _ & Hview).
  exists j, e', fs2, T'. split; [|split; [|done]].
  - apply Hj; [rewrite length_app; lia|]. rewrite take_app_le by done. by rewrite <- H2.
  - intros Hub. apply Hj; [rewrite length_app; lia|]. rewrite take_app_length, <- (proj1 Hlog). unfold log_of.
    by rewrite Hub, app_nil_r.
Qed.

(** A log that is complete up to its last entry. *)
Lemma one_more fs e T a es en j :
  engine_ok fs e T a -> log_is fs e a es -> (length es <= j)%nat ->
  (forall k, view_from e T (entry_mutation <$> take j (es ++ [en])) k = view e T k) \/
  (forall k, view_from e T (entry_mutation <$> take j (es ++ [en])) k =
    if decide ((entry_mutation en).1 = k) then entry_value (entry_mutation en).2 else view e T k).
Proof.
  intros Hok Hlog Hj. rewrite take_app_ge by done. destruct (j - length es)%nat as [|i].
  - left. intros k. rewrite app_nil_r. by apply (log_is_view fs e T a).
  - right. intros k. cbn [take]. rewrite take_nil, fmap_app. cbn [fmap list_fmap].
    destruct (entry_mutation en) as [k0 e0]. rewrite view_from_snoc. cbn [fst snd].
    case_decide; [done|]. by apply (log_is_view fs e T a).
Qed.

(** C12: a process that dies anywhere in a [put] leaves a prefix of the active
    generation's writes with the new one at their end, over everything older:
    no entry that had reached the log file is lost and none is half applied.
    When no write was buffered, the [put] has happened or it has not. *)
Theorem stopped_put_is_atomic fs e T a k v n c s' o :
  engine_ok fs e T a -> files_fit fs -> next_seq e <= u64_max - 2 ->
  len k <= SstRecord.MAX_KEY_LEN -> len v <= SstRecord.MAX_VALUE_LEN ->
  put k v (arm n c (fs, e)) = (Halt, s') -> files_fit (killed s'.1) ->
  exists es j e' fs' T', log_of fs (writer (wal e)) = frames es /\
    (length (log_entries fs (seq (wal e))) <= j)%nat /\
    open_with_options o (killed s'.1) = (Ok e', fs') /\ engine_ok fs' e' T' 0 /\
    (forall k', view e' T' k' = view_from e T (entry_mutation <$> take j (es ++ [mkWalEntry Put k v])) k') /\
    (unbuffered e ->
      (forall k', view e' T' k' = view e T k') \/
      (forall k', view e' T' k' = if decide (k = k') then Some v else view e T k')).
Proof.
  intros Hok Hfit Hroom Hk Hv Hstop Hfit'. destruct (log_is_any fs e T a Hok) as (es & Hlog).
  pose proof (crashes_write fs e T a (mkWalEntry Put k v) k v false es (next_seq e) Hok Hfit ltac:(lia)
    ltac:(by split) eq_refl (proj1 Hlog) (proj1 (proj2 Hlog)) ltac:(lia) n c s' Hstop) as Hcut.
  destruct (stopped_cut (next_seq e) fs e T a es (es ++ [mkWalEntry Put k v]) (killed s'.1) o Hok Hfit Hlog)
    as (j & e' & fs2 & T' & Hj & Hub & Hrun & Hok' & Hview); [by eexists|lia|exact Hcut|exact Hfit'|].
  exists es, j, e', fs2, T'. split; [apply Hlog|]. do 4 (split; [done|]). intros Hu.
  destruct (one_more fs e T a es (mkWalEntry Put k v) j Hok Hlog (Hub Hu)) as [Hold|Hnew].
  - left. intros k'. by rewrite Hview.
  - right. intros k'. by rewrite Hview, Hnew.
Qed.

(** The operations that move data without changing it. *)
Inductive background : M Sys unit -> Fs -> LsmEngineInner -> (nat -> list record) -> Prop :=
  | BgFlush fs e T : small_frozen e -> background flush_all_pending fs e T
  | BgCompact fs e T : tables_small e T -> background compact fs e T
  | BgTick fs e T : background_room (fs, e) -> background_fits (fs, e) -> background worker_tick fs e T.

(** C24: a process that dies anywhere in the flush of the frozen memtables, in a
    compaction or in a notification of the background worker leaves what it
    would have left by stopping before: the next opening finds the entries of
    the active log that had reached its file, the frozen memtables and the
    tables, nothing less and nothing older.  When no write was buffered, every
    key reads as in the running engine. *)
Theorem stopped_background_keeps_all fs e T a m n c s' o :
  engine_ok fs e T a -> files_fit fs -> next_seq e + len (immutables (state e)) + 1 <= u64_max - 2 ->
  background m fs e T -> m (arm n c (fs, e)) = (Halt, s') -> files_fit (killed s'.1) ->
  exists e' fs' T', open_with_options o (killed s'.1) = (Ok e', fs') /\ engine_ok fs' e' T' 0 /\
    (forall k, view e' T' k = view_from e T (entry_mutation <$> log_entries fs (seq (wal e))) k) /\
    (unbuffered e -> forall k, view e' T' k = view e T k).
Proof.
  intros Hok Hfit Hroom Hbg Hstop Hfit'. pose proof (len_nonneg (immutables (state e))).
  assert (recovers (u64_max - 2) (killed s'.1) (durable fs e T)) as Hr.
  { destruct Hbg as [fs e T Hsm|fs e T Hsm|fs e T Hrm Hbf].
    - exact (crashes_flush_all_pending fs e T a (u64_max - 2) Hok Hfit Hsm ltac:(lia) ltac:(lia) n c s' Hstop).
    - exact (crashes_compact fs e T a (u64_max - 2) Hok Hfit Hsm ltac:(lia) ltac:(lia) n c s' Hstop).
    - exact (crashes_worker_tick fs e T a (u64_max - 2) Hok Hfit Hrm Hbf ltac:(lia) n c s' Hstop). }
  destruct (recovers_open _ _ _ o Hr Hfit' ltac:(lia)) as (e' & fs2 & T' & Hrun & Hok' & _ & _ & Hview).
  exists e', fs2, T'. do 3 (split; [done|]). intros Hub k. rewrite Hview. by apply (durable_unbuffered fs e T a).
Qed.

(** C25: [flush] syncs the log first, so that a stop in it loses at most writes
    that had not reached the log file when it began, and none when there was no
    such write. *)
Theorem stopped_flush_keeps_prefix fs e T a n c s' o :
  engine_ok fs e T a -> files_fit fs -> len (log_of fs (writer (wal e))) <= isize_max -> small_mems e ->
  next_seq e + len (immutables (state e)) + 1 <= u64_max - 2 ->
  flush (arm n c (fs, e)) = (Halt, s') -> files_fit (killed s'.1) ->
  exists es j e' fs' T', log_of fs (writer (wal e)) = frames es /\
    (length (log_entries fs (seq (wal e))) <= j)%nat /\
    open_with_options o (killed s'.1) = (Ok e', fs') /\ engine_ok fs' e' T' 0 /\
    (forall k, view e' T' k = view_from e T (entry_mutation <$> take j es) k) /\
    (unbuffered e -> forall k, view e' T' k = view e T k).
Proof.
  intros Hok Hfit Hlen Hsm Hroom Hstop Hfit'. destruct (log_is_any fs e T a Hok) as (es & Hlog).
  pose proof (crashes_flush fs e T a es (u64_max - 2) Hok Hfit Hlen Hsm ltac:(lia) Hlog ltac:(lia) n c s' Hstop) as Hcut.
  destruct (stopped_cut (u64_max - 2) fs e T a es es (killed s'.1) o Hok Hfit Hlog)
    as (j & e' & fs2 & T' & Hj & Hub & Hrun & Hok' & Hview); [done|lia|exact Hcut|exact Hfit'|].
  exists es, j, e', fs2, T'. split; [apply Hlog|]. do 4 (split; [done|]). intros Hu k.
  rewrite Hview, take_ge by (by apply Hub). by apply (log_is_view fs e T a).
Qed.

(** ** Recovery *)

(** C13: recovery can itself be stopped anywhere: the next opening finds the same
    contents, because the old logs are removed only when the recovered entries
    are in the new, synced one, oldest first. *)
Theorem stopped_open_is_retried fs ms R ws o o' n c fs' :
  disk_ok fs ms R ws -> seqs_upto (u64_max - 3) ms ws ->
  open_with_options o (arm n c fs) = (Halt, fs') -> files_fit (killed fs') ->
  exists e fs2 T, open_with_options o' (killed fs') = (Ok e, fs2) /\ engine_ok fs2 e T 0 /\
    forall k, view e T k = disk_view ms R ws k.
Proof.
  intros Hd Hseq Hstop Hfit'.
  assert (seqs_upto (u64_max - 2 - 1) ms ws) as Hseq'
    by (destruct Hseq as [H1 H2]; split; (eapply Forall_impl; [eassumption|]; simpl; lia)).
  pose proof (crashes_open fs ms R ws o (u64_max - 2) Hd Hseq' ltac:(unfold u64_max; lia) n c fs' Hstop) as Hr.
  destruct (recovers_open _ _ _ o' Hr Hfit' ltac:(lia)) as (e & fs2 & T & Hrun & Hok & _ & _ & Hview).
  by exists e, fs2, T.
Qed.
End stopped.

(** ** Instances on the concrete engine *)

Import Sample.

Lemma sys_session : sys = (session history (start config)).2.
Proof. reflexivity. Qed.

#[local] Opaque sys.

#[export] Instance limits_dec r s : Decision (limits r s).
Proof. unfold limits, background_fits. destruct r; apply _. Defined.

Fixpoint session_limits_dec rs s : Decision (session_limits rs s) :=
  match rs with
  | [] => left I
  | r :: rs => and_dec (room_dec r s) (and_dec (limits_dec r s) (session_limits_dec rs (kv_serve r s).2))
  end.
#[export] Existing Instance session_limits_dec.

(** The requests that follow [Sample.history]. *)
Definition later : list request :=
  [ReqPut [x64] [x34]; ReqFlush; ReqDelete [x61]; ReqBackground; ReqCompact; ReqPut [x61] [x36]].

Lemma sys_durable : durable_state sys.
Proof. split; vm_compute; reflexivity. Qed.

Lemma session_survives_kill_witness :
  exists i s' j e' fs', until_stop later (arm 25 3 sys) = (take i (spec_session later contents).1 ++ [Halt], s') /\
    open_with_options config (killed s'.1) = (Ok e', fs') /\
    rep (spec_session (take j later) contents).2 (fs', e').
Proof.
  destruct (session_survives_kill later contents sys 25 3 config sys_rep sys_durable)
    as [(n' & s' & E & _)|(i & s' & _ & E & H)].
  - apply (bool_decide_unpack _). vm_compute. exact I.
  - exfalso. apply (f_equal fst) in E. vm_compute in E. discriminate E.
  - assert (files_fit (killed s'.1)) as Hfit.
    { assert (s' = (until_stop later (arm 25 3 sys)).2) as -> by (rewrite E; reflexivity).
      apply (bool_decide_unpack _). vm_compute. exact I. }
    destruct (H Hfit) as (j & e' & fs' & _ & Hrun & Hrep). exists i, s', j, e', fs'.
    split; [exact E|]. split; [exact Hrun|exact Hrep].
Defined.

Lemma start_dry : dry (start config).
Proof.
  assert (match (open_with_options config empty_fs).1 with Ok _ => true | _ => false end = true) as H
    by (vm_compute; reflexivity).
  unfold start. destruct (open_with_options config empty_fs) as [[e| | |] fs] eqn:E; try discriminate H.
  exact (dry_open config empty_fs e fs settled_empty eq_refl E).
Qed.

Lemma session_survives_outage_witness :
  exists e fs', open_with_options config (killed sys.1) = (Ok e, fs') /\ rep contents (fs', e) /\ dry (fs', e).
Proof.
  destruct (session_survives_outage history ∅ (start config) config (killed sys.1) (start_rep config) start_dry)
    as (_ & e & fs' & Hrun & Hrep & Hdry).
  - apply (bool_decide_unpack _). vm_compute. exact I.
  - apply (bool_decide_unpack _). vm_compute. exact I.
  - vm_compute. reflexivity.
  - rewrite sys_session. apply power_loss_killed.
  - rewrite sys_session. apply killed_dirents.
  - exists e, fs'. split; [exact Hrun|]. split; [exact Hrep|]. apply Hdry. reflexivity.
Defined.

(** States left by runs that stop. *)
Definition stop_put : Sys := (put [x64] [x34] (arm 0 5 (sys.1, sys.2))).2.
Definition stop_tick : Sys := (worker_tick (arm 9 0 (sys.1, sys.2))).2.
Definition stop_flush : Sys := (flush (arm 4 2 (sys.1, sys.2))).2.

Definition stops {A} (o : outcome A) : bool := match o with Halt => true | _ => false end.

Lemma halted {S A} (m : M S A) s : stops (m s).1 = true -> m s = (Halt, (m s).2).
Proof. by destruct (m s) as [[] ?]. Qed.

Lemma stopped_put_is_atomic_witness :
  exists T e' fs' T', open_with_options config (killed stop_put.1) = (Ok e', fs') /\
    ((forall k', view e' T' k' = view sys.2 T k') \/
     (forall k', view e' T' k' = if decide ([x64] = k') then Some [x34] else view sys.2 T k')).
Proof.
  destruct sys_ok as (T & a & Hok & _).
  destruct (stopped_put_is_atomic sys.1 sys.2 T a [x64] [x34] 0 5 stop_put config Hok)
    as (es & j & e' & fs' & T' & _ & _ & Hrun & _ & _ & H).
  - apply (bool_decide_unpack _). vm_compute. exact I.
  - vm_compute. discriminate.
  - vm_compute. discriminate.
  - vm_compute. discriminate.
  - unfold stop_put. apply (halted (put [x64] [x34]) (arm 0 5 (sys.1, sys.2))). vm_compute. reflexivity.
  - apply (bool_decide_unpack _). vm_compute. exact I.
  - exists T, e', fs', T'. split; [exact Hrun|]. apply H. vm_compute. reflexivity.
Defined.

Lemma stopped_background_keeps_all_witness :
  exists T e' fs' T', open_with_options config (killed stop_tick.1) = (Ok e', fs') /\
    forall k, view e' T' k = view sys.2 T k.
Proof.
  destruct sys_ok as (T & a & Hok & _).
  destruct (stopped_background_keeps_all sys.1 sys.2 T a worker_tick 9 0 stop_tick config Hok)
    as (e' & fs' & T' & Hrun & _ & _ & H).
  - apply (bool_decide_unpack _). vm_compute. exact I.
  - vm_compute. discriminate.
  - assert (room ReqBackground (sys.1, sys.2)) as Hroom by (apply (bool_decide_unpack _); vm_compute; exact I).
    assert (limits ReqBackground (sys.1, sys.2)) as (_ & _ & _ & Hbf) by (apply (bool_decide_unpack _); vm_compute; exact I).
    exact (BgTick sys.1 sys.2 T Hroom Hbf).
  - unfold stop_tick. apply (halted (worker_tick) (arm 9 0 (sys.1, sys.2))). vm_compute. reflexivity.
  - apply (bool_decide_unpack _). vm_compute. exact I.
  - exists T, e', fs', T'. split; [exact Hrun|]. apply H. vm_compute. reflexivity.
Defined.

Lemma stopped_flush_keeps_prefix_witness :
  exists T e' fs' T', open_with_options config (killed stop_flush.1) = (Ok e', fs') /\
    forall k, view e' T' k = view sys.2 T k.
Proof.
  destruct sys_ok as (T & a & Hok & _).
  destruct (stopped_flush_keeps_prefix sys.1 sys.2 T a 4 2 stop_flush config Hok)
    as (es & j & e' & fs' & T' & _ & _ & Hrun & _ & _ & H).
  - apply (bool_decide_unpack _). vm_compute. exact I.
  - vm_compute. discriminate.
  - apply (bool_decide_unpack _). vm_compute. exact I.
  - vm_compute. discriminate.
  - unfold stop_flush. apply (halted (flush) (arm 4 2 (sys.1, sys.2))). vm_compute. reflexivity.
  - apply (bool_decide_unpack _). vm_compute. exact I.
  - exists T, e', fs', T'. split; [exact Hrun|]. apply H. vm_compute. reflexivity.
Defined.

Definition stop_open : Fs := (open_with_options config (arm 12 7 sys.1)).2.

Lemma stopped_open_is_retried_witness :
  exists e fs2 T, open_with_options config (killed stop_open) = (Ok e, fs2) /\
    view e T [x61] = Some [x35] /\ view e T [x62] = None /\ view e T [x63] = Some [x33].
Proof.
  destruct sys_ok as (T & a & Hok & Hv).
  assert (files_fit sys.1) as Hfit by (apply (bool_decide_unpack _); vm_compute; exact I).
  pose proof (engine_disk sys.1 sys.2 T a Hok Hfit) as Hd.
  destruct (stopped_open_is_retried sys.1 _ _ _ config config 12 7 stop_open Hd) as (e & fs2 & T2 & Hrun & _ & H).
  - destruct (engine_seqs sys.1 sys.2 T a Hok) as [H1 H2].
    split; (eapply Forall_impl; [eassumption|]); intros x Hx;
      (eapply Z.le_trans; [exact Hx|vm_compute; discriminate]).
  - unfold stop_open. apply (halted (open_with_options config) (arm 12 7 sys.1)). vm_compute. reflexivity.
  - apply (bool_decide_unpack _). vm_compute. exact I.
  - exists e, fs2, T2. split; [exact Hrun|]. rewrite !H. split_and!; vm_compute; reflexivity.
Defined.
