(* ===== verification/ThreadTheorems.v ===== *)
(** * What threads may rely on

    The engine under any interleaving of the background worker and any number
    of client threads: every request is answered as if it had happened at one
    moment of its call, but for a [get] that runs into the overwriting of its
    key, the machine always represents the map of the writes so far, and no
    thread is ever stuck. *)

From S2P Require Import Prelude Outcome External Fs Crash MemTable Wal WalWriter WalReader.
From S2P Require Import StdVec SstRecord SstIndex Bloom Builder Reader Merge Manifest.
From S2P Require Import Names KvSpec Engine EngineSpec EngineGet EnginePut EngineFlush EngineCommit.
From S2P Require Import EngineCompact EngineRecover EngineRefine CrashStore Threads ThreadSolo ThreadHeap ThreadInv.
From S2P Require Import ThreadDisk ThreadCost ThreadStep ThreadSafe ThreadCrash EngineDisk Outage ThreadOutage.
From S2P Require Import EngineTheorems CrashTheorems.

(** ** The first configuration *)

Section launch.
Context {C : Crc32} {SM : SkipMap Entry} {FB : FastBloom} {AL : Allocator}.

Abbreviation Sys := (Fs * LsmEngineInner)%type.

(** The tables threads can meet: those of the levels, and later ones. *)
Definition known (s : Sys) (i : nat) : Prop := (exists l, live s.2 l i) \/ (length (handles s.2) <= i)%nat.

Lemma ascending_inj (f : nat -> Z) l i j :
  StronglySorted (fun i j => f i < f j) l -> i ∈ l -> j ∈ l -> f i = f j -> i = j.
Proof.
  induction 1 as [|x l _ IH Hx]; [by intros ?%not_elem_of_nil|]. rewrite Forall_forall in Hx.
  intros [->|Hi]%elem_of_cons [->|Hj]%elem_of_cons Heq; [done| | |by apply IH].
  - specialize (Hx j Hj). lia.
  - specialize (Hx i Hi). lia.
Qed.

(** Live tables have different files. *)
Lemma live_path_inj fs e T i j l l' hi hj :
  tables_ok fs e T -> live e l i -> live e l' j -> handles e !! i = Some hi -> handles e !! j = Some hj ->
  path hi = path hj -> i = j.
Proof.
  intros Ht (ids & Hl & Hi) (ids' & Hl' & Hj) Hhi Hhj Hp. pose proof (ta_levels _ _ _ Ht) as Hlen.
  destruct (ta_handles _ _ _ Ht l ids i Hl Hi) as (h1 & Hh1 & A & _).
  destruct (ta_handles _ _ _ Ht l' ids' j Hl' Hj) as (h2 & Hh2 & B & _). simplify_eq.
  rewrite (ho_name _ _ _ _ A), (ho_name _ _ _ _ B) in Hp. pose proof (ho_seq _ _ _ _ A). pose proof (ho_seq _ _ _ _ B).
  pose proof (lookup_lt_Some _ _ _ Hl). pose proof (lookup_lt_Some _ _ _ Hl').
  assert (l = l') as <-.
  { destruct l as [|[|]], l' as [|[|]]; try lia; [by apply sst_name_level in Hp|]. symmetry in Hp. by apply sst_name_level in Hp. }
  apply sst_name_inj in Hp; [|done..]. simplify_eq.
  apply (ascending_inj _ _ _ _ (ta_order _ _ _ Ht l ids Hl) Hi Hj). unfold seq_of. by rewrite Hhi, Hhj.
Qed.

Lemma known_heap fs e T a : engine_ok fs e T a -> heap_ok (known (fs, e)) fs e T.
Proof.
  intros Hok. pose proof (eo_tables _ _ _ _ Hok) as Ht.
  assert (forall i h, known (fs, e) i -> handles e !! i = Some h -> exists l, live e l i) as Hlive.
  { intros i h [H|H] Hh; [done|]. apply lookup_lt_Some in Hh. cbn in H. lia. }
  split.
  - intros i h HK Hh. destruct (Hlive i h HK Hh) as [l Hl].
    destruct (live_handle _ _ _ _ _ _ Hok Hl) as (h' & Hh' & Hho & _). simplify_eq. split; [|left; by exists l].
    exists l. split; [|split; [apply (ho_name _ _ _ _ Hho)|apply (ho_seq _ _ _ _ Hho)]].
    destruct Hl as (ids & Hl & _). apply lookup_lt_Some in Hl. pose proof (ta_levels _ _ _ Ht). lia.
  - intros i h HK Hh. destruct (Hlive i h HK Hh) as [l Hl].
    destruct (live_handle _ _ _ _ _ _ Hok Hl) as (h' & Hh' & _ & Hlt). by simplify_eq.
  - intros i j hi hj Ki Kj Hi Hj. destruct (Hlive i hi Ki Hi) as [l Hl]. destruct (Hlive j hj Kj Hj) as [l' Hl'].
    by eapply live_path_inj.
  - intros l i Hl. left. by exists l.
  - intros i Hi. by right.
Qed.

(** The machine represents [m], and [b] is what a [get] finds that misses its key
    in the active memtable: what the frozen memtables and the tables hold. *)
Definition rep_over (m : kvmap) (b : bytes -> option bytes) (s : Sys) : Prop :=
  exists T a, engine_ok s.1 s.2 T a /\ (forall k, view s.2 T k = m !! k) /\ forall k, beneath s.2 T k = b k.

Lemma rep_of_over m b s : rep_over m b s -> rep m s.
Proof. intros (T & a & Hok & Hv & _). by exists T, a. Qed.

Lemma rep_has_base m s : rep m s -> exists b, rep_over m b s.
Proof. intros (T & a & Hok & Hv). by exists (beneath s.2 T), T, a. Qed.

(** Nothing has been written since the last rotation. *)
Definition fresh_active (s : Sys) : bool :=
  match active (state s.2) with
  | Some a => match mems s.2 !! a with Some t => is_nil (iter t) | None => false end
  | None => false
  end.

Lemma fresh_over m s : rep m s -> fresh_active s = true -> rep_over m (fun k => m !! k) s.
Proof.
  intros (T & a & Hok & Hv) Hf. exists T, a. split; [done|]. split; [done|]. intros k. rewrite <- Hv.
  unfold fresh_active in Hf. destruct (active (state s.2)) as [i|] eqn:Ha; [|done].
  destruct (mems s.2 !! i) as [t|] eqn:Ht; [|done]. rewrite (view_beneath s.2 T i t k Ha Ht), <- iter_get_entry.
  by destruct (iter t).
Qed.

Lemma launch_inv m b s n : rep_over m b s -> inv (known s) m b (launch n s).
Proof.
  destruct s as [fs e]. intros (T & a & Hok & Hv & Hb). cbn [fst snd] in *. split.
  - exists T, a. split; [|split].
    + split; [by apply mid_of_ok|intros _; apply Hok|by eapply known_heap|done|].
      intros k. right. apply Hb.
    + apply backed_settled; [done|apply Hok..|]. intros l i Hl. left. by exists l.
    + intros i t Ht. apply lookup_replicate in Ht as [-> _]. split; try done.
      intros o [= <-]. split; [done|]. split; [done|]. by exists 0%nat.
  - intros i. split; [done|]. intros (t & Ht & Hh). apply lookup_replicate in Ht as [-> _]. done.
  - intros i. split; [done|]. intros (t & Ht & Hh). apply lookup_replicate in Ht as [-> _]. done.
Qed.

(** ** Runs *)

(** A schedule on a machine that has the resources. *)
Fixpoint play (xs : list action) (c : config) : option config :=
  match xs with
  | [] => Some c
  | x :: xs => if roomy c then c' ← perform x c; play xs c' else None
  end.

Lemma play_app xs ys c : play (xs ++ ys) c = (c' ← play xs c; play ys c').
Proof.
  revert c. induction xs as [|x xs IH]; intros c; [done|]. cbn [app play]. destruct (roomy c); [|done].
  destruct (perform x c); [apply IH|done].
Qed.

Lemma play_steps xs c c' : play xs c = Some c' -> rtc roomy_step c c'.
Proof.
  revert c. induction xs as [|x xs IH]; intros c; cbn [play]; [by intros [= <-]|].
  destruct (roomy c) eqn:Hr; [|done]. destruct (perform x c) as [c1|] eqn:Hx; [|done]. cbn. intros Hp.
  eapply rtc_l; [|by apply IH]. split; [done|by exists x].
Qed.

(** No thread is inside an operation. *)
Definition quiescent (c : config) : Prop := Forall (fun t => busy (ctl t) = false) (pool c).

Lemma holds_busy p l : holds p = Some l -> busy p = true /\ takes p = None.
Proof. by destruct p. Qed.

Lemma takes_lock p l : takes p = Some l -> l = WalLock \/ l = FlushLock.
Proof. destruct p; intros [= <-]; auto. Qed.

(** ** Guarantees *)

Lemma run_answered m b s n i c t o :
  rep_over m b s -> rtc roomy_step (launch n s) c -> pool c !! i = Some t -> ctl t = Done o ->
  answered m b (history c) i (job t) (since t) (upto t) (missed t) o.
Proof.
  intros Hrep Hrun Ht Ho. pose proof (steps_inv _ _ _ _ _ (launch_inv m b s n Hrep) Hrun) as [(T & a & _ & _ & Hth) _ _].
  by eapply th_done; [apply Hth|].
Qed.

Lemma run_rep m s n c : rep m s -> rtc roomy_step (launch n s) c -> quiescent c -> rep (replay m (history c)) (sys c).
Proof.
  intros [b Hrep]%rep_has_base Hrun Hq.
  pose proof (steps_inv _ _ _ _ _ (launch_inv m b s n Hrep) Hrun) as [(T & a & [S1 S2 S3 S4 _] & _ & _) _ HF].
  exists T, a. split; [|exact S4]. unfold quiescent in Hq. rewrite Forall_forall in Hq.
  assert (phase c = Done (Ok None)) as Hp.
  { unfold phase. destruct (flush_owner c) as [i|] eqn:Eo; [|done]. destruct (proj1 (HF i) Eo) as (t & Ht & Hh).
    apply holds_busy in Hh as [Hb _]. rewrite (Hq t (list_elem_of_lookup_2 _ _ _ Ht)) in Hb. done. }
  rewrite Hp in S1, S2. apply ok_of_mid; [done|by apply S2].
Qed.

(** C2: [LsmEngine] is linearizable but for one race.  Whatever the interleaving
    of the worker and of [n] clients, every call that has returned answered what
    the map answers at one moment between call and return, and its own write, if
    it made one, took effect exactly once in between.  The exception is a [get]
    that looked into the active memtable while another thread was replacing the
    entry of its key there ([missed]): it returned without an error a value the
    key had at some earlier moment, or the one beneath the active memtable the
    threads started with, and the key had been overwritten in the run.  In
    particular no [get] fails because a compaction removes the table it is about
    to ask: the compaction has opened the reader they share before it removes
    the file. *)
Theorem threads_answer (m : kvmap) (b : bytes -> option bytes) (s : Sys) (n i : nat) (c : config) (t : thread) (o : reply) :
  rep_over m b s -> rtc roomy_step (launch n s) c -> pool c !! i = Some t -> ctl t = Done o ->
  answered m b (history c) i (job t) (since t) (upto t) (missed t) o.
Proof. apply run_answered. Qed.

(** C3: whenever no call is under way, the machine represents the map of all
    the writes that took effect, in their order, and satisfies the invariant of
    the engine that runs alone: whatever held for it holds again. *)
Theorem threads_settle (m : kvmap) (s : Sys) (n : nat) (c : config) :
  rep m s -> rtc roomy_step (launch n s) c -> quiescent c -> rep (replay m (history c)) (sys c).
Proof. apply run_rep. Qed.

(** ** What readers can see *)

(** Steps of a run in which thread [i] only makes calls [r] with [P i r]. *)
Definition calls (P : nat -> request -> Prop) (x : action) : Prop :=
  match x with Call i r => P i r | Run _ => True end.

Definition limited_step (P : nat -> request -> Prop) (c c' : config) : Prop :=
  roomy c = true /\ exists x, perform x c = Some c' /\ calls P x.

Lemma play_limited P xs c c' : play xs c = Some c' -> Forall (calls P) xs -> rtc (limited_step P) c c'.
Proof.
  intros Hp HP. revert c Hp. induction HP as [|x xs Hx _ IH]; intros c; cbn [play]; [by intros [= <-]|].
  destruct (roomy c) eqn:Hr; [|done]. destruct (perform x c) as [c1|] eqn:Hc; [|done]. cbn. intros Hp.
  eapply rtc_l; [|by apply IH]. split; [done|]. by exists x.
Qed.

Lemma limited_roomy P c c' : rtc (limited_step P) c c' -> rtc roomy_step c c'.
Proof. apply rtc_subrel. intros x y (Hr & a & Ha & _). split; [done|by exists a]. Qed.

(** The calls that are under way and the writes come from calls. *)
Record asked (P : nat -> request -> Prop) (c : config) : Prop := {
  as_pool : forall i t, pool c !! i = Some t -> P i (job t) \/ ctl t = Done (Ok None) /\ job t = ReqFlush;
  as_history : Forall (fun w => P w.1 w.2) (history c);
}.

Lemma emits_jobs i t p : emits i t p = [] \/ emits i t p = [(i, job t)].
Proof. unfold emits. repeat case_match; auto. Qed.

Lemma asked_step P c c' : asked P c -> limited_step P c c' -> asked P c'.
Proof.
  intros [A1 A2] (_ & [i r|i] & Hx & HP); cbn in Hx, HP.
  - destruct (pool c !! i) as [t|] eqn:Ht; [|done]. cbn in Hx. destruct (start r) as [p|]; [|done]. cbn in Hx.
    destruct (negb _ && _); [|done]. injection Hx as <-. split; [|done]. cbn [pool]. intros j tj Hj.
    destruct (decide (j = i)) as [->|Hne].
    + rewrite list_lookup_insert_eq in Hj by (by eapply lookup_lt_Some). injection Hj as <-. by left.
    + rewrite list_lookup_insert_ne in Hj by done. by apply A1.
  - destruct (pool c !! i) as [t|] eqn:Ht; [|done]. cbn in Hx. destruct (busy (ctl t) && _) eqn:Hb; [|done].
    injection Hx as <-. apply andb_true_iff in Hb as [Hb _].
    assert (P i (job t)) as HPi by (destruct (A1 i t Ht) as [H|[H _]]; [done|by rewrite H in Hb]).
    unfold advance. destruct (next (gap_at c) (ctl t) (sys c)) as [p s]. cbn zeta. split; cbn [pool history].
    + intros j tj Hj. destruct (decide (j = i)) as [->|Hne].
      * rewrite list_lookup_insert_eq in Hj by (by eapply lookup_lt_Some). injection Hj as <-. by left.
      * rewrite list_lookup_insert_ne in Hj by done. by apply A1.
    + apply Forall_app. split; [done|]. destruct (emits_jobs i t p) as [->| ->]; [by constructor|].
      by constructor.
Qed.

Lemma asked_run P n s c : rtc (limited_step P) (launch n s) c -> asked P c.
Proof.
  intros Hrun. assert (asked P (launch n s)) as Ha.
  { split; [|by constructor]. intros i t Ht. apply lookup_replicate in Ht as [-> _]. by right. }
  revert Ha. induction Hrun as [|c1 c2 c3 H12 _ IH]; [done|]. intros Ha. by eapply IH, asked_step.
Qed.

(** The values that writes on [k] leave satisfy [Q]. *)
Definition writes_only (P : nat -> request -> Prop) (k : bytes) (Q : option bytes -> Prop) : Prop :=
  (forall i v, P i (ReqPut k v) -> Q (Some v)) /\ forall i, P i (ReqDelete k) -> Q None.

Lemma write_only (P : nat -> request -> Prop) (k : bytes) (Q : option bytes -> Prop) (m : kvmap) i r :
  writes_only P k Q -> P i r -> Q (m !! k) -> Q (spec_next r m !! k).
Proof.
  intros [Hput Hdel] HP Hm. destruct r as [k' v|k'| | | | |]; cbn [spec_next]; try done; destruct (oversize _ _); try done.
  - destruct (decide (k' = k)) as [->|Hne]; [rewrite lookup_insert_eq; by eapply Hput|by rewrite lookup_insert_ne].
  - destruct (decide (k' = k)) as [->|Hne]; [rewrite lookup_delete_eq; by eapply Hdel|by rewrite lookup_delete_ne].
Qed.

Lemma replay_only (P : nat -> request -> Prop) (k : bytes) (Q : option bytes -> Prop) m h :
  writes_only P k Q -> Forall (fun w => P w.1 w.2) h -> Q (m !! k) -> Q (replay m h !! k).
Proof.
  intros Hw Hh. unfold replay. revert m. induction Hh as [|[i r] h Hr _ IH]; intros m Hm; [done|].
  cbn [foldl]. by apply IH, (write_only P k Q m i).
Qed.

(** A [get] answers a value of the run. *)
Lemma answered_only (P : nat -> request -> Prop) (k : bytes) (Q : option bytes -> Prop) m b h i n u ms o :
  Q (m !! k) -> writes_only P k Q -> (forall j r, P j r -> writes_key k r -> Q (b k)) ->
  Forall (fun w => P w.1 w.2) h -> answered m b h i (ReqGet k) n u ms o -> exists v, o = Ok v /\ Q v.
Proof.
  intros Hm Hw Hb Hh (_ & _ & Ha). assert (forall j x, Q (replay m (take j (take x h)) !! k)) as Hq
    by (intros j x; apply (replay_only P); [done|by repeat apply Forall_take|done]).
  destruct ms.
  - destruct Ha as (k' & v & [= <-] & -> & (j & r & Hin & Hr) & Hp). exists v. split; [done|].
    destruct Hp as [(x & _ & ->)| ->]; [apply Hq|]. rewrite Forall_forall in Hh. eapply (Hb j r); [|exact Hr].
    apply (Hh (j, r)). rewrite <- (take_drop u h). apply elem_of_app. by left.
  - destruct Ha as (j & _ & ->). cbn [spec_reply]. eexists. split; [done|].
    pose proof (Hq j (length h)) as H. by rewrite firstn_all in H.
Qed.

(** C5: whatever the interleaving, a [get] answers the value a key had before
    the threads started or one that some call wrote to it, whole: if the first
    value and every write of the key satisfy [Q], every [get] of it returns
    without an error and with a value that satisfies [Q]; where a call may
    overwrite the key, so must the value beneath the active memtable the threads
    start with.  With no write on the key in the run, it is the first value,
    however often the others flush and compact. *)
Theorem threads_read_written (P : nat -> request -> Prop) (k : bytes) (Q : option bytes -> Prop)
    (m : kvmap) (b : bytes -> option bytes) (s : Sys) (n i : nat) (c : config) (t : thread) (o : reply) :
  rep_over m b s -> Q (m !! k) -> writes_only P k Q -> (forall j r, P j r -> writes_key k r -> Q (b k)) ->
  rtc (limited_step P) (launch n s) c ->
  pool c !! i = Some t -> job t = ReqGet k -> ctl t = Done o -> exists v, o = Ok v /\ Q v.
Proof.
  intros Hrep Hm Hw Hb Hrun Ht Hj Ho. pose proof (as_history _ _ (asked_run _ _ _ _ Hrun)) as Hh.
  pose proof (run_answered _ _ _ _ _ _ _ _ Hrep (limited_roomy _ _ _ Hrun) Ht Ho) as Ha. rewrite Hj in Ha.
  by eapply answered_only.
Qed.

(** A thread waits for a lock only while another one holds it, and a holder
    never waits. *)
Lemma someone_runs (m : kvmap) (s : Sys) (n i : nat) (c : config) (t : thread) :
  rep m s -> rtc roomy_step (launch n s) c -> pool c !! i = Some t -> busy (ctl t) = true ->
  exists j c', perform (Run j) c = Some c'.
Proof.
  intros [b Hrep]%rep_has_base Hrun Ht Hb. pose proof (steps_inv _ _ _ _ _ (launch_inv m b s n Hrep) Hrun) as [_ HL HF].
  destruct (free (ctl t) c) eqn:Hf.
  - exists i, (advance i t c). cbn. rewrite Ht. cbn. by rewrite Hb, Hf.
  - unfold free in Hf. destruct (takes (ctl t)) as [l|] eqn:Hl; [|done].
    destruct (owner l c) as [j|] eqn:Eo; [|done].
    assert (exists tj, pool c !! j = Some tj /\ holds (ctl tj) = Some l) as (tj & Htj & Hh)
      by (destruct (takes_lock _ _ Hl) as [->| ->]; [by apply HL|by apply HF]).
    apply holds_busy in Hh as [Hbj Hnj]. exists j, (advance j tj c). cbn. rewrite Htj. cbn.
    rewrite Hbj. unfold free. by rewrite Hnj.
Qed.

(** Steps of calls that are under way. *)
Definition roomy_run (c c' : config) : Prop := roomy c = true /\ exists i, perform (Run i) c = Some c'.

Lemma roomy_run_step c c' : roomy_run c c' -> roomy_step c c'.
Proof. intros [Hr [i Hi]]. split; [done|by exists (Run i)]. Qed.

Lemma play_runs js c c' : play (Run <$> js) c = Some c' -> nsteps roomy_run (length js) c c'.
Proof.
  revert c. induction js as [|i js IH]; intros c; cbn [fmap list_fmap play]; [intros [= <-]; constructor|].
  destruct (roomy c) eqn:Hr; [|done]. destruct (perform (Run i) c) as [c1|] eqn:Hx; [|done]. cbn [mbind option_bind].
  intros Hp. econstructor; [|by apply IH]. split; [done|by exists i].
Qed.

(** C6: every call returns.  From any configuration that threads can reach, if
    no further call is made, they take at most [work c] steps in any order, and
    where none can take a step every call has returned: no deadlock, no endless
    flush or compaction. *)
Theorem threads_return (m : kvmap) (s : Sys) (n k : nat) (c c' : config) :
  rep m s -> rtc roomy_step (launch n s) c -> nsteps roomy_run k c c' ->
  (k <= work c)%nat /\ ((forall j c'', perform (Run j) c' <> Some c'') -> quiescent c').
Proof.
  intros Hrep Hrun Hk. assert (rtc roomy_step (launch n s) c') as Hrun'.
  { etrans; [exact Hrun|]. eapply rtc_subrel; [exact roomy_run_step|]. apply rtc_nsteps. by exists k. }
  split.
  - destruct (rep_has_base m s Hrep) as [b Hover].
    pose proof (steps_inv _ _ _ _ _ (launch_inv m b s n Hover) Hrun) as Hinv. clear Hrun Hrun'.
    enough (k + work c' <= work c)%nat by lia. induction Hk as [c|k c1 c2 c3 H12 _ IH]; [lia|].
    pose proof (step_inv _ _ _ _ _ Hinv (roomy_run_step _ _ H12)) as Hinv2. specialize (IH Hinv2).
    destruct H12 as [Hroom [i Hi]]. cbn in Hi. destruct (pool c1 !! i) as [t|] eqn:Ht; [|done]. cbn in Hi.
    destruct (busy (ctl t) && free (ctl t) c1) eqn:Hb; [|done]. injection Hi as <-.
    apply andb_true_iff in Hb as [Hb Hf]. pose proof (run_work _ _ _ i t c1 Hinv Hroom Ht Hb Hf). lia.
  - intros Hstuck. apply Forall_forall. intros t [i Ht]%list_elem_of_lookup. destruct (busy (ctl t)) eqn:Hb; [|done].
    destruct (someone_runs m s n i c' t Hrep Hrun' Ht Hb) as (j & c'' & Hj). by destruct (Hstuck j c'').
Qed.

(** C4: with [sync_per_write], wherever the process is killed while threads run,
    between two steps or at any system call of one, the next opening finds the
    map of the writes so far, among which are those of all the calls that have
    been answered, or that map after one more write that had not been answered:
    the one of a thread that was writing the log.  A kill keeps what the system
    calls have done and loses the buffers of the process. *)
Theorem threads_survive_kill (m : kvmap) (b : bytes -> option bytes) (s : Sys) (n : nat) (c : config) (fs : Fs) (o : LsmOptions) :
  rep_over m b s -> durable_state s -> rtc roomy_step (launch n s) c -> roomy c = true -> files_fit (sys c).1 ->
  stopped c fs -> files_fit fs ->
  exists ws e fs', (ws = [] \/ exists i t k v d, pool c !! i = Some t /\ ctl t = Write k v d /\ ws = [(i, job t)]) /\
    open_with_options o fs = (Ok e, fs') /\ rep (replay m (history c ++ ws)) (fs', e) /\
    forall i t r, pool c !! i = Some t -> ctl t = Done r ->
      answered m b (history c ++ ws) i (job t) (since t) (upto t) (missed t) r.
Proof.
  intros Hrep Hdur Hrun Hroom Hfit Hstop Hfit'. pose proof (launch_inv m b s n Hrep) as Hinv0.
  pose proof (steps_inv _ _ _ _ _ Hinv0 Hrun) as Hinv. pose proof (steps_durable _ _ _ _ _ Hinv0 Hrun Hdur) as Hdur'.
  assert (exists ws, (ws = [] \/ exists i t k v d, pool c !! i = Some t /\ ctl t = Write k v d /\ ws = [(i, job t)]) /\
    reopens (replay m (history c ++ ws)) fs) as (ws & Hws & Hre).
  { destruct (stopped_survives _ _ _ c fs Hinv Hdur' Hroom Hfit Hstop) as [H|(i & t & Ht & H)].
    - exists []. rewrite app_nil_r. split; [by left|done].
    - exists (pending i t). split; [|done]. unfold pending. destruct (ctl t) eqn:Hc; try (by left). right. by repeat eexists. }
  destruct (Hre Hfit' o) as (e & fs' & Ho & _ & Hr). exists ws, e, fs'. split; [done|]. split; [done|]. split; [done|].
  intros i t r Ht Hc. by apply answered_app, (run_answered m b s n i c t r).
Qed.

(** C9: with [sync_per_write], a power loss between two steps of the threads,
    at any moment of any flush or compaction, takes no write that took effect,
    those of all the answered calls among them: every step leaves every byte of
    every file synced, so that whatever unsynced bytes the loss drops, the
    directory opens to the map of the writes so far.  Only the names are taken to
    survive, since the source never syncs the directory. *)
Theorem threads_survive_outage (m : kvmap) (b : bytes -> option bytes) (s : Sys) (n : nat) (c : config) (fs : Fs) (o : LsmOptions) :
  rep_over m b s -> dry s -> rtc roomy_step (launch n s) c -> roomy c = true -> files_fit (sys c).1 ->
  power_loss (sys c).1 fs -> dirents fs = dirents (sys c).1 ->
  exists e fs', open_with_options o fs = (Ok e, fs') /\ rep (replay m (history c)) (fs', e) /\
    forall i t r, pool c !! i = Some t -> ctl t = Done r ->
      answered m b (history c) i (job t) (since t) (upto t) (missed t) r.
Proof.
  intros Hrep Hdry Hrun Hroom Hfit Hloss Hnames. assert (outage (sys c).1 fs) as Hout by done.
  pose proof (dry_steps _ _ Hrun Hdry) as Hd. pose proof (steps_inv _ _ _ _ _ (launch_inv m b s n Hrep) Hrun) as Hinv.
  destruct (outage_survives _ _ _ c fs Hinv Hd Hroom Hfit Hout (settled_fit _ _ (proj1 Hd) Hout Hfit) o)
    as (e & fs' & Ho & _ & Hr).
  exists e, fs'. split; [done|]. split; [done|]. intros i t r Ht Hc. by eapply run_answered.
Qed.
End launch.

(** ** A run of the concrete engine

    One client writes and flushes two keys.  Another one asks for the first and
    takes its snapshot; then the first client compacts, a third one overwrites the
    key in the middle of it, and only after the compaction has removed the files
    of the snapshot does the second client go on. *)

Module Race.
#[export] Existing Instance Toy.crc32.
#[export] Existing Instance Toy.bloom.
#[export] Existing Instance Toy.allocator.
#[export] Existing Instance Sample.skip_map.

Definition runs (i k : nat) : list action := replicate k (Run i).

Definition before : list action :=
  [Call 1 (ReqPut [x61] [x31])] ++ runs 1 2 ++ [Call 1 ReqFlush] ++ runs 1 12 ++
  [Call 1 (ReqPut [x62] [x32])] ++ runs 1 2 ++ [Call 1 ReqFlush] ++ runs 1 12 ++
  [Call 2 (ReqGet [x61])] ++ runs 2 3 ++ [Call 1 ReqCompact] ++ runs 1 8 ++ [Call 3 (ReqPut [x61] [x39])].

Definition after : list nat := replicate 2 3%nat ++ replicate 4 1%nat ++ replicate 3 2%nat.

(** Thread [i] got the value [v] of [k]. *)
Definition got (i : nat) (k v : bytes) (c : Threads.config) : bool :=
  match pool c !! i with
  | Some t =>
      match ctl t, job t with
      | Done (Ok (Some w)), ReqGet k' => bool_decide (w = v) && bool_decide (k' = k)
      | _, _ => false
      end
  | None => false
  end.

Lemma got_ok i k v c : got i k v c = true ->
  exists t, pool c !! i = Some t /\ job t = ReqGet k /\ ctl t = Done (Ok (Some v)).
Proof.
  unfold got. destruct (pool c !! i) as [t|]; [|done]. destruct (ctl t) eqn:Ec; try done.
  destruct o as [[w|]| | |]; try done. destruct (job t) eqn:Ej; try done.
  intros [->%bool_decide_eq_true ->%bool_decide_eq_true]%andb_true_iff. by exists t.
Qed.

Definition sys : Fs * LsmEngineInner := Sample.start Sample.config.
Definition middle : Threads.config := default (launch 3 sys) (play before (launch 3 sys)).
Definition final : Threads.config := default middle (play (Run <$> after) middle).

Lemma race_rep : rep ∅ sys.
Proof. apply Sample.start_rep. Qed.

(** A new directory: nothing lies beneath the active memtable. *)
Definition empty_base (k : bytes) : option bytes := (∅ : kvmap) !! k.

Lemma race_over : rep_over ∅ empty_base sys.
Proof. apply fresh_over; [exact race_rep|]. vm_compute. reflexivity. Qed.

Lemma played xs c : match play xs c with Some _ => true | None => false end = true -> rtc roomy_step c (default c (play xs c)).
Proof. destruct (play xs c) eqn:E; [intros _|done]. by apply play_steps in E. Qed.

Lemma to_middle : rtc roomy_step (launch 3 sys) middle.
Proof. apply played. vm_compute. reflexivity. Qed.

(** The process is killed when the third client has written five bytes of its entry,
    in the middle of the compaction of the first. *)
Definition at_log : pc := Write [x61] [x39] false.
Definition torn : Fs := killed (next None at_log (arm 0 5 (Threads.sys middle))).2.1.

(** The calls of the run. *)
Definition may (_ : nat) (r : request) : Prop :=
  r = ReqPut [x61] [x31] \/ r = ReqPut [x62] [x32] \/ r = ReqPut [x61] [x39] \/ r = ReqFlush \/ r = ReqCompact \/
  r = ReqGet [x61].

Lemma before_may : Forall (calls may) before.
Proof. unfold before, runs. rewrite !Forall_app. split_and!; repeat first [apply Forall_nil_2 | apply Forall_cons_2]; unfold may; cbn; auto 10. Qed.

Lemma limited_final : rtc (limited_step may) (launch 3 sys) final.
Proof.
  apply (play_limited _ (before ++ (Run <$> after))).
  - assert (match play (before ++ (Run <$> after)) (launch 3 sys) with Some _ => true | None => false end = true) as H
      by (vm_compute; reflexivity). unfold final, middle. rewrite play_app in *.
    destruct (play before (launch 3 sys)) as [c|]; [|done]. cbn [mbind option_bind from_option default] in *.
    unfold id. destruct (play (Run <$> after) c); done.
  - apply Forall_app. split; [apply before_may|]. apply Forall_fmap, Forall_forall. done.
Qed.

Lemma from_middle : nsteps roomy_run (length after) middle final.
Proof.
  apply play_runs. unfold final. destruct (play (Run <$> after) middle) eqn:E; [done|].
  assert (match play (Run <$> after) middle with Some _ => true | None => false end = true) as H
    by (vm_compute; reflexivity). by rewrite E in H.
Qed.

Lemma to_final : rtc roomy_step (launch 3 sys) final.
Proof.
  etrans; [exact to_middle|]. eapply rtc_subrel; [exact roomy_run_step|]. apply rtc_nsteps. exists (length after). exact from_middle.
Qed.
End Race.

#[local] Existing Instances Toy.crc32 Toy.bloom Toy.allocator Sample.skip_map.
#[local] Opaque Race.sys Race.middle Race.final.

Lemma threads_answer_witness :
  exists t, pool Race.final !! 2%nat = Some t /\ job t = ReqGet [x61] /\ missed t = false /\
    timely ∅ (history Race.final) (ReqGet [x61]) (since t) (upto t) (Ok (Some [x31])).
Proof.
  destruct (Race.got_ok 2 [x61] [x31] Race.final) as (t & Ht & Hj & Hc); [vm_compute; reflexivity|].
  assert (missed <$> pool Race.final !! 2%nat = Some false) as Hm by (vm_compute; reflexivity).
  rewrite Ht in Hm. injection Hm as Hm. exists t. split; [exact Ht|]. split; [exact Hj|]. split; [exact Hm|].
  pose proof (threads_answer ∅ Race.empty_base Race.sys 3 2 Race.final t _ Race.race_over Race.to_final Ht Hc) as Ha.
  rewrite Hm, Hj in Ha. exact (proj2 (proj2 Ha)).
Defined.

Lemma threads_settle_witness :
  rep (replay ∅ (history Race.final)) (sys Race.final) /\ replay ∅ (history Race.final) !! [x61] = Some [x39] /\
    replay ∅ (history Race.final) !! [x62] = Some [x32].
Proof.
  split; [|split; vm_compute; reflexivity].
  apply (threads_settle ∅ Race.sys 3 Race.final Race.race_rep Race.to_final).
  apply Forall_forall. intros t Ht%list_elem_of_In.
  assert (forallb (fun t => negb (busy (ctl t))) (pool Race.final) = true) as Hb by (vm_compute; reflexivity).
  rewrite forallb_forall in Hb. specialize (Hb t Ht). by apply negb_true_iff.
Defined.

Lemma threads_return_witness :
  length Race.after = 9%nat /\ (length Race.after <= work Race.middle)%nat /\ existsb (fun t => busy (ctl t)) (pool Race.middle) = true.
Proof.
  split; [reflexivity|]. split; [|vm_compute; reflexivity].
  apply (threads_return ∅ Race.sys 3 (length Race.after) Race.middle Race.final
    Race.race_rep Race.to_middle Race.from_middle).
Defined.

Lemma threads_read_written_witness :
  exists v, Ok (Some [x31]) = Ok v /\ (v = None \/ v = Some [x31] \/ v = Some [x39]).
Proof.
  destruct (Race.got_ok 2 [x61] [x31] Race.final) as (t & Ht & Hj & Hc); [vm_compute; reflexivity|].
  apply (threads_read_written Race.may [x61] (fun v => v = None \/ v = Some [x31] \/ v = Some [x39])
    ∅ Race.empty_base Race.sys 3 2 Race.final t _ Race.race_over);
    [by left| |by left|exact Race.limited_final|exact Ht|exact Hj|exact Hc].
  split.
  - intros i v [H|[H|[H|[H|[H|H]]]]]; try discriminate H; injection H as ->; auto.
  - intros i [H|[H|[H|[H|[H|H]]]]]; discriminate H.
Defined.

Lemma threads_survive_kill_witness :
  exists ws e fs', open_with_options Sample.config Race.torn = (Ok e, fs') /\
    rep (replay ∅ (history Race.middle ++ ws)) (fs', e) /\ (length ws <= 1)%nat /\
    history Race.middle = [(1, ReqPut [x61] [x31]); (1, ReqPut [x62] [x32])]%nat.
Proof.
  destruct (pool Race.middle !! 3%nat) as [t|] eqn:Ht;
    [|apply (f_equal (fun o => match o with Some _ => true | None => false end)) in Ht; vm_compute in Ht; discriminate Ht].
  assert (match pool Race.middle !! 3%nat with
          | Some t => match ctl t with Write k v d => bool_decide ((k, v, d) = ([x61], [x39], false)) | _ => false end
          | None => false end = true) as Hc by (vm_compute; reflexivity).
  rewrite Ht in Hc. destruct (ctl t) eqn:Ec; try discriminate Hc.
  apply bool_decide_eq_true in Hc. injection Hc as -> -> ->.
  destruct (threads_survive_kill ∅ Race.empty_base Race.sys 3 Race.middle Race.torn Sample.config Race.race_over)
    as (ws & e & fs' & Hws & Ho & Hr & _).
  - split; vm_compute; reflexivity.
  - exact Race.to_middle.
  - vm_compute. reflexivity.
  - apply (bool_decide_unpack _). vm_compute. exact I.
  - apply (StoppedWithin Race.middle 3 t 0 5 (next None Race.at_log (arm 0 5 (Threads.sys Race.middle))).2).
    + exact Ht.
    + rewrite Ec. reflexivity.
    + rewrite Ec. vm_compute. reflexivity.
    + assert (gap_at Race.middle = None) as -> by (vm_compute; reflexivity). rewrite Ec. fold Race.at_log.
      assert (match (next None Race.at_log (arm 0 5 (Threads.sys Race.middle))).1 with Done Halt => true | _ => false end = true) as Hh
        by (vm_compute; reflexivity).
      destruct (next None Race.at_log _) as [[] s']; try discriminate Hh. by destruct o.
  - apply (bool_decide_unpack _). vm_compute. exact I.
  - exists ws, e, fs'. split; [exact Ho|]. split; [exact Hr|]. split; [|vm_compute; reflexivity].
    destruct Hws as [->|(i & ti & k & v & d & _ & _ & ->)]; cbn; lia.
Defined.

Lemma threads_survive_outage_witness :
  exists e fs', open_with_options Sample.config (killed (Threads.sys Race.middle).1) = (Ok e, fs') /\
    rep (replay ∅ (history Race.middle)) (fs', e) /\
    history Race.middle = [(1, ReqPut [x61] [x31]); (1, ReqPut [x62] [x32])]%nat.
Proof.
  destruct (threads_survive_outage ∅ Race.empty_base Race.sys 3 Race.middle (killed (Threads.sys Race.middle).1)
    Sample.config Race.race_over start_dry Race.to_middle) as (e & fs' & Ho & Hr & _).
  - vm_compute. reflexivity.
  - apply (bool_decide_unpack _). vm_compute. exact I.
  - apply power_loss_killed.
  - apply killed_dirents.
  - exists e, fs'. split; [exact Ho|]. split; [exact Hr|]. vm_compute. reflexivity.
Defined.

(** ** A get that runs into an overwriting put

    A client writes a key, with a flush after the first value, and overwrites it
    while another one asks for it.  Between the two halves of the insertion the
    [get] finds no entry in the active memtable. *)

Module Overtaken.
Import Race.

Definition puts (v : byte) : list action := [Call 1 (ReqPut [x61] [v])] ++ runs 1 2.

Definition schedule (first : list action) (n : nat) : list action :=
  first ++ puts x32 ++ [Call 2 (ReqGet [x61])] ++ runs 2 1 ++ [Call 1 (ReqPut [x61] [x33])] ++ runs 1 1 ++ runs 2 n.

Definition flushed : list action := puts x31 ++ [Call 1 ReqFlush] ++ runs 1 12.

(** What the [get] answers after [n] more steps, and what the map answered at
    the moments of its call. *)
Definition outcomes (first : list action) (n : nat) : option (bool * reply * list reply) :=
  c ← play (schedule first n) (launch 2 sys);
  t ← pool c !! 2%nat;
  match ctl t with
  | Done o => Some (missed t, o,
      (fun j => spec_reply (job t) (replay ∅ (take j (history c)))) <$> List.seq (since t) (S (upto t - since t)))
  | _ => None
  end.

(** The key has had the values 2 and 3 since before the call, and 1 was in a
    table, or nothing. *)
Example overwriting_put_hides_key :
  outcomes flushed 4 = Some (true, Ok (Some [x31]), [Ok (Some [x32]); Ok (Some [x33])]) /\
  outcomes [] 3 = Some (true, Ok None, [Ok (Some [x32]); Ok (Some [x33])]).
Proof. split; vm_compute; reflexivity. Qed.
End Overtaken.
