(* ===== verification/FaultTheorems.v ===== *)
(** * The engine's guarantees under I/O errors

    What a caller sees when system calls fail, and two mishandled errors. *)

From S2P Require Import Prelude Outcome External Fs Crash MemTable Wal WalWriter WalReader.
From S2P Require Import StdVec SstRecord SstIndex Bloom Builder Reader Merge Manifest.
From S2P Require Import Names KvSpec Engine EngineSpec EngineGet EngineRefine EngineTheorems.
From S2P Require Import Faults FaultServe FaultStore.

(** ** Deciding the resource conditions *)

Section decide.
Context {C : Crc32} {SM : SkipMap Entry} {FB : FastBloom} {AL : Allocator}.

#[export] Instance fault_room_dec r s : Decision (fault_room r s).
Proof. destruct r; unfold fault_room, tables_fit, inputs_fit; apply _. Defined.

Fixpoint session_fault_room_dec rs s : Decision (session_fault_room rs s) :=
  match rs with
  | [] => left I
  | r :: rs => and_dec (fault_room_dec r s) (session_fault_room_dec rs (kv_serve r s).2)
  end.
#[export] Existing Instance session_fault_room_dec.

(** ** Every schedule of errors *)

(** C10: from a state that represents a map, whatever system calls fail, with
    whatever part of a write already done, a session of puts, deletes, gets,
    flushes, compactions and background notifications goes on to its end: no
    request panics, an answered request has the answer of the map, a request
    that reports an error has either left the map as it was or been carried
    out, and what it left is what every later request sees. *)
Theorem session_survives_errors (l : list fault) (rs : list request) (m : kvmap) (s : Fs * LsmEngineInner) :
  rep m s -> (forall n, Stop n ∉ l) -> let s0 := (set_faults l s.1, s.2) in session_fault_room rs s0 ->
  exists m', accounts rs (session rs s0).1 m m' /\ shows_map m' (session rs s0).2.
Proof.
  intros Hrep Hl s0 Hroom. pose proof (shows_rep l m s Hrep) as Hs.
  refine (fault_session_ok (FS := engine_faulty) rs m s0 Hs Hroom _). intros (n & Hn). exact (Hl n Hn).
Qed.

(** C11: whatever faults are pending, the death of the process included, a
    request never panics; it ends early only where it reaches a pending stop,
    which is then the last fault it used up; and unless it ended early, the
    engine it leaves is well formed: every level lists readable tables in order,
    the frozen generations and their logs match, no lock is poisoned, and a
    later request finds the engine ready to serve. *)
Theorem requests_keep_well_formed (r : request) (m : kvmap) (s : Fs * LsmEngineInner) :
  shows_map m s -> fault_room r s ->
  (serve r s).1 <> Panic /\
  ((serve r s).1 = Halt -> exists n, (Stop n :: faults (serve r s).2.1) `suffix_of` faults s.1) /\
  ((serve r s).1 <> Halt ->
     faults (serve r s).2.1 `suffix_of` faults s.1 /\
     exists T a, serves (serve r s).2.1 (serve r s).2.2 T a /\ poisoned (serve r s).2.2 = []).
Proof.
  intros Hs Hroom. destruct (copes_serve r m s Hs Hroom) as [H1 H2].
  assert (forall m', shows_map m' (serve r s).2 ->
    exists T a, serves (serve r s).2.1 (serve r s).2.2 T a /\ poisoned (serve r s).2.2 = []) as Hsh.
  { intros m' (T & a & Hok & _). exists T, a. split; [exact Hok|exact (sv_poison _ _ _ _ Hok)]. }
  destruct (serve r s) as [[v|err| |] s']; cbn [fst snd] in *; [|destruct H2 as [H2|H2]|done|];
    (split; [done|split; [done|]]); try done; (intros _; split; [exact H1|]); eauto.
  exact (Hsh _ (proj2 H2)).
Qed.
End decide.

(** ** Errors that outlive their cause *)

(** What [SstHandle::open_reader] reports of a table it could not open. *)
Definition open_failure {FB : FastBloom} (h : SstHandle) (err : LsmError) : LsmError :=
  Corruption ("failed to open sstable " +:+ path h +:+ ": " +:+ error_to_string err).

(** C37: whatever error the first opening of a table meets, a passing one
    included, the table's handle remembers it for as long as the engine keeps
    the table: every later use of the table reports that error as corruption
    without looking at the file, whatever has become of the disk and of the
    rest of the engine. *)
Theorem failed_open_sticks {SM : SkipMap Entry} {FB : FastBloom}
    (fs : Fs) (e : LsmEngineInner) i h err fs' :
  handles e !! i = Some h -> Engine.reader h = None -> Reader.open (path h) fs = (Err err, fs') ->
  exists e', open_reader i (fs, e) = (Err (open_failure h err), (fs', e')) /\
    forall fs2 e2, handles e2 !! i = handles e' !! i ->
      open_reader i (fs2, e2) = (Err (open_failure h err), (fs2, e2)).
Proof.
  intros Hh Hr Hopen. set (h' := mkSstHandle (meta h) (path h) (Some (inl (error_to_string err)))).
  exists (set_handles (<[i := h']> (handles e)) e). split.
  - unfold open_reader. rewrite (M_bind_ok _ _ _ _ _ (handle_at_ok fs e i h Hh)), Hr, M_bind_assoc.
    assert (try_ (on_fs (Reader.open (path h))) (fs, e) = (Ok (inl err), (fs', e))) as Ht
      by (unfold try_, on_fs, zoom; cbn [fst snd]; by rewrite Hopen).
    rewrite (M_bind_ok _ _ _ _ _ Ht). done.
  - intros fs2 e2 He2. cbn in He2. rewrite list_lookup_insert_eq in He2 by by eapply lookup_lt_Some.
    unfold open_reader. by rewrite (M_bind_ok _ _ _ _ _ (handle_at_ok fs2 e2 i h' He2)).
Qed.

(** ** Instances on the concrete engine *)

Import Sample.

#[local] Opaque sys.

(** [k] times [n] calls that pass and one that stops after three bytes. *)
Definition every (n k : nat) : list fault := mjoin (replicate k (replicate n Pass ++ [Fail 3])).

Definition errors : list fault := every 4 1 ++ every 9 5.

Definition troubled : list request :=
  [ReqPut [x61] [x31]; ReqPut [x62] [x32]; ReqPut [x63] [x33]; ReqBackground; ReqDelete [x61]; ReqFlush;
   ReqGet [x61]; ReqGet [x62]; ReqCompact; ReqGet [x63]; ReqPut [x64] [x34]; ReqGet [x64]].

Lemma errors_never_stop n : Stop n ∉ errors.
Proof. vm_compute. intros H. repeat (apply elem_of_cons in H as [H|H]; [discriminate H|]). by apply not_elem_of_nil in H. Qed.

Lemma session_survives_errors_witness :
  exists m' : kvmap, let r := session troubled (set_faults errors (start config).1, (start config).2) in
    r.1 = [Ok None; Ok None; Err (Io OtherIo); Ok None; Ok None; Err (Io OtherIo);
           Ok None; Ok (Some [x32]); Err (Io OtherIo); Ok None; Ok None; Ok (Some [x34])] /\
    accounts troubled r.1 ∅ m' /\ shows_map m' r.2.
Proof.
  destruct (session_survives_errors errors troubled ∅ (start config) (start_rep config) errors_never_stop) as (m' & H1 & H2).
  - apply (bool_decide_unpack _). vm_compute. exact I.
  - exists m'. cbn zeta. split; [vm_compute; reflexivity|]. split; [exact H1|exact H2].
Defined.

(** A flush that meets an error, or the death of the process, at its tenth
    system call. *)
Lemma requests_keep_well_formed_witness :
  (serve ReqFlush (set_faults (replicate 9 Pass ++ [Stop 3]) sys.1, sys.2)).1 = Halt /\
  exists T a, let s := (serve ReqFlush (set_faults (replicate 9 Pass ++ [Fail 3]) sys.1, sys.2)).2 in
    serves s.1 s.2 T a /\ poisoned s.2 = [].
Proof.
  split; [vm_compute; reflexivity|].
  destruct (requests_keep_well_formed ReqFlush contents (set_faults (replicate 9 Pass ++ [Fail 3]) sys.1, sys.2))
    as (_ & _ & H).
  - exact (shows_rep _ _ _ sys_rep).
  - apply (bool_decide_unpack _). vm_compute. exact I.
  - refine (proj2 (H _)). vm_compute. discriminate.
Defined.

Lemma open_meets_error p fs : Reader.open p (set_faults [Fail 0] fs) = (Err (Io OtherIo), set_faults [] fs).
Proof. reflexivity. Qed.

(** The one table of [sys], whose first opening meets an error. *)
Lemma failed_open_sticks_witness :
  exists h e', handles sys.2 !! 0%nat = Some h /\
    open_reader 0 (set_faults [Fail 0] sys.1, sys.2) = (Err (open_failure h (Io OtherIo)), (set_faults [] sys.1, e')) /\
    open_reader 0 (empty_fs, e') = (Err (open_failure h (Io OtherIo)), (empty_fs, e')).
Proof.
  assert (match handles sys.2 !! 0%nat with Some (mkSstHandle _ _ None) => true | _ => false end = true) as Hr
    by (vm_compute; reflexivity).
  destruct (handles sys.2 !! 0%nat) as [[n p [|]]|] eqn:Hh; try discriminate Hr. exists (mkSstHandle n p None).
  destruct (failed_open_sticks (set_faults [Fail 0] sys.1) sys.2 0
    (mkSstHandle n p None) (Io OtherIo) (set_faults [] sys.1)) as (e' & H1 & H2).
  - exact Hh.
  - reflexivity.
  - apply open_meets_error.
  - exists e'. split; [reflexivity|]. split; [exact H1|]. apply H2. reflexivity.
Defined.

(** ** Two mishandled errors *)

(** A table is written; the first [get] that opens it meets one passing
    error, unless [calls] is empty, and everything works again; the replies
    of a [get], a [compact], a restart and two [get]s that follow. *)
Definition unlucky_open (calls : list fault) : list reply :=
  let '(_, s) := session [ReqPut [x61] [x31]; ReqFlush] (start config) in
  let '(r1, s) := serve (ReqGet [x61]) (set_faults calls s.1, s.2) in
  let '(rs, _) := session [ReqGet [x61]; ReqCompact; ReqReopen; ReqGet [x61]] s in
  r1 :: rs.

Definition stuck : LsmError :=
  Corruption "failed to open sstable L0_000003.sst: I/O error: Input/output error (os error 5)".

Example passing_error_sticks :
  unlucky_open [] = [Ok (Some [x31]); Ok (Some [x31]); Ok None; Ok None; Ok (Some [x31])] /\
  unlucky_open [Fail 0] = [Err stuck; Err stuck; Err stuck; Ok None; Ok (Some [x31])].
Proof. split; vm_compute; reflexivity. Qed.

(** One put of a value larger than the log's buffer stops after [n] bytes have
    reached the file; then another key is written, read, and read again after a
    clean restart. *)
Definition torn_append (calls : list fault) : list reply :=
  let '(r1, s) := serve (ReqPut [x61] (replicate (Z.to_nat 8192) x30)) (set_faults calls (start config).1, (start config).2) in
  let '(rs, _) := session [ReqPut [x62] [x32]; ReqGet [x62]; ReqReopen; ReqGet [x62]] s in
  r1 :: rs.

(** When appending a log entry fails part of the way, the engine reports
    the error and goes on appending behind the torn entry.  The writes that
    follow are acknowledged, synced and readable, and even a clean restart loses
    them, without an error: the replay takes the torn entry for the end of the
    log.  Without the fault nothing is lost. *)
Example failed_append_loses_writes :
  torn_append [] = [Ok None; Ok None; Ok (Some [x32]); Ok None; Ok (Some [x32])] /\
  torn_append [Fail 100] = [Err (Io OtherIo); Ok None; Ok (Some [x32]); Ok None; Ok None].
Proof. split; vm_compute; reflexivity. Qed.
