(* ===== verification/TestKit.v ===== *)
(** * The vocabulary of the unit tests

    A unit test of the crate is a computation over the model: an assertion that
    fails and an [unwrap] or [expect] of the other case are panics, and a test
    passes when it ends with [Ok]. *)

From S2P Require Import Prelude Outcome Manifest Names.

Section kit.
Context {S : Type}.

(** [.unwrap()] and [.expect(..)] *)
Definition unwrap {A} (m : M S A) : M S A :=
  r ← try_ m; match r with inl _ => panic | inr a => mret a end.

(** [.expect_err(..)] *)
Definition expect_err {A} (m : M S A) : M S LsmError :=
  r ← try_ m; match r with inl e => mret e | inr _ => panic end.

(** [.expect(..)] of an option *)
Definition some {A} (o : option A) : M S A := match o with Some a => mret a | None => panic end.

Definition assert (b : bool) : M S unit := if b then mret tt else panic.

Definition assert_eq {A} `{EqDecision A} (a b : A) : M S unit := assert (bool_decide (a = b)).

Definition assert_ne {A} `{EqDecision A} (a b : A) : M S unit := assert (bool_decide (a <> b)).
End kit.

(** [matches!(err, LsmError::..)] *)
Definition is_io (e : LsmError) : bool := match e with Io _ => true | _ => false end.
Definition is_corruption (e : LsmError) : bool := match e with Corruption _ => true | _ => false end.
Definition is_invalid_op (e : LsmError) : bool := match e with InvalidOp _ => true | _ => false end.
Definition is_key_too_large (max : Z) (e : LsmError) : bool :=
  match e with KeyTooLarge _ m => m =? max | _ => false end.

(** [{i:0w}] after a prefix. *)
Definition fmt (prefix : string) (w : nat) (i : nat) : string :=
  prefix +:+ to_string (replicate (w - length (decimal (Z.of_nat i))) (digit 0) ++ decimal (Z.of_nat i)).

(** [vec![b; n]] *)
Definition filled (b : byte) (n : nat) : bytes := replicate n b.

(** [buf[a..b]] is overwritten. *)
Definition splice (buf : bytes) (a : Z) (d : bytes) : bytes :=
  take (Z.to_nat a) buf ++ d ++ drop (Z.to_nat a + length d) buf.

(** [buf[i] ^= 0xFF] *)
Definition flip (buf : bytes) (i : Z) : bytes :=
  match buf !! Z.to_nat i with
  | Some x => splice buf i [z2b (Z.lxor (b2z x) 0xFF)]
  | None => buf
  end.

Definition passes {S} (s : S) (t : M S unit) : bool := match t s with (Ok _, _) => true | _ => false end.

(** ** Tests too large to evaluate

    They are proved from the theorems about the operations they call. *)

Section large.
Context {S : Type}.

Lemma unwrap_ok {A} (m : M S A) s a s' : m s = (Ok a, s') -> unwrap m s = (Ok a, s').
Proof. intros H. unfold unwrap, try_, mbind, M_bind. by rewrite H. Qed.

Lemma assert_ok (b : bool) (s : S) : b = true -> assert b s = (Ok tt, s).
Proof. by intros ->. Qed.

Lemma assert_eq_ok {A} `{EqDecision A} (a b : A) (s : S) : a = b -> assert_eq a b s = (Ok tt, s).
Proof. intros ->. by apply assert_ok, bool_decide_true. Qed.

Lemma passes_step {A} (m : M S A) f s a s' :
  m s = (Ok a, s') -> passes s' (f a) = true -> passes s (m ≫= f) = true.
Proof. intros H. unfold passes. by rewrite (M_bind_ok _ _ _ _ _ H). Qed.

Lemma passes_run (m : M S unit) s s' : m s = (Ok tt, s') -> passes s m = true.
Proof. intros H. unfold passes. by rewrite H. Qed.

(** A loop of checks that change nothing. *)
Lemma checks_ok {A} (f : A -> M S unit) l (s : S) :
  (forall x, x ∈ l -> f x s = (Ok tt, s)) -> for_each l f s = (Ok tt, s).
Proof.
  induction l as [|x l IH]; intros Hf; [done|]. cbn [for_each].
  rewrite (M_bind_ok _ _ _ _ _ (Hf x (list_elem_of_here _ _))). apply IH. intros y Hy. by apply Hf, list_elem_of_further.
Qed.
End large.

(** Keys in ascending order, from the comparison of neighbours. *)
Fixpoint ascending (ks : list bytes) : bool :=
  match ks with
  | k :: (k' :: _) as ks => key_ltb k k' && ascending ks
  | _ => true
  end.

Lemma ascending_sorted ks : ascending ks = true -> StronglySorted key_lt ks.
Proof.
  intros H. apply Sorted_StronglySorted; [intros x y z; apply key_lt_trans|].
  induction ks as [|k ks IH]; [constructor|]. destruct ks as [|k' ks]; [by repeat constructor|].
  cbn [ascending] in H. apply andb_true_iff in H as [H1%key_ltb_lt H2]. constructor; [by apply IH|by constructor].
Qed.

Lemma ascending_sorted_by {A} (f : A -> bytes) l :
  ascending (f <$> l) = true -> StronglySorted (fun x y => key_lt (f x) (f y)) l.
Proof.
  intros H%ascending_sorted. induction l as [|x l IH]; [constructor|]. cbn in H.
  apply StronglySorted_inv in H as [H1 H2]. constructor; [by apply IH|]. by rewrite Forall_fmap in H2.
Qed.

(** ** Numbered keys *)

Lemma as_bytes_app s1 s2 : as_bytes (s1 +:+ s2) = as_bytes s1 ++ as_bytes s2.
Proof.
  induction s1 as [|c s1 IH]; [done|].
  change (Ascii.byte_of_ascii c :: as_bytes (s1 +:+ s2) = Ascii.byte_of_ascii c :: as_bytes s1 ++ as_bytes s2). by rewrite IH.
Qed.

Lemma length_dec fuel n acc : (length (dec fuel n acc) <= fuel + length acc)%nat.
Proof.
  revert n acc. induction fuel as [|fuel IH]; intros n acc; cbn [dec]; [lia|].
  case_match; cbn [length]; [lia|]. etransitivity; [apply IH|]. cbn [length]. lia.
Qed.

Lemma length_fmt p w i : (length (as_bytes (fmt p w i)) <= length (as_bytes p) + w + 20)%nat.
Proof.
  unfold fmt. rewrite as_bytes_app, as_bytes_to_string, !length_app, length_replicate.
  pose proof (length_dec 20 (Z.of_nat i) []). unfold decimal in *. cbn [length] in *. lia.
Qed.

(** Numbered keys are different. *)
Lemma digits_zeros n bs : digits_value 0 (replicate n (digit 0) ++ bs) = digits_value 0 bs.
Proof. induction n as [|n IH]; [done|]. exact IH. Qed.

Lemma fmt_inj p w i j :
  Z.of_nat i <= u64_max -> Z.of_nat j <= u64_max -> as_bytes (fmt p w i) = as_bytes (fmt p w j) -> i = j.
Proof.
  intros Hi Hj. unfold fmt. rewrite !as_bytes_app, !as_bytes_to_string. intros H%app_inv_head.
  apply (f_equal (digits_value 0)) in H. rewrite !digits_zeros, !decimal_value in H by lia. lia.
Qed.

(** Strings of as many digits compare as their values do. *)
Lemma digits_order u v a b :
  length u = length v -> Forall is_digit u -> Forall is_digit v -> digits_value a u < digits_value b v ->
  a < b \/ a = b /\ key_lt u v.
Proof.
  revert v a b. induction u as [|x u IH]; intros [|y v] a b Hlen Hu Hv Hlt; try discriminate Hlen; [by left|].
  apply Forall_cons in Hu as [Hx Hu], Hv as [Hy Hv]. injection Hlen as Hlen. unfold is_digit in Hx, Hy.
  change (digits_value (a * 10 + (b2z x - 48)) u < digits_value (b * 10 + (b2z y - 48)) v) in Hlt.
  destruct (IH v _ _ Hlen Hu Hv Hlt) as [H|[H Hk]].
  - destruct (Z.lt_trichotomy a b) as [?|[->|?]]; [by left|right; split; [done|]|lia].
    unfold key_lt. cbn [bytes_cmp]. by rewrite (proj2 (Z.compare_lt_iff _ _)) by lia.
  - right. split; [lia|]. unfold key_lt. cbn [bytes_cmp]. by rewrite (proj2 (Z.compare_eq_iff (b2z x) (b2z y))) by lia.
Qed.

Lemma key_lt_app p u v : key_lt u v -> key_lt (p ++ u) (p ++ v).
Proof. intros H. induction p as [|x p IH]; [done|]. unfold key_lt. cbn [bytes_cmp app]. by rewrite Z.compare_refl. Qed.

Lemma length_dec_le k fuel n acc :
  0 <= n < 10 ^ Z.of_nat (S k) -> (length (dec fuel n acc) <= S k + length acc)%nat.
Proof.
  revert k n acc. induction fuel as [|fuel IH]; intros k n acc Hn; cbn [dec]; [lia|].
  destruct (Z.ltb_spec n 10); cbn [length]; [lia|].
  destruct k as [|k]; [change (10 ^ Z.of_nat 1) with 10 in Hn; lia|].
  rewrite Nat2Z.inj_succ, Z.pow_succ_r in Hn by lia. etransitivity; [apply (IH k)|cbn [length]; lia].
  split; [apply Z.div_pos; lia|apply Z.div_lt_upper_bound; lia].
Qed.

(** Keys of the same width ascend with their numbers. *)
Lemma fmt_ascends p w i j :
  (i < j)%nat -> Z.of_nat j < 10 ^ Z.of_nat (S w) -> Z.of_nat j <= u64_max ->
  key_lt (as_bytes (fmt p (S w) i)) (as_bytes (fmt p (S w) j)).
Proof.
  intros Hij Hj Hu. unfold fmt. rewrite !as_bytes_app, !as_bytes_to_string. apply key_lt_app.
  assert (forall n, 0 <= Z.of_nat n < 10 ^ Z.of_nat (S w) -> let bs := decimal (Z.of_nat n) in
    length (replicate (S w - length bs) (digit 0) ++ bs) = S w /\ Forall is_digit (replicate (S w - length bs) (digit 0) ++ bs)) as H.
  { intros n Hn bs. pose proof (length_dec_le w 20 (Z.of_nat n) [] Hn) as Hl. change (dec 20 _ []) with bs in Hl.
    rewrite length_app, length_replicate. cbn [length] in Hl. split; [lia|]. apply Forall_app.
    split; [|apply dec_digits; [lia|done]]. apply Forall_replicate. unfold is_digit. rewrite b2z_digit; lia. }
  destruct (H i ltac:(lia)) as [Li Di], (H j ltac:(lia)) as [Lj Dj].
  destruct (digits_order _ _ 0 0 (eq_trans Li (eq_sym Lj)) Di Dj) as [?|[_ Hk]]; [|lia|exact Hk].
  rewrite !digits_zeros, !decimal_value by lia. lia.
Qed.

Lemma sorted_seq {A} (R : A -> A -> Prop) (f : nat -> A) a n :
  (forall i j, (i < j < a + n)%nat -> R (f i) (f j)) -> StronglySorted R (f <$> List.seq a n).
Proof.
  revert a. induction n as [|n IH]; intros a H; [constructor|]. cbn [List.seq]. rewrite fmap_cons. constructor.
  - apply IH. intros i j Hij. apply H. lia.
  - apply Forall_fmap, Forall_forall. intros j Hj%list_elem_of_In%in_seq. apply H. lia.
Qed.
