(* ===== verification/CodecTests.v ===== *)
(** * Unit tests of the codecs, the memtable and the merge, on the model

    The tests of [error.rs], [utils/mod.rs], [wal/mod.rs], [sstable/mod.rs],
    [record.rs], [index.rs], [bloom.rs], [memtable/mod.rs] and
    [compaction/leveled.rs], on the concrete instances of [External].  The test
    that races threads on a memtable is proved for every interleaving.  Left
    out: the two bloom tests that measure the filter itself. *)

From S2P Require Import Prelude Outcome Utils External MemTable Wal.
From S2P Require Import StdVec SstRecord SstIndex Bloom Builder Reader Merge Manifest Names TestKit.

#[local] Existing Instance Toy.crc32.
#[local] Existing Instance Toy.bloom.
#[local] Instance skip_map : SkipMap Entry := Toy.skip_map Entry.

Abbreviation test := (M unit unit).
Abbreviation ok t := (passes tt t).

(** ** [error.rs] *)

Module ErrorTests.

(** [io::Result] converted by [?]. *)
Definition force_io_error : outcome unit := Err (Io UnexpectedEof).

Definition question_mark_converts_io_error_to_lsm_error : test :=
  err ← expect_err (lift force_io_error); assert (is_io err).

(** All but the text of an I/O error with a custom message. *)
Definition display_format_matches_expected_messages : test :=
  _ ← assert_eq (error_to_string (Corruption "checksum mismatch")) "corrupted data: checksum mismatch";
  _ ← assert_eq (error_to_string (KeyTooLarge 1024 64)) "key length 1024 exceeds maximum 64";
  _ ← assert_eq (error_to_string (ValueTooLarge 65536 4096)) "value length 65536 exceeds maximum 4096";
  assert_eq (error_to_string (InvalidOp "delete on read-only engine"))
    "invalid operation: delete on read-only engine".

Definition display_output_is_non_empty_for_all_variants : test :=
  for_each (error_to_string <$>
      [Io OtherIo; Corruption "x"; KeyTooLarge 1 2; ValueTooLarge 1 2; InvalidOp "x"])
    (fun msg => assert (negb (bool_decide (msg = "")))).

Example errors_pass :
  forallb (fun t => ok t)
    [question_mark_converts_io_error_to_lsm_error; display_format_matches_expected_messages;
     display_output_is_non_empty_for_all_variants] = true.
Proof. vm_compute. reflexivity. Qed.
End ErrorTests.

(** ** [utils/mod.rs] *)

Module UtilsTests.

Definition put_read_roundtrip_u16 : test :=
  v ← unwrap (lift (read_u16 (put_u16 [] 0x0102) 0)); assert_eq v 0x0102.

Definition put_read_roundtrip_u32 : test :=
  v ← unwrap (lift (read_u32 (put_u32 [] 0xDEADBEEF) 0)); assert_eq v 0xDEADBEEF.

Definition put_read_roundtrip_u64 : test :=
  v ← unwrap (lift (read_u64 (put_u64 [] 0x0123456789ABCDEF) 0)); assert_eq v 0x0123456789ABCDEF.

Definition little_endian_byte_order : test :=
  _ ← assert_eq (put_u16 [] 0x0102) [x02; x01];
  assert_eq (put_u32 [] 0x01020304) [x04; x03; x02; x01].

Definition reads_at_offset_into_larger_buffer : test :=
  let buf := put_u32 [] 1 in
  let buf := put_u32 buf 2 in
  v ← unwrap (lift (read_u32 buf 4)); assert_eq v 2.

Definition read_out_of_bounds_errors : test :=
  e ← expect_err (lift (read_u16 [] 0)); _ ← assert (is_corruption e);
  e ← expect_err (lift (read_u32 (filled x00 3) 0)); _ ← assert (is_corruption e);
  e ← expect_err (lift (read_u64 (filled x00 7) 0)); _ ← assert (is_corruption e);
  e ← expect_err (lift (read_u16 (filled x00 4) 3)); assert (is_corruption e).

Definition read_exactly_at_end_ok : test :=
  v ← unwrap (lift (read_u16 [x00; x01] 0)); assert_eq v 0x0100.

Definition mixed_width_sequential_layout : test :=
  let buf := put_u16 [] 0xABCD in
  let buf := put_u32 buf 0x11223344 in
  let buf := put_u64 buf 0x0102030405060708 in
  _ ← assert_eq (len buf) (2 + 4 + 8);
  v ← unwrap (lift (read_u16 buf 0)); _ ← assert_eq v 0xABCD;
  v ← unwrap (lift (read_u32 buf 2)); _ ← assert_eq v 0x11223344;
  v ← unwrap (lift (read_u64 buf 6)); assert_eq v 0x0102030405060708.

Definition read_at_offset_equal_to_len_errors : test :=
  e ← expect_err (lift (read_u16 [x00; x01] 2)); assert (is_corruption e).

Example utils_pass :
  forallb (fun t => ok t)
    [put_read_roundtrip_u16; put_read_roundtrip_u32; put_read_roundtrip_u64; little_endian_byte_order;
     reads_at_offset_into_larger_buffer; read_out_of_bounds_errors; read_exactly_at_end_ok;
     mixed_width_sequential_layout; read_at_offset_equal_to_len_errors] = true.
Proof. vm_compute. reflexivity. Qed.
End UtilsTests.

(** ** [wal/mod.rs] *)

Module WalTests.

Definition encode_into (op : WalOp) (key value : bytes) : M unit bytes :=
  unwrap (lift (encode_entry op key value [])).

Definition decoded (bs : bytes) : M unit WalEntry := unwrap (lift (decode_entry bs)).

Definition roundtrip_put_entry : test :=
  bs ← encode_into Put (as_bytes "hello") (as_bytes "world");
  entry ← decoded bs; assert_eq entry (mkWalEntry Put (as_bytes "hello") (as_bytes "world")).

Definition roundtrip_delete_entry : test :=
  bs ← encode_into Delete (as_bytes "gone") [];
  entry ← decoded bs; assert_eq entry (mkWalEntry Delete (as_bytes "gone") []).

Definition roundtrip_empty_key_and_value_put : test :=
  bs ← encode_into Put [] []; entry ← decoded bs; assert_eq entry (mkWalEntry Put [] []).

Definition crc_mismatch_detected : test :=
  bs ← encode_into Put (as_bytes "hello") (as_bytes "world");
  let bs := flip bs (len bs / 2) in
  err ← expect_err (lift (decode_entry bs)); assert (is_corruption err).

Definition invalid_op_byte_rejected : test :=
  bs ← encode_into Put (as_bytes "hello") (as_bytes "world");
  let bs := splice bs 4 [x7f] in
  err ← expect_err (lift (decode_entry bs)); assert (is_invalid_op err).

Definition key_too_large_rejected_on_encode : test :=
  let key := filled x00 (Z.to_nat (Wal.MAX_KEY_LEN + 1)) in
  err ← expect_err (lift (encode_entry Put key (as_bytes "v") []));
  assert (is_key_too_large 65535 err).

Definition max_length_key_roundtrips : test :=
  let key := filled xab (Z.to_nat Wal.MAX_KEY_LEN) in
  bs ← encode_into Put key (as_bytes "v");
  entry ← decoded bs;
  _ ← assert_eq (Wal.key entry) key; assert_eq (Wal.value entry) (as_bytes "v").

Definition delete_with_value_rejected_on_encode : test :=
  err ← expect_err (lift (encode_entry Delete (as_bytes "k") (as_bytes "payload") []));
  assert (is_invalid_op err).

Definition decode_truncated_header_rejected : test :=
  bs ← encode_into Put (as_bytes "k") (as_bytes "v");
  head ← lift (slice bs 0 3);
  err ← expect_err (lift (decode_entry head)); assert (is_corruption err).

Definition decode_truncated_payload_rejected : test :=
  bs ← encode_into Put (as_bytes "k") (as_bytes "v");
  cut ← lift (slice bs 0 (len bs - 2));
  err ← expect_err (lift (decode_entry cut)); assert (is_corruption err).

Definition op_to_from_byte_roundtrip : test :=
  for_each [Put; Delete] (fun op => op' ← unwrap (lift (from_byte (to_byte op))); assert_eq op' op).

Definition encode_appends_and_can_chain : test :=
  buf ← unwrap (lift (encode_entry Put (as_bytes "hello") (as_bytes "world") []));
  buf ← unwrap (lift (encode_entry Delete (as_bytes "gone") [] buf));
  let first_len := 11 + 5 + 5 in
  let second_len := 11 + 4 in
  _ ← assert_eq (len buf) (first_len + second_len);
  first ← decoded buf;
  _ ← assert_eq first (mkWalEntry Put (as_bytes "hello") (as_bytes "world"));
  rest ← lift (slice buf first_len (len buf));
  second ← decoded rest;
  assert_eq second (mkWalEntry Delete (as_bytes "gone") []).

Example wal_pass :
  forallb (fun t => ok t)
    [roundtrip_put_entry; roundtrip_delete_entry; roundtrip_empty_key_and_value_put; crc_mismatch_detected;
     invalid_op_byte_rejected; key_too_large_rejected_on_encode; max_length_key_roundtrips;
     delete_with_value_rejected_on_encode; decode_truncated_header_rejected;
     decode_truncated_payload_rejected; op_to_from_byte_roundtrip; encode_appends_and_can_chain] = true.
Proof. vm_compute. reflexivity. Qed.
End WalTests.

(** ** [sstable/mod.rs] and [sstable/record.rs] *)

Module RecordTests.

Definition magic_bytes : test := assert_eq MAGIC (as_bytes "LSMTREE1").

Definition lookup_value_variants : test :=
  _ ← assert_ne (Present (as_bytes "x")) Deleted;
  _ ← assert_ne Deleted (Present []);
  assert_eq (Present []) (Present []).

Definition put_ok (buf : bytes) (key value : string) (deleted : bool) : M unit bytes :=
  unwrap (lift (put_record buf (as_bytes key) (as_bytes value) deleted)).

Definition read_ok (buf : bytes) (offset : Z) : M unit (record * Z) := unwrap (lift (read_record buf offset)).

Definition record_put_roundtrip : test :=
  buf ← put_ok [] "k" "v" false;
  _ ← assert_eq (len buf) (7 + 1 + 1);
  _ ← assert_eq buf ([x01; x00; x00; x01; x00; x00; x00] ++ as_bytes "k" ++ as_bytes "v");
  '(k, v, deleted, consumed) ← read_ok buf 0;
  _ ← assert_eq k (as_bytes "k"); _ ← assert_eq v (as_bytes "v");
  _ ← assert (negb deleted); assert_eq consumed 9.

Definition record_tombstone_roundtrip : test :=
  buf ← put_ok [] "gone" "" true;
  '(k, v, deleted, consumed) ← read_ok buf 0;
  _ ← assert_eq k (as_bytes "gone"); _ ← assert_eq v []; _ ← assert deleted; assert_eq consumed (7 + 4).

Definition put_empty_value_is_not_tombstone : test :=
  buf ← put_ok [] "k" "" false;
  '(_, v, deleted, _) ← read_ok buf 0;
  _ ← assert (negb deleted); assert_eq v [].

Definition record_flags_upper_bits_ignored : test :=
  let buf := [x01; x00; x05; x00; x00; x00; x00] ++ as_bytes "k" in
  '(_, _, deleted, consumed) ← read_ok buf 0;
  _ ← assert deleted; _ ← assert_eq consumed 8;
  let buf := [x01; x00; x02; x00; x00; x00; x00] ++ as_bytes "k" in
  '(_, _, deleted, _) ← read_ok buf 0;
  assert (negb deleted).

Definition record_len_matches_written : test :=
  for_each [(0, 0); (1, 1); (7, 0); (0, 300); (100, 100); (65535, 0); (300, 4096)]
    (fun '(key_len, value_len) =>
      let key := filled xab (Z.to_nat key_len) in
      let value := filled xcd (Z.to_nat value_len) in
      buf ← unwrap (lift (put_record [] key value (key_len mod 2 =? 0)));
      n ← lift (record_len key_len value_len);
      _ ← assert_eq (len buf) n;
      '(_, _, deleted, consumed) ← read_ok buf 0;
      _ ← assert_eq consumed n;
      assert_eq deleted (key_len mod 2 =? 0)).

Definition read_record_truncated_header_errors : test :=
  e ← expect_err (lift (read_record (filled x00 3) 0)); _ ← assert (is_corruption e);
  buf ← put_ok [] "hello" "world" false;
  e ← expect_err (lift (read_record buf (len buf - 2))); _ ← assert (is_corruption e);
  e ← expect_err (lift (read_record buf (len buf))); assert (is_corruption e).

Definition read_record_truncated_payload_errors : test :=
  buf ← put_ok [] "hello world" "some value" false;
  cut ← lift (slice buf 0 (len buf - 1));
  e ← expect_err (lift (read_record cut 0)); assert (is_corruption e).

Definition key_too_large_rejected : test :=
  e ← expect_err (lift (put_record [] (filled x00 (Z.to_nat 65536)) (as_bytes "v") false));
  assert_eq e (KeyTooLarge 65536 65535).

Definition put_record_appends_and_chains : test :=
  buf ← put_ok [] "first" "one" false;
  buf ← put_ok buf "second" "" true;
  let first_len := 7 + 5 + 3 in
  let second_len := 7 + 6 in
  _ ← assert_eq (len buf) (first_len + second_len);
  '(k, v, deleted, c1) ← read_ok buf 0;
  _ ← assert_eq k (as_bytes "first"); _ ← assert_eq v (as_bytes "one"); _ ← assert (negb deleted);
  _ ← assert_eq c1 first_len;
  '(k, v, deleted, c2) ← read_ok buf c1;
  _ ← assert_eq k (as_bytes "second"); _ ← assert_eq v []; _ ← assert deleted;
  _ ← assert_eq c2 second_len; assert_eq (c1 + c2) (len buf).

Example record_pass :
  forallb (fun t => ok t)
    [magic_bytes; lookup_value_variants; record_put_roundtrip; record_tombstone_roundtrip;
     put_empty_value_is_not_tombstone; record_flags_upper_bits_ignored; record_len_matches_written;
     read_record_truncated_header_errors; read_record_truncated_payload_errors; key_too_large_rejected;
     put_record_appends_and_chains] = true.
Proof. vm_compute. reflexivity. Qed.
End RecordTests.

(** ** [sstable/index.rs] *)

Module IndexTests.

Definition entry (key : string) (offset size : Z) : IndexEntry := mkIndexEntry (as_bytes key) offset size.

Definition three : list IndexEntry := [entry "aaa" 0 100; entry "bbb" 100 200; entry "zzz" 300 50].

Definition encode_parse_roundtrip : test :=
  buf ← unwrap (lift (encode_index [] three));
  _ ← assert_eq (len buf) ((18 + 3) * 3);
  parsed ← unwrap (lift (parse_index buf)); assert_eq parsed three.

Definition encode_parse_empty : test :=
  buf ← unwrap (lift (encode_index [] []));
  _ ← assert_eq buf [];
  parsed ← unwrap (lift (parse_index [])); _ ← assert_eq parsed [];
  parsed ← unwrap (lift (parse_index buf)); assert_eq parsed [].

Definition parse_truncated_mid_entry_errors : test :=
  buf ← unwrap (lift (encode_index [] three));
  let buf := take (length buf - 5) buf in
  err ← expect_err (lift (parse_index buf)); assert (is_corruption err).

Definition parse_trailing_garbage_errors : test :=
  buf ← unwrap (lift (encode_index [] [entry "aaa" 0 100; entry "zzz" 300 50]));
  let buf := buf ++ [xde; xad; xbe] in
  err ← expect_err (lift (parse_index buf)); assert (is_corruption err).

Definition parse_oversized_key_len_errors : test :=
  let bs := [xff; xff] ++ filled x00 20 in
  err ← expect_err (lift (parse_index bs)); assert (is_corruption err).

Definition encode_key_too_large_errors : test :=
  err ← expect_err (lift (encode_index [] [mkIndexEntry (filled x00 (Z.to_nat 65536)) 0 0]));
  assert_eq err (KeyTooLarge 65536 65535).

Definition max_length_key_roundtrip : test :=
  let key := filled x5a (Z.to_nat SstRecord.MAX_KEY_LEN) in
  let entries := [mkIndexEntry key 42 7] in
  buf ← unwrap (lift (encode_index [] entries));
  _ ← assert_eq (len buf) (INDEX_ENTRY_HEADER_LEN + SstRecord.MAX_KEY_LEN);
  parsed ← unwrap (lift (parse_index buf)); assert_eq parsed entries.

Definition locate_rightmost_le : test :=
  let entries := [entry "a" 0 10; entry "d" 10 10; entry "m" 20 10; entry "z" 30 10] in
  for_each [("a", Some 0%nat); ("b", Some 0%nat); ("d", Some 1%nat); ("m", Some 2%nat); ("q", Some 2%nat);
            ("z", Some 3%nat); ("zz", Some 3%nat); (" ", None); ("", None)]
    (fun '(k, at_) => assert_eq (locate_block entries (as_bytes k)) at_).

Definition locate_empty_entries : test := assert_eq (locate_block [] (as_bytes "any")) None.

Example index_pass :
  forallb (fun t => ok t)
    [encode_parse_roundtrip; encode_parse_empty; parse_truncated_mid_entry_errors;
     parse_trailing_garbage_errors; parse_oversized_key_len_errors; encode_key_too_large_errors;
     max_length_key_roundtrip; locate_rightmost_le; locate_empty_entries] = true.
Proof. vm_compute. reflexivity. Qed.

(** The list of the last test has ten thousand entries; its loop is proved from
    the specification of the search. *)
Definition big : list IndexEntry :=
  (fun i => entry (fmt "k" 5 i) (Z.of_nat i * 100) 100) <$> List.seq 0 (Z.to_nat 10000).

Definition binary_search_big_list : test :=
  _ ← for_each [("k00000", Some 0); ("k05000", Some 5000); ("k09999", Some 9999); ("k00001a", Some 1);
                ("k09876a", Some 9876); ("k10000", Some 9999); ("z", Some 9999); ("j", None)]
        (fun '(k, at_) => assert_eq (Z.of_nat <$> locate_block big (as_bytes k)) at_);
  for_each (imap (fun i e => (i, e)) big)
    (fun '(i, e) => assert_eq (locate_block big (first_key e)) (Some i)).

Lemma index_sorted_lookup es j k x y :
  index_sorted es -> es !! j = Some x -> es !! k = Some y -> (j < k)%nat -> key_lt (first_key x) (first_key y).
Proof.
  intros Hs. revert j k. induction Hs as [|z es Hs IH Hz]; intros [|j] [|k] Hx Hy Hjk; try done; try lia.
  - injection Hx as ->. rewrite Forall_lookup in Hz. by apply (Hz k).
  - by apply (IH j k); [..|lia].
Qed.

Lemma locate_own es i e : index_sorted es -> es !! i = Some e -> locate_block es (first_key e) = Some i.
Proof.
  intros Hs He. pose proof (locate_block_correct es (first_key e) Hs) as H.
  destruct (locate_block es (first_key e)) as [n|].
  - destruct H as (e' & He' & H1 & H2). f_equal. destruct (Nat.lt_trichotomy n i) as [Hn|[Hn|Hn]]; [|done|].
    + by destruct (key_lt_irrefl (first_key e)); apply (H2 i e).
    + by destruct H1; apply (index_sorted_lookup es i n).
  - rewrite Forall_lookup in H. by destruct (key_lt_irrefl (first_key e)); apply (H i).
Qed.

Lemma big_sorted : index_sorted big.
Proof.
  apply sorted_seq. intros i j Hij. apply fmt_ascends; [lia|..].
  - change (10 ^ Z.of_nat 5) with 100000. lia.
  - unfold u64_max. lia.
Qed.

Lemma big_lookup n : (n < Z.to_nat 10000)%nat -> exists e, big !! n = Some e /\ first_key e = as_bytes (fmt "k" 5 n).
Proof.
  intros Hn. exists (entry (fmt "k" 5 n) (Z.of_nat n * 100) 100). split; [|reflexivity]. unfold big. rewrite list_lookup_fmap, lookup_seq_lt by exact Hn. reflexivity.
Qed.

(** A key between two neighbours, or above the last entry. *)
Lemma locate_big k n :
  (n < Z.to_nat 10000)%nat -> key_leb (as_bytes (fmt "k" 5 n)) k = true ->
  key_ltb k (as_bytes (fmt "k" 5 (S n))) = true \/ S n = Z.to_nat 10000 -> locate_block big k = Some n.
Proof.
  intros Hn Hge%key_leb_le Hlt. pose proof big_sorted as Hs. pose proof (locate_block_correct big k Hs) as H.
  destruct (big_lookup n Hn) as (e & He & Ek). rewrite <- Ek in Hge.
  destruct (locate_block big k) as [n'|]; [|rewrite Forall_lookup in H; by destruct Hge; apply (H n)].
  destruct H as (e' & He' & H1 & H2). f_equal. pose proof (lookup_lt_Some _ _ _ He') as Hn'.
  unfold big in Hn'. rewrite length_fmap, length_seq in Hn'.
  destruct (Nat.lt_trichotomy n' n) as [?|[?|Hlt']]; [by destruct Hge; apply (H2 n e)|done|].
  destruct Hlt as [Hlt%key_ltb_lt|?]; [|lia]. destruct (big_lookup (S n) ltac:(lia)) as (e1 & He1 & Ek1).
  rewrite <- Ek1 in Hlt. destruct H1. destruct (decide (S n = n')) as [<-|]; [by rewrite He1 in He'; injection He' as <-|].
  eapply key_lt_trans; [exact Hlt|]. apply (index_sorted_lookup big (S n) n'); [done..|lia].
Qed.

Lemma locate_big_none k : key_ltb k (as_bytes (fmt "k" 5 0)) = true -> locate_block big k = None.
Proof.
  intros Hk%key_ltb_lt. pose proof (locate_block_correct big k big_sorted) as H.
  destruct (locate_block big k) as [n|]; [|done]. destruct H as (e & He & H1 & _).
  destruct (big_lookup 0 ltac:(lia)) as (e0 & He0 & Ek). rewrite <- Ek in Hk. destruct H1, n as [|n].
  - by rewrite He in He0; injection He0 as <-.
  - eapply key_lt_trans; [exact Hk|]. by apply (index_sorted_lookup big 0 (S n)); [apply big_sorted|..|lia].
Qed.

Lemma locate_big_at k n :
  0 <= n < 10000 -> key_leb (as_bytes (fmt "k" 5 (Z.to_nat n))) k = true ->
  key_ltb k (as_bytes (fmt "k" 5 (S (Z.to_nat n)))) = true \/ n + 1 = 10000 -> Z.of_nat <$> locate_block big k = Some n.
Proof.
  intros Hn Hge Hlt. rewrite (locate_big k (Z.to_nat n)); [|lia|exact Hge|destruct Hlt; [by left|right; lia]].
  cbn. f_equal. lia.
Qed.

#[local] Opaque big.

Theorem binary_search_big_list_passes : ok binary_search_big_list = true.
Proof.
  refine (passes_step _ _ _ tt tt _ _); [apply checks_ok|refine (passes_run _ _ _ (checks_ok _ _ _ _))].
  - intros [k at_] Hk. apply assert_eq_ok.
    repeat (apply elem_of_cons in Hk as [[= -> ->]|Hk]); [..|by apply not_elem_of_nil in Hk].
    all: first [by rewrite locate_big_none
      |apply locate_big_at; [lia|vm_compute; reflexivity|first [left; vm_compute; reflexivity|by right]]].
  - intros [i e] Hie. apply list_elem_of_lookup in Hie as [j Hj]. rewrite list_lookup_imap in Hj.
    destruct (big !! j) as [e'|] eqn:He; [|done]. injection Hj as -> ->.
    apply assert_eq_ok, locate_own; [exact big_sorted|exact He].
Qed.
End IndexTests.

(** ** [sstable/bloom.rs] *)

Module BloomTests.

Definition keys : list bytes := (fun i => as_bytes (fmt "k" 0 i)) <$> List.seq 0 1000.

Definition inserted (f : bloom_filter) (ks : list bytes) : bloom_filter := foldl (fun f k => bf_insert k f) f ks.

Definition roundtrip_preserves_all_keys : test :=
  let bloom := inserted (new_bloom 1000) keys in
  decoded ← unwrap (lift (decode_bloom (encode_bloom [] bloom)));
  for_each keys (fun k => assert (bf_contains k decoded)).

Definition expected_items_zero_is_valid : test :=
  let buf := encode_bloom [] (new_bloom 0) in
  _ ← assert (4 <=? len buf);
  decoded ← unwrap (lift (decode_bloom buf));
  assert (negb (bf_contains (as_bytes "anything") decoded)).

Definition decode_truncated_errors : test :=
  e ← expect_err (lift (decode_bloom (filled x00 3))); _ ← assert (is_corruption e);
  e ← expect_err (lift (decode_bloom (filled x00 5))); assert (is_corruption e).

Definition decode_zero_words_errors : test :=
  err ← expect_err (lift (decode_bloom (put_u32 [] 7))); assert (is_corruption err).

Definition decode_implausible_num_hashes_errors : test :=
  let bloom := bf_insert (as_bytes "k") (new_bloom 100) in
  let buf := encode_bloom [] bloom in
  let buf := put_u32 buf u32_max in
  err ← expect_err (lift (decode_bloom buf)); assert (is_corruption err).

Definition encode_layout : test :=
  let bloom := new_bloom 100 in
  let buf := encode_bloom [] bloom in
  _ ← assert_eq (len buf) (4 + 8 * len (bf_iter bloom));
  n ← unwrap (lift (read_u32 buf 0)); assert_eq n (bf_num_hashes bloom).

Example bloom_pass :
  forallb (fun t => ok t)
    [roundtrip_preserves_all_keys; expected_items_zero_is_valid; decode_truncated_errors;
     decode_zero_words_errors; decode_implausible_num_hashes_errors; encode_layout] = true.
Proof. vm_compute. reflexivity. Qed.
End BloomTests.

(** ** [memtable/mod.rs] *)

Module MemTests.

Definition puts (k v : string) : M MemTable unit := unwrap (MemTable.put (as_bytes k) (as_bytes v)).
Definition deletes (k : string) : M MemTable unit := unwrap (MemTable.delete (as_bytes k)).
Definition gets_value (k : string) (v : option string) : M MemTable unit :=
  r ← gets (fun t => MemTable.get t (as_bytes k)); assert_eq r (as_bytes <$> v).
Definition entries : M MemTable (list (bytes * Entry)) := gets MemTable.iter.

Definition put_then_get_returns_value : M MemTable unit :=
  _ ← puts "key1" "v1"; gets_value "key1" (Some "v1").

Definition overwrite_same_key_keeps_latest_value : M MemTable unit :=
  _ ← puts "key" "a"; _ ← puts "key" "b"; _ ← gets_value "key" (Some "b");
  n ← gets mem_len; assert_eq n 1.

Definition get_missing_key_returns_none : M MemTable unit := gets_value "absent" None.

Definition delete_existing_key_makes_get_none : M MemTable unit :=
  _ ← puts "key" "v"; _ ← deletes "key"; gets_value "key" None.

Definition delete_missing_key_is_ok_and_get_none : M MemTable unit :=
  _ ← deletes "never-existed"; gets_value "never-existed" None.

Definition put_after_delete_revives_key : M MemTable unit :=
  _ ← puts "key" "v"; _ ← deletes "key"; _ ← puts "key" "v2"; gets_value "key" (Some "v2").

Definition empty_table_is_empty : M MemTable unit :=
  e ← gets MemTable.is_empty; _ ← assert e; n ← gets mem_len; _ ← assert_eq n 0;
  _ ← puts "key" "v"; e ← gets MemTable.is_empty; assert (negb e).

Definition approximate_size_grows_on_put : M MemTable unit :=
  _ ← for_each (List.seq 0 10) (fun i => puts (fmt "key-" 0 i) (fmt "val-" 0 i));
  size ← gets approximate_size;
  _ ← assert (0 <? size); assert (10 * (5 + 5) <=? size).

Definition iter_yields_sorted_entries_including_tombstones : M MemTable unit :=
  _ ← puts "b" "bv"; _ ← puts "a" "av"; _ ← deletes "c";
  l ← entries;
  _ ← assert_eq (l.*1) (as_bytes <$> ["a"; "b"; "c"]);
  e0 ← some (snd <$> l !! 0%nat); e1 ← some (snd <$> l !! 1%nat); e2 ← some (snd <$> l !! 2%nat);
  _ ← assert_eq (MemTable.value e0) (as_bytes "av"); _ ← assert (negb (deleted e0));
  _ ← assert_eq (MemTable.value e1) (as_bytes "bv"); _ ← assert (negb (deleted e1));
  assert (deleted e2).

Definition iter_skips_nothing : M MemTable unit :=
  _ ← puts "k1" "v1"; _ ← puts "k2" "v2"; _ ← deletes "k3";
  l ← entries; n ← gets mem_len; _ ← assert_eq (len l) n; assert_eq (len l) 3.

Definition empty_key_and_value_are_valid : M MemTable unit :=
  _ ← puts "" ""; gets_value "" (Some "").

Definition get_entry_distinguishes_present_tombstone_absent : M MemTable unit :=
  _ ← puts "live" "v"; _ ← puts "gone" "old"; _ ← deletes "gone";
  live ← gets (fun t => get_entry t (as_bytes "live")); live ← some live;
  _ ← assert (negb (deleted live)); _ ← assert_eq (MemTable.value live) (as_bytes "v");
  gone ← gets (fun t => get_entry t (as_bytes "gone")); gone ← some gone;
  _ ← assert (deleted gone);
  absent ← gets (fun t => get_entry t (as_bytes "absent")); assert_eq absent None.

Example memtable_pass :
  forallb (passes MemTable.new)
    [put_then_get_returns_value; overwrite_same_key_keeps_latest_value; get_missing_key_returns_none;
     delete_existing_key_makes_get_none; delete_missing_key_is_ok_and_get_none; put_after_delete_revives_key;
     empty_table_is_empty; approximate_size_grows_on_put; iter_yields_sorted_entries_including_tombstones;
     iter_skips_nothing; empty_key_and_value_are_valid; get_entry_distinguishes_present_tombstone_absent] = true.
Proof. vm_compute. reflexivity. Qed.

(** *** Threads that race on one table

    A [put] is two steps that other threads can come between: the size is
    added, then the entry is inserted.  The test passes for every order of the
    steps of all the puts, those that no scheduler chooses included. *)

Inductive event := Bump (k v : bytes) | Insert (k v : bytes).

Definition take_event (e : event) : M MemTable unit :=
  match e with
  | Bump k v => n ← lift (uadd (len k) (len v)); bump_approximate_size n
  | Insert k v => modify (fun t => mkMemTable (sm_insert k (mkEntry v false) (map t)) (approximate_size t))
  end.

Definition put_events (w : bytes * bytes) : list event := [Bump w.1 w.2; Insert w.1 w.2].

Lemma put_is_events k v t : MemTable.put k v t = for_each (put_events (k, v)) take_event t.
Proof.
  unfold put_events, MemTable.put. cbn [for_each fst snd take_event]. unfold mbind, M_bind, lift.
  destruct (uadd (len k) (len v)); [|done..]. by destruct (bump_approximate_size _ t) as [[] ?].
Qed.

Definition thread_key (thread_id i : nat) : string := fmt (fmt "k-" 0 thread_id +:+ "-") 0 i.

Definition writes : list (bytes * bytes) :=
  thread_id ← List.seq 0 8;
  (fun i => (as_bytes (thread_key thread_id i), as_bytes (fmt "v-" 0 i))) <$> List.seq 0 1000.

Definition concurrent_writes_do_not_corrupt (order : list event) : M MemTable unit :=
  _ ← for_each order (fun e => unwrap (take_event e));
  n ← gets mem_len; _ ← assert_eq n 8000;
  for_each writes (fun '(k, v) => r ← gets (fun t => MemTable.get t k); assert_eq r (Some v)).

(** The last entry inserted under a key. *)
Definition settled (k : bytes) (o : option Entry) (order : list event) : option Entry :=
  foldl (fun o e => match e with
                    | Insert k' v => if decide (k' = k) then Some (mkEntry v false) else o
                    | Bump _ _ => o
                    end) o order.

Definition event_fits (e : event) : Prop :=
  match e with Bump k v => len k + len v + ENTRY_OVERHEAD <= usize_max | Insert _ _ => True end.

Lemma events_ok order t :
  Forall event_fits order ->
  exists t', for_each order (fun e => unwrap (take_event e)) t = (Ok tt, t') /\
    forall k, get_entry t' k = settled k (get_entry t k) order.
Proof.
  intros H. revert t. induction H as [|e order He _ IH]; intros t; [by exists t|]. cbn [for_each].
  assert (exists t1, take_event e t = (Ok tt, t1) /\ forall k, get_entry t1 k = settled k (get_entry t k) [e]) as (t1 & Hrun & H1).
  { destruct e as [k v|k v]; cbn [take_event event_fits] in *.
    - pose proof (len_nonneg k). pose proof (len_nonneg v). unfold bump_approximate_size, lift, modify, mbind, M_bind.
      unfold ENTRY_OVERHEAD in *. rewrite uadd_ok by lia. rewrite uadd_ok by lia. by eexists.
    - eexists. split; [done|]. intros k'. apply sm_get_insert. }
  rewrite (M_bind_ok _ _ _ _ _ (unwrap_ok _ _ _ _ Hrun)). destruct (IH t1) as (t' & Hrun' & H'). exists t'.
  split; [exact Hrun'|]. intros k. by rewrite H', H1.
Qed.

Lemma settled_in k v o order :
  Insert k v ∈ order -> (forall v', Insert k v' ∈ order -> v' = v) -> settled k o order = Some (mkEntry v false).
Proof.
  unfold settled. induction order as [|e order IH] using rev_ind; [by intros ?%not_elem_of_nil|].
  intros Hin Huni. rewrite foldl_app. cbn [foldl]. destruct e as [k' v'|k' v'].
  - apply IH; [|by intros v1 Hv1; apply Huni, elem_of_app; left]. by apply elem_of_app in Hin as [Hin|[=]%list_elem_of_singleton].
  - destruct (decide (k' = k)) as [->|Hne].
    + f_equal. f_equal. apply Huni, elem_of_app. right. by apply list_elem_of_singleton.
    + apply IH; [|by intros v1 Hv1; apply Huni, elem_of_app; left].
      apply elem_of_app in Hin as [Hin|[= <- _]%list_elem_of_singleton]; done.
Qed.

Lemma settled_out k o order : (forall v, Insert k v ∉ order) -> settled k o order = o.
Proof.
  intros H. unfold settled. induction order as [|e order IH] using rev_ind; [done|].
  rewrite foldl_app. cbn [foldl]. rewrite IH by (intros v Hv; apply (H v), elem_of_app; by left).
  destruct e as [k' v'|k' v']; [done|]. destruct (decide (k' = k)) as [->|]; [|done].
  destruct (H v'). apply elem_of_app. right. by apply list_elem_of_singleton.
Qed.

Lemma sorted_distinct ks : StronglySorted key_lt ks -> NoDup ks.
Proof.
  intros H. induction H as [|k l _ IH Hk]; constructor; [|exact IH].
  intros Hin. rewrite Forall_forall in Hk. by destruct (key_lt_irrefl k); apply Hk.
Qed.

(** The thread shows in the third byte of a key. *)
Lemma thread_of_key t t' i i' :
  (t < 8)%nat -> (t' < 8)%nat -> as_bytes (thread_key t i) = as_bytes (thread_key t' i') -> t = t'.
Proof.
  assert (forall t i, (t < 8)%nat -> as_bytes (thread_key t i) !! 2%nat = Some (digit (Z.of_nat t))) as H.
  { intros u j Hu. unfold thread_key, fmt at 1. rewrite as_bytes_app. do 8 (destruct u as [|u]; [reflexivity|]). lia. }
  intros Ht Ht' He. pose proof (H t i Ht) as H1. rewrite He, (H t' i' Ht') in H1. injection H1 as H1.
  apply (f_equal b2z) in H1. rewrite !b2z_digit in H1 by lia. lia.
Qed.

Lemma writes_keys : writes.*1 = t ← List.seq 0 8; (fun i => as_bytes (thread_key t i)) <$> List.seq 0 1000.
Proof.
  unfold writes. induction (List.seq 0 8) as [|t l IH]; [done|]. by rewrite !bind_cons, fmap_app, IH, <- list_fmap_compose.
Qed.

Lemma writes_distinct : NoDup writes.*1.
Proof.
  rewrite writes_keys. apply NoDup_bind; [|intros t Ht|apply NoDup_seq].
  - intros t t' k Ht%list_elem_of_In%in_seq Ht'%list_elem_of_In%in_seq (i & -> & _)%list_elem_of_fmap (i' & He & _)%list_elem_of_fmap.
    apply (thread_of_key t t' i i'); [lia|lia|done].
  - apply (NoDup_fmap_2_strong _); [|apply NoDup_seq].
    intros i j Hi%list_elem_of_In%in_seq Hj%list_elem_of_In%in_seq H. unfold thread_key in H.
    by apply fmt_inj in H; [|unfold u64_max; lia..].
Qed.

Lemma writes_functional k v v' : (k, v) ∈ writes -> (k, v') ∈ writes -> v' = v.
Proof.
  generalize writes writes_distinct. intros l Hl. induction l as [|[k1 v1] l IH]; [by intros ?%not_elem_of_nil|].
  apply NoDup_cons in Hl as [Hk Hl].
  assert (forall w, (k1, w) ∉ l) as Hno by (intros w Hw; apply Hk, list_elem_of_fmap; by exists (k1, w)).
  intros [[= -> ->]|H1]%elem_of_cons [[= H]|H2]%elem_of_cons; subst; try done; [by destruct (Hno v')|by destruct (Hno v)|by apply IH].
Qed.

Lemma insert_event order k v : order ≡ₚ writes ≫= put_events -> Insert k v ∈ order <-> (k, v) ∈ writes.
Proof.
  intros ->. rewrite list_elem_of_bind. split.
  - intros ([k' v'] & [[=]|[[= -> ->]|[]%elem_of_nil]%elem_of_cons]%elem_of_cons & Hw). done.
  - intros Hw. exists (k, v). split; [|done]. apply list_elem_of_further, list_elem_of_here.
Qed.

(** The table after the events in any order. *)
Lemma events_table order t :
  order ≡ₚ writes ≫= put_events -> (forall k, get_entry t k = settled k None order) ->
  (forall k v, (k, v) ∈ writes -> get_entry t k = Some (mkEntry v false)) /\ mem_len t = len writes.
Proof.
  intros Ho Hget. assert (forall k v, (k, v) ∈ writes -> get_entry t k = Some (mkEntry v false)) as Hw.
  { intros k v Hkv. rewrite Hget. apply settled_in; [by apply insert_event|].
    intros v' Hv'%(insert_event _ _ _ Ho). by eapply writes_functional. }
  split; [exact Hw|]. rewrite mem_len_iter. unfold len. f_equal.
  rewrite <- (length_fmap fst writes), <- (length_fmap fst (iter t)). apply Permutation_length, NoDup_Permutation.
  - apply sorted_distinct, iter_sorted.
  - exact writes_distinct.
  - intros k. destruct (decide (k ∈ writes.*1)) as [Hin|Hout].
    + split; [done|intros _]. apply list_elem_of_fmap in Hin as ([k1 v] & -> & Hv). cbn [fst].
      destruct (decide (k1 ∈ (iter t).*1)) as [|H%assoc_None]; [done|]. by rewrite iter_get_entry, (Hw k1 v Hv) in H.
    + split; [|done]. intros Hin. exfalso. revert Hin. apply assoc_None. rewrite iter_get_entry, Hget.
      apply settled_out. intros v Hv%(insert_event _ _ _ Ho). apply Hout, list_elem_of_fmap. by exists (k, v).
Qed.

Lemma writes_fit : Forall (fun w => len w.1 + len w.2 + ENTRY_OVERHEAD <= usize_max) writes.
Proof.
  apply Forall_forall. intros w (t & (i & -> & _)%list_elem_of_fmap & _)%list_elem_of_bind. cbn [fst snd].
  pose proof (length_fmt (fmt "k-" 0 t +:+ "-") 0 i) as H1. pose proof (length_fmt "k-" 0 t) as H2.
  pose proof (length_fmt "v-" 0 i) as H3. rewrite as_bytes_app, length_app in H1.
  change (length (as_bytes "k-")) with 2%nat in H2. change (length (as_bytes "v-")) with 2%nat in H3.
  change (length (as_bytes "-")) with 1%nat in H1.
  unfold len, ENTRY_OVERHEAD, thread_key. transitivity 1000; [lia|vm_compute; discriminate].
Qed.

Theorem concurrent_writes_do_not_corrupt_passes order :
  order ≡ₚ writes ≫= put_events -> passes MemTable.new (concurrent_writes_do_not_corrupt order) = true.
Proof.
  intros Ho. destruct (events_ok order MemTable.new) as (t & Hrun & Hget).
  { rewrite Ho. apply Forall_forall. intros e (w & He & Hw)%list_elem_of_bind.
    pose proof (proj1 (Forall_forall _ _) writes_fit w Hw) as Hfit.
    by apply elem_of_cons in He as [->|[->|[]%not_elem_of_nil]%elem_of_cons]. }
  destruct (events_table order t Ho Hget) as [Hw Hlen].
  refine (passes_step _ _ _ _ _ Hrun _). refine (passes_step _ _ _ _ _ (eq_refl : gets mem_len t = (Ok _, t)) _).
  assert (mem_len t = 8000) as H8 by (rewrite Hlen; vm_compute; reflexivity).
  refine (passes_step _ _ _ _ _ (assert_eq_ok _ _ t H8) _). refine (passes_run _ _ _ (checks_ok _ _ _ _)).
  intros [k v] Hkv. rewrite (M_bind_ok _ _ t _ t (eq_refl : gets _ t = (Ok _, t))).
  apply assert_eq_ok. by rewrite get_entry_get, (Hw k v Hkv).
Qed.
End MemTests.

(** ** [compaction/leveled.rs] *)

Module MergeTests.

Definition run (seq : Z) (pairs : list (string * option string)) : Run :=
  mkRun seq ((fun '(k, v) => match v with
                             | Some v => (as_bytes k, as_bytes v, false)
                             | None => (as_bytes k, [], true)
                             end) <$> pairs).

Definition put (k v : string) : record := (as_bytes k, as_bytes v, false).

Definition key (i : nat) : bytes := as_bytes (fmt "k" 2 i).

Definition key_val (i : nat) (seq : Z) : bytes := as_bytes (fmt (fmt "v" 0 (Z.to_nat seq) +:+ "-") 2 i).

(** [assert_eq!(merge_runs(&runs).unwrap(), out)] *)
Definition merges (runs : list Run) (out : list record) : test :=
  rs ← unwrap (lift (merge_runs runs)); assert_eq rs out.

Definition single_run_passthru : test :=
  merges [run 1 [("a", Some "1"); ("b", Some "2")]] [put "a" "1"; put "b" "2"].

Definition single_run_tombstone_dropped : test :=
  merges [run 1 [("a", Some "1"); ("b", None)]] [put "a" "1"].

Definition overlap_newest_wins : test :=
  merges [run 1 [("a", Some "old"); ("b", Some "old")]; run 2 [("a", Some "new")]]
    [put "a" "new"; put "b" "old"].

Definition three_runs_newest_seq_wins : test :=
  merges [run 1 [("k", Some "v1")]; run 5 [("k", Some "v5")]; run 3 [("k", Some "v3")]] [put "k" "v5"].

Definition old_tombstone_beaten_by_newer_value : test :=
  merges [run 1 [("k", None)]; run 2 [("k", Some "v2")]] [put "k" "v2"].

Definition newest_tombstone_drops_key : test :=
  merges [run 1 [("k", Some "v1")]; run 2 [("k", None)]] [].

(** The range [a..b] of keys, written at [seq]. *)
Definition range_run (seq : Z) (a b : nat) : Run :=
  mkRun seq ((fun i => (key i, key_val i seq, false)) <$> List.seq a (b - a)).

(** The oracle of the test: a map, filled in ascending order of [seq]. *)
Definition expected (runs : list Run) : list record :=
  (fun e => (e.1, e.2, false)) <$>
    foldl (fun m r => foldl (fun m x => Toy.insert_sorted (rkey x) (rvalue x) m) m (Merge.records r))
      [] (sort_by_key Merge.seq runs).

Definition ascending_and_unique : test :=
  let runs := [range_run 1 0 50; range_run 2 25 50; range_run 3 0 40; range_run 4 10 50] in
  out ← unwrap (lift (merge_runs runs));
  _ ← for_each runs (fun r => for_each (Merge.records r) (fun x => assert (negb (rdeleted x))));
  _ ← assert_eq out (expected runs);
  for_each (zip out (tail out)) (fun '(x, y) => assert (key_ltb (rkey x) (rkey y))).

Definition empty_value_put_is_not_tombstone : test :=
  merges [run 1 [("k", None)]; run 2 [("k", Some "")]] [put "k" ""].

Definition empty_runs_and_empty_input : test :=
  _ ← merges [] []; _ ← merges [mkRun 1 []] [];
  merges [mkRun 3 []; run 2 [("a", Some "1")]; run 4 [("b", Some "2")]] [put "a" "1"; put "b" "2"].

Definition mixed_keys_and_runs : test :=
  merges
    [run 1 [("a", Some "1"); ("c", Some "3"); ("e", Some "5"); ("g", Some "7")];
     run 2 [("b", Some "2"); ("c", Some "C"); ("d", Some "4"); ("f", Some "6"); ("g", Some "G")]]
    [put "a" "1"; put "b" "2"; put "c" "C"; put "d" "4"; put "e" "5"; put "f" "6"; put "g" "G"].

Definition empty_key_is_valid_and_orders_first : test :=
  merges [run 1 [("", Some "first"); ("a", Some "1")]; run 2 [("", Some "newer"); ("b", Some "2")]]
    [put "" "newer"; put "a" "1"; put "b" "2"].

Definition byte_prefix_keys_merge_correctly : test :=
  merges [run 1 [("a", Some "1"); ("aa", Some "2"); ("ab", Some "3")]; run 2 [("a", Some "X"); ("aaa", Some "4")]]
    [put "a" "X"; put "aa" "2"; put "aaa" "4"; put "ab" "3"].

Example merge_pass :
  forallb (fun t => ok t)
    [single_run_passthru; single_run_tombstone_dropped; overlap_newest_wins; three_runs_newest_seq_wins;
     old_tombstone_beaten_by_newer_value; newest_tombstone_drops_key; ascending_and_unique;
     empty_value_put_is_not_tombstone; empty_runs_and_empty_input; mixed_keys_and_runs;
     empty_key_is_valid_and_orders_first; byte_prefix_keys_merge_correctly] = true.
Proof. vm_compute. reflexivity. Qed.
End MergeTests.
