(* ===== verification/LogTests.v ===== *)
(** * Unit tests of the logs and the manifest, on the model

    The tests of [wal/writer.rs], [wal/reader.rs] and [manifest.rs], each on a
    fresh directory. *)

From S2P Require Import Prelude Outcome Utils External Fs MemTable Wal WalWriter WalReader.
From S2P Require Import StdVec Manifest Names TestKit.

#[local] Existing Instance Toy.crc32.
#[local] Existing Instance Toy.allocator.
#[local] Instance skip_map : SkipMap Entry := Toy.skip_map Entry.

Abbreviation test := (M Fs unit).
Abbreviation ok t := (passes empty_fs t).

(** [std::fs::write(path, bytes)] *)
Definition write_file (path : string) (d : bytes) : test :=
  f ← unwrap (file_create path); unwrap (file_write f d).

(** A writer created by the test, used by [body] and dropped. *)
Definition with_writer (path : string) (body : M (Fs * WalWriter) unit) : test :=
  w ← unwrap (wal_create path); scoped w body wal_drop.

Definition appends (op : WalOp) (key value : string) : M (Fs * WalWriter) unit :=
  unwrap (append op (as_bytes key) (as_bytes value)).

Definition ent (op : WalOp) (key value : string) : WalEntry := mkWalEntry op (as_bytes key) (as_bytes value).

(** ** [wal/writer.rs] *)

Module WriterTests.

Definition test_writer_path : string := "test.wal".

Definition encoded_len (key value : bytes) : Z := HEADER_LEN + len key + len value.

(** The walk of [expect_entries]; every turn consumes a header. *)
Fixpoint decode_walk (fuel : nat) (bs : bytes) (offset : Z) (decoded : list WalEntry) : M Fs (Z * list WalEntry) :=
  match fuel with
  | O => panic
  | S fuel =>
      if offset <? len bs then
        rest ← lift (slice bs offset (len bs));
        entry ← unwrap (lift (decode_entry rest));
        decode_walk fuel bs (offset + encoded_len (Wal.key entry) (Wal.value entry)) (decoded ++ [entry])
      else mret (offset, decoded)
  end.

Definition expect_entries (bs : bytes) (expected : list WalEntry) : test :=
  '(offset, decoded) ← decode_walk (S (length bs)) bs 0 [];
  _ ← assert_eq offset (len bs); assert_eq decoded expected.

Definition create_makes_file : test :=
  w ← unwrap (wal_create test_writer_path);
  b ← fs_exists test_writer_path; _ ← assert b; assert_eq (writer_path w) test_writer_path.

Definition append_put_and_read_back_raw_bytes : test :=
  _ ← with_writer test_writer_path (_ ← appends Put "hello" "world"; unwrap sync);
  bs ← unwrap (fs_read test_writer_path);
  _ ← assert_eq (len bs) (encoded_len (as_bytes "hello") (as_bytes "world"));
  _ ← assert_eq (len bs) (11 + 5 + 5);
  expected ← unwrap (lift (encode_entry Put (as_bytes "hello") (as_bytes "world") []));
  assert_eq bs expected.

Definition append_multiple_entries_frame : test :=
  _ ← with_writer test_writer_path
        (_ ← appends Put "a" "b"; _ ← appends Delete "c" ""; _ ← appends Put "" "";
         _ ← appends Put "kk" "vvv"; unwrap sync);
  bs ← unwrap (fs_read test_writer_path);
  _ ← assert (negb (bool_decide (bs = [])));
  let expected := [ent Put "a" "b"; ent Delete "c" ""; ent Put "" ""; ent Put "kk" "vvv"] in
  _ ← assert_eq (len bs)
        (encoded_len (as_bytes "a") (as_bytes "b") + encoded_len (as_bytes "c") [] + encoded_len [] [] +
         encoded_len (as_bytes "kk") (as_bytes "vvv"));
  expect_entries bs expected.

Definition append_oversized_key_errors_and_file_empty : test :=
  let key := filled x00 (Z.to_nat 65536) in
  _ ← with_writer test_writer_path
        (err ← expect_err (append Put key (as_bytes "v")); assert (is_key_too_large 65535 err));
  bs ← unwrap (fs_read test_writer_path); assert_eq (len bs) 0.

Definition append_delete_with_value_errors : test :=
  with_writer test_writer_path
    (err ← expect_err (append Delete (as_bytes "k") (as_bytes "payload")); assert (is_invalid_op err)).

Definition sync_then_read_back : test :=
  let expected := (fun i => ent Put (fmt "key" 0 i) (fmt "value" 0 i)) <$> List.seq 0 5 in
  _ ← with_writer test_writer_path
        (_ ← for_each expected (fun e => unwrap (append (Wal.op e) (Wal.key e) (Wal.value e))); unwrap sync);
  bs ← unwrap (fs_read test_writer_path);
  _ ← assert_eq (len bs) (foldr (fun e n => encoded_len (Wal.key e) (Wal.value e) + n) 0 expected);
  expect_entries bs expected.

Definition append_after_sync_continues : test :=
  _ ← with_writer test_writer_path
        (_ ← appends Put "a" "1"; _ ← unwrap sync; _ ← appends Put "b" "2"; unwrap sync);
  bs ← unwrap (fs_read test_writer_path);
  _ ← assert_eq (len bs) (encoded_len (as_bytes "a") (as_bytes "1") + encoded_len (as_bytes "b") (as_bytes "2"));
  expect_entries bs [ent Put "a" "1"; ent Put "b" "2"].

Example log_writer_pass :
  forallb (fun t => ok t)
    [create_makes_file; append_put_and_read_back_raw_bytes; append_multiple_entries_frame;
     append_oversized_key_errors_and_file_empty; append_delete_with_value_errors; sync_then_read_back;
     append_after_sync_continues] = true.
Proof. vm_compute. reflexivity. Qed.
End WriterTests.

(** ** [wal/reader.rs] *)

Module ReaderTests.

Definition write_entries (path : string) (entries : list WalEntry) : test :=
  with_writer path
    (_ ← for_each entries (fun e => unwrap (append (Wal.op e) (Wal.key e) (Wal.value e))); unwrap sync).

Definition encode_frame (op : WalOp) (key value : bytes) : M Fs bytes :=
  unwrap (lift (encode_entry op key value [])).

(** The file opened in append mode. *)
Definition append_raw_tail (path : string) (tail : bytes) : test :=
  f ← unwrap (file_open path); _ ← unwrap (file_write f tail); unwrap (file_sync f).

Definition open_missing_file_errors : test :=
  err ← expect_err (wal_open "missing.wal"); assert (is_io err).

Definition read_all_empty_file : test :=
  _ ← unwrap (file_create "empty.wal");
  reader ← unwrap (wal_open "empty.wal");
  entries ← unwrap (read_all reader); assert_eq entries [].

Definition roundtrip_put_and_delete_entries : test :=
  let entries := [ent Put "a" "v1"; ent Delete "b" ""; ent Put "c" "v3"] in
  _ ← write_entries "roundtrip.wal" entries;
  reader ← unwrap (wal_open "roundtrip.wal");
  read ← unwrap (read_all reader); assert_eq read entries.

Definition read_all_stops_at_partial_trailing_header : test :=
  _ ← write_entries "tail-header.wal" [ent Put "a" "1"; ent Put "b" "2"];
  frame ← encode_frame Put (as_bytes "k") (as_bytes "v");
  head ← lift (slice frame 0 HEADER_LEN);
  _ ← append_raw_tail "tail-header.wal" head;
  reader ← unwrap (wal_open "tail-header.wal");
  entries ← unwrap (read_all reader);
  _ ← assert_eq (length entries) 2%nat;
  _ ← assert_eq (Wal.key <$> entries !! 0%nat) (Some (as_bytes "a"));
  assert_eq (Wal.key <$> entries !! 1%nat) (Some (as_bytes "b")).

Definition read_all_stops_at_partial_trailing_payload : test :=
  _ ← write_entries "tail-payload.wal" [ent Put "a" "1"];
  frame ← encode_frame Put (filled xab 100) [];
  head ← lift (slice frame 0 (HEADER_LEN + 5));
  _ ← append_raw_tail "tail-payload.wal" head;
  reader ← unwrap (wal_open "tail-payload.wal");
  entries ← unwrap (read_all reader);
  _ ← assert_eq (length entries) 1%nat;
  assert_eq (Wal.key <$> entries !! 0%nat) (Some (as_bytes "a")).

(** Flips a byte of the key of the second entry of a log, after a first one of
    [n] payload bytes. *)
Definition corrupt_second (path : string) (n : Z) : test :=
  bs ← unwrap (fs_read path);
  let first_len := HEADER_LEN + n in
  let flip_at := first_len + HEADER_LEN + 1 in
  write_file path (flip bs flip_at).

Definition read_all_errors_on_mid_file_corruption : test :=
  _ ← write_entries "corrupt.wal" [ent Put "key0" "val0"; ent Put "key1" "val1"; ent Put "key2" "val2"];
  _ ← corrupt_second "corrupt.wal" (4 + 4);
  reader ← unwrap (wal_open "corrupt.wal");
  err ← expect_err (read_all reader); assert (is_corruption err).

Definition read_all_errors_on_corrupt_final_entry : test :=
  _ ← write_entries "corrupt-final.wal" [ent Put "key0" "val0"; ent Put "key1" "val1"];
  _ ← corrupt_second "corrupt-final.wal" (4 + 4);
  reader ← unwrap (wal_open "corrupt-final.wal");
  err ← expect_err (read_all reader); assert (is_corruption err).

Definition read_all_is_repeatable : test :=
  _ ← write_entries "repeat.wal" [ent Put "a" "1"; ent Delete "b" ""; ent Put "c" "3"];
  reader ← unwrap (wal_open "repeat.wal");
  first ← unwrap (read_all reader); second ← unwrap (read_all reader);
  _ ← assert_eq first second; assert_eq (length first) 3%nat.

(** A replay into a fresh memtable, given to [check] with the count. *)
Definition replays (path : string) (check : Z -> MemTable -> test) : test :=
  reader ← unwrap (wal_open path);
  '(count, t) ← moved MemTable.new (unwrap (replay_into reader)) (mret tt);
  check count t.

Definition replay_puts_and_deletes_into_memtable : test :=
  _ ← write_entries "replay.wal" [ent Put "k1" "v1"; ent Put "k2" "v2"; ent Delete "k1" ""];
  replays "replay.wal" (fun count t =>
    _ ← assert_eq count 3; _ ← assert_eq (MemTable.get t (as_bytes "k1")) None;
    assert_eq (MemTable.get t (as_bytes "k2")) (Some (as_bytes "v2"))).

Definition replay_partial_tail_applies_complete_entries : test :=
  _ ← write_entries "replay-tail.wal" [ent Put "k1" "v1"; ent Put "k2" "v2"];
  frame ← encode_frame Put (as_bytes "k") (as_bytes "v");
  head ← lift (slice frame 0 HEADER_LEN);
  _ ← append_raw_tail "replay-tail.wal" head;
  replays "replay-tail.wal" (fun count t =>
    _ ← assert_eq count 2; _ ← assert_eq (MemTable.get t (as_bytes "k1")) (Some (as_bytes "v1"));
    assert_eq (MemTable.get t (as_bytes "k2")) (Some (as_bytes "v2"))).

Definition replay_mid_file_corruption_errors_and_does_not_apply : test :=
  _ ← write_entries "replay-corrupt.wal" [ent Put "k0" "v0"; ent Put "k1" "v1"; ent Put "k2" "v2"];
  _ ← corrupt_second "replay-corrupt.wal" (2 + 2);
  reader ← unwrap (wal_open "replay-corrupt.wal");
  scoped MemTable.new (err ← expect_err (replay_into reader); assert (is_corruption err)) (mret tt).

Example log_reader_pass :
  forallb (fun t => ok t)
    [open_missing_file_errors; read_all_empty_file; roundtrip_put_and_delete_entries;
     read_all_stops_at_partial_trailing_header; read_all_stops_at_partial_trailing_payload;
     read_all_errors_on_mid_file_corruption; read_all_errors_on_corrupt_final_entry; read_all_is_repeatable;
     replay_puts_and_deletes_into_memtable; replay_partial_tail_applies_complete_entries;
     replay_mid_file_corruption_errors_and_does_not_apply] = true.
Proof. vm_compute. reflexivity. Qed.
End ReaderTests.

(** ** [manifest.rs] *)

Module ManifestTests.

Definition sst (level seq : Z) (name min max : string) : SstMeta :=
  mkSstMeta level seq name (as_bytes min) (as_bytes max).

(** [Manifest::default()] and a sequence of [add]s. *)
Definition added (metas : list SstMeta) : M Fs Manifest :=
  lift (foldl (fun m x => m ≫= Manifest.add x) (Ok default_manifest) metas).

Definition sample_manifest : M Fs Manifest :=
  added [sst 0 1 "L0_000001.sst" "a" "m"; sst 0 2 "L0_000002.sst" "n" "z"; sst 1 5 "L1_000001.sst" "a" "z"].

Definition encode_decode_roundtrip : test :=
  manifest ← sample_manifest;
  bs ← lift (encode manifest); decoded ← unwrap (lift (decode bs)); assert_eq decoded manifest.

Definition empty_manifest_is_magic_only : test :=
  bs ← lift (encode default_manifest); _ ← assert_eq bs MAGIC_MANIFEST;
  decoded ← unwrap (lift (decode bs)); assert_eq decoded default_manifest.

Definition decode_bad_magic_errors : test :=
  err ← expect_err (lift (decode (as_bytes "notamanifest"))); assert (is_corruption err).

Definition decode_truncated_record_errors : test :=
  manifest ← sample_manifest; bs ← lift (encode manifest);
  truncated ← lift (slice bs 0 (len bs - 3));
  err ← expect_err (lift (decode truncated)); assert (is_corruption err).

Definition decode_garbage_tail_errors : test :=
  manifest ← sample_manifest; bs ← lift (encode manifest);
  err ← expect_err (lift (decode (bs ++ [xaa; xbb; xcc]))); assert (is_corruption err).

Definition decode_rejects_out_of_order_seq : test :=
  manifest ← added [sst 0 1 "a.sst" "k" "k"; sst 0 1 "b.sst" "k" "k"];
  bs ← lift (encode manifest);
  err ← expect_err (lift (decode bs)); assert (is_corruption err).

Definition seqs (m : Manifest) : list Z := Manifest.seq <$> ssts_at m 0.

Definition add_keeps_seq_sorted : test :=
  manifest ← added [sst 0 3 "c.sst" "k" "k"; sst 0 1 "a.sst" "k" "k"; sst 0 2 "b.sst" "k" "k"];
  assert_eq (seqs manifest) [1; 2; 3].

Definition remove_works : test :=
  manifest ← added [sst 0 1 "a.sst" "k" "k"; sst 0 2 "b.sst" "k" "k"];
  let '(manifest, removed) := Manifest.remove 0 1 manifest in
  _ ← assert removed; _ ← assert_eq (seqs manifest) [2];
  let '(manifest, removed) := Manifest.remove 0 99 manifest in
  _ ← assert (negb removed);
  let '(manifest, removed) := Manifest.remove 7 1 manifest in
  assert (negb removed).

Definition ssts_at_absent_level : test := assert_eq (ssts_at default_manifest 5) [].

Definition write_load_roundtrip : test :=
  manifest ← sample_manifest;
  _ ← unwrap (write_atomic manifest);
  b ← fs_exists MANIFEST_FILE_NAME; _ ← assert b;
  b ← fs_exists MANIFEST_TMP_FILE_NAME; _ ← assert (negb b);
  loaded ← unwrap load; assert_eq loaded manifest.

Definition load_missing_file_returns_empty : test :=
  loaded ← unwrap load; assert_eq loaded default_manifest.

Definition load_corrupt_file_errors : test :=
  _ ← write_file MANIFEST_FILE_NAME (as_bytes "this is not a manifest");
  err ← expect_err load; assert (is_corruption err).

Definition add_extends_levels : test :=
  manifest ← added [sst 3 9 "deep.sst" "a" "z"];
  _ ← assert_eq (length (ssts_at manifest 3)) 1%nat; _ ← assert_eq (ssts_at manifest 0) [];
  _ ← assert_eq (ssts_at manifest 1) []; assert_eq (ssts_at manifest 2) [].

Example manifest_pass :
  forallb (fun t => ok t)
    [encode_decode_roundtrip; empty_manifest_is_magic_only; decode_bad_magic_errors;
     decode_truncated_record_errors; decode_garbage_tail_errors; decode_rejects_out_of_order_seq;
     add_keeps_seq_sorted; remove_works; ssts_at_absent_level; write_load_roundtrip;
     load_missing_file_returns_empty; load_corrupt_file_errors; add_extends_levels] = true.
Proof. vm_compute. reflexivity. Qed.
End ManifestTests.
