(* ===== verification/TableTests.v ===== *)
(** * Unit tests of the table builder and the table reader, on the model

    The tests of [sstable/builder.rs] and [sstable/reader.rs], each on a fresh
    directory.  The two tests that read a table of 500 records back are proved
    from the round trip of tables. *)

From S2P Require Import Prelude Outcome Utils External Fs.
From S2P Require Import StdVec SstRecord SstIndex Bloom Builder Reader Manifest Names TestKit.

#[local] Existing Instance Toy.bloom.

Abbreviation test := (M Fs unit).
Abbreviation ok t := (passes empty_fs t).

(** A builder of the test, filled by [body]. *)
Definition fills (b : SsTableBuilder) (body : M SsTableBuilder unit) : M Fs SsTableBuilder :=
  '(_, b) ← moved b (zoom snd (fun b s => (s.1, b)) body) (mret tt); mret b.

Definition adds (k v : string) (deleted : bool) : M SsTableBuilder unit :=
  unwrap (Builder.add (as_bytes k) (as_bytes v) deleted).

(** [builder.add(..).expect_err(..)] *)
Definition refuses (k v : string) : M SsTableBuilder LsmError :=
  expect_err (Builder.add (as_bytes k) (as_bytes v) false).

Definition write_file (path : string) (d : bytes) : test :=
  f ← unwrap (file_create path); unwrap (file_write f d).

(** [&bytes[a..b]] *)
Definition sub (bs : bytes) (a b : Z) : M Fs bytes := lift (slice bs a b).

(** ** [sstable/builder.rs] *)

Module BuilderTests.

Definition read_footer (bs : bytes) : M Fs (Z * Z) :=
  _ ← assert (FOOTER_LEN <=? len bs);
  footer ← sub bs (len bs - FOOTER_LEN) (len bs);
  i ← unwrap (lift (read_u64 footer 0)); b ← unwrap (lift (read_u64 footer 8)); mret (i, b).

(** The loop of [read_all_records]; every turn consumes a header. *)
Fixpoint records_loop (fuel : nat) (bs : bytes) (stop offset : Z) (out : list record) : M Fs (list record) :=
  match fuel with
  | O => panic
  | S fuel =>
      if offset <? stop then
        '(r, consumed) ← unwrap (lift (read_record bs offset));
        _ ← assert (0 <? consumed);
        records_loop fuel bs stop (offset + consumed) (out ++ [r])
      else mret out
  end.

Definition read_all_records (bs : bytes) : M Fs (list record) :=
  '(index_offset, _) ← read_footer bs; records_loop (S (length bs)) bs index_offset 0 [].

(** The magic at the end of a file. *)
Definition ends_with_magic (bs : bytes) : test := m ← sub bs (len bs - 8) (len bs); assert_eq m MAGIC.

(** [parse_index] of a region of the file. *)
Definition index_region (bs : bytes) (a b : Z) : M Fs (list IndexEntry) :=
  region ← sub bs a b; unwrap (lift (parse_index region)).

(** Builds [b] into [path] and reads the file. *)
Definition built (path : string) (b : SsTableBuilder) : M Fs bytes :=
  _ ← unwrap (Builder.build path b); unwrap (fs_read path).

(** [read_record] of a record with this key, value and tombstone flag; returns
    what it consumed. *)
Definition reads_record (bs : bytes) (offset : Z) (k v : string) (d : bool) : M Fs Z :=
  '(key, value, deleted, consumed) ← unwrap (lift (read_record bs offset));
  _ ← assert_eq key (as_bytes k); _ ← assert_eq value (as_bytes v); _ ← assert_eq deleted d; mret consumed.

Definition build_writes_valid_file_layout : test :=
  b ← fills Builder.new (_ ← adds "k1" "v1" false; adds "k2" "v2" false);
  bs ← built "layout.sst" b;
  let data_len := 11 + 11 in
  let index_len := 20 in
  _ ← assert_eq (len bs) (data_len + index_len + FOOTER_LEN);
  '(index_offset, bloom_offset) ← read_footer bs;
  _ ← assert_eq index_offset data_len; _ ← assert_eq bloom_offset 0; _ ← ends_with_magic bs;
  consumed ← reads_record bs 0 "k1" "v1" false;
  consumed2 ← reads_record bs consumed "k2" "v2" false;
  assert_eq (consumed + consumed2) data_len.

Definition single_block_index_offset : test :=
  b ← fills Builder.new (_ ← adds "apple" "red" false; _ ← adds "banana" "" true; adds "cherry" "dark red" false);
  bs ← built "single.sst" b;
  '(index_offset, _) ← read_footer bs;
  let data_len := 15 + 13 + 21 in
  _ ← assert_eq index_offset data_len;
  entries ← index_region bs data_len (len bs - FOOTER_LEN);
  assert_eq entries [mkIndexEntry (as_bytes "apple") 0 data_len].

(** [count] ascending keys with a value of 32 bytes. *)
Definition sequential (count : nat) : M SsTableBuilder unit :=
  for_each (List.seq 0 count) (fun i => unwrap (Builder.add (as_bytes (fmt "k" 5 i)) (filled x00 32) false)).

Definition multi_block_split : test :=
  b ← fills Builder.new (sequential 500);
  bs ← built "multi.sst" b;
  '(index_offset, _) ← read_footer bs;
  entries ← index_region bs index_offset (len bs - FOOTER_LEN);
  _ ← assert (5 <=? length entries)%nat;
  first ← some (head entries); _ ← assert_eq (offset first) 0;
  _ ← for_each (zip entries (tail entries)) (fun '(x, y) => assert_eq (offset y) (offset x + size x));
  last ← some (last entries); _ ← assert_eq (offset last + size last) index_offset;
  for_each entries (fun e =>
    '(first_key, _, _, _) ← unwrap (lift (read_record bs (offset e)));
    _ ← assert_eq first_key (SstIndex.first_key e); assert (size e <=? TARGET_BLOCK_SIZE)).

Definition exact_block_boundary_splits_correctly : test :=
  let filler_len := 1356%nat in
  b ← fills Builder.new
        (_ ← adds "" "" false;
         _ ← for_each (List.seq 0 3) (fun i =>
           let key := as_bytes (fmt "" 4 i) ++ filled x61 (filler_len - 4) in
           _ ← assert_eq (length key) filler_len; unwrap (Builder.add key [] false));
         adds "z-final" "x" false);
  bs ← built "boundary.sst" b;
  '(index_offset, _) ← read_footer bs;
  entries ← index_region bs index_offset (len bs - FOOTER_LEN);
  _ ← assert_eq (length entries) 2%nat;
  e0 ← some (entries !! 0%nat); e1 ← some (entries !! 1%nat);
  _ ← assert_eq (size e0) TARGET_BLOCK_SIZE; _ ← assert_eq (SstIndex.first_key e0) [];
  assert_eq (SstIndex.first_key e1) (as_bytes "z-final").

Definition build_twice_same_path_truncates : test :=
  first ← fills Builder.new (sequential 500);
  first_bytes ← built "truncate.sst" first;
  second ← fills Builder.new (adds "only" "one" false);
  second_bytes ← built "truncate.sst" second;
  _ ← assert (len second_bytes <? len first_bytes);
  '(index_offset, _) ← read_footer second_bytes;
  assert_eq index_offset (len second_bytes - FOOTER_LEN - (2 + 4 + 8 + 8)).

Definition empty_builder_writes_footer_only : test :=
  bs ← built "empty.sst" Builder.new;
  _ ← assert_eq (len bs) FOOTER_LEN;
  '(index_offset, bloom_offset) ← read_footer bs;
  _ ← assert_eq index_offset 0; _ ← assert_eq bloom_offset 0; _ ← ends_with_magic bs;
  entries ← index_region bs 0 0; assert_eq entries [].

Definition oversized_record_is_its_own_block : test :=
  b ← fills Builder.new
        (_ ← unwrap (Builder.add (as_bytes "big") (filled xab (Z.to_nat 10000)) false); adds "small" "v" false);
  bs ← built "oversized.sst" b;
  '(index_offset, _) ← read_footer bs;
  entries ← index_region bs index_offset (len bs - FOOTER_LEN);
  _ ← assert_eq (length entries) 2%nat;
  e0 ← some (entries !! 0%nat); e1 ← some (entries !! 1%nat);
  _ ← assert_eq e0 (mkIndexEntry (as_bytes "big") 0 (7 + 3 + 10000)); assert_eq (offset e1) (size e0).

Definition out_of_order_key_rejected : test :=
  b ← fills Builder.new
        (_ ← adds "a" "1" false; err ← refuses "a" "2"; _ ← assert (is_invalid_op err);
         _ ← adds "c" "3" false; err ← refuses "b" "4"; _ ← assert (is_invalid_op err);
         adds "d" "5" false);
  bs ← built "order.sst" b;
  records ← read_all_records bs;
  assert_eq records.*1
    [(as_bytes "a", as_bytes "1"); (as_bytes "c", as_bytes "3"); (as_bytes "d", as_bytes "5")].

Definition empty_key_first_allowed_then_reject : test :=
  b ← fills Builder.new
        (_ ← adds "" "first" false; err ← refuses "" "dup"; _ ← assert (is_invalid_op err);
         unwrap (Builder.add [x00] (as_bytes "after") false));
  bs ← built "empty_key.sst" b;
  records ← read_all_records bs;
  assert_eq records.*1 [([], as_bytes "first"); ([x00], as_bytes "after")].

Definition oversized_key_rejected_cleanly : test :=
  b ← fills Builder.new
        (err ← expect_err (Builder.add (filled x00 (Z.to_nat 65536)) (as_bytes "v") false);
         _ ← assert_eq err (KeyTooLarge 65536 65535);
         e ← gets Builder.is_empty; _ ← assert e; adds "small" "value" false);
  bs ← built "bigkey.sst" b;
  records ← read_all_records bs; assert_eq records.*1 [(as_bytes "small", as_bytes "value")].

Definition sized (n : Z) : M SsTableBuilder unit :=
  b ← get_st; m ← lift (estimated_data_size b); assert_eq m n.

Definition estimated_data_size_tracks_current_and_data : test :=
  _ ← fills Builder.new
        (_ ← sized 0; e ← gets Builder.is_empty; _ ← assert e;
         _ ← adds "kk" "v" false; _ ← sized 10;
         _ ← adds "ll" "w" false; _ ← adds "mm" "x" false; _ ← sized 30;
         e ← gets Builder.is_empty; assert (negb e));
  mret tt.

Definition is_empty_tracks_adds : test :=
  _ ← fills Builder.new
        (e ← gets Builder.is_empty; _ ← assert e; _ ← adds "k" "v" false;
         e ← gets Builder.is_empty; assert (negb e));
  mret tt.

(** The extreme keys of the builder. *)
Definition ranges (lo hi : option string) : M SsTableBuilder unit :=
  b ← get_st; _ ← assert_eq (min_key b) (as_bytes <$> lo); assert_eq (max_key b) (as_bytes <$> hi).

Definition min_max_key_track_extremes : test :=
  _ ← fills Builder.new
        (_ ← ranges None None;
         _ ← adds "a" "1" false; _ ← adds "b" "2" false; _ ← adds "c" "3" false; _ ← ranges (Some "a") (Some "c");
         _ ← adds "d" "" true; b ← get_st; assert_eq (max_key b) (Some (as_bytes "d")));
  mret tt.

Definition min_max_key_across_block_boundaries : test :=
  _ ← fills (with_expected_items 200)
        (_ ← adds "" "" false; _ ← sequential 500; _ ← adds "zz" "x" false; ranges (Some "") (Some "zz"));
  mret tt.

Definition tombstone_record_written : test :=
  b ← fills Builder.new (_ ← adds "a" "v1" false; adds "b" "" true);
  bs ← built "tombstone.sst" b;
  consumed ← reads_record bs 0 "a" "v1" false;
  _ ← reads_record bs consumed "b" "" true; mret tt.

Definition bloom_bytes (bs : bytes) (bloom_offset : Z) : M Fs bytes := sub bs bloom_offset (len bs - FOOTER_LEN).

Definition decode_file_bloom (bs : bytes) : M Fs bloom_filter :=
  '(_, bloom_offset) ← read_footer bs;
  _ ← assert (0 <? bloom_offset);
  region ← bloom_bytes bs bloom_offset; unwrap (lift (decode_bloom region)).

Definition build_sequential (name : string) (count : nat) (expected_items : Z) : M Fs string :=
  let b := if 0 <? expected_items then with_expected_items expected_items else Builder.new in
  b ← fills b (sequential count);
  _ ← unwrap (Builder.build name b); mret name.

(** The filter has the keys [k00000..]. *)
Definition has_all (w : nat) (count : nat) (f : bloom_filter) : test :=
  for_each (List.seq 0 count) (fun i => assert (bf_contains (as_bytes (fmt "k" w i)) f)).

Definition build_with_bloom_writes_bloom_offset : test :=
  b ← fills (with_expected_items 100) (for_each (List.seq 0 5) (fun i => adds (fmt "k" 0 i) "v" false));
  bs ← built "bloom.sst" b;
  '(index_offset, bloom_offset) ← read_footer bs;
  _ ← assert (index_offset <? bloom_offset); _ ← assert (bloom_offset <? len bs - FOOTER_LEN);
  index ← index_region bs index_offset bloom_offset;
  _ ← assert_eq (length index) 1%nat;
  decoded ← decode_file_bloom bs; has_all 0 5 decoded.

Definition tombstone_key_in_bloom : test :=
  b ← fills (with_expected_items 10) (_ ← adds "a" "v1" false; adds "b" "" true);
  bs ← built "tombstone_bloom.sst" b;
  decoded ← decode_file_bloom bs;
  _ ← assert (bf_contains (as_bytes "a") decoded); assert (bf_contains (as_bytes "b") decoded).

Definition no_bloom_default_writes_zero : test :=
  b ← fills Builder.new (_ ← adds "k1" "v1" false; adds "k2" "v2" false);
  bs ← built "no_bloom.sst" b;
  '(index_offset, bloom_offset) ← read_footer bs;
  _ ← assert_eq bloom_offset 0;
  let data_len := 22 in
  let index_len := 20 in
  _ ← assert_eq index_offset data_len; _ ← assert_eq (len bs) (data_len + index_len + FOOTER_LEN);
  ends_with_magic bs.

Definition empty_table_no_bloom_even_when_enabled : test :=
  bs ← built "empty_bloom.sst" (with_expected_items 10);
  _ ← assert_eq (len bs) FOOTER_LEN;
  '(index_offset, bloom_offset) ← read_footer bs;
  _ ← assert_eq index_offset 0; assert_eq bloom_offset 0.

Definition bloom_file_is_larger : test :=
  no_bloom_path ← build_sequential "no_bloom.sst" 100 0;
  bloom_path ← build_sequential "with_bloom.sst" 100 100;
  no_bloom ← unwrap (fs_read no_bloom_path); with_bloom ← unwrap (fs_read bloom_path);
  _ ← assert (len no_bloom <? len with_bloom);
  _ ← ends_with_magic no_bloom; _ ← ends_with_magic with_bloom;
  '(nb_index_offset, nb_bloom_offset) ← read_footer no_bloom;
  _ ← assert_eq nb_bloom_offset 0;
  nb_entries ← index_region no_bloom nb_index_offset (len no_bloom - FOOTER_LEN);
  _ ← assert (negb (is_nil nb_entries));
  '(wb_index_offset, wb_bloom_offset) ← read_footer with_bloom;
  wb_entries ← index_region with_bloom wb_index_offset wb_bloom_offset;
  _ ← assert_eq (length wb_entries) (length nb_entries);
  decoded ← decode_file_bloom with_bloom; has_all 5 100 decoded.

Definition bloom_contains_all_after_reopen_roundtrip : test :=
  path ← build_sequential "roundtrip.sst" 200 200;
  bs ← unwrap (fs_read path); decoded ← decode_file_bloom bs; has_all 5 200 decoded.

Example table_builder_pass :
  forallb (fun t => ok t)
    [build_writes_valid_file_layout; single_block_index_offset; multi_block_split;
     exact_block_boundary_splits_correctly; build_twice_same_path_truncates; empty_builder_writes_footer_only;
     oversized_record_is_its_own_block; out_of_order_key_rejected; empty_key_first_allowed_then_reject;
     oversized_key_rejected_cleanly; estimated_data_size_tracks_current_and_data; is_empty_tracks_adds;
     min_max_key_track_extremes; min_max_key_across_block_boundaries; tombstone_record_written;
     build_with_bloom_writes_bloom_offset; tombstone_key_in_bloom; no_bloom_default_writes_zero;
     empty_table_no_bloom_even_when_enabled; bloom_file_is_larger;
     bloom_contains_all_after_reopen_roundtrip] = true.
Proof. vm_compute. reflexivity. Qed.

(** The directory does not exist: the first system call, which creates the
    file, fails. *)
Definition build_to_missing_dir_errors : test :=
  builder ← fills Builder.new (adds "k" "v" false);
  _ ← modify (set_faults [Fail 0]);
  err ← expect_err (Builder.build "no_such_dir/t.sst" builder); assert (is_io err).

Example build_to_missing_dir_errors_passes : ok build_to_missing_dir_errors = true.
Proof. vm_compute. reflexivity. Qed.
End BuilderTests.

(** ** [sstable/reader.rs] *)

Module ReaderTests.

(** The entries of a test table; [None] is a tombstone. *)
Definition add_entry (e : bytes * option bytes) : M SsTableBuilder unit :=
  match e.2 with
  | Some value => unwrap (Builder.add e.1 value false)
  | None => unwrap (Builder.add e.1 [] true)
  end.

Definition build_sst (name : string) (entries : list (bytes * option bytes)) : M Fs string :=
  b ← fills Builder.new (for_each entries add_entry); _ ← unwrap (Builder.build name b); mret name.

Definition build_sst_with_bloom (name : string) (expected_items : Z) (entries : list (bytes * option bytes)) : M Fs string :=
  b ← fills (with_expected_items expected_items) (for_each entries add_entry);
  _ ← unwrap (Builder.build name b); mret name.

Definition read_bytes (path : string) : M Fs bytes := unwrap (fs_read path).

Definition live (k v : string) : bytes * option bytes := (as_bytes k, Some (as_bytes v)).
Definition tomb (k : string) : bytes * option bytes := (as_bytes k, None).

Definition opens (path : string) : M Fs SsTableReader := unwrap (Reader.open path).

(** [assert_eq!(reader.get(key).expect(..), v)] *)
Definition gets_lookup (r : SsTableReader) (k : string) (v : option LookupValue) : test :=
  x ← unwrap (Reader.get r (as_bytes k)); assert_eq x v.

Definition present (v : string) : option LookupValue := Some (Present (as_bytes v)).

(** [SsTableReader::open] and [get] that report corruption *)
Definition open_corrupt (path : string) : test := err ← expect_err (Reader.open path); assert (is_corruption err).
Definition get_corrupt (r : SsTableReader) (k : string) : test :=
  err ← expect_err (Reader.get r (as_bytes k)); assert (is_corruption err).

Definition get_present_value : test :=
  path ← build_sst "present.sst" [live "k1" "v1"; live "k2" "v2"];
  reader ← opens path; _ ← gets_lookup reader "k1" (present "v1"); gets_lookup reader "k2" (present "v2").

Definition get_absent_returns_none : test :=
  path ← build_sst "absent.sst" [live "aaa" "1"; live "ccc" "3"];
  reader ← opens path; _ ← gets_lookup reader "nope" None; gets_lookup reader "bbb" None.

Definition get_tombstone_and_empty_value : test :=
  path ← build_sst "tomb.sst" [tomb "del"; live "empty" ""];
  reader ← opens path; _ ← gets_lookup reader "del" (Some Deleted); gets_lookup reader "empty" (present "").

Definition get_before_first_and_after_last : test :=
  path ← build_sst "range.sst" [live "m" "1"; live "z" "2"];
  reader ← opens path; _ ← gets_lookup reader "a" None; gets_lookup reader "zzz" None.

Definition empty_table : test :=
  _ ← unwrap (Builder.build "empty.sst" Builder.new);
  reader ← opens "empty.sst"; _ ← assert_eq (num_blocks reader) 0; gets_lookup reader "anything" None.

Definition corrupt_magic_errors : test :=
  path ← build_sst "magic.sst" [live "k" "v"];
  bs ← read_bytes path; _ ← write_file path (flip bs (len bs - 1)); open_corrupt path.

Definition truncated_file_errors : test :=
  path ← build_sst "trunc.sst" [live "k" "v"];
  bs ← read_bytes path; head ← sub bs 0 10; _ ← write_file path head; open_corrupt path.

(** [for b in &mut bytes[a..a + n] { *b = 0xFF; }] *)
Definition poison_bytes (bs : bytes) (a n : Z) : bytes := splice bs a (filled xff (Z.to_nat n)).

Definition data_block_pointer_out_of_file_errors : test :=
  path ← build_sst "block-ptr.sst" [(as_bytes "k", Some (filled x00 64))];
  bs ← read_bytes path;
  let size_field := len bs - FOOTER_LEN - 8 in
  _ ← write_file path (poison_bytes bs size_field 8);
  reader ← opens path; get_corrupt reader "k".

(** A number of the footer, [at_] bytes into it. *)
Definition footer_field (bs : bytes) (at_ : Z) : M Fs Z :=
  footer ← sub bs (len bs - FOOTER_LEN) (len bs); unwrap (lift (read_u64 footer at_)).

Definition block_offset_plus_size_overflow_errors : test :=
  b ← fills Builder.new
        (_ ← unwrap (Builder.add (as_bytes "a") (filled x00 (Z.to_nat 10000)) false); adds "z" "last" false);
  _ ← unwrap (Builder.build "overflow.sst" b);
  bs ← read_bytes "overflow.sst";
  pos ← footer_field bs 0;
  key0_len ← unwrap (lift (read_u16 bs pos));
  let pos := pos + (2 + key0_len + 8 + 8) in
  key1_len ← unwrap (lift (read_u16 bs pos));
  let size_field := pos + 2 + key1_len + 8 in
  _ ← write_file "overflow.sst" (poison_bytes bs size_field 8);
  reader ← opens "overflow.sst"; get_corrupt reader "z".

Definition index_malformed_errors : test :=
  path ← build_sst "idx.sst" [live "k" "v"];
  bs ← read_bytes path;
  idx_start ← footer_field bs 0;
  let idx_end := len bs - FOOTER_LEN in
  _ ← write_file path (poison_bytes bs idx_start (idx_end - idx_start)); open_corrupt path.

Definition tri_state_distinct : test :=
  path ← build_sst "tri.sst" [live "live" "v"; tomb "tomb"];
  reader ← opens path;
  x ← unwrap (Reader.get reader (as_bytes "live"));
  _ ← assert (match x with Some (Present _) => true | _ => false end);
  _ ← gets_lookup reader "tomb" (Some Deleted); gets_lookup reader "gone" None.

Definition roundtrip_with_bloom_finds_all : test :=
  path ← build_sst_with_bloom "bloom-roundtrip.sst" 10 [live "a1" "v1"; tomb "del"; live "empty" ""];
  reader ← opens path;
  _ ← gets_lookup reader "a1" (present "v1"); _ ← gets_lookup reader "empty" (present "");
  _ ← gets_lookup reader "del" (Some Deleted); gets_lookup reader "zzz" None.

Definition bloom_short_circuits_absent_key : test :=
  let entries := (fun i => (as_bytes (fmt "k" 4 i), Some (filled x00 16))) <$> List.seq 0 100 in
  path ← build_sst_with_bloom "short.sst" 100 entries;
  bs ← read_bytes path;
  index_offset ← footer_field bs 0;
  key0_len ← unwrap (lift (read_u16 bs index_offset));
  let size_field := index_offset + 2 + key0_len + 8 in
  _ ← write_file path (poison_bytes bs size_field 8);
  reader ← opens path;
  _ ← assert_eq (bloom_probe reader (as_bytes "k0000")) (Some true);
  _ ← get_corrupt reader "k0000";
  i ← some (List.find (fun i => bool_decide (bloom_probe reader (as_bytes (fmt "k" 4 i)) = Some false))
              (List.seq 100 (Z.to_nat 9900)));
  gets_lookup reader (fmt "k" 4 i) None.

Definition f3_file_without_bloom_still_reads : test :=
  path ← build_sst "no-bloom.sst" [live "k1" "v1"; live "k2" "v2"];
  reader ← opens path;
  _ ← assert_eq (bloom_probe reader (as_bytes "k1")) None;
  _ ← gets_lookup reader "k1" (present "v1"); gets_lookup reader "nope" None.

Definition corrupt_bloom_block_errors : test :=
  path ← build_sst_with_bloom "corrupt-bloom.sst" 10 [live "k1" "v1"];
  bs ← read_bytes path;
  bloom_offset ← footer_field bs 8;
  _ ← assert (0 <? bloom_offset);
  _ ← write_file path (splice bs bloom_offset (le_bytes 4 u32_max)); open_corrupt path.

Definition empty_table_with_bloom_requested_reads_as_no_bloom : test :=
  _ ← unwrap (Builder.build "empty-bloom.sst" (with_expected_items 10));
  reader ← opens "empty-bloom.sst";
  _ ← assert_eq (num_blocks reader) 0; _ ← assert_eq (bloom_probe reader (as_bytes "anything")) None;
  gets_lookup reader "anything" None.

Definition bloom_offset_overlapping_footer_errors : test :=
  path ← build_sst_with_bloom "bloom-overlap.sst" 10 [live "k1" "v1"];
  bs ← read_bytes path;
  let file_len := len bs in
  let bloom_field := file_len - FOOTER_LEN + 8 in
  _ ← write_file path (splice bs bloom_field (le_bytes 8 (file_len - 1))); open_corrupt path.

Definition zero_length_bloom_region_errors : test :=
  path ← build_sst_with_bloom "bloom-empty-region.sst" 10 [live "k1" "v1"];
  bs ← read_bytes path;
  let file_len := len bs in
  let footer_start := file_len - FOOTER_LEN in
  let bloom_field := file_len - FOOTER_LEN + 8 in
  _ ← write_file path (splice bs bloom_field (le_bytes 8 footer_start)); open_corrupt path.

Definition records_returns_all_in_ascending_order : test :=
  path ← build_sst "rec.sst" [live "a" "1"; tomb "b"; live "c" ""; live "d" "4"];
  reader ← opens path;
  records ← unwrap (Reader.records reader);
  assert_eq records
    [(as_bytes "a", as_bytes "1", false); (as_bytes "b", [], true); (as_bytes "c", [], false);
     (as_bytes "d", as_bytes "4", false)].

Definition records_empty_table_is_empty : test :=
  _ ← unwrap (Builder.build "empty-rec.sst" Builder.new);
  reader ← opens "empty-rec.sst";
  records ← unwrap (Reader.records reader); assert_eq records [].

(** The entries of the two tables of five hundred records. *)
Definition numbered (step : nat) : list (bytes * option bytes) :=
  (fun i => (as_bytes (fmt "k" 5 i), if (i mod step =? 0)%nat then None else Some (filled x00 32))) <$> List.seq 0 500.

Definition multi_block_lookup : test :=
  let entries := numbered 50 in
  path ← build_sst "multi.sst" entries;
  reader ← opens path; _ ← assert (2 <=? num_blocks reader);
  _ ← for_each entries (fun '(key, maybe_value) =>
        result ← unwrap (Reader.get reader key);
        match maybe_value with
        | Some _ => assert (match result with Some (Present _) => true | _ => false end)
        | None => assert_eq result (Some Deleted)
        end);
  for_each (List.seq 0 500) (fun i => gets_lookup reader (fmt "k" 5 i +:+ "x") None).

(** The loop of the next test. *)
Fixpoint sorted_from (i : nat) (prev : option bytes) (records : list record) : test :=
  match records with
  | [] => mret tt
  | (key, _, deleted) :: records =>
      _ ← match prev with Some p => assert (key_ltb p key) | None => mret tt end;
      _ ← assert_eq deleted (i mod 100 =? 0)%nat;
      sorted_from (S i) (Some key) records
  end.

Definition records_multi_block_sorted : test :=
  path ← build_sst "rec-multi.sst" (numbered 100);
  reader ← opens path;
  records ← unwrap (Reader.records reader);
  _ ← assert_eq (len records) 500; sorted_from 0 None records.

Example table_reader_pass :
  forallb (fun t => ok t)
    [get_present_value; get_absent_returns_none; get_tombstone_and_empty_value; get_before_first_and_after_last;
     empty_table; corrupt_magic_errors; truncated_file_errors;
     data_block_pointer_out_of_file_errors; block_offset_plus_size_overflow_errors; index_malformed_errors;
     tri_state_distinct; roundtrip_with_bloom_finds_all; bloom_short_circuits_absent_key;
     f3_file_without_bloom_still_reads; corrupt_bloom_block_errors;
     empty_table_with_bloom_requested_reads_as_no_bloom; bloom_offset_overlapping_footer_errors;
     zero_length_bloom_region_errors; records_returns_all_in_ascending_order;
     records_empty_table_is_empty] = true.
Proof. vm_compute. reflexivity. Qed.
(** ** The tests of a large table *)

Definition record_of (e : bytes * option bytes) : record :=
  match e.2 with Some v => (e.1, v, false) | None => (e.1, [], true) end.

Lemma add_entries_ok (es : list (bytes * option bytes)) (b b' : SsTableBuilder) :
  for_each (record_of <$> es) add_record b = (Ok tt, b') -> for_each es add_entry b = (Ok tt, b').
Proof.
  revert b. induction es as [|[k v] es IH]; intros b; [done|]. cbn [fmap list_fmap for_each]. intros H.
  destruct (add_record (record_of (k, v)) b) as [[[]| | |] b1] eqn:E; unfold mbind, M_bind in H; rewrite E in H; try done.
  rewrite (M_bind_ok _ _ _ tt b1); [by apply IH|]. unfold add_entry. destruct v; by apply unwrap_ok.
Qed.

(** A table of more than a block's bytes has two blocks. *)
Lemma two_blocks r d rs : reads r d rs -> TARGET_BLOCK_SIZE < len (records_bytes rs) -> (1 < length rs)%nat -> 2 <= num_blocks r.
Proof.
  intros [_ _ _ _ _ _ (blocks & Hcat & Hok & Hidx) _] Hlen H1. unfold num_blocks, len. rewrite Hidx, length_index_of.
  destruct blocks as [|blk [|]]; cbn [concat length] in *; [by subst|rewrite app_nil_r in Hcat; subst blk|lia].
  apply Forall_cons in Hok as [[_ [H|H]] _]; lia.
Qed.

(** [build_sst] and [open] of entries in order. *)
Lemma build_sst_ok name (es : list (bytes * option bytes)) :
  let rs := record_of <$> es in
  Forall capped rs -> rs_sorted rs -> len (records_bytes rs) <= 2 ^ 60 ->
  exists fs r, build_sst name es empty_fs = (Ok name, fs) /\ opens name fs = (Ok r, fs) /\
    reads r (data_of fs (sr_file r)) rs /\ faults fs = [].
Proof.
  intros rs Hc Hs Hu. destruct (add_all_ok rs 0 Hc Hs) as (b & blocks & cur & Hadd & Hb & Hcat).
  rewrite <- Hcat in Hu.
  destruct (build_ok name b blocks cur empty_fs Hb Hu eq_refl fs_wf_empty) as (ino & d & fs & Hbuild & Hwr & Ht).
  rewrite Hcat in Ht. pose proof (wr_faults _ _ _ _ _ Hwr) as Hf.
  assert (dirents fs !! name = Some ino) as Hp by (by rewrite (wr_dirents _ _ _ _ _ Hwr), lookup_insert_eq).
  destruct (open_ok name ino d rs fs Hf Hp (wr_data _ _ _ _ _ Hwr) Ht) as (r & Hopen & Hr & <- & _).
  exists fs, r. split_and!; [|by apply unwrap_ok|by rewrite (wr_data _ _ _ _ _ Hwr)|exact Hf].
  unfold build_sst. rewrite (M_bind_ok _ _ _ b empty_fs).
  - by rewrite (M_bind_ok _ _ _ _ _ (unwrap_ok _ _ _ _ Hbuild)).
  - unfold fills, moved, mbind, M_bind, zoom. cbn [snd fst].
    change Builder.new with (with_expected_items 0). by rewrite (add_entries_ok es _ b Hadd).
Qed.
(** What evaluation shows of the entries. *)
Definition fits (rs : list record) : bool :=
  forallb (fun r => (len (rkey r) <=? MAX_KEY_LEN) && (len (rvalue r) <=? MAX_VALUE_LEN)) rs &&
  ascending (rkey <$> rs) && (len (records_bytes rs) <=? 2 ^ 60) &&
  (TARGET_BLOCK_SIZE <? len (records_bytes rs)) && (1 <? length rs)%nat.

Lemma numbered_ok name step :
  fits (record_of <$> numbered step) = true ->
  exists fs r, build_sst name (numbered step) empty_fs = (Ok name, fs) /\ opens name fs = (Ok r, fs) /\
    reads r (data_of fs (sr_file r)) (record_of <$> numbered step) /\ faults fs = [] /\ 2 <= num_blocks r.
Proof.
  unfold fits. intros [[[[H1 H2]%andb_true_iff H3%Z.leb_le]%andb_true_iff H4%Z.ltb_lt]%andb_true_iff H5%Nat.ltb_lt]%andb_true_iff.
  destruct (build_sst_ok name (numbered step)) as (fs & r & Hb & Ho & Hr & Hf); [|by apply ascending_sorted|done|].
  - apply Forall_forall. intros x Hx%list_elem_of_In. rewrite forallb_forall in H1.
    specialize (H1 x Hx). apply andb_true_iff in H1 as [?%Z.leb_le ?%Z.leb_le]. by split.
  - exists fs, r. split_and!; [done..|]. by eapply two_blocks.
Qed.

(** The lookups of the first test. *)
Definition finds (rs : list record) (e : bytes * option bytes) : bool :=
  match e.2, lookup rs e.1 with
  | Some _, Some (Present _) | None, Some Deleted => true
  | _, _ => false
  end.

Definition misses (rs : list record) (i : nat) : bool :=
  match lookup rs (as_bytes (fmt "k" 5 i +:+ "x")) with None => true | Some _ => false end.

Lemma lookups_ok fs r rs (es : list (bytes * option bytes)) (l : list nat) :
  reads r (data_of fs (sr_file r)) rs -> faults fs = [] -> forallb (finds rs) es = true -> forallb (misses rs) l = true ->
  (_ ← for_each es (fun '(key, maybe_value) =>
        result ← unwrap (Reader.get r key);
        match maybe_value with
        | Some _ => assert (match result with Some (Present _) => true | _ => false end)
        | None => assert_eq result (Some Deleted)
        end);
   for_each l (fun i => gets_lookup r (fmt "k" 5 i +:+ "x") None)) fs = (Ok tt, fs).
Proof.
  intros Hr Hf He Hl. rewrite forallb_forall in He, Hl.
  rewrite (M_bind_ok _ _ _ tt fs); apply checks_ok.
  - intros i Hi%list_elem_of_In. specialize (Hl i Hi). unfold misses, gets_lookup in *.
    rewrite (M_bind_ok _ _ _ _ _ (unwrap_ok _ _ _ _ (reader_get_ok r _ rs _ fs Hf eq_refl Hr))).
    apply assert_eq_ok. by destruct (lookup _ _).
  - intros [k v] Hi%list_elem_of_In. specialize (He _ Hi). unfold finds in He. cbn [fst snd] in He.
    rewrite (M_bind_ok _ _ _ _ _ (unwrap_ok _ _ _ _ (reader_get_ok r _ rs k fs Hf eq_refl Hr))).
    destruct v, (lookup rs k) as [[]|]; try discriminate He; [by apply assert_ok|by apply assert_eq_ok].
Qed.

Theorem multi_block_lookup_passes : ok multi_block_lookup = true.
Proof.
  destruct (numbered_ok "multi.sst" 50) as (fs & r & Hb & Ho & Hr & Hf & Hn); [vm_compute; reflexivity|].
  refine (passes_step _ _ _ _ _ Hb _). refine (passes_step _ _ _ _ _ Ho _).
  refine (passes_step _ _ _ _ _ (assert_ok _ fs (proj2 (Z.leb_le _ _) Hn)) _).
  refine (passes_run _ _ _ (lookups_ok fs r _ (numbered 50) (List.seq 0 500) Hr Hf _ _)); vm_compute; reflexivity.
Qed.

(** The loop of the second test does not look at the directory. *)
Lemma sorted_from_ok i prev rs fs : ok (sorted_from i prev rs) = true -> passes fs (sorted_from i prev rs) = true.
Proof.
  revert i prev. induction rs as [|[[k v] d] rs IH]; intros i prev; [done|].
  cbn [sorted_from]. unfold passes, mbind, M_bind, assert_eq, assert.
  destruct prev as [p|]; [destruct (key_ltb p k); [|done]|]; cbn -[Nat.modulo];
    (case_bool_decide; [|done]); exact (IH (S i) (Some k)).
Qed.

Theorem records_multi_block_sorted_passes : ok records_multi_block_sorted = true.
Proof.
  destruct (numbered_ok "rec-multi.sst" 100) as (fs & r & Hb & Ho & Hr & Hf & _); [vm_compute; reflexivity|].
  refine (passes_step _ _ _ _ _ Hb _). refine (passes_step _ _ _ _ _ Ho _).
  refine (passes_step _ _ _ _ _ (unwrap_ok _ _ _ _ (records_ok r _ _ fs Hf eq_refl Hr)) _).
  refine (passes_step _ _ _ tt fs (assert_eq_ok _ _ _ _) _); [vm_compute; reflexivity|].
  apply sorted_from_ok. vm_compute. reflexivity.
Qed.
End ReaderTests.
