(* ===== verification/EngineTests.v ===== *)
(** * The engine's unit tests, on the model

    The sequential tests of [src/src/engine.rs] in the vocabulary of [TestKit],
    on the concrete instances of [External].  A poll of the background worker
    runs the notifications it has pending.  The tests that race threads are in
    [ThreadTests]. *)

From S2P Require Import Prelude Outcome External Fs MemTable Wal WalWriter WalReader.
From S2P Require Import StdVec SstRecord SstIndex Bloom Builder Reader Merge Manifest.
From S2P Require Import Names Engine EngineTheorems TestKit.

Module Tests.
Import Sample.

(** ** The tests' vocabulary *)

Definition LARGE_THRESHOLD : Z := usize_max.

Definition threshold (n : Z) : LsmOptions :=
  mkLsmOptions n (sync_per_write default_options) (compaction_l0_file_threshold default_options).

Definition large : LsmOptions := threshold LARGE_THRESHOLD.

Definition opened (e : LsmEngineInner) : M Sys unit := upd (fun _ => e).

Definition open_dir : M Sys unit := e ← unwrap (on_fs open); opened e.

Definition open_dir_opts (options : LsmOptions) : M Sys unit :=
  e ← unwrap (on_fs (open_with_options options)); opened e.

Definition count_files (prefix : string) : M Sys nat :=
  names ← unwrap (on_fs fs_read_dir);
  mret (length (base.filter (fun n => String.prefix prefix n = true) names)).

Definition sst_count : M Sys nat := count_files "L0_".

Definition l1_filename : M Sys (option string) :=
  names ← unwrap (on_fs fs_read_dir);
  mret (head (base.filter (fun n => String.prefix "L1_" n = true) names)).

(** [engine.put(k, v).unwrap()] and the other calls. *)
Definition puts (k v : string) : M Sys unit := unwrap (put (as_bytes k) (as_bytes v)).
Definition deletes (k : string) : M Sys unit := unwrap (delete (as_bytes k)).
Definition gets_value (k v : string) : M Sys unit :=
  r ← unwrap (get (as_bytes k)); assert_eq r (Some (as_bytes v)).
Definition gets_none (k : string) : M Sys unit := r ← unwrap (get (as_bytes k)); assert_eq r None.
Definition flushes : M Sys unit := unwrap flush.
Definition compacts : M Sys unit := unwrap compact.
Definition loads : M Sys Manifest := unwrap (on_fs load).

(** The engine goes out of scope. *)
Definition drops : M Sys unit := drop_engine.

(** [std::fs::write(..).unwrap()] and [Path::exists] *)
Definition writes_file (name contents : string) : M Sys unit :=
  f ← unwrap (on_fs (file_create name)); unwrap (on_fs (file_write f (as_bytes contents))).
Definition file_exists (name : string) : M Sys unit := b ← on_fs (fs_exists name); assert b.

(** [assert!(matches!(err, LsmError::Corruption(_)))] *)
Definition corrupt {A} (m : M Sys A) : M Sys unit :=
  r ← try_ m; assert (match r with inl (Corruption _) => true | _ => false end).

(** The worker handles every notification it has received. *)
Definition poll : M Sys unit :=
  n ← eng flush_tx; for_each (List.seq 0 n) (fun _ => worker_tick).

Definition passes (t : M Sys unit) : bool := TestKit.passes (empty_fs, no_engine) t.

(** ** The tests *)

Definition put_get_delete_end_to_end : M Sys unit :=
  _ ← open_dir_opts large; _ ← puts "a" "v1"; _ ← gets_value "a" "v1"; _ ← puts "b" "first";
  _ ← puts "b" "second"; _ ← gets_value "b" "second"; _ ← deletes "a"; _ ← gets_none "a";
  _ ← gets_none "missing"; drops.

Definition tombstone_shadows_flushed_data : M Sys unit :=
  _ ← open_dir_opts large; _ ← puts "k" "v"; _ ← flushes; _ ← gets_value "k" "v";
  _ ← deletes "k"; _ ← gets_none "k"; _ ← flushes; _ ← gets_none "k"; drops.

Definition flush_creates_sst_and_manifest : M Sys unit :=
  _ ← open_dir_opts large; _ ← puts "apple" "red"; _ ← puts "cherry" "dark red"; _ ← flushes;
  n ← sst_count; _ ← assert_eq n 1%nat; m ← loads; _ ← assert_eq (length (ssts_at m 0)) 1%nat;
  _ ← assert_eq (Manifest.min <$> head (ssts_at m 0)) (Some (as_bytes "apple"));
  _ ← assert_eq (Manifest.max <$> head (ssts_at m 0)) (Some (as_bytes "cherry")); drops.

Definition get_across_levels_newest_wins : M Sys unit :=
  _ ← open_dir_opts large; _ ← puts "k" "v1"; _ ← flushes; _ ← puts "k" "v2"; _ ← flushes;
  n ← sst_count; _ ← assert_eq n 2%nat; _ ← gets_value "k" "v2"; drops.

Definition recovery_from_wal_after_clean_drop : M Sys unit :=
  _ ← open_dir_opts large; _ ← puts "a" "1"; _ ← puts "b" "2"; _ ← puts "c" "3"; _ ← drops;
  _ ← open_dir_opts large; _ ← gets_value "a" "1"; _ ← gets_value "b" "2";
  _ ← gets_value "c" "3"; drops.

Definition recovery_from_sst_after_flush : M Sys unit :=
  _ ← open_dir_opts large; _ ← puts "a" "v"; _ ← flushes; _ ← puts "b" "w"; _ ← drops;
  _ ← open_dir_opts large; _ ← gets_value "a" "v"; _ ← gets_value "b" "w"; _ ← gets_none "zzz";
  drops.

Definition recovery_tombstone_persisted : M Sys unit :=
  _ ← open_dir_opts large; _ ← puts "k" "v"; _ ← deletes "k"; _ ← flushes; _ ← drops;
  _ ← open_dir_opts large; _ ← gets_none "k"; drops.

Definition open_fresh_dir_is_empty : M Sys unit :=
  _ ← open_dir; _ ← gets_none "anything"; _ ← puts "x" "y"; _ ← gets_value "x" "y"; drops.

Definition flush_empty_engine_is_noop : M Sys unit :=
  _ ← open_dir; _ ← flushes; n ← sst_count; _ ← assert_eq n 0%nat; _ ← gets_none "k"; drops.

Definition sync_per_write_recovers_without_flush : M Sys unit :=
  _ ← open_dir_opts (mkLsmOptions LARGE_THRESHOLD true (compaction_l0_file_threshold default_options));
  _ ← puts "a" "1"; _ ← puts "b" "2"; _ ← drops; _ ← open_dir_opts large;
  _ ← gets_value "a" "1"; _ ← gets_value "b" "2"; drops.

Definition manifest_missing_sst_file_errors : M Sys unit :=
  _ ← open_dir_opts large; _ ← puts "k" "v"; _ ← flushes; _ ← drops; m ← loads;
  x ← lift (vec_at (ssts_at m 0) 0); _ ← unwrap (on_fs (fs_remove_file (Manifest.name x)));
  corrupt (on_fs open).

Definition empty_key_value_valid : M Sys unit :=
  _ ← open_dir_opts large; _ ← puts "" ""; _ ← gets_value "" ""; _ ← flushes;
  _ ← gets_value "" ""; drops.

Definition recovery_multiple_wal_generations_applied_in_order : M Sys unit :=
  _ ← open_dir_opts (threshold 32); _ ← puts "k" "v1";
  _ ← for_each (List.seq 0 10) (fun i => puts (fmt "a" 3 i) "x"); _ ← puts "k" "v2";
  _ ← for_each (List.seq 0 10) (fun i => puts (fmt "b" 3 i) "y"); _ ← drops;
  _ ← open_dir_opts large; _ ← gets_value "k" "v2";
  _ ← for_each (List.seq 0 10) (fun i => _ ← gets_value (fmt "a" 3 i) "x"; gets_value (fmt "b" 3 i) "y");
  drops.

Definition flush_is_idempotent : M Sys unit :=
  _ ← open_dir_opts large; _ ← puts "k" "v"; _ ← flushes; count ← sst_count; _ ← flushes;
  n ← sst_count; _ ← assert_eq n count; drops.

Definition auto_flush_produces_sst_without_explicit_flush : M Sys unit :=
  _ ← open_dir_opts (mkLsmOptions 128 false 0);
  _ ← for_each (List.seq 0 200) (fun i => puts (fmt "key" 5 i) "value-data"); _ ← poll;
  seen ← sst_count; _ ← assert (1 <=? seen)%nat;
  _ ← for_each (List.seq 0 200) (fun i => gets_value (fmt "key" 5 i) "value-data"); _ ← flushes;
  wals ← count_files "wal_"; _ ← assert_eq wals 1%nat; drops.

Definition manifest_corrupt_on_existing_data_fails_open : M Sys unit :=
  _ ← open_dir_opts large; _ ← puts "a" "1"; _ ← flushes; _ ← puts "b" "2"; _ ← drops;
  _ ← writes_file "MANIFEST" "garbage not a manifest"; corrupt (on_fs open).

Definition orphan_sst_not_in_manifest_is_ignored : M Sys unit :=
  _ ← open_dir_opts large; _ ← puts "k" "v"; _ ← flushes; _ ← drops;
  _ ← writes_file "L0_999999.sst" "not a real sstable"; _ ← open_dir_opts large;
  _ ← gets_value "k" "v"; _ ← file_exists "L0_999999.sst"; drops.

Definition recovery_survives_repeated_reopen_without_flush : M Sys unit :=
  _ ← open_dir_opts large; _ ← puts "k" "v"; _ ← drops; _ ← open_dir_opts large;
  _ ← gets_value "k" "v"; _ ← drops; _ ← open_dir_opts large; _ ← gets_value "k" "v"; drops.

Definition recovery_reappends_replayed_tombstone : M Sys unit :=
  _ ← open_dir_opts large; _ ← puts "k" "v"; _ ← deletes "k"; _ ← drops;
  _ ← open_dir_opts large; _ ← gets_none "k"; _ ← drops; _ ← open_dir_opts large;
  _ ← gets_none "k"; drops.

Definition manifest_referenced_sst_corrupt_fails_on_first_read : M Sys unit :=
  _ ← open_dir_opts large; _ ← puts "k" "v"; _ ← flushes; m ← loads;
  x ← lift (vec_at (ssts_at m 0) 0); _ ← drops;
  _ ← writes_file (Manifest.name x) "corrupted, not an sstable"; _ ← open_dir_opts large;
  _ ← corrupt (get (as_bytes "k")); drops.

Definition orphan_wal_not_matching_pattern_ignored : M Sys unit :=
  _ ← writes_file "notawal.txt" "plain text, not a wal";
  _ ← writes_file "wal_abc.wal" "non-numeric seq, not a wal"; _ ← open_dir_opts large;
  _ ← puts "k" "v"; _ ← flushes; _ ← gets_value "k" "v"; _ ← drops;
  _ ← file_exists "notawal.txt"; _ ← file_exists "wal_abc.wal"; _ ← open_dir_opts large;
  _ ← gets_value "k" "v"; drops.

Definition recovery_is_idempotent_across_reopens : M Sys unit :=
  _ ← open_dir_opts large; _ ← puts "a" "1"; _ ← flushes; _ ← puts "b" "2"; _ ← flushes;
  _ ← drops; _ ← open_dir_opts large; _ ← gets_value "a" "1"; _ ← gets_value "b" "2";
  _ ← puts "c" "3"; _ ← flushes; sst_after_write ← sst_count; _ ← drops;
  _ ← open_dir_opts large; _ ← gets_value "a" "1"; _ ← gets_value "b" "2";
  _ ← gets_value "c" "3"; n ← sst_count; _ ← assert_eq n sst_after_write; drops.

Definition tombstone_shadows_across_flush_generations : M Sys unit :=
  _ ← open_dir_opts large; _ ← puts "k" "v1"; _ ← flushes; _ ← deletes "k"; _ ← flushes;
  _ ← puts "k" "v3"; _ ← flushes; _ ← gets_value "k" "v3"; _ ← deletes "k"; _ ← flushes;
  _ ← drops; _ ← open_dir_opts large; _ ← gets_none "k"; drops.

(** The write of one key in one round of [many_small_flushes_recover], and what
    the key must hold after the last round. *)
Definition small_write (round i : nat) : M Sys unit :=
  if ((round + i) mod 3 =? 0)%nat then deletes (fmt "k" 2 i)
  else puts (fmt "k" 2 i) (fmt "v" 0 round +:+ fmt "-" 0 i).

Definition small_check (i : nat) : M Sys unit :=
  if ((9 + i) mod 3 =? 0)%nat then gets_none (fmt "k" 2 i)
  else gets_value (fmt "k" 2 i) (fmt "v" 0 9 +:+ fmt "-" 0 i).

Definition many_small_flushes_recover : M Sys unit :=
  _ ← open_dir_opts large;
  _ ← for_each (List.seq 0 10) (fun round => _ ← for_each (List.seq 0 20) (small_write round); flushes);
  _ ← drops; _ ← open_dir_opts large; n ← sst_count; _ ← assert_eq n 10%nat;
  _ ← for_each (List.seq 0 20) small_check; drops.

Definition compact_merges_l0_to_l1 : M Sys unit :=
  _ ← open_dir_opts large; _ ← puts "a" "v1"; _ ← puts "b" "1"; _ ← flushes; _ ← puts "a" "v2";
  _ ← deletes "b"; _ ← puts "c" "3"; _ ← flushes; _ ← puts "c" "33"; _ ← flushes;
  n ← count_files "L0_"; _ ← assert_eq n 3%nat; _ ← compacts; n ← count_files "L0_";
  _ ← assert_eq n 0%nat; n ← count_files "L1_"; _ ← assert_eq n 1%nat; _ ← gets_value "a" "v2";
  _ ← gets_none "b"; _ ← gets_value "c" "33"; drops.

Definition compact_noop_when_no_l0 : M Sys unit :=
  _ ← open_dir_opts large; _ ← compacts; n ← count_files "L1_"; _ ← assert_eq n 0%nat;
  _ ← puts "k" "v"; _ ← flushes; _ ← compacts; n ← count_files "L1_"; _ ← assert_eq n 1%nat;
  l1_before ← l1_filename; _ ← compacts; l1 ← l1_filename; _ ← assert_eq l1 l1_before;
  _ ← gets_value "k" "v"; drops.

Definition compact_merge_with_existing_l1 : M Sys unit :=
  _ ← open_dir_opts large; _ ← puts "l1only" "survivor"; _ ← puts "shared" "old"; _ ← flushes;
  _ ← compacts; _ ← gets_value "l1only" "survivor"; _ ← puts "shared" "new";
  _ ← puts "l0only" "x"; _ ← flushes; _ ← compacts; _ ← gets_value "l1only" "survivor";
  _ ← gets_value "shared" "new"; _ ← gets_value "l0only" "x"; n ← count_files "L0_";
  _ ← assert_eq n 0%nat; n ← count_files "L1_"; _ ← assert_eq n 1%nat; drops.

Definition compact_drops_final_tombstone : M Sys unit :=
  _ ← open_dir_opts large; _ ← puts "k" "v"; _ ← flushes; _ ← deletes "k"; _ ← flushes;
  _ ← compacts; _ ← gets_none "k"; _ ← drops; _ ← open_dir_opts large; _ ← gets_none "k"; drops.

Definition compact_empty_result_removes_all_files : M Sys unit :=
  _ ← open_dir_opts large; _ ← puts "a" "1"; _ ← flushes; _ ← puts "a" "2"; _ ← deletes "a";
  _ ← flushes; _ ← compacts; _ ← gets_none "a"; n ← count_files "L1_"; _ ← assert_eq n 0%nat;
  n ← count_files "L0_"; _ ← assert_eq n 0%nat; drops.

Definition recovery_across_compact_cycles : M Sys unit :=
  _ ← open_dir_opts large; _ ← puts "a" "v1"; _ ← flushes; _ ← compacts; _ ← drops;
  _ ← open_dir_opts large; _ ← gets_value "a" "v1"; _ ← puts "b" "w"; _ ← flushes; _ ← compacts;
  _ ← drops; _ ← open_dir_opts large; _ ← gets_value "a" "v1"; _ ← gets_value "b" "w";
  n ← count_files "L0_"; _ ← assert_eq n 0%nat; n ← count_files "L1_"; _ ← assert_eq n 1%nat;
  drops.

(** The source writes 400 keys; fewer take the worker through as many tables of
    level 0 as it needs to compact. *)
Definition auto_compact_after_many_flushes (keys : nat) : M Sys unit :=
  _ ← open_dir_opts (mkLsmOptions 64 false 2);
  _ ← for_each (List.seq 0 keys) (fun i => puts (fmt "key" 5 i) "value-data"); _ ← poll;
  n ← count_files "L1_"; _ ← assert (1 <=? n)%nat; _ ← flushes;
  _ ← for_each (List.seq 0 keys) (fun i => gets_value (fmt "key" 5 i) "value-data"); drops.

Definition compaction_threshold_zero_disables_auto_compact : M Sys unit :=
  _ ← open_dir_opts (mkLsmOptions 64 false 0);
  _ ← for_each (List.seq 0 200) (fun i => puts (fmt "key" 5 i) "value-data"); _ ← poll;
  _ ← flushes; n ← count_files "L1_"; _ ← assert_eq n 0%nat;
  _ ← for_each (List.seq 0 200) (fun i => gets_value (fmt "key" 5 i) "value-data"); drops.

(** ** Their results *)

Example put_get_delete_end_to_end_passes : passes put_get_delete_end_to_end = true.
Proof. vm_compute. reflexivity. Qed.

Example tombstone_shadows_flushed_data_passes : passes tombstone_shadows_flushed_data = true.
Proof. vm_compute. reflexivity. Qed.

Example flush_creates_sst_and_manifest_passes : passes flush_creates_sst_and_manifest = true.
Proof. vm_compute. reflexivity. Qed.

Example get_across_levels_newest_wins_passes : passes get_across_levels_newest_wins = true.
Proof. vm_compute. reflexivity. Qed.

Example recovery_from_wal_after_clean_drop_passes : passes recovery_from_wal_after_clean_drop = true.
Proof. vm_compute. reflexivity. Qed.

Example recovery_from_sst_after_flush_passes : passes recovery_from_sst_after_flush = true.
Proof. vm_compute. reflexivity. Qed.

Example recovery_tombstone_persisted_passes : passes recovery_tombstone_persisted = true.
Proof. vm_compute. reflexivity. Qed.

Example open_fresh_dir_is_empty_passes : passes open_fresh_dir_is_empty = true.
Proof. vm_compute. reflexivity. Qed.

Example flush_empty_engine_is_noop_passes : passes flush_empty_engine_is_noop = true.
Proof. vm_compute. reflexivity. Qed.

Example sync_per_write_recovers_without_flush_passes : passes sync_per_write_recovers_without_flush = true.
Proof. vm_compute. reflexivity. Qed.

Example manifest_missing_sst_file_errors_passes : passes manifest_missing_sst_file_errors = true.
Proof. vm_compute. reflexivity. Qed.

Example empty_key_value_valid_passes : passes empty_key_value_valid = true.
Proof. vm_compute. reflexivity. Qed.

Example recovery_multiple_wal_generations_applied_in_order_passes : passes recovery_multiple_wal_generations_applied_in_order = true.
Proof. vm_compute. reflexivity. Qed.

Example flush_is_idempotent_passes : passes flush_is_idempotent = true.
Proof. vm_compute. reflexivity. Qed.

Example auto_flush_produces_sst_without_explicit_flush_passes : passes auto_flush_produces_sst_without_explicit_flush = true.
Proof. vm_compute. reflexivity. Qed.

Example manifest_corrupt_on_existing_data_fails_open_passes : passes manifest_corrupt_on_existing_data_fails_open = true.
Proof. vm_compute. reflexivity. Qed.

Example orphan_sst_not_in_manifest_is_ignored_passes : passes orphan_sst_not_in_manifest_is_ignored = true.
Proof. vm_compute. reflexivity. Qed.

Example recovery_survives_repeated_reopen_without_flush_passes : passes recovery_survives_repeated_reopen_without_flush = true.
Proof. vm_compute. reflexivity. Qed.

Example recovery_reappends_replayed_tombstone_passes : passes recovery_reappends_replayed_tombstone = true.
Proof. vm_compute. reflexivity. Qed.

Example manifest_referenced_sst_corrupt_fails_on_first_read_passes : passes manifest_referenced_sst_corrupt_fails_on_first_read = true.
Proof. vm_compute. reflexivity. Qed.

Example orphan_wal_not_matching_pattern_ignored_passes : passes orphan_wal_not_matching_pattern_ignored = true.
Proof. vm_compute. reflexivity. Qed.

Example recovery_is_idempotent_across_reopens_passes : passes recovery_is_idempotent_across_reopens = true.
Proof. vm_compute. reflexivity. Qed.

Example tombstone_shadows_across_flush_generations_passes : passes tombstone_shadows_across_flush_generations = true.
Proof. vm_compute. reflexivity. Qed.

Example many_small_flushes_recover_passes : passes many_small_flushes_recover = true.
Proof. vm_compute. reflexivity. Qed.

Example compact_merges_l0_to_l1_passes : passes compact_merges_l0_to_l1 = true.
Proof. vm_compute. reflexivity. Qed.

Example compact_noop_when_no_l0_passes : passes compact_noop_when_no_l0 = true.
Proof. vm_compute. reflexivity. Qed.

Example compact_merge_with_existing_l1_passes : passes compact_merge_with_existing_l1 = true.
Proof. vm_compute. reflexivity. Qed.

Example compact_drops_final_tombstone_passes : passes compact_drops_final_tombstone = true.
Proof. vm_compute. reflexivity. Qed.

Example compact_empty_result_removes_all_files_passes : passes compact_empty_result_removes_all_files = true.
Proof. vm_compute. reflexivity. Qed.

Example recovery_across_compact_cycles_passes : passes recovery_across_compact_cycles = true.
Proof. vm_compute. reflexivity. Qed.

Example auto_compact_after_many_flushes_passes : passes (auto_compact_after_many_flushes 60) = true.
Proof. vm_compute. reflexivity. Qed.

Example compaction_threshold_zero_disables_auto_compact_passes : passes compaction_threshold_zero_disables_auto_compact = true.
Proof. vm_compute. reflexivity. Qed.

End Tests.
