(* ===== verification/ThreadKit.v ===== *)
(** * Tests that race threads on one engine

    The vocabulary of [ThreadTests] and [IntegrationTests], and what the ends of
    those tests rely on.  A test is a statement about every interleaving of its
    threads: [threads] start on the machine that the sequential part of the test
    has left, any number of calls of the kinds the test makes is under way, and
    when all of them have returned the rest of the test passes. *)

From S2P Require Import Prelude Outcome External Fs MemTable Wal WalWriter WalReader.
From S2P Require Import StdVec SstRecord SstIndex Bloom Builder Reader Merge Manifest.
From S2P Require Import Names KvSpec Engine EngineSpec EngineGet EnginePut EngineFlush EngineCommit EngineOpen.
From S2P Require Import EngineRecover EngineRefine Threads ThreadInv ThreadSafe EngineTheorems ThreadTheorems TestKit EngineTests.

Module ThreadKit.
Import Sample Tests.

Abbreviation Config := Threads.config.

(** ** The vocabulary *)

(** The machine after the sequential part of a test. *)
Definition after (o : LsmOptions) (rs : list request) : Sys := (session rs (start o)).2.

Definition seed (k v : string) : request := ReqPut (as_bytes k) (as_bytes v).

(** Every call so far returned, and not with an error. *)
Definition succeeds (c : Config) : Prop :=
  forall i t o, pool c !! i = Some t -> ctl t = Done o -> exists v, o = Ok v.

(** Every [get] of the key so far returned such a value. *)
Definition reads_only (k : string) (Q : option bytes -> Prop) (c : Config) : Prop :=
  forall i t o, pool c !! i = Some t -> job t = ReqGet (as_bytes k) -> ctl t = Done o -> exists v, o = Ok v /\ Q v.

(** [engine.get(k).unwrap()] always returned [v]. *)
Definition always_reads (k v : string) : Config -> Prop := reads_only k (eq (Some (as_bytes v))).

(** Every one of the requests was called. *)
Definition all_called (rs : list request) (xs : list action) : Prop := forall r, r ∈ rs -> exists j, Call j r ∈ xs.

(** ** Replies and histories *)

(** Requests of small keys and values never fail. *)
Definition small_request (r : request) : bool :=
  match r with
  | ReqPut k v => match oversize k v with None => true | Some _ => false end
  | ReqDelete k => match oversize k [] with None => true | Some _ => false end
  | _ => true
  end.

Lemma run_succeeds m s n P c :
  rep m s -> (forall i r, P i r -> small_request r = true) -> rtc (limited_step P) (launch n s) c -> succeeds c.
Proof.
  intros [b Hrep]%rep_has_base HP Hrun i t o Ht Ho. pose proof (as_pool _ _ (asked_run _ _ _ _ Hrun) i t Ht) as Ha.
  destruct (run_answered _ _ _ _ _ _ _ _ Hrep (limited_roomy _ _ _ Hrun) Ht Ho) as (_ & _ & H). destruct (missed t).
  - destruct H as (k & v & _ & -> & _). by exists v.
  - destruct H as (j & _ & ->).
    assert (small_request (job t) = true) as Hs by (destruct Ha as [H%HP|[_ ->]]; done).
    destruct (job t); cbn [spec_reply small_request] in *; try case_match; try done; by eexists.
Qed.

Lemma run_value (n : nat) (s : Sys) (P : nat -> request -> Prop) (k : bytes) (Q : option bytes -> Prop) (m : kvmap) c :
  Q (m !! k) -> writes_only P k Q -> rtc (limited_step P) (launch n s) c -> Q (replay m (Threads.history c) !! k).
Proof. intros Hk Hw Hrun. apply (replay_only P); [done|exact (as_history _ _ (asked_run _ _ _ _ Hrun))|done]. Qed.

(** Either nothing lies in the active memtable at the start, or no call writes
    the key: a [get] cannot miss an entry and find an older one. *)
Definition unlagging (s : Sys) (P : nat -> request -> Prop) (k : bytes) : Prop :=
  fresh_active s = true \/ forall i r, P i r -> ~ writes_key k r.

Lemma run_reads m s n P (k : string) (Q : option bytes -> Prop) c :
  rep m s -> Q (m !! as_bytes k) -> writes_only P (as_bytes k) Q -> unlagging s P (as_bytes k) ->
  rtc (limited_step P) (launch n s) c -> reads_only k Q c /\ Q (replay m (Threads.history c) !! as_bytes k).
Proof.
  intros Hrep Hk Hw Hu Hrun. pose proof (limited_roomy _ _ _ Hrun) as Hr.
  pose proof (as_history _ _ (asked_run _ _ _ _ Hrun)) as Hh. split; [|by eapply run_value].
  assert (exists b, rep_over m b s /\ forall i r, P i r -> writes_key (as_bytes k) r -> Q (b (as_bytes k))) as (b & Hb & HQ).
  { destruct Hu as [Hf|Hu]; [exists (fun k => m !! k); split; [by apply fresh_over|done]|].
    destruct (rep_has_base m s Hrep) as [b Hb]. exists b. split; [done|]. intros i r HP Hwr. by destruct (Hu i r HP). }
  intros i t o Ht Hj Ho. pose proof (run_answered _ _ _ _ _ _ _ _ Hb Hr Ht Ho) as Ha. rewrite Hj in Ha.
  by eapply answered_only.
Qed.

(** A write that has been answered is in the history. *)
Lemma done_written m s n c i t :
  rep m s -> rtc roomy_step (launch n s) c -> pool c !! i = Some t -> busy (ctl t) = false ->
  effect (job t) = [job t] -> (i, job t) ∈ Threads.history c.
Proof.
  intros [b Hrep]%rep_has_base Hrun Ht Hb He. destruct (ctl t) eqn:Ec; try done.
  destruct (run_answered _ _ _ _ _ _ _ _ Hrep Hrun Ht Ec) as (_ & Ho & _). rewrite He in Ho.
  assert (job t ∈ owns i (segment (since t) (upto t) (Threads.history c))) as Hw by (rewrite Ho; apply list_elem_of_here).
  unfold owns in Hw. apply list_elem_of_omap in Hw as ([j r] & Hin & Hj). cbn in Hj. case_decide; [|done].
  injection Hj as ->. subst j. unfold segment in Hin.
  rewrite <- (take_drop (since t) (Threads.history c)), elem_of_app. right.
  rewrite <- (take_drop (upto t - since t) (drop (since t) (Threads.history c))), elem_of_app. by left.
Qed.

(** A write that was called is in the history, or the last one of its thread. *)
Lemma called_written m s n xs c i r :
  rep m s -> play xs (launch n s) = Some c -> Call i r ∈ xs -> effect r = [r] ->
  (i, r) ∈ Threads.history c \/ exists t, pool c !! i = Some t /\ job t = r.
Proof.
  intros Hrep. revert c. induction xs as [|x xs IH] using rev_ind; intros c Hp Hin He; [by apply not_elem_of_nil in Hin|].
  rewrite play_app in Hp. cbn [play mbind option_bind] in Hp.
  destruct (play xs (launch n s)) as [c1|] eqn:H1; [|done]. pose proof (play_steps _ _ _ H1) as Hrun1.
  cbn [mbind option_bind] in Hp. destruct (roomy c1); [|done].
  destruct (perform x c1) as [c2|] eqn:H2; [|done]. injection Hp as ->.
  destruct x as [j q|j]; cbn in H2; destruct (pool c1 !! j) as [tj|] eqn:Hj; try done; cbn in H2.
  - destruct (Threads.start q); [|done]. cbn in H2. destruct (negb (busy (ctl tj)) && _) eqn:Hb; [|done].
    injection H2 as <-. apply andb_true_iff in Hb as [Hb%negb_true_iff _]. cbn [Threads.history pool].
    apply elem_of_app in Hin as [Hin|[= <- <-]%list_elem_of_singleton].
    2: { right. eexists. by rewrite list_lookup_insert_eq by (by eapply lookup_lt_Some). }
    destruct (IH c1 eq_refl Hin He) as [H|(t & Ht & <-)]; [by left|].
    destruct (decide (i = j)) as [->|Hne]; [|right; exists t; by rewrite list_lookup_insert_ne by done].
    left. rewrite Hj in Ht. injection Ht as <-. by eapply done_written.
  - destruct (busy (ctl tj) && _); [|done]. injection H2 as <-.
    apply elem_of_app in Hin as [Hin|Hin%list_elem_of_singleton]; [|done].
    unfold advance. destruct (next (gap_at c1) (ctl tj) (Threads.sys c1)) as [p s']. cbn [Threads.history pool].
    destruct (IH c1 eq_refl Hin He) as [H|(t & Ht & <-)]; [left; apply elem_of_app; by left|].
    right. destruct (decide (i = j)) as [->|Hne].
    + rewrite Hj in Ht. injection Ht as <-. eexists. by rewrite list_lookup_insert_eq by (by eapply lookup_lt_Some).
    + exists t. by rewrite list_lookup_insert_ne by done.
Qed.

(** When all calls have returned, a key that was put has a value that calls
    write to it. *)
Lemma replay_put (P : nat -> request -> Prop) (k v : bytes) (Q : option bytes -> Prop) m h i :
  writes_only P k Q -> Forall (fun w => P w.1 w.2) h -> oversize k v = None ->
  (i, ReqPut k v) ∈ h -> Q (replay m h !! k).
Proof.
  intros Hw Hh Hsz (h1 & h2 & ->)%list_elem_of_split. apply Forall_app in Hh as [_ [Hi Hh]%Forall_cons].
  rewrite replay_app. cbn [foldl spec_next snd]. rewrite Hsz.
  apply (replay_only P k Q _ h2 Hw Hh). rewrite lookup_insert_eq. by apply (proj1 Hw i).
Qed.

Lemma end_put m s n P xs c (k v : bytes) (Q : option bytes -> Prop) :
  rep m s -> play xs (launch n s) = Some c -> Forall (calls P) xs -> quiescent c -> writes_only P k Q ->
  oversize k v = None -> all_called [ReqPut k v] xs -> Q (replay m (Threads.history c) !! k).
Proof.
  intros Hrep Hp HP Hq Hw Hsz Hall. destruct (Hall (ReqPut k v) (list_elem_of_here _ _)) as [i Hi].
  pose proof (play_limited _ _ _ _ Hp HP) as Hrun.
  assert (effect (ReqPut k v) = [ReqPut k v]) as He by (cbn [effect]; by rewrite Hsz).
  eapply (replay_put P _ v _ _ _ i); [exact Hw|apply (as_history _ _ (asked_run _ _ _ _ Hrun))|exact Hsz|].
  destruct (called_written _ _ _ _ _ _ _ Hrep Hp Hi He) as [H|(t & Ht & Ej)]; [exact H|].
  rewrite <- Ej. unfold quiescent in Hq. rewrite Forall_forall in Hq.
  eapply done_written; [exact Hrep|by eapply play_steps|done|by eapply Hq, list_elem_of_lookup_2|]. by rewrite Ej.
Qed.

(** ** The ends of the tests *)

Lemma after_rep o rs : bool_decide (session_room rs (start o)) = true -> rep (spec_session rs ∅).2 (after o rs).
Proof.
  intros Hroom%bool_decide_eq_true. unfold after.
  destruct (session_ok (K := engine_store) rs ∅ (start o) (start_rep o) Hroom) as (s & Hrun & Hrep).
  rewrite Hrun. exact Hrep.
Qed.

(** A part of a test that passes on every machine that represents [m] and
    leaves one that represents [m'], with a log and files as large as before
    where [keeps] holds. *)
Definition checks (m : kvmap) (t : M Sys unit) : Prop :=
  forall s, rep m s -> exists e, t s = (Ok tt, (s.1, e)) /\ cached s.2 e /\ rep m (s.1, e).

Lemma checks_pass m t s : rep m s -> checks m t -> TestKit.passes s t = true.
Proof. intros Hr Ht. destruct (Ht s Hr) as (e & Hrun & _). by eapply passes_run. Qed.

Lemma checks_each {A} m (f : A -> M Sys unit) l : (forall x, x ∈ l -> checks m (f x)) -> checks m (for_each l f).
Proof.
  induction l as [|x l IH]; intros Hl s Hr; [exists s.2; destruct s; split_and!; [done|apply cached_refl|done]|].
  cbn [for_each]. destruct (Hl x (list_elem_of_here _ _) s Hr) as (e & Hrun & Hc & Hr').
  destruct (IH (fun y Hy => Hl y (list_elem_of_further _ _ _ Hy)) _ Hr') as (e' & Hrun' & Hc' & Hr'').
  exists e'. rewrite (M_bind_ok _ _ _ _ _ Hrun). split_and!; [done|by eapply cached_trans|done].
Qed.

(** [engine.get(k).unwrap()] and a check of its value. *)
Lemma checks_get m k (f : option bytes -> M Sys unit) :
  (forall s, f (m !! as_bytes k) s = (Ok tt, s)) -> checks m (r ← unwrap (Engine.get (as_bytes k)); f r).
Proof.
  intros Hf [fs e] (T & a & Hok & Hv). cbn [fst snd] in *.
  destruct (engine_get_ok fs e T a (as_bytes k) Hok) as (e' & Hrun & Hc & Hok'). exists e'. split_and!; [|done|].
  - rewrite (M_bind_ok _ _ _ _ _ (unwrap_ok _ _ _ _ Hrun)), Hv. apply Hf.
  - exists T, a. split; [done|]. intros k'. cbn [snd]. by rewrite (cached_view _ _ _ _ Hc).
Qed.

Lemma checks_value m k v : m !! as_bytes k = Some (as_bytes v) -> checks m (gets_value k v).
Proof. intros Hk. apply (checks_get m k (fun r => assert_eq r (Some (as_bytes v)))). intros s. by apply assert_eq_ok. Qed.

Lemma checks_none m k : m !! as_bytes k = None -> checks m (gets_none k).
Proof. intros Hk. apply (checks_get m k (fun r => assert_eq r None)). intros s. by apply assert_eq_ok. Qed.

(** The number of tables on disk, after a flush of an engine that is not
    empty. *)
Definition count_sst : M Sys nat :=
  names ← unwrap (on_fs fs_read_dir);
  mret (length (base.filter (fun n => String.prefix "L0_" n = true \/ String.prefix "L1_" n = true) names)).

Lemma sst_prefix l q : (l < 2)%nat -> String.prefix "L0_" (sst_name l q) = true \/ String.prefix "L1_" (sst_name l q) = true.
Proof.
  assert (forall d : byte, d = x30 \/ d = x31 -> forall bs, let s := to_string (x4c :: d :: x5f :: bs) in
    String.prefix "L0_" s = true \/ String.prefix "L1_" s = true) as H.
  { intros d [-> | ->] bs; [left|right]; cbn; by destruct (String.string_of_list_ascii _). }
  intros Hl. apply H. destruct l as [|[|l]]; [left|right|lia]; vm_compute; reflexivity.
Qed.

Lemma live_counted fs e T a l i : engine_ok fs e T a -> live e l i -> exists n, count_sst (fs, e) = (Ok n, (fs, e)) /\ (0 < n)%nat.
Proof.
  intros Hok Hl. destruct (live_handle _ _ _ _ _ _ Hok Hl) as (h & _ & Hh & _).
  destruct (ho_file _ _ _ _ Hh) as (ino & Hd & _). rewrite (ho_name _ _ _ _ Hh) in Hd.
  assert (fs_read_dir fs = (Ok (map_to_list (dirents fs)).*1, fs)) as Hrun
    by (unfold fs_read_dir, syscall; by rewrite (eo_faults _ _ _ _ Hok)).
  eexists. split.
  - unfold count_sst. by rewrite (M_bind_ok _ _ _ _ _ (unwrap_ok _ _ _ _ (on_fs_run _ fs e _ _ Hrun))).
  - apply Nat.neq_0_lt_0. rewrite length_zero_iff_nil. apply not_eq_sym. intros H. symmetry in H. revert H.
    apply elem_of_not_nil with (sst_name l (Manifest.seq (meta h))), list_elem_of_filter. split.
    + apply sst_prefix. destruct Hl as (ids & Hl%lookup_lt_Some & _).
      pose proof (ta_levels _ _ _ (eo_tables _ _ _ _ Hok)). lia.
    + apply list_elem_of_fmap. exists (sst_name l (Manifest.seq (meta h)), ino). split; [done|]. by apply elem_of_map_to_list.
Qed.

(** A key that no memtable holds is in a table. *)
Lemma tables_hold e T a t k v :
  active (state e) = Some a -> immutables (state e) = [] -> mems e !! a = Some t -> iter t = [] ->
  view e T k = Some v -> exists l i, live e l i.
Proof.
  intros Ha Him Ht Hit Hv. unfold view, sources, mem_sources in Hv. rewrite Ha, Him in Hv. cbn in Hv.
  assert (mem_entry (mems e) a k = None) as Hn by (unfold mem_entry; rewrite Ht; change (get_entry t k = None); by rewrite <- iter_get_entry, Hit).
  rewrite Hn in Hv. destruct (concat (reverse <$> levels (state e))) as [|i l] eqn:Ec;
    [unfold table_sources in Hv; by rewrite Ec in Hv|].
  assert (i ∈ concat (reverse <$> levels (state e))) as Hi by (rewrite Ec; apply list_elem_of_here).
  apply list_elem_of_In, in_concat in Hi as (r & Hr%list_elem_of_In & Hi%list_elem_of_In).
  apply list_elem_of_fmap in Hr as (ids & -> & Hids%list_elem_of_lookup). destruct Hids as [j Hj].
  exists j, i, ids. split; [done|]. by rewrite elem_of_reverse in Hi.
Qed.

Lemma flush_counts m s k v :
  rep m s -> room ReqFlush s -> m !! k = Some v ->
  exists s' n, flushes s = (Ok tt, s') /\ rep m s' /\ count_sst s' = (Ok n, s') /\ (0 < n)%nat.
Proof.
  destruct s as [fs e]. intros (T & a & Hok & Hv) [Hsm Hroom] Hk. cbn [fst snd] in *.
  destruct (flush_ok fs e T a Hok Hsm Hroom) as (fs' & e' & T' & a' & t & Hrun & Hok' & Him & Ht & Hit & _ & _ & _ & Hv').
  destruct (tables_hold e' T' a' t k v) as (l & i & Hl); try done; [by apply Hok'|by rewrite Hv', Hv|].
  destruct (live_counted _ _ _ _ _ _ Hok' Hl) as (n & Hn & Hpos). exists (fs', e'), n. split_and!; try done.
  - by apply unwrap_ok.
  - exists T', a'. split; [done|]. intros k'. cbn [snd]. by rewrite Hv'.
Qed.

Lemma flushes_ok m s : rep m s -> room ReqFlush s -> exists s', flushes s = (Ok tt, s') /\ rep m s'.
Proof.
  destruct s as [fs e]. intros (T & a & Hok & Hv) [Hsm Hroom]. cbn [fst snd] in *.
  destruct (flush_ok fs e T a Hok Hsm Hroom) as (fs' & e' & T' & a' & t & Hrun & Hok' & _ & _ & _ & _ & _ & _ & Hv').
  exists (fs', e'). split; [by apply unwrap_ok|]. exists T', a'. split; [done|]. intros k'. cbn [snd]. by rewrite Hv'.
Qed.

Lemma flushed_served s s' : flushes s = (Ok tt, s') -> (serve ReqFlush s).2 = s'.
Proof.
  unfold flushes, unwrap, serve, unit_reply, try_, mbind, M_bind. intros H.
  destruct (flush s) as [[[]|err| |] s1]; cbn in *; try discriminate H. by injection H.
Qed.

Lemma checks_seq m t1 t2 : checks m t1 -> checks m t2 -> checks m (_ ← t1; t2).
Proof.
  intros H1 H2 s Hr. destruct (H1 s Hr) as (e & Hrun & Hc & Hr'). destruct (H2 _ Hr') as (e' & Hrun' & Hc' & Hr'').
  exists e'. rewrite (M_bind_ok _ _ _ _ _ Hrun). split_and!; [done|by eapply cached_trans|done].
Qed.

Lemma session_room_app (rs1 rs2 : list request) (s : Sys) :
  session_room (rs1 ++ rs2) s -> session_room rs1 s /\ session_room rs2 (session rs1 s).2.
Proof.
  revert s. induction rs1 as [|r rs1 IH]; intros s; [done|]. intros [Hr H]. cbn [session].
  destruct (kv_serve r s) as [o s1] eqn:E. cbn [snd] in H. destruct (IH s1 H) as [H1 H2].
  destruct (session rs1 s1) as [os s2]. split; [|exact H2]. cbn [session_room]. by rewrite E.
Qed.

(** A run of puts. *)
Lemma puts_ok (l : list nat) (k v : nat -> string) m s :
  let rs := (fun i => seed (k i) (v i)) <$> l in
  (forall i, oversize (as_bytes (k i)) (as_bytes (v i)) = None) -> rep m s -> session_room rs s ->
  exists s', for_each l (fun i => puts (k i) (v i)) s = (Ok tt, s') /\ rep (replay m ((fun r => (0%nat, r)) <$> rs)) s' /\
    s' = (session rs s).2.
Proof.
  intros rs Hsz. revert m s. induction l as [|i l IH]; intros m s Hr Hroom; [by exists s|].
  destruct Hroom as [Hroom Hrest]. destruct (serve_ok (seed (k i) (v i)) m s Hr Hroom) as (s1 & Hrun & Hr1).
  cbn [kv_serve engine_store] in Hrest. rewrite Hrun in Hrest.
  assert (puts (k i) (v i) s = (Ok tt, s1)) as Hput.
  { apply unwrap_ok. unfold seed in Hrun. cbn [serve spec_reply] in Hrun. rewrite Hsz in Hrun.
    unfold unit_reply, mbind, M_bind in Hrun. destruct (Engine.put _ _ s) as [[[]| | |] s2]; try discriminate Hrun.
    by injection Hrun as <-. }
  destruct (IH _ s1 Hr1 Hrest) as (s' & Hrun' & Hr' & E). exists s'. cbn [for_each]. rewrite (M_bind_ok _ _ _ _ _ Hput).
  split_and!; [done|exact Hr'|]. subst rs. rewrite fmap_cons. cbn [session kv_serve engine_store]. rewrite Hrun.
  destruct (session _ s1) as [os s2]. exact E.
Qed.

(** The engine is dropped and opened again, with any options. *)
Lemma reopens_pass o m s t : rep m s -> room ReqReopen s -> checks m t ->
  TestKit.passes s (_ ← drops; _ ← open_dir_opts o; t) = true.
Proof.
  destruct s as [fs e]. intros (T & a & Hok & Hv) (Hfit & Hlog & Hroom) Ht. cbn [fst snd] in *.
  destruct (close_reopen fs e T a o Hok Hfit Hlog Hroom) as (fs1 & e1 & e' & fs' & T' & Hd & Ho & Hok' & Hv').
  refine (passes_step _ _ _ _ _ Hd _). refine (passes_step _ _ _ tt (fs', e') _ _).
  - unfold open_dir_opts. by rewrite (M_bind_ok _ _ _ _ _ (unwrap_ok _ _ _ _ (on_fs_run _ fs1 e1 _ _ Ho))).
  - eapply checks_pass; [|exact Ht]. exists T', 0%nat. split; [done|]. intros k. cbn [snd]. by rewrite Hv'.
Qed.

Lemma drops_pass m s : rep m s -> room ReqReopen s -> TestKit.passes s drops = true.
Proof.
  destruct s as [fs e]. intros (T & a & Hok & _) (Hfit & Hlog & _). cbn [fst snd] in *.
  destruct (drop_engine_ok fs e T a Hok Hfit Hlog) as (fs' & e' & Hd & _). by eapply passes_run.
Qed.

(** After checks, too: they change neither the files nor the log. *)
Lemma checks_then m s t1 t2 :
  rep m s -> checks m t1 -> (forall s', rep m s' -> s'.1 = s.1 -> cached s.2 s'.2 -> TestKit.passes s' t2 = true) ->
  TestKit.passes s (_ ← t1; t2) = true.
Proof.
  intros Hr H1 H2. destruct (H1 s Hr) as (e & Hrun & Hc & Hr'). refine (passes_step _ _ _ _ _ Hrun _). by apply H2.
Qed.

Lemma cached_room m s s' : rep m s -> s'.1 = s.1 -> cached s.2 s'.2 -> room ReqReopen s -> room ReqReopen s'.
Proof.
  intros _ E Hc. unfold room. destruct (cached_state _ _ Hc) as (_ & _ & Ew & Enx & _). by rewrite E, Ew, Enx.
Qed.

(** ** Small keys *)

Lemma small_put p w i v :
  (length (as_bytes p) + w <= 1000)%nat -> (length (as_bytes v) <= 1000)%nat ->
  oversize (as_bytes (fmt p w i)) (as_bytes v) = None.
Proof.
  intros Hp Hv. apply oversize_None. pose proof (length_fmt p w i). unfold len.
  split; etransitivity; [|by apply (Z.leb_le 2000)| |by apply (Z.leb_le 2000)]; lia.
Qed.

Lemma put_inj k v k' v' : ReqPut k v = ReqPut k' v' -> k = k' /\ v = v'.
Proof. by intros [= -> ->]. Qed.

(** A request that writes nothing. *)
Definition quiet (r : request) : Prop := match r with ReqPut _ _ | ReqDelete _ => False | _ => True end.

Lemma quiet_small r : quiet r -> small_request r = true.
Proof. by destruct r. Qed.

(** A test whose calls put values under numbered keys, and make requests that
    write nothing. *)
Section numbered.
Variables (p : string) (w : nat) (value : nat -> string) (bound : nat).
Hypothesis Hp : (length (as_bytes p) + w <= 1000)%nat.
Hypothesis Hvalue : forall i, (length (as_bytes (value i)) <= 1000)%nat.
Hypothesis Hbound : Z.of_nat bound <= u64_max.

Definition numbered_put (i : nat) : request := seed (fmt p w i) (value i).

Definition numbered_calls (P : nat -> request -> Prop) : Prop :=
  forall i x, P i x -> quiet x \/ exists j, (j < bound)%nat /\ x = numbered_put j.

Lemma numbered_writes P i :
  numbered_calls P -> (i < bound)%nat -> writes_only P (as_bytes (fmt p w i)) (eq (Some (as_bytes (value i)))).
Proof.
  intros HP Hi. split; [intros j x [[]|(j' & Hj & Hx)]%HP|intros j [[]|(j' & _ & Hx)]%HP; discriminate Hx].
  apply put_inj in Hx as [Hk ->]. by apply fmt_inj in Hk as <-; [|lia..].
Qed.

Lemma numbered_size i : oversize (as_bytes (fmt p w i)) (as_bytes (value i)) = None.
Proof. by apply small_put. Qed.

Lemma numbered_puts (P : nat -> request -> Prop) m s n xs c :
  numbered_calls P -> rep m s -> play xs (launch n s) = Some c -> Forall (calls P) xs ->
  succeeds c /\
  (quiescent c -> all_called (numbered_put <$> List.seq 0 bound) xs ->
   forall i, i ∈ List.seq 0 bound -> replay m (Threads.history c) !! as_bytes (fmt p w i) = Some (as_bytes (value i))).
Proof.
  intros HP Hrep Hplay Hall. split.
  - refine (run_succeeds _ _ _ _ _ Hrep _ (play_limited _ _ _ _ Hplay Hall)).
    intros i x [Hx|(j & _ & ->)]%HP; [by apply quiet_small|]. cbn. by rewrite numbered_size.
  - intros Hq Hc i Hi. symmetry. pose proof Hi as Hi'%list_elem_of_In%in_seq.
    apply (end_put _ _ _ _ _ _ _ (as_bytes (value i)) (eq (Some (as_bytes (value i)))) Hrep Hplay Hall Hq);
      [apply numbered_writes; [done|lia]|by apply numbered_size|].
    intros x ->%list_elem_of_singleton. apply Hc, list_elem_of_fmap. by exists i.
Qed.
End numbered.
End ThreadKit.
