(* ===== verification/ThreadTests.v ===== *)
(** * The engine's threaded unit tests

    The tests of [src/src/engine.rs] that race threads, or the background
    worker, in the vocabulary of [ThreadKit]. *)

From S2P Require Import Prelude Outcome External Fs MemTable.
From S2P Require Import StdVec SstRecord SstIndex Bloom Builder Reader Merge Manifest.
From S2P Require Import Names KvSpec Engine EngineSpec EngineGet EngineRefine.
From S2P Require Import Threads ThreadInv ThreadSafe EngineTheorems ThreadTheorems TestKit EngineTests ThreadKit.

Module ThreadTests.
Import Sample Tests ThreadKit.

(** ** The tests *)

Definition concurrent_flushes_do_not_race : Prop :=
  forall c, rtc (limited_step (fun _ r => r = ReqFlush)) (launch 2 (after large [seed "k" "v"])) c ->
    succeeds c /\
    (quiescent c -> room ReqReopen (Threads.sys c) ->
     TestKit.passes (Threads.sys c)
       (_ ← gets_value "k" "v"; _ ← drops; _ ← open_dir; gets_value "k" "v") = true).

Definition get_during_flush_never_misses_committed_data : Prop :=
  forall c, rtc (limited_step (fun _ r => r = ReqFlush \/ r = ReqGet (as_bytes "k")))
      (launch 2 (after large [seed "k" "v"])) c ->
    succeeds c /\ always_reads "k" "v" c /\
    (quiescent c -> TestKit.passes (Threads.sys c) (gets_value "k" "v") = true).

Definition seeds : list request := ((fun i => seed (fmt "seed" 0 i) "s") <$> List.seq 0 50) ++ [ReqFlush].

Definition wrote (i : nat) : request := seed (fmt "w" 0 i) "v".

Definition putting_compacting (_ : nat) (r : request) : Prop :=
  r = ReqCompact \/ exists i, (i < 2000)%nat /\ r = wrote i.

Definition compact_while_putting_no_crash : Prop :=
  forall xs c, play xs (launch 2 (after large seeds)) = Some c -> Forall (calls putting_compacting) xs ->
    succeeds c /\
    (quiescent c -> all_called (wrote <$> List.seq 0 2000) xs -> room ReqFlush (Threads.sys c) ->
     TestKit.passes (Threads.sys c)
       (_ ← flushes; for_each (List.seq 0 2000) (fun i => gets_value (fmt "w" 0 i) "v")) = true).

(** The worker freezes and flushes while one client puts.  The test counts the
    tables of level 0 after the engine has been dropped; here the tables of
    either level are counted before. *)
Definition small_freezes : LsmOptions := mkLsmOptions 128 false 0.

Definition kept (i : nat) : request := seed (fmt "key" 5 i) "value-data".

Definition background_worker_recovery_consistency : Prop :=
  forall xs c, play xs (launch 1 (after small_freezes [])) = Some c ->
    Forall (calls (fun _ r => exists i, (i < 300)%nat /\ r = kept i)) xs ->
    succeeds c /\
    (quiescent c -> all_called (kept <$> List.seq 0 300) xs -> session_room [ReqFlush; ReqReopen] (Threads.sys c) ->
     TestKit.passes (Threads.sys c)
       (_ ← flushes; n ← count_sst; _ ← assert (1 <=? n)%nat; _ ← drops; _ ← open_dir_opts large;
        for_each (List.seq 0 300) (fun i => gets_value (fmt "key" 5 i) "value-data")) = true).

(** One turn of the test's loop.  That the worker of a dropped engine ends is
    not modelled; that no thread hangs is [threads_return]. *)
Definition few (i : nat) : request := seed (fmt "k" 0 i) "v".

Definition worker_drops_when_engine_dropped : Prop :=
  forall xs c, play xs (launch 1 (after (threshold 64) [])) = Some c ->
    Forall (calls (fun _ r => exists i, (i < 50)%nat /\ r = few i)) xs ->
    succeeds c /\
    (quiescent c -> session_room [ReqFlush; ReqReopen] (Threads.sys c) ->
     TestKit.passes (Threads.sys c) (_ ← flushes; drops) = true).

(** ** The tests pass *)

Theorem concurrent_flushes_do_not_race_passes : concurrent_flushes_do_not_race.
Proof.
  intros c Hrun. assert (rep _ (after large [seed "k" "v"])) as Hrep by (apply after_rep; vm_compute; reflexivity).
  split; [refine (run_succeeds _ _ _ _ _ Hrep _ Hrun); by intros i r ->|]. intros Hq Hroom.
  assert (Some (as_bytes "v") = replay (spec_session [seed "k" "v"] ∅).2 (Threads.history c) !! as_bytes "k") as Hend
    by (refine (run_value _ _ _ (as_bytes "k") (eq (Some (as_bytes "v"))) (spec_session [seed "k" "v"] ∅).2 c _ _ Hrun);
        [reflexivity|by split]).
  pose proof (run_rep _ _ _ _ Hrep (limited_roomy _ _ _ Hrun) Hq) as Hr.
  assert (checks _ (gets_value "k" "v")) as Hk by (apply checks_value; exact (eq_sym Hend)).
  apply (checks_then _ _ _ _ Hr Hk). intros s' Hr' E Hc. 
  exact (reopens_pass default_options _ _ _ Hr' (cached_room _ _ _ Hr E Hc Hroom) Hk).
Qed.

Theorem get_during_flush_never_misses_committed_data_passes : get_during_flush_never_misses_committed_data.
Proof.
  intros c Hrun. assert (rep _ (after large [seed "k" "v"])) as Hrep by (apply after_rep; vm_compute; reflexivity).
  split; [refine (run_succeeds _ _ _ _ _ Hrep _ Hrun); by intros i r [-> | ->]|].
  destruct (fun Hw Hu => run_reads _ _ _ _ "k" (eq (Some (as_bytes "v"))) c Hrep eq_refl Hw Hu Hrun) as [H1 Hend];
    [split; naive_solver|right; by intros i r [-> | ->] [[v ?]|?]|]. split; [exact H1|]. intros Hq.
  eapply checks_pass; [exact (run_rep _ _ _ _ Hrep (limited_roomy _ _ _ Hrun) Hq)|]. apply checks_value. exact (eq_sym Hend).
Qed.

Lemma putting_numbered : numbered_calls "w" 0 (fun _ => "v") 2000 putting_compacting.
Proof. intros i x [->|(j & Hj & ->)]; [by left|right; by exists j]. Qed.

Theorem compact_while_putting_no_crash_passes : compact_while_putting_no_crash.
Proof.
  intros xs c Hp HP. assert (rep _ (after large seeds)) as Hrep by (apply after_rep; vm_compute; reflexivity).
  destruct (numbered_puts "w" 0 (fun _ => "v") 2000 ltac:(cbn; lia) ltac:(cbn; lia) ltac:(vm_compute; discriminate) putting_compacting _ _ _ _ _
    putting_numbered Hrep Hp HP) as [H1 H2].
  split; [exact H1|]. intros Hq Hall Hroom.
  destruct (flushes_ok _ _ (run_rep _ _ _ _ Hrep (play_steps _ _ _ Hp) Hq) Hroom) as (s' & Hf & Hrep').
  refine (passes_step _ _ _ _ _ Hf _). eapply checks_pass; [exact Hrep'|]. apply checks_each. intros i Hi.
  by apply checks_value, (H2 Hq Hall).
Qed.

Theorem background_worker_recovery_consistency_passes : background_worker_recovery_consistency.
Proof.
  intros xs c Hp HP. assert (rep _ (after small_freezes [])) as Hrep by (apply after_rep; vm_compute; reflexivity).
  destruct (fun H => numbered_puts "key" 5 (fun _ => "value-data") 300 ltac:(cbn; lia) ltac:(cbn; lia) ltac:(vm_compute; discriminate) _ _ _ _ _ _
    H Hrep Hp HP) as [H1 H2]; [intros i x (j & Hj & ->); right; by exists j|].
  split; [exact H1|]. intros Hq Hall (Hroom & Hre & _).
  destruct (flush_counts _ _ (as_bytes (fmt "key" 5 0)) (as_bytes "value-data")
    (run_rep _ _ _ _ Hrep (play_steps _ _ _ Hp) Hq) Hroom) as (s' & n & Hf & Hrep' & Hn & Hpos).
  { apply (H2 Hq Hall), list_elem_of_In, in_seq. lia. }
  refine (passes_step _ _ _ _ _ Hf _). refine (passes_step _ _ _ _ _ Hn _).
  refine (passes_step _ _ _ _ _ (assert_ok _ s' (proj2 (Nat.leb_le _ _) Hpos)) _).
  apply (reopens_pass _ _ _ _ Hrep').
  - by rewrite <- (flushed_served _ _ Hf).
  - apply checks_each. intros i Hi. by apply checks_value, (H2 Hq Hall).
Qed.

Theorem worker_drops_when_engine_dropped_passes : worker_drops_when_engine_dropped.
Proof.
  intros xs c Hp HP. assert (rep _ (after (threshold 64) [])) as Hrep by (apply after_rep; vm_compute; reflexivity).
  destruct (fun H => numbered_puts "k" 0 (fun _ => "v") 50 ltac:(cbn; lia) ltac:(cbn; lia) ltac:(vm_compute; discriminate)
    _ _ _ _ _ _ H Hrep Hp HP) as [H1 _]; [intros i x Hx; by right|].
  split; [exact H1|]. intros Hq (Hroom & Hre & _).
  destruct (flushes_ok _ _ (run_rep _ _ _ _ Hrep (play_steps _ _ _ Hp) Hq) Hroom) as (s' & Hf & Hr').
  refine (passes_step _ _ _ _ _ Hf _). apply (drops_pass _ _ Hr'). by rewrite <- (flushed_served _ _ Hf).
Qed.
End ThreadTests.
