(* ===== verification/IntegrationTests.v ===== *)
(** * The integration tests

    The tests of [src/tests/engine_integration.rs], which drive the public API
    from several threads, in the vocabulary of [ThreadKit]: each is a statement
    about every interleaving of its clients and the worker.  Which client makes
    a call, and how often a call that the test repeats is made, is left open. *)

From S2P Require Import Prelude Outcome External Fs MemTable.
From S2P Require Import StdVec SstRecord SstIndex Bloom Builder Reader Merge Manifest.
From S2P Require Import Names KvSpec Engine EngineSpec EngineGet EngineRefine.
From S2P Require Import Threads ThreadInv ThreadSafe EngineTheorems ThreadTheorems TestKit EngineTests ThreadKit.

Module IntegrationTests.
Import Sample Tests ThreadKit.

Definition small_opts : LsmOptions := mkLsmOptions (4 * 1024) false 2.
Definition no_auto_flush_opts : LsmOptions := mkLsmOptions usize_max false 0.

Definition gets (k : string) : request := ReqGet (as_bytes k).

(** ** [concurrent_put_get_consistency] *)

Definition WRITERS : nat := 4.
Definition PER_WRITER : nat := Z.to_nat 5000.

Definition writer_key (t i : nat) : string := fmt (fmt "w" 0 t +:+ "-") 5 i.
Definition writer_value (t : nat) : string := fmt "v" 0 t.
Definition writer_put (t i : nat) : request := seed (writer_key t i) (writer_value t).

Definition keyspace : list (nat * nat) := t ← List.seq 0 WRITERS; (fun i => (t, i)) <$> List.seq 0 PER_WRITER.

Definition putting_getting (_ : nat) (r : request) : Prop :=
  exists t i, (t < WRITERS)%nat /\ (i < PER_WRITER)%nat /\ (r = writer_put t i \/ r = gets (writer_key t i)).

Definition concurrent_put_get_consistency : Prop :=
  forall xs c, play xs (launch 8 (after small_opts [])) = Some c -> Forall (calls putting_getting) xs ->
    succeeds c /\
    (forall t i, (t < WRITERS)%nat -> (i < PER_WRITER)%nat ->
       reads_only (writer_key t i) (fun got => got = None \/ got = Some (as_bytes (writer_value t))) c) /\
    (quiescent c -> all_called ((fun '(t, i) => writer_put t i) <$> keyspace) xs -> room ReqFlush (Threads.sys c) ->
     TestKit.passes (Threads.sys c)
       (_ ← flushes; n ← count_sst; _ ← assert (0 <? n)%nat;
        for_each keyspace (fun '(t, i) => gets_value (writer_key t i) (writer_value t))) = true).

(** The writer of a key shows in its second byte. *)
Lemma writer_of_key t i t' i' :
  (t < WRITERS)%nat -> (t' < WRITERS)%nat -> as_bytes (writer_key t i) = as_bytes (writer_key t' i') -> t = t'.
Proof.
  assert (forall t i, (t < WRITERS)%nat -> as_bytes (writer_key t i) !! 1%nat = Some (digit (Z.of_nat t))) as H.
  { intros u j Hu. unfold WRITERS in Hu. unfold writer_key, fmt at 1. rewrite as_bytes_app.
    do 4 (destruct u as [|u]; [reflexivity|]). lia. }
  intros Ht Ht' He. pose proof (H t i Ht) as H1. rewrite He, (H t' i' Ht') in H1. injection H1 as H1.
  apply (f_equal b2z) in H1. unfold WRITERS in *. rewrite !b2z_digit in H1 by lia. lia.
Qed.

Lemma writer_writes t i (Q : option bytes -> Prop) :
  (t < WRITERS)%nat -> Q (Some (as_bytes (writer_value t))) -> writes_only putting_getting (as_bytes (writer_key t i)) Q.
Proof.
  intros Ht HQ. split; [intros _ v (t' & i' & Ht' & _ & [H|H])|intros _ (t' & i' & _ & _ & [H|H])]; try discriminate H.
  apply put_inj in H as [Hk ->]. by rewrite <- (writer_of_key _ _ _ _ Ht Ht' Hk).
Qed.

Lemma writer_small t i : (t < WRITERS)%nat -> oversize (as_bytes (writer_key t i)) (as_bytes (writer_value t)) = None.
Proof.
  intros Ht. unfold WRITERS in Ht. apply small_put.
  - rewrite as_bytes_app, length_app. pose proof (length_fmt "w" 0 t) as H.
    change (length (as_bytes "w")) with 1%nat in H. change (length (as_bytes "-")) with 1%nat. lia.
  - pose proof (length_fmt "v" 0 t) as H. change (length (as_bytes "v")) with 1%nat in H. unfold writer_value. lia.
Qed.

Theorem concurrent_put_get_consistency_passes : concurrent_put_get_consistency.
Proof.
  intros xs c Hp HP. assert (rep _ (after small_opts [])) as Hrep by (apply after_rep; vm_compute; reflexivity).
  set (m := (spec_session [] ∅).2) in Hrep. pose proof (play_limited _ _ _ _ Hp HP) as Hrun. split_and!.
  - refine (run_succeeds _ _ _ _ _ Hrep _ Hrun). intros _ r (t & i & Ht & _ & [-> | ->]); [|done].
    cbn. by rewrite writer_small.
  - intros t i Ht _. eapply (run_reads _ _ _ _ _ _ _ Hrep);
      [by left|apply (writer_writes _ _ _ Ht); by right|left; vm_compute; reflexivity|exact Hrun].
  - intros Hq Hall Hroom. pose proof (run_rep _ _ _ _ Hrep (play_steps _ _ _ Hp) Hq) as Hr.
    assert (forall t i, (t, i) ∈ keyspace -> replay m (Threads.history c) !! as_bytes (writer_key t i)
      = Some (as_bytes (writer_value t))) as Hk.
    { intros t i Hin. assert (t < WRITERS)%nat as Ht.
      { apply list_elem_of_bind in Hin as (t' & Hi & Ht%list_elem_of_In%in_seq).
        apply list_elem_of_fmap in Hi as (i' & [= -> _] & _). lia. }
      symmetry. apply (end_put _ _ _ _ _ _ _ (as_bytes (writer_value t)) (eq (Some (as_bytes (writer_value t))))
        Hrep Hp HP Hq); [by apply writer_writes|by apply writer_small|].
      intros r ->%list_elem_of_singleton. apply Hall, list_elem_of_fmap. by exists (t, i). }
    destruct (flush_counts _ _ _ _ Hr Hroom (Hk 0%nat 0%nat ltac:(apply list_elem_of_here))) as (s' & n & Hf & Hr' & Hn & Hpos).
    refine (passes_step _ _ _ _ _ Hf _). refine (passes_step _ _ _ _ _ Hn _).
    refine (passes_step _ _ _ _ _ (assert_ok _ s' (proj2 (Nat.ltb_lt _ _) Hpos)) _).
    eapply checks_pass; [exact Hr'|]. apply checks_each. intros [t i] Hi. by apply checks_value, Hk.
Qed.

(** ** [concurrent_overwrite_last_writer_wins] *)

Definition THREADS : nat := 4.
Definition KEYS : nat := 100.
Definition MAX_WRITER_DIGIT : Z := 48 + (Z.of_nat THREADS - 1).

Definition contended_key (i : nat) : string := fmt "k" 0 i.
Definition overwrite (t i : nat) : request := seed (contended_key i) (fmt "" 0 t).

(** [v.len() == 1 && v[0].is_ascii_digit() && v[0] <= MAX_WRITER_DIGIT] *)
Definition complete (v : bytes) : bool :=
  match v with
  | [b] => (48 <=? b2z b) && (b2z b <=? 57) && (b2z b <=? MAX_WRITER_DIGIT)
  | _ => false
  end.

Definition overwriting (_ : nat) (r : request) : Prop :=
  r = ReqFlush \/ r = ReqCompact \/
  exists t i, (t < THREADS)%nat /\ (i < KEYS)%nat /\ (r = overwrite t i \/ r = gets (contended_key i)).

Definition concurrent_overwrite_last_writer_wins : Prop :=
  forall xs c, play xs (launch 5 (after small_opts [])) = Some c -> Forall (calls overwriting) xs ->
    succeeds c /\
    (forall i, (i < KEYS)%nat ->
       reads_only (contended_key i) (fun got => match got with Some v => complete v = true | None => True end) c) /\
    (quiescent c -> all_called (t ← List.seq 0 THREADS; overwrite t <$> List.seq 0 KEYS) xs ->
     room ReqFlush (Threads.sys c) ->
     TestKit.passes (Threads.sys c)
       (_ ← flushes;
        for_each (List.seq 0 KEYS) (fun i =>
          r ← unwrap (Engine.get (as_bytes (contended_key i))); v ← TestKit.some r; assert (complete v))) = true).

Lemma digit_complete t : (t < THREADS)%nat -> complete (as_bytes (fmt "" 0 t)) = true.
Proof. unfold THREADS. intros Ht. do 4 (destruct t as [|t]; [reflexivity|]). lia. Qed.

Lemma overwrite_small t i : oversize (as_bytes (contended_key i)) (as_bytes (fmt "" 0 t)) = None.
Proof.
  apply small_put; [cbn; lia|]. pose proof (length_fmt "" 0 t) as H. change (length (as_bytes "")) with 0%nat in H. lia.
Qed.

Lemma overwrite_writes (k : bytes) (Q : option bytes -> Prop) :
  (forall v, complete v = true -> Q (Some v)) -> writes_only overwriting k Q.
Proof.
  intros HQ. split; [intros _ v [H|[H|(t & i & Ht & _ & [H|H])]]|intros _ [H|[H|(t & i & _ & _ & [H|H])]]];
    try discriminate H.
  apply put_inj in H as [_ ->]. by apply HQ, digit_complete.
Qed.

Theorem concurrent_overwrite_last_writer_wins_passes : concurrent_overwrite_last_writer_wins.
Proof.
  intros xs c Hp HP. assert (rep _ (after small_opts [])) as Hrep by (apply after_rep; vm_compute; reflexivity).
  set (m := (spec_session [] ∅).2) in Hrep. pose proof (play_limited _ _ _ _ Hp HP) as Hrun. split_and!.
  - refine (run_succeeds _ _ _ _ _ Hrep _ Hrun). intros _ r [->|[->|(t & i & _ & _ & [-> | ->])]]; try done.
    cbn. by rewrite overwrite_small.
  - intros i _. eapply (run_reads _ _ _ _ _ _ _ Hrep);
      [done|by apply overwrite_writes|left; vm_compute; reflexivity|exact Hrun].
  - intros Hq Hall Hroom. destruct (flushes_ok _ _ (run_rep _ _ _ _ Hrep (play_steps _ _ _ Hp) Hq) Hroom) as (s' & Hf & Hr').
    refine (passes_step _ _ _ _ _ Hf _). eapply checks_pass; [exact Hr'|]. apply checks_each. intros i Hi.
    apply (checks_get _ _ (fun r => v ← TestKit.some r; assert (complete v))). intros s.
    destruct (end_put _ _ _ _ _ _ (as_bytes (contended_key i)) (as_bytes (fmt "" 0 0))
      (fun o => exists v, o = Some v /\ complete v = true) Hrep Hp HP Hq) as (v & -> & Hv).
    + apply overwrite_writes. by eexists.
    + apply overwrite_small.
    + intros r ->%list_elem_of_singleton. apply Hall, list_elem_of_bind. exists 0%nat.
      split; [apply list_elem_of_fmap; by exists i|apply list_elem_of_here].
    + by apply assert_ok.
Qed.

(** ** [delete_under_load_no_resurrect] *)

Definition a_key (i : nat) : string := fmt "a" 0 i.
Definition FRESH : string := "fresh".
Definition a_delete (i : nat) : request := ReqDelete (as_bytes (a_key i)).
Definition a_put (i : nat) : request := seed (a_key i) FRESH.

(** The seeds and phase A. *)
Definition phase_a : list request :=
  ((fun i => seed (a_key i) (fmt "seed" 0 i)) <$> List.seq 0 7) ++ [ReqFlush] ++ (a_delete <$> List.seq 0 5) ++ [ReqFlush].

(** The writes of phase B. *)
Definition phase_b : list request := [a_delete 3; a_delete 4; a_put 2; a_put 5; a_put 6].

Definition deleting_putting (_ : nat) (r : request) : Prop :=
  r ∈ phase_b \/ exists i, (i < 7)%nat /\ r = gets (a_key i).

Definition final_check (i : nat) : M Sys unit :=
  match i with
  | 0 | 1 | 3 | 4 => gets_none (a_key i)
  | _ => gets_value (a_key i) FRESH
  end%nat.

Definition delete_under_load_no_resurrect : Prop :=
  forall xs c, play xs (launch 3 (after no_auto_flush_opts phase_a)) = Some c -> Forall (calls deleting_putting) xs ->
    succeeds c /\
    (forall i, (i < 5)%nat -> reads_only (a_key i) (fun got => got = None \/ got = Some (as_bytes FRESH)) c) /\
    (quiescent c -> all_called phase_b xs -> session_room [ReqFlush; ReqReopen] (Threads.sys c) ->
     TestKit.passes (Threads.sys c)
       (_ ← flushes; _ ← drops; _ ← open_dir_opts no_auto_flush_opts; for_each (List.seq 0 7) final_check) = true).

(** What phase B writes to a key. *)
Definition written (k : bytes) : list (option bytes) :=
  omap (fun r => match r with
                 | ReqPut k' v => if decide (k' = k) then Some (Some v) else None
                 | ReqDelete k' => if decide (k' = k) then Some None else None
                 | _ => None
                 end) phase_b.

Lemma phase_b_writes (k : bytes) (Q : option bytes -> Prop) : Forall Q (written k) -> writes_only deleting_putting k Q.
Proof.
  rewrite Forall_forall. intros HQ.
  split; [intros _ v [H|(i & _ & H)]|intros _ [H|(i & _ & H)]]; try discriminate H; apply HQ, list_elem_of_omap.
  - exists (ReqPut k v). split; [exact H|]. by rewrite decide_True.
  - exists (ReqDelete k). split; [exact H|]. by rewrite decide_True.
Qed.

(** The values of the keys when all calls have returned. *)
Definition expected (i : nat) : option bytes :=
  match i with 0 | 1 | 3 | 4 => None | _ => Some (as_bytes FRESH) end%nat.

Definition seeded : kvmap := (spec_session phase_a ∅).2.

Lemma phase_b_expected i : (i < 7)%nat -> Forall (eq (expected i)) (written (as_bytes (a_key i))).
Proof. intros Hi. do 7 (destruct i as [|i]; [vm_compute; by repeat constructor|]). lia. Qed.

Lemma phase_b_end xs c i :
  rep seeded (after no_auto_flush_opts phase_a) -> play xs (launch 3 (after no_auto_flush_opts phase_a)) = Some c ->
  Forall (calls deleting_putting) xs -> quiescent c -> all_called phase_b xs -> (i < 7)%nat ->
  replay seeded (Threads.history c) !! as_bytes (a_key i) = expected i.
Proof.
  intros Hrep Hp HP Hq Hall Hi. symmetry. pose proof (phase_b_writes _ _ (phase_b_expected i Hi)) as Hw.
  assert (expected i = seeded !! as_bytes (a_key i) \/ a_put i ∈ phase_b) as [Hk|Hin].
  { do 7 (destruct i as [|i]; [first [left; vm_compute; reflexivity|right; apply list_elem_of_In; cbn; tauto]|]). lia. }
  - exact (run_value _ _ _ _ _ _ _ Hk Hw (play_limited _ _ _ _ Hp HP)).
  - apply (end_put _ _ _ _ _ _ _ (as_bytes FRESH) _ Hrep Hp HP Hq Hw).
    + unfold a_key. apply small_put; cbn; lia.
    + intros r ->%list_elem_of_singleton. by apply Hall.
Qed.

Theorem delete_under_load_no_resurrect_passes : delete_under_load_no_resurrect.
Proof.
  intros xs c Hp HP. assert (rep seeded (after no_auto_flush_opts phase_a)) as Hrep by (apply after_rep; vm_compute; reflexivity).
  pose proof (play_limited _ _ _ _ Hp HP) as Hrun. split_and!.
  - refine (run_succeeds _ _ _ _ _ Hrep _ Hrun). intros _ r [Hr|(i & _ & ->)]; [|done].
    assert (forallb small_request phase_b = true) as Hs by (vm_compute; reflexivity).
    rewrite forallb_forall in Hs. by apply Hs, list_elem_of_In.
  - intros i Hi. eapply (run_reads _ _ _ _ _ _ _ Hrep); [..|exact Hrun].
    + do 5 (destruct i as [|i]; [left; vm_compute; reflexivity|]). lia.
    + apply phase_b_writes. do 5 (destruct i as [|i]; [vm_compute; repeat constructor; by (left + right)|]). lia.
    + left. vm_compute. reflexivity.
  - intros Hq Hall (Hroom & Hre & _).
    destruct (flushes_ok _ _ (run_rep _ _ _ _ Hrep (play_steps _ _ _ Hp) Hq) Hroom) as (s' & Hf & Hr').
    refine (passes_step _ _ _ _ _ Hf _). refine (reopens_pass no_auto_flush_opts _ s' _ Hr' _ _).
    + by rewrite <- (flushed_served _ _ Hf).
    + apply checks_each. intros i Hi%list_elem_of_In%in_seq.
      pose proof (phase_b_end xs c i Hrep Hp HP Hq Hall ltac:(lia)) as He.
      do 7 (destruct i as [|i]; [by first [apply checks_none|apply checks_value]|]). lia.
Qed.

(** ** [flush_and_compact_run_during_load] *)

Definition N_KEYS : nat := Z.to_nat 20000.
Definition load_put (i : nat) : request := seed (fmt "d" 5 i) "small-value".

Definition loading (_ : nat) (r : request) : Prop :=
  r = ReqFlush \/ r = ReqCompact \/ exists i, (i < N_KEYS)%nat /\ r = load_put i.

Definition flush_and_compact_run_during_load : Prop :=
  forall xs c, play xs (launch 2 (after small_opts [])) = Some c -> Forall (calls loading) xs ->
    succeeds c /\
    (quiescent c -> all_called (load_put <$> List.seq 0 N_KEYS) xs -> room ReqFlush (Threads.sys c) ->
     TestKit.passes (Threads.sys c)
       (_ ← flushes; for_each (List.seq 0 N_KEYS) (fun i => gets_value (fmt "d" 5 i) "small-value")) = true).

Lemma loading_numbered : numbered_calls "d" 5 (fun _ => "small-value") N_KEYS loading.
Proof. intros i x [->|[->|(j & Hj & ->)]]; [by left|by left|right; by exists j]. Qed.

Theorem flush_and_compact_run_during_load_passes : flush_and_compact_run_during_load.
Proof.
  intros xs c Hp HP. assert (rep _ (after small_opts [])) as Hrep by (apply after_rep; vm_compute; reflexivity).
  destruct (numbered_puts "d" 5 (fun _ => "small-value") N_KEYS ltac:(cbn; lia) ltac:(cbn; lia) ltac:(unfold N_KEYS, u64_max; lia)
    loading _ _ _ _ _ loading_numbered Hrep Hp HP) as [H1 H2].
  split; [exact H1|]. intros Hq Hall Hroom.
  destruct (flushes_ok _ _ (run_rep _ _ _ _ Hrep (play_steps _ _ _ Hp) Hq) Hroom) as (s' & Hf & Hrep').
  refine (passes_step _ _ _ _ _ Hf _). eapply checks_pass; [exact Hrep'|]. apply checks_each. intros i Hi.
  by apply checks_value, (H2 Hq Hall).
Qed.

(** ** [crash_recovery_mid_load] *)

Definition LOAD : nat := Z.to_nat 10000.
Definition TAIL : nat := 20.

Definition bulk_put (i : nat) : request := seed (fmt "r" 5 i) (fmt "v" 0 i).
Definition tail_put (i : nat) : request := seed (fmt "t" 5 i) (fmt "tail" 0 i).

(** The test counts the tables after the tail; here they are counted before. *)
Definition crash_recovery_mid_load : Prop :=
  forall xs c, play xs (launch 1 (after small_opts [])) = Some c ->
    Forall (calls (fun _ r => exists i, (i < LOAD)%nat /\ r = bulk_put i)) xs ->
    succeeds c /\
    (quiescent c -> all_called (bulk_put <$> List.seq 0 LOAD) xs ->
     session_room (ReqFlush :: (tail_put <$> List.seq 0 TAIL) ++ [ReqReopen]) (Threads.sys c) ->
     TestKit.passes (Threads.sys c)
       (_ ← flushes; n ← count_sst; _ ← assert (0 <? n)%nat;
        _ ← for_each (List.seq 0 TAIL) (fun i => puts (fmt "t" 5 i) (fmt "tail" 0 i));
        _ ← drops; _ ← open_dir_opts small_opts;
        _ ← for_each (List.seq 0 LOAD) (fun i => gets_value (fmt "r" 5 i) (fmt "v" 0 i));
        for_each (List.seq 0 TAIL) (fun i => gets_value (fmt "t" 5 i) (fmt "tail" 0 i))) = true).

Lemma short_value p i : (length (as_bytes p) <= 100)%nat -> (length (as_bytes (fmt p 0 i)) <= 1000)%nat.
Proof. intros Hp. pose proof (length_fmt p 0 i). lia. Qed.

(** The puts of the tail, as calls of the history. *)
Definition tailing (_ : nat) (r : request) : Prop := exists i, (i < TAIL)%nat /\ r = tail_put i.
Definition tail_history : list (nat * request) := (fun r => (0%nat, r)) <$> (tail_put <$> List.seq 0 TAIL).

Lemma tail_history_tailing : Forall (fun x => tailing x.1 x.2) tail_history.
Proof.
  apply Forall_fmap, Forall_fmap, Forall_forall. intros i Hi%list_elem_of_In%in_seq. exists i. split; [lia|done].
Qed.

Lemma tail_numbered : numbered_calls "t" 5 (fmt "tail" 0) TAIL tailing.
Proof. intros i x Hx. by right. Qed.

Lemma tail_values m i : i ∈ List.seq 0 TAIL -> replay m tail_history !! as_bytes (fmt "t" 5 i) = Some (as_bytes (fmt "tail" 0 i)).
Proof.
  intros Hi. symmetry. pose proof Hi as Hi'%list_elem_of_In%in_seq.
  apply (replay_put tailing _ (as_bytes (fmt "tail" 0 i)) (eq (Some (as_bytes (fmt "tail" 0 i)))) m tail_history 0).
  - apply (numbered_writes "t" 5 (fmt "tail" 0) TAIL ltac:(cbn; lia) ltac:(unfold TAIL, u64_max; lia) tailing i tail_numbered). lia.
  - exact tail_history_tailing.
  - apply small_put; [cbn; lia|by apply short_value; cbn; lia].
  - apply list_elem_of_fmap. exists (tail_put i). split; [done|]. apply list_elem_of_fmap. by exists i.
Qed.

Lemma tail_spares m i : replay m tail_history !! as_bytes (fmt "r" 5 i) = m !! as_bytes (fmt "r" 5 i).
Proof.
  symmetry. apply (replay_only tailing _ (eq (m !! as_bytes (fmt "r" 5 i))) m); [|exact tail_history_tailing|done].
  split; [intros _ v (j & _ & Hj)|intros _ (j & _ & [=])]. apply put_inj in Hj as [Hk _].
  unfold fmt in Hk. rewrite !as_bytes_app in Hk.
  apply (f_equal head) in Hk. change (Some x72 = Some x74) in Hk. discriminate Hk.
Qed.

Theorem crash_recovery_mid_load_passes : crash_recovery_mid_load.
Proof.
  intros xs c Hp HP. assert (rep _ (after small_opts [])) as Hrep by (apply after_rep; vm_compute; reflexivity).
  set (m := (spec_session [] ∅).2) in Hrep.
  destruct (fun H => numbered_puts "r" 5 (fmt "v" 0) LOAD ltac:(cbn; lia) (fun i => short_value "v" i ltac:(cbn; lia))
    ltac:(unfold LOAD, u64_max; lia) _ _ _ _ _ _ H Hrep Hp HP) as [H1 H2]; [intros i x Hx; by right|].
  split; [exact H1|]. intros Hq Hall [Hroom Hrest].
  destruct (flush_counts _ _ _ _ (run_rep _ _ _ _ Hrep (play_steps _ _ _ Hp) Hq) Hroom (H2 Hq Hall 0%nat ltac:(apply list_elem_of_here)))
    as (s1 & n & Hf & Hr1 & Hn & Hpos).
  cbn [kv_serve engine_store] in Hrest. rewrite (flushed_served _ _ Hf) in Hrest. apply session_room_app in Hrest as [Htail Hre].
  destruct (puts_ok (List.seq 0 TAIL) (fmt "t" 5) (fmt "tail" 0) (replay m (Threads.history c)) s1) as (s2 & Hrun & Hr2 & E); [|exact Hr1|exact Htail|].
  { intros i. apply small_put; [cbn; lia|by apply short_value; cbn; lia]. }
  refine (passes_step _ _ _ _ _ Hf _). refine (passes_step _ _ _ _ _ Hn _).
  refine (passes_step _ _ _ _ _ (assert_ok _ s1 (proj2 (Nat.ltb_lt _ _) Hpos)) _). refine (passes_step _ _ _ _ _ Hrun _).
  refine (reopens_pass small_opts _ s2 _ Hr2 _ _); [rewrite E; exact (proj1 Hre)|].
  apply checks_seq; apply checks_each; intros i Hi; apply checks_value.
  - etransitivity; [apply tail_spares|by apply (H2 Hq Hall)].
  - by apply tail_values.
Qed.

(** ** [sync_per_write_durability] *)

(** [n] is the number of keys, 500 in the test. *)
Definition sync_per_write_durability (n : nat) : M Sys unit :=
  _ ← open_dir_opts (mkLsmOptions usize_max true 0);
  _ ← for_each (List.seq 0 n) (fun i => puts (fmt "s" 5 i) (fmt "sync" 0 i));
  _ ← drops;
  k ← count_sst; _ ← assert_eq k 0%nat;
  _ ← open_dir_opts no_auto_flush_opts;
  for_each (List.seq 0 n) (fun i => gets_value (fmt "s" 5 i) (fmt "sync" 0 i)).

Example sync_per_write_durability_passes : Tests.passes (sync_per_write_durability 60) = true.
Proof. vm_compute. reflexivity. Qed.
End IntegrationTests.
